(* ===== verification/_CoqProject ===== *)
-Q . S2P
Prelude.v
Circ.v
Lock.v
Ringbuf.v
Store.v
Hashtable.v
Xbuf.v
XbufRpc.v
XbufLive.v
Queue.v
FileIo.v
Fs.v
Pci.v
Pgtables.v
Trampoline.v
Boot.v
BootParams.v
Cons.v
Resources.v
Ctrl.v
Lcall.v
Messages.v
Enclave.v
Device.v
Text.v
System.v
Proc.v
LinkedList.v
Hlist.v
Teardown.v
Main.v
Irq.v
Petlib.v
Tools.v
Lifecycle.v
Commands.v
Options.v
Ezxml.v
EzxmlLinks.v
EzxmlText.v
EzxmlParse.v
EzxmlTree.v
EzxmlSafe.v
Image.v
Create.v
Keys.v
Nosc.v
VmTools.v
Xpmem.v
Gemini.v
