(* ===== verification/Prelude.v ===== *)
(** * Pisces: a verification development

    Pisces is a co-kernel architecture: a Linux kernel module ([src/]) takes
    processors, memory and PCI devices away from Linux and boots independent
    operating systems, the _enclaves_, on them; tools ([linux_usr/]) drive the
    module.  This library models the module and the tools as executable
    definitions and proves what they promise, and, where they do not keep it,
    what happens instead.

    ** The program, and the files of this library

    A tool asks [/dev/pisces] for an enclave, which gets an index, a structure and
    devices of its own, and gives it memory and a processor to be launched with;
    the module lays out the boot memory, loads kernel and ramdisk, builds page
    tables, borrows Linux's boot trampoline and starts the processor.  Host and
    enclave then talk through memory they share: an early ring buffer, a console
    ring, and two message buffers, one for the host's commands and one for the
    enclave's calls, which a kernel thread serves with the file system and the PCI
    component.

    - Data structures.  [Lock] ([pisces_lock.c]): the lock shared between systems,
      as a step per memory access.  [Circ]: index arithmetic of rings.  [Ringbuf]
      ([pisces_ringbuf.c]), [Queue] ([util-queue.c]), [Hashtable]
      ([util-hashtable.c]), with [Store], the interface its client [Fs] uses.
      [LinkedList] and [Hlist] ([list.h]): the lists of the tools, as stores to nodes.
    - Communication.  [Xbuf], [XbufRpc] and [XbufLive] ([pisces_xbuf.c]): flags and chunked
      transfers; the senders, the interrupt handler and the reply as machines
      that interleave at every access; the rank that shows that they finish.  [Cons] ([enclave_cons.c], [v3_console.c]).
      [Irq] ([pisces_irq.c]).  [Xpmem] ([pisces_xpmem.c]).
    - Resources.  [Resources] (processors, memory blocks and the index table of
      [enclave.c]); [Pci] ([enclave_pci.c]); [FileIo] ([file_io.c]) and [Fs]
      ([enclave_fs.c]).
    - Booting.  [Pgtables] ([pgtables.h], [pgtables.c]); [Trampoline] (the four
      [trampoline_*/trampoline.c], behind one interface); [Boot] ([boot.c]);
      [BootParams] ([pisces_boot_params.c]).
    - Control.  [Ctrl] ([enclave_ctrl.c], [ctrl_ioctl.h]): the commands and the
      control calls.  [Lcall] ([pisces_lcall.c]): the enclave's calls; [Messages]
      ([pisces_lcall.h], [enclave_fs.h], [enclave_pci.c]): their bytes.  [Enclave]
      and [Device] ([enclave.c], [main.c]): creation, references, release, and the
      launch and reset calls composed of all of the above.  [Main] ([main.c],
      [linux_syms.c]): loading and unloading the module.  [System]: the module in use,
      every call on every file that processes have open on it.
    - Tools.  [Text]: the C library's text functions that are used.  [Proc] (the
      proc files of [enclave.c]) and [Teardown] ([teardown.c]), which reads them.
      [Petlib]: the interface to the library that takes resources from the host,
      with its laws and bounds and a host that has them.  [Tools] ([pisces.c],
      [pisces_ctrl.c]); [Lifecycle]: the tools, the calls and records of the module and the
      teardown tool joined, each answering the others; [Commands] ([pisces_run.c], [pisces_add.c],
      [pisces_launch.c], [v3_pci.c]) and [Options] (their command lines, with
      [getopt_long]); [Keys] and [Nosc] ([v3_cons_sc.c], [v3_cons_nosc.c]); [VmTools] (the
      small programs); [Gemini] ([bak/linux_usr.bak/gemini_mem_rm.c]).
    - Guests.  The XML library ([ezxml.c]): [Ezxml] (tags and their links),
      [EzxmlText] (references, entities, encodings), [EzxmlParse] (the parser and the printer),
      [EzxmlLinks], [EzxmlTree] and [EzxmlSafe] (their theorems).  [Image] and [Create]
      ([v3_create.c]): the image of a guest, and its making from a configuration.

    ** Conventions

    Integers are [Z] with their wrap-around written out ([u32], [s64], ...), memory
    is lists of bytes or functions of addresses, pointers are their addresses (0 is
    NULL).  A read or write outside of an object, or another behaviour C leaves
    undefined, is [None], [OutOfBounds], [Crash] or [Undefined]; error returns are
    the values the code returns.  What other code answers (the kernel, libpetlib,
    curses, allocations) is an argument.  A function of one source function has its
    name; several definitions for one function are its loops and branches.
    Concurrent code is a step relation or a machine with a program counter, one
    step per access of shared memory; code under a lock is one step where the lock
    is the subject of [Lock].

    ** What is shown

    - Structures keep their invariant and do what their specification says:
      mutual exclusion and progress of the lock; the ring buffer and the queue are
      bounded FIFOs; the hash table is a map, through every expansion.
    - The message buffer: under every schedule, with any number of senders, each
      call is answered once with the reply to its own message, and no two
      transfers use the buffer at the same time; under every fair one, all calls return.
      The enclave's calls are served from their bytes as they are meant.
    - Booting: the tables map the boot memory at its own address and at the kernel's;
      the trampoline and its lock are given back on every path;
      kernel and ramdisk are where the parameters say; the launch and the reset
      call end in a running enclave with the resources the host has recorded.
    - Life cycle: references, the table of enclaves, open files, devices, the
      console and interrupt lines are tracked exactly; the module gives back what
      it took, but for the leaks stated.  Whatever calls processes make on the module, the
      references are those of the open files and no call uses a structure that is freed.
    - An enclave on its host ([Lifecycle]): from before the launch, through whatever
      processors and memory the administrator adds and removes, to the teardown, what
      went off line is recorded by the module and what is given back is what was taken.
    - Round trips between programs: the proc files and the tool that parses them,
      the job request and its packed layout, the guest image and its table, typed
      text and the scan codes, the commands and their framing, a printed XML tree and
      the parser.
    - The XML library keeps its lists of tags when it inserts one, and the parser ends, without
      leaving its buffer, on every text without document types and processing
      instructions.  The lists of the tools are the sequences they stand for.
    - Termination of the loops that read files, of [pisces_lcall_deinit] once the thread
      is awake (and not before), of the walks of page tables.

    Theorems whose comment says that the code fails to do something are about the
    code as it is; they state the inputs on which it fails.

    ** Bounds and fuel

    Loops over file contents take fuel, one unit per byte and one more: every
    [read] that goes on makes progress ([BootParams], [Image]).  Loops over lists
    recurse on the list; the page walk is bounded by the number of entries
    ([Pgtables]); the release loops of [Queue] and [Pci] take one more unit than
    there are entries; the loops of [LinkedList] one more than there are nodes; references and
    entities of [EzxmlText] and the parser of [EzxmlParse] take twice the length of the
    text.  Hashing and text loops recurse on lengths.  No theorem assumes that fuel suffices without a bound that is met.  Sizes are bounded by
    what the types hold: 2^31 for [int] lengths, 2^63 for boot memory.

    ** Not modelled

    The XPMEM driver behind [Xpmem], and its calls in [Lcall] and [Device], which
    are compiled only with it; the assembly of the trampolines and of [launch_code.S];
    printing, except where another program reads it; the buffers that [ezxml.c] frees; the branches of
    [Irq] and [FileIo] for kernels before 3.1; of [bak/], all but one tool.  The descriptors of virtual machine consoles,
    which hold no reference, are not among the files of [System].
    Of memory, only what the modelled code reads and writes:
    caches and the processors' memory order are those of x86 with locked
    instructions, one access at a time.

    ** What could follow

    The calls of [Messages], whose handlers have a state, over the channel of [XbufRpc], whose
    server is a function of the message; the buffers that the XML library frees; what
    happens to the account of [Lifecycle] when the control channel cannot be opened, which
    loses memory (see the hypothesis on the connections). *)
From Stdlib Require Export ZArith Lia Bool.
From Stdlib Require Import Strings.Byte.
From stdpp Require Export base numbers list option relations functions.
#[export] Set Default Goal Selector "!".

(** ** Machine integers *)

Declare Scope pisces_scope.
Delimit Scope pisces_scope with pisces.
#[global] Open Scope Z_scope.

(** The value of an unsigned C integer of [w] bits. *)
Definition wrap (w x : Z) : Z := x mod 2 ^ w.
(** The value of a two's complement C integer of [w] bits. *)
Definition swrap (w x : Z) : Z := (x + 2 ^ (w - 1)) mod 2 ^ w - 2 ^ (w - 1).

Abbreviation u8 := (wrap 8).
Abbreviation u16 := (wrap 16).
Abbreviation u32 := (wrap 32).
Abbreviation u64 := (wrap 64).
Abbreviation s32 := (swrap 32).
Abbreviation s64 := (swrap 64).

(** Memory bytes, and lengths as integers. *)
Abbreviation byte := Corelib.Init.Byte.byte.
Abbreviation zlen l := (Z.of_nat (length l)).

Definition fits (w x : Z) : Prop := 0 ≤ x < 2 ^ w.

(** Linux's error numbers used by the source. *)
Definition EPERM : Z := 1.
Definition ENOMEM : Z := 12.
Definition EFAULT : Z := 14.
Definition EBUSY : Z := 16.
Definition ENODEV : Z := 19.
Definition EINVAL : Z := 22.

(** ** Memory as lists

    [blit l off d] is the C [memcpy(l + off, d, length d)] and [slice l off n]
    the bytes a [memcpy] of [n] bytes from [l + off] reads.  [None] is an
    access outside of the object, which C leaves undefined. *)
Definition slice {A} (l : list A) (off n : Z) : option (list A) :=
  if bool_decide (0 ≤ off ∧ 0 ≤ n ∧ off + n ≤ zlen l)
  then Some (take (Z.to_nat n) (drop (Z.to_nat off) l)) else None.

Definition blit {A} (l : list A) (off : Z) (d : list A) : option (list A) :=
  if bool_decide (0 ≤ off ∧ off + zlen d ≤ zlen l)
  then Some (take (Z.to_nat off) l ++ d ++ drop (Z.to_nat off + length d) l)
  else None.

(** Integers in memory, little-endian: the [n] bytes of [z], and back. *)
Definition byte_of_Z (z : Z) : byte := default Byte.x00 (Strings.Byte.of_N (Z.to_N (z mod 256))).
Definition Z_of_byte (b : byte) : Z := Z.of_N (Strings.Byte.to_N b).
Fixpoint le (n : nat) (z : Z) : list byte :=
  match n with O => [] | S n => byte_of_Z z :: le n (z / 256) end.
Fixpoint unle (l : list byte) : Z :=
  match l with [] => 0 | b :: l => Z_of_byte b + 256 * unle l end.

(** ** Tactics *)

(** Rewrite every [wrap]/[mod] whose argument is provably in range. *)
Ltac unwrap :=
  unfold wrap, fits in *;
  repeat match goal with
  | |- context [?x mod ?m] => rewrite (Z.mod_small x m) by lia
  | H : context [?x mod ?m] |- _ => rewrite (Z.mod_small x m) in H by lia
  end.

(** The same for a [wrap] that is kept folded; [tac] proves the bounds. *)
Ltac unwrap_by tac :=
  repeat match goal with
  | |- context [wrap ?w ?x] =>
      rewrite (Z.mod_small x (2 ^ w) : _ → wrap w x = x) by tac
  end.

(** Case analysis on the boolean or decidable test of a goal. *)
Ltac case_test :=
  match goal with
  | |- context [if bool_decide ?P then _ else _] => destruct (bool_decide_reflect P)
  | |- context [if Z.ltb ?a ?b then _ else _] => destruct (Z.ltb_spec a b)
  | |- context [if Z.leb ?a ?b then _ else _] => destruct (Z.leb_spec a b)
  | |- context [if Z.eqb ?a ?b then _ else _] => destruct (Z.eqb_spec a b)
  | |- context [if Z.gtb ?a ?b then _ else _] => destruct (Z.gtb_spec a b)
  | |- context [if Z.geb ?a ?b then _ else _] => destruct (Z.geb_spec a b)
  | |- context [if ?b then _ else _] => destruct b eqn:?
  end.

(** ** Generic lemmas *)

Create HintDb pisces.

Lemma wrap_small w x : fits w x → wrap w x = x.
Proof. apply Z.mod_small. Qed.

Lemma wrap_fits w x : 0 ≤ w → fits w (wrap w x).
Proof. intros. apply Z.mod_pos_bound. by apply Z.pow_pos_nonneg. Qed.

Lemma wrap_wrap w x : 0 ≤ w → wrap w (wrap w x) = wrap w x.
Proof. intros. by apply wrap_small, wrap_fits. Qed.

Lemma swrap_small w x : 0 < w → - 2 ^ (w - 1) ≤ x < 2 ^ (w - 1) → swrap w x = x.
Proof.
  intros Hw ?. unfold swrap.
  assert (2 ^ w = 2 * 2 ^ (w - 1)).
  { replace w with (Z.succ (w - 1)) at 1 by lia. apply Z.pow_succ_r. lia. }
  rewrite Z.mod_small; lia.
Qed.

(** A number whose bits stop below [w] fits in [w] bits, and conversely. *)
Lemma bits_fits w z :
  0 ≤ w → (∀ i, w ≤ i → Z.testbit z i = false) → fits w z.
Proof.
  intros Hw Hz. replace z with (z mod 2 ^ w); [by apply wrap_fits|].
  apply Z.bits_inj'. intros i Hi. destruct (decide (i < w)).
  - by rewrite Z.mod_pow2_bits_low by lia.
  - rewrite Z.mod_pow2_bits_high by lia. symmetry. apply Hz. lia.
Qed.

Lemma fits_bits w z i : 0 ≤ w ≤ i → fits w z → Z.testbit z i = false.
Proof. intros [] ?. rewrite <-(wrap_small w z) by done. by apply Z.mod_pow2_bits_high. Qed.

#[export] Hint Resolve wrap_fits : pisces.
#[export] Hint Rewrite wrap_wrap using lia : pisces.

Section lists.
Context {A : Type}.
Implicit Types l d : list A.

Lemma slice_Some l off n :
  0 ≤ off → 0 ≤ n → off + n ≤ zlen l →
  slice l off n = Some (take (Z.to_nat n) (drop (Z.to_nat off) l)).
Proof. intros. unfold slice. rewrite bool_decide_true; [done|lia]. Qed.

Lemma slice_length l off n r : slice l off n = Some r → zlen r = n.
Proof.
  unfold slice. case_test; [|done]. intros [= <-].
  rewrite length_take, length_drop. lia.
Qed.

Lemma blit_Some l off d :
  0 ≤ off → off + zlen d ≤ zlen l →
  blit l off d = Some (take (Z.to_nat off) l ++ d ++ drop (Z.to_nat off + length d) l).
Proof. intros. unfold blit. rewrite bool_decide_true; [done|lia]. Qed.

Lemma blit_length l off d r : blit l off d = Some r → length r = length l.
Proof.
  unfold blit. case_test; [|done]. intros [= <-].
  rewrite !length_app, length_take, length_drop. lia.
Qed.

Lemma blit_inv l off d r :
  blit l off d = Some r →
  0 ≤ off ∧ off + zlen d ≤ zlen l ∧
  r = take (Z.to_nat off) l ++ d ++ drop (Z.to_nat off + length d) l.
Proof. unfold blit. case_test; [|done]. intros [= <-]. split_and!; [lia|lia|done]. Qed.

Lemma blit_None l off d : blit l off d = None → 0 ≤ off → zlen l < off + zlen d.
Proof.
  intros Hb ?. destruct (decide (zlen l < off + zlen d)); [done|]. by rewrite blit_Some in Hb by lia.
Qed.

(** What a [memcpy] leaves at an index: the source inside, the old value outside. *)
Lemma blit_lookup l off d r (i : nat) :
  blit l off d = Some r →
  r !! i = if bool_decide (off ≤ Z.of_nat i < off + zlen d)
           then d !! (i - Z.to_nat off)%nat else l !! i.
Proof.
  unfold blit. case_test; [|done]. intros [= <-].
  destruct (decide (i < Z.to_nat off)%nat) as [Hi|Hi].
  - rewrite lookup_app_l by (rewrite length_take; lia).
    rewrite bool_decide_false by lia. by rewrite lookup_take_lt.
  - rewrite lookup_app_r by (rewrite length_take; lia).
    rewrite length_take, Nat.min_l by lia.
    destruct (decide (i < Z.to_nat off + length d)%nat) as [Hj|Hj].
    + rewrite lookup_app_l by lia. by rewrite bool_decide_true by lia.
    + rewrite lookup_app_r by lia. rewrite bool_decide_false by lia.
      rewrite lookup_drop. f_equal. lia.
Qed.

Lemma slice_lookup l off n r (i : nat) :
  slice l off n = Some r → Z.of_nat i < n → r !! i = l !! (Z.to_nat off + i)%nat.
Proof.
  unfold slice. case_test; [|done]. intros [= <-] ?.
  rewrite lookup_take_lt by lia. by rewrite lookup_drop.
Qed.
End lists.

(** The [i]-th of the parts of a structure, at its offset. *)
Lemma part_at {A} (l : list (list A)) i x n off :
  l !! i = Some x → n = length x → off = length (concat (take i l)) → take n (drop off (concat l)) = x.
Proof.
  intros Hi -> ->. rewrite <-(take_drop_middle l i x Hi) at 2. rewrite concat_app. cbn [concat].
  by rewrite drop_app_length, take_app_length.
Qed.

(** A [memcpy] into the unused end of a zeroed buffer. *)
Lemma blit_append {A} (pre d : list A) z k off :
  off = zlen pre → (length d ≤ k)%nat →
  blit (pre ++ replicate k z) off d = Some ((pre ++ d) ++ replicate (k - length d) z).
Proof.
  intros -> Hk. rewrite blit_Some by (rewrite ?length_app, ?length_replicate; lia).
  f_equal. rewrite Nat2Z.id, take_app_length, <-app_assoc. do 2 f_equal.
  by rewrite drop_app_add, drop_replicate.
Qed.

(** *** Bytes *)

Lemma Z_of_byte_of_Z z : Z_of_byte (byte_of_Z z) = z mod 256.
Proof.
  unfold Z_of_byte, byte_of_Z. pose proof (Z.mod_pos_bound z 256 ltac:(lia)).
  destruct (Strings.Byte.of_N (Z.to_N (z mod 256))) as [b|] eqn:E; simpl.
  - apply Strings.Byte.to_of_N in E. rewrite E. lia.
  - apply Strings.Byte.of_N_None_iff in E. lia.
Qed.

Lemma le_length n z : length (le n z) = n.
Proof. revert z. induction n; intros z; simpl; auto. Qed.

Lemma unle_le n z : unle (le n z) = z mod 2 ^ (8 * Z.of_nat n).
Proof.
  revert z. induction n as [|n IH]; intros z; simpl; [by rewrite Z.mod_1_r|].
  rewrite IH, Z_of_byte_of_Z. replace (8 * Z.of_nat (S n)) with (8 + 8 * Z.of_nat n) by lia.
  rewrite Z.pow_add_r by lia. change (2 ^ 8) with 256. rewrite Z.rem_mul_r by lia. lia.
Qed.

Lemma slice_app_l {A} (l1 l2 : list A) n : n = zlen l1 → slice (l1 ++ l2) 0 n = Some l1.
Proof.
  intros ->. rewrite slice_Some by (rewrite ?length_app; lia).
  rewrite drop_0, take_app_le, take_ge by lia. done.
Qed.

(** An invariant of a step relation holds in every reachable state. *)
Lemma rtc_invariant {S} (R : relation S) (I : S → Prop) :
  (∀ x y, I x → R x y → I y) → ∀ x y, rtc R x y → I x → I y.
Proof. intros HI x y H. induction H; eauto. Qed.

(** A relation whose steps decrease a natural measure has no infinite run. *)
Lemma measure_sn {S} (R : relation S) (m : S → nat) :
  (∀ x y, R x y → (m y < m x)%nat) → ∀ x, sn R x.
Proof.
  intros Hm x. remember (m x) as n eqn:Hn. revert x Hn.
  induction (lt_wf n) as [n _ IH]. intros x ->. constructor. intros y Hy.
  eapply IH; [by apply Hm|done].
Qed.

(** ** Filters *)

Lemma filter_none {A} (P : A → Prop) `{!∀ x, Decision (P x)} l : filter P l = [] ↔ Forall (λ x, ¬ P x) l.
Proof.
  induction l as [|x l IH]; [by split|]. rewrite filter_cons, list.Forall_cons. case_decide; [|tauto]. by split; [|intros [? _]].
Qed.

Lemma filter_every {A} (P : A → Prop) `{!∀ x, Decision (P x)} l : Forall P l → filter P l = l.
Proof. induction 1 as [|x l Hx _ IH]; [done|]. rewrite filter_cons, decide_True by done. by rewrite IH. Qed.
