(* ===== verification/Circ.v ===== *)
(** * Circular buffers

    The index arithmetic shared by the three ring buffers of the source (the
    early ring buffer, the enclave console and the VM console): what a
    reader at index [r] sees of a buffer, and what [memcpy]s that run to the
    end of the buffer and continue at its start do to it. *)
From S2P Require Import Prelude.
#[local] Coercion Z.of_nat : nat >-> Z.

(** The [n] elements of [l] from index [r] on, continuing at index 0. *)
Definition cyc {A} (l : list A) (r n : Z) : list A :=
  take (Z.to_nat n) (drop (Z.to_nat r) l ++ take (Z.to_nat r) l).

(** [w] is the index [n] places after [r], up to laps (both ends included, as
    the source lets an index rest at the end of the buffer). *)
Definition after {A} (l : list A) (r n w : Z) : Prop :=
  w = r + n ∨ w = r + n - zlen l ∨ w = r + n - 2 * zlen l ∨ w = r + n + zlen l.

Section cyc.
Context {A : Type}.
Implicit Types l d : list A.

Lemma cyc_length l r n :
  0 ≤ r ≤ zlen l → 0 ≤ n ≤ zlen l → zlen (cyc l r n) = n.
Proof.
  intros. unfold cyc.
  rewrite length_take, length_app, length_drop, length_take. lia.
Qed.

Lemma cyc_lookup l r n (i : nat) :
  0 ≤ r ≤ zlen l → 0 ≤ n ≤ zlen l → Z.of_nat i < n →
  cyc l r n !! i =
    if bool_decide (r + i < zlen l) then l !! (Z.to_nat r + i)%nat
    else l !! Z.to_nat (r + i - zlen l).
Proof.
  intros. unfold cyc. rewrite lookup_take_lt by lia. case_bool_decide.
  - rewrite lookup_app_l by (rewrite length_drop; lia). by rewrite lookup_drop.
  - rewrite lookup_app_r by (rewrite length_drop; lia).
    rewrite length_drop, lookup_take_lt by lia. f_equal. lia.
Qed.

Lemma cyc_lookup_None l r n (i : nat) :
  0 ≤ r ≤ zlen l → 0 ≤ n ≤ zlen l → n ≤ Z.of_nat i → cyc l r n !! i = None.
Proof.
  intros. apply lookup_ge_None_2. pose proof (cyc_length l r n). lia.
Qed.

Lemma cyc_0 l r : cyc l r 0 = [].
Proof. done. Qed.

(** Reading the first [k] elements, and what is left. *)
Lemma cyc_take l r n k :
  0 ≤ r ≤ zlen l → 0 ≤ k ≤ n → n ≤ zlen l → take (Z.to_nat k) (cyc l r n) = cyc l r k.
Proof. intros. unfold cyc. rewrite take_take. f_equal. lia. Qed.

Lemma cyc_drop l r n k r' :
  0 ≤ r ≤ zlen l → 0 ≤ r' ≤ zlen l → 0 ≤ k ≤ n → n ≤ zlen l → after l r k r' →
  drop (Z.to_nat k) (cyc l r n) = cyc l r' (n - k).
Proof.
  intros Hr Hr' Hk Hn Ha. apply list_eq. intros i. rewrite lookup_drop.
  destruct (decide (Z.of_nat i < n - k)) as [Hi|Hi].
  - rewrite !cyc_lookup by lia. unfold after in Ha.
    repeat case_bool_decide; try (f_equal; lia); exfalso; lia.
  - rewrite !cyc_lookup_None by lia. done.
Qed.

(** A straight read. *)
Lemma cyc_straight l r k :
  0 ≤ r → 0 ≤ k → r + k ≤ zlen l → slice l r k = Some (cyc l r k).
Proof.
  intros. rewrite slice_Some by lia. f_equal. unfold cyc.
  rewrite take_app_le by (rewrite length_drop; lia). done.
Qed.

(** A read that runs to the end and continues at the start. *)
Lemma cyc_wrapped l r k a b :
  0 ≤ r ≤ zlen l → zlen l - r ≤ k → k ≤ zlen l →
  slice l r (zlen l - r) = Some a → slice l 0 (k - (zlen l - r)) = Some b →
  a ++ b = cyc l r k.
Proof.
  intros ???. rewrite !slice_Some by lia. intros [= <-] [= <-].
  unfold cyc. rewrite (take_ge (drop _ _)) by (rewrite length_drop; lia).
  rewrite (take_app_ge (drop _ _)) by (rewrite length_drop; lia).
  rewrite length_drop, take_take, drop_0. do 2 f_equal. lia.
Qed.

(** Writing: the elements a later reader finds, when [l'] is [l] with [d]
    stored at the cyclic positions from [w] on. *)
Definition stored l w d l' : Prop :=
  length l' = length l ∧
  ∀ i : nat, (i < length l)%nat → l' !! i =
    if bool_decide (w ≤ i < w + zlen d) then d !! (i - Z.to_nat w)%nat
    else if bool_decide (i < w + zlen d - zlen l) then d !! Z.to_nat (i + zlen l - w)
    else l !! i.

Lemma stored_straight l w d l' :
  0 ≤ w → w + zlen d ≤ zlen l → blit l w d = Some l' → stored l w d l'.
Proof.
  intros ?? Hb. split; [by eapply blit_length|]. intros i Hi.
  rewrite (blit_lookup _ _ _ _ i Hb). case_bool_decide; [done|].
  rewrite bool_decide_false by lia. done.
Qed.

Lemma stored_wrapped l w d l1 l2 :
  0 ≤ w ≤ zlen l → zlen l - w ≤ zlen d ≤ zlen l →
  blit l w (take (Z.to_nat (zlen l - w)) d) = Some l1 →
  blit l1 0 (drop (Z.to_nat (zlen l - w)) d) = Some l2 → stored l w d l2.
Proof.
  intros ?? Hb1 Hb2.
  pose proof (blit_length _ _ _ _ Hb1). pose proof (blit_length _ _ _ _ Hb2).
  split; [congruence|]. intros i Hi.
  rewrite (blit_lookup _ _ _ _ i Hb2), length_drop.
  case_bool_decide.
  - rewrite bool_decide_false by lia. rewrite bool_decide_true by lia.
    rewrite lookup_drop. f_equal. lia.
  - rewrite (blit_lookup _ _ _ _ i Hb1), length_take.
    repeat case_bool_decide; try lia; [|done].
    rewrite lookup_take_lt by lia. done.
Qed.

Lemma cyc_stored l l' r n w d :
  0 ≤ r ≤ zlen l → 0 ≤ w ≤ zlen l → 0 ≤ n → n + zlen d ≤ zlen l →
  after l r n w → stored l w d l' →
  cyc l' r (n + zlen d) = cyc l r n ++ d.
Proof.
  intros Hr Hw Hn Hd Ha [Hl Hs]. unfold after in Ha.
  apply list_eq. intros i.
  destruct (decide (Z.of_nat i < n + zlen d)) as [Hi|Hi].
  2: { rewrite !lookup_ge_None_2; [done| |].
       - rewrite length_app. pose proof (cyc_length l r n). lia.
       - pose proof (cyc_length l' r (n + zlen d)). lia. }
  rewrite (cyc_lookup l') by lia.
  pose proof (cyc_length l r n ltac:(lia) ltac:(lia)).
  destruct (decide (Z.of_nat i < n)) as [Hin|Hin].
  - rewrite lookup_app_l, cyc_lookup by lia.
    repeat case_bool_decide; rewrite ?Hs by lia;
      repeat case_bool_decide; try lia; f_equal; lia.
  - rewrite lookup_app_r by lia.
    repeat case_bool_decide; rewrite ?Hs by lia;
      repeat case_bool_decide; try lia; f_equal; lia.
Qed.

(** The two [memcpy]s of a write that runs past the end, and the one of a write
    that does not, succeed and store [d]. *)
Lemma write_wrapped l w d :
  0 ≤ w ≤ zlen l → zlen l - w ≤ zlen d ≤ zlen l →
  ∃ d1 b1 d2 b2,
    slice d 0 (zlen l - w) = Some d1 ∧ blit l w d1 = Some b1 ∧
    slice d (zlen l - w) (zlen d - (zlen l - w)) = Some d2 ∧
    blit b1 0 d2 = Some b2 ∧ stored l w d b2.
Proof.
  intros Hw Hd. eexists _, _, _, _.
  assert (∀ X, take (Z.to_nat (zlen d - (zlen l - w))) (drop X d) = drop X d ↔
    (length d - X ≤ Z.to_nat (zlen d - (zlen l - w)))%nat) as Hall.
  { intros X. split; intros HX; [|apply take_ge; rewrite length_drop; lia].
    apply (f_equal length) in HX. rewrite length_take, length_drop in HX. lia. }
  assert (slice d (zlen l - w) (zlen d - (zlen l - w))
    = Some (drop (Z.to_nat (zlen l - w)) d)) as E2.
  { rewrite slice_Some by lia. f_equal. apply Hall. lia. }
  split_and!.
  - rewrite slice_Some by lia. by rewrite drop_0.
  - apply blit_Some; [lia|]. rewrite length_take. lia.
  - exact E2.
  - apply blit_Some; [lia|].
    rewrite !length_app, !length_take, !length_drop. lia.
  - eapply (stored_wrapped l w d); [done|done| |].
    + apply blit_Some; [lia|]. rewrite length_take. lia.
    + apply blit_Some; [lia|].
      rewrite !length_app, !length_take, !length_drop. lia.
Qed.

Lemma write_straight l w d :
  0 ≤ w → w + zlen d ≤ zlen l →
  ∃ b1, slice d 0 (zlen d) = Some d ∧ blit l w d = Some b1 ∧ stored l w d b1.
Proof.
  intros Hw Hd. eexists. split_and!.
  - rewrite slice_Some by lia. rewrite drop_0, take_ge by lia. done.
  - by apply blit_Some.
  - apply stored_straight; [done|done|]. by apply blit_Some.
Qed.

(** The destination buffer after a read of [k] bytes. *)
Definition delivered dst d dst' : Prop :=
  length dst' = length dst ∧ take (length d) dst' = d ∧
  drop (length d) dst' = drop (length d) dst.

Lemma delivered_blit dst d :
  zlen d ≤ zlen dst → ∃ dst', blit dst 0 d = Some dst' ∧ delivered dst d dst'.
Proof.
  intros. eexists. split; [by apply blit_Some|].
  change (Z.to_nat 0) with 0%nat. rewrite take_0. simpl. split_and!.
  - rewrite length_app, length_drop. lia.
  - rewrite take_app_le, take_ge; done.
  - by rewrite drop_app_length.
Qed.

Lemma delivered_blit_2 dst a b :
  zlen a + zlen b ≤ zlen dst →
  ∃ d1 d2, blit dst 0 a = Some d1 ∧ blit d1 (zlen a) b = Some d2 ∧
    delivered dst (a ++ b) d2.
Proof.
  intros Hl. destruct (delivered_blit dst a) as (d1 & E1 & L1 & T1 & D1); [lia|].
  eexists d1, _. split; [done|]. split; [apply blit_Some; lia|].
  rewrite !Nat2Z.id, T1. split_and!.
  - rewrite !length_app, length_drop. lia.
  - rewrite app_assoc, take_app_le, take_ge; done.
  - rewrite app_assoc, drop_app_length, length_app.
    rewrite <-!drop_drop, D1. done.
Qed.

Lemma read_straight l r k dst :
  0 ≤ r → 0 ≤ k ≤ zlen dst → r + k ≤ zlen l →
  ∃ s1 dst', slice l r k = Some s1 ∧ blit dst 0 s1 = Some dst' ∧
    delivered dst (cyc l r k) dst'.
Proof.
  intros. destruct (delivered_blit dst (cyc l r k)) as (dst' & ? & ?).
  { rewrite cyc_length; lia. }
  eexists _, _. split; [apply cyc_straight; lia|]. done.
Qed.

Lemma read_wrapped l r k dst :
  0 ≤ r ≤ zlen l → zlen l - r ≤ k → 0 ≤ k ≤ zlen dst → k ≤ zlen l →
  ∃ s1 d1 s2 d2, slice l r (zlen l - r) = Some s1 ∧ blit dst 0 s1 = Some d1 ∧
    slice l 0 (k - (zlen l - r)) = Some s2 ∧ blit d1 (zlen l - r) s2 = Some d2 ∧
    delivered dst (cyc l r k) d2.
Proof.
  intros Hr Hk Hd Hl.
  destruct (slice l r (zlen l - r)) as [s1|] eqn:E1;
    [|by rewrite slice_Some in E1 by lia].
  destruct (slice l 0 (k - (zlen l - r))) as [s2|] eqn:E2;
    [|by rewrite slice_Some in E2 by lia].
  pose proof (slice_length _ _ _ _ E1) as L1. pose proof (slice_length _ _ _ _ E2) as L2.
  destruct (delivered_blit_2 dst s1 s2) as (d1 & d2 & B1 & B2 & HD); [lia|].
  rewrite (cyc_wrapped l r k s1 s2) in HD by (done || lia).
  exists s1, d1, s2, d2. rewrite <-L1. done.
Qed.
End cyc.
