(* ===== verification/Lock.v ===== *)
(** * The cross-OS spinlock ([src/pisces_lock.c], [src/pisces_lock.h])

    The lock word is shared memory between Linux and an enclave OS, so it is
    modelled at its width: a 64-bit word of which [pisces_xchg8] exchanges only
    the low byte.  Any number of threads, on either side, run
    [pisces_spin_lock]; a step of the system is one memory access of one
    thread. *)
From S2P Require Import Prelude.

(** ** The code *)

Record pisces_spinlock := { raw_lock : Z }.

Definition pisces_lock_init (_ : pisces_spinlock) : pisces_spinlock :=
  {| raw_lock := 0 |}.

(** [xchgb]: the byte at [ptr] is exchanged with [x]; the word's other seven
    bytes keep their value.  Returns the old byte and the new word. *)
Definition pisces_xchg8 (ptr x : Z) : Z * Z :=
  (Z.land ptr 0xff, Z.lor (Z.ldiff ptr 0xff) (Z.land x 0xff)).

(** Where a thread is: outside, at the [xchg] of [pisces_spin_lock], in its
    inner [while (lock->raw_lock) pisces_cpu_relax()], or holding the lock. *)
Inductive pc := Outside | AtXchg | AtRelax | Holding.

#[export] Instance pc_eq_dec : EqDecision pc.
Proof. solve_decision. Defined.

(** One memory access of [pisces_spin_lock]. *)
Definition spin_lock_access (p : pc) (l : pisces_spinlock) : pc * pisces_spinlock :=
  match p with
  | AtXchg =>
      let (old, new) := pisces_xchg8 (raw_lock l) 1 in
      ((if Z.eqb old 0 then Holding else AtRelax), {| raw_lock := new |})
  | AtRelax => ((if Z.eqb (raw_lock l) 0 then AtXchg else AtRelax), l)
  | _ => (p, l)
  end.

Definition pisces_spin_unlock (_ : pisces_spinlock) : pisces_spinlock :=
  {| raw_lock := 0 |}.

(** ** The system of threads sharing one lock *)

Record sys := { lock : pisces_spinlock; threads : nat → pc }.

Definition at_pc (t : nat) (p : pc) (s : sys) : sys :=
  {| lock := lock s; threads := <[t := p]> (threads s) |}.

Inductive step_of (t : nat) : relation sys :=
| step_call s : threads s t = Outside → step_of t s (at_pc t AtXchg s)
| step_access s p' l' :
    threads s t = AtXchg ∨ threads s t = AtRelax →
    spin_lock_access (threads s t) (lock s) = (p', l') →
    step_of t s {| lock := l'; threads := <[t := p']> (threads s) |}
| step_unlock s :
    threads s t = Holding →
    step_of t s {| lock := pisces_spin_unlock (lock s);
                   threads := <[t := Outside]> (threads s) |}.

Definition step : relation sys := λ s s', ∃ t, step_of t s s'.

Definition initial (l : pisces_spinlock) : sys :=
  {| lock := pisces_lock_init l; threads := λ _, Outside |}.

(** ** Invariant *)

(** The lock word is the number of holders, and there is at most one. *)
Definition lock_inv (s : sys) : Prop :=
  (raw_lock (lock s) = 0 ∧ ∀ t, threads s t ≠ Holding) ∨
  (raw_lock (lock s) = 1 ∧ ∃ h, ∀ t, threads s t = Holding ↔ t = h).

Lemma initial_inv l : lock_inv (initial l).
Proof. left. by split. Qed.

(** A thread that moves between non-holding points leaves the holders alone. *)
Lemma holders_insert_other (f : nat → pc) t p u :
  f t ≠ Holding → p ≠ Holding → (<[t := p]> f) u = Holding ↔ f u = Holding.
Proof.
  intros ??. destruct (decide (t = u)) as [<-|].
  - by rewrite fn_lookup_insert.
  - by rewrite fn_lookup_insert_ne.
Qed.

Lemma lock_inv_same_holders s s' :
  lock_inv s → lock s' = lock s →
  (∀ u, threads s' u = Holding ↔ threads s u = Holding) → lock_inv s'.
Proof.
  intros Hinv Hl Hsame. unfold lock_inv. rewrite Hl.
  destruct Hinv as [[? Hn]|[? [h Hh]]]; [left|right]; split; try done.
  - intros u ?%Hsame. by eapply Hn.
  - exists h. intros u. by rewrite Hsame.
Qed.

Lemma access_xchg_free l :
  raw_lock l = 0 → spin_lock_access AtXchg l = (Holding, {| raw_lock := 1 |}).
Proof. destruct l; simpl. by intros ->. Qed.

Lemma access_xchg_taken l :
  raw_lock l = 1 → spin_lock_access AtXchg l = (AtRelax, l).
Proof. destruct l; simpl. by intros ->. Qed.

Lemma step_access_inv s t p' l' :
  lock_inv s → threads s t = AtXchg ∨ threads s t = AtRelax →
  spin_lock_access (threads s t) (lock s) = (p', l') →
  lock_inv {| lock := l'; threads := <[t := p']> (threads s) |}.
Proof.
  intros Hinv [Ht|Ht] Hacc; rewrite Ht in Hacc.
  - destruct Hinv as [[H0 Hn]|[H1 Hh]].
    + rewrite access_xchg_free in Hacc by done. injection Hacc as <- <-.
      right. split; [done|]. exists t. intros u.
      destruct (decide (t = u)) as [<-|]; simpl.
      * by rewrite fn_lookup_insert.
      * rewrite fn_lookup_insert_ne by done. specialize (Hn u). naive_solver.
    + rewrite access_xchg_taken in Hacc by done. injection Hacc as <- <-.
      apply (lock_inv_same_holders s); [by right|done|].
      intros u. simpl. apply holders_insert_other; congruence.
  - simpl in Hacc. injection Hacc as <- <-.
    apply (lock_inv_same_holders s); [done|done|].
    intros u. simpl. apply holders_insert_other; [congruence|]. by case_test.
Qed.

Lemma step_inv s s' : lock_inv s → step s s' → lock_inv s'.
Proof.
  intros Hinv [t Hstep].
  destruct Hstep as [s Ht|s p' l' Ht Hacc|s Ht].
  - apply (lock_inv_same_holders s); [done|done|].
    intros u. apply holders_insert_other; congruence.
  - by eapply step_access_inv.
  - destruct Hinv as [[_ Hn]|[_ [h Hh]]]; [by destruct (Hn t)|].
    left. split; [done|]. intros u. simpl.
    destruct (decide (t = u)) as [<-|].
    + by rewrite fn_lookup_insert.
    + rewrite fn_lookup_insert_ne by done. apply Hh in Ht as ->.
      intros ?%Hh. congruence.
Qed.

Lemma reachable_inv l s : rtc step (initial l) s → lock_inv s.
Proof.
  intros H. eapply rtc_invariant; [exact step_inv|exact H|apply initial_inv].
Qed.

(** ** Properties *)

(** C5: In every state the threads can reach from an initialised lock, however
    their memory accesses interleave, two threads that hold the lock are the
    same thread. *)
Theorem spin_lock_mutual_exclusion l s t u :
  rtc step (initial l) s →
  threads s t = Holding → threads s u = Holding → t = u.
Proof.
  intros [[_ Hn]|[_ [h Hh]]]%reachable_inv Ht Hu.
  - by destruct (Hn t).
  - apply Hh in Ht, Hu. congruence.
Qed.

Lemma spin_lock_mutual_exclusion_witness : ∃ s,
  rtc step (initial {| raw_lock := 77 |}) s ∧ threads s 3%nat = Holding ∧
  (∀ u, threads s u = Holding → 3%nat = u).
Proof.
  eexists. split; [|split; [|intros u; eapply spin_lock_mutual_exclusion]].
  - eapply rtc_l; [exists 3%nat; by apply step_call|].
    eapply rtc_l; [exists 3%nat; eapply step_access; [by left|reflexivity]|].
    apply rtc_refl.
  - reflexivity.
  - eapply rtc_l; [exists 3%nat; by apply step_call|].
    eapply rtc_l; [exists 3%nat; eapply step_access; [by left|reflexivity]|].
    apply rtc_refl.
  - reflexivity.
Defined.

(** C24: The lock is never lost: in a reachable state in which nobody holds it,
    a thread inside [pisces_spin_lock] acquires it by its own next accesses,
    wherever in the two nested loops it is. *)
Theorem spin_lock_progress l s t :
  rtc step (initial l) s → (∀ u, threads s u ≠ Holding) →
  threads s t = AtXchg ∨ threads s t = AtRelax →
  ∃ s', rtc (step_of t) s s' ∧ threads s' t = Holding.
Proof.
  intros [[H0 _]|[_ [h Hh]]]%reachable_inv Hn Ht; [|by destruct (Hn h); apply Hh].
  assert (∀ x, raw_lock (lock x) = 0 → threads x t = AtXchg →
    ∃ s', rtc (step_of t) x s' ∧ threads s' t = Holding) as Hx.
  { intros x Hx0 Hxt. eexists. split.
    - eapply rtc_once, step_access; [by left|].
      rewrite Hxt. by apply access_xchg_free.
    - simpl. by rewrite fn_lookup_insert. }
  destruct Ht as [Ht|Ht]; [by apply Hx|].
  destruct (Hx {| lock := lock s; threads := <[t := AtXchg]> (threads s) |})
    as (s' & Hs' & ?); [done|simpl; by rewrite fn_lookup_insert|].
  exists s'. split; [|done]. eapply rtc_l; [|exact Hs'].
  eapply step_access; [by right|]. rewrite Ht. simpl. by rewrite H0.
Qed.

Lemma spin_lock_progress_witness :
  ∃ s', rtc (step_of 1%nat)
          {| lock := {| raw_lock := 0 |}; threads := <[1%nat := AtXchg]> (λ _, Outside) |} s'
        ∧ threads s' 1%nat = Holding.
Proof.
  apply (spin_lock_progress {| raw_lock := 0 |}).
  - eapply rtc_l; [exists 1%nat; by apply step_call|]. apply rtc_refl.
  - intros [|[|u]]; discriminate.
  - left. reflexivity.
Defined.
