(* ===== verification/Ringbuf.v ===== *)
(** * The early ring buffer ([src/pisces_ringbuf.c], [src/pisces_ringbuf.h])

    A byte FIFO of fixed capacity, shared between Linux and an enclave before
    any other channel exists.  The operations are modelled with the source's
    integer types (64-bit indices, an [int] for the lengths of sections, an
    [unsigned int] for the argument of the loop tests); a [memcpy] outside of
    the buffer is [None]. *)
From S2P Require Import Prelude Circ Lock.

(** ** The code *)

Definition EARLY_RINGBUF_SIZE : Z := 1024 * 8.

Record pisces_early_ringbuf := {
  read_idx : Z;
  write_idx : Z;
  size : Z;
  cur_len : Z;
  lock : pisces_spinlock;
  buf : list byte
}.

(** The offsets of [get_read_ptr] and [get_write_ptr] in [buf]. *)
Definition get_read_ptr (ring : pisces_early_ringbuf) : Z := read_idx ring.
Definition get_write_ptr (ring : pisces_early_ringbuf) : Z := write_idx ring.

Definition is_read_loop (ring : pisces_early_ringbuf) (len : Z) : bool :=
  if (read_idx ring >=? write_idx ring) && (cur_len ring >? 0)
  then u64 (size ring - read_idx ring) <? len
  else false.

Definition is_write_loop (ring : pisces_early_ringbuf) (len : Z) : bool :=
  if (write_idx ring >=? read_idx ring) && (cur_len ring <? size ring)
  then u64 (size ring - write_idx ring) <? len
  else false.

Definition pisces_early_ringbuf_init (ring : pisces_early_ringbuf)
  : Z * pisces_early_ringbuf :=
  (0, {| read_idx := 0; write_idx := 0; size := EARLY_RINGBUF_SIZE; cur_len := 0;
         lock := pisces_lock_init {| raw_lock := 0 |};
         buf := replicate (Z.to_nat EARLY_RINGBUF_SIZE) Byte.x00 |}).

(** The ring as [pisces_spin_unlock] leaves it. *)
Definition unlocked (ring : pisces_early_ringbuf) : pisces_early_ringbuf :=
  {| read_idx := read_idx ring; write_idx := write_idx ring; size := size ring;
     cur_len := cur_len ring; lock := pisces_spin_unlock (lock ring); buf := buf ring |}.

(** Between the lock and the unlock; [data] is the caller's buffer. *)
Definition pisces_early_ringbuf_write (ring : pisces_early_ringbuf)
    (data : list byte) (write_len : Z) : option (Z * pisces_early_ringbuf) :=
  let avail_space := s32 (u64 (size ring - cur_len ring)) in
  if write_len >? u64 avail_space then Some (-1, unlocked ring) else
  if is_write_loop ring (u32 write_len) then
    let section_len := s32 (u64 (size ring - write_idx ring)) in
    d1 ← slice data 0 (u64 section_len);
    b1 ← blit (buf ring) (get_write_ptr ring) d1;
    d2 ← slice data section_len (u64 (write_len - section_len));
    b2 ← blit b1 0 d2;
    Some (0, unlocked {|
      read_idx := read_idx ring; write_idx := u64 (0 + (write_len - section_len));
      size := size ring; cur_len := u64 (cur_len ring + write_len);
      lock := lock ring; buf := b2 |})
  else
    d1 ← slice data 0 write_len;
    b1 ← blit (buf ring) (get_write_ptr ring) d1;
    Some (0, unlocked {|
      read_idx := read_idx ring; write_idx := u64 (write_idx ring + write_len);
      size := size ring; cur_len := u64 (cur_len ring + write_len);
      lock := lock ring; buf := b1 |}).

(** [data] is the caller's destination buffer; its new contents are returned. *)
Definition pisces_early_ringbuf_read (ring : pisces_early_ringbuf)
    (data : list byte) (read_len : Z)
  : option (Z * list byte * pisces_early_ringbuf) :=
  if read_len >? cur_len ring then Some (-1, data, unlocked ring) else
  if is_read_loop ring (u32 read_len) then
    let section_len := s32 (u64 (size ring - read_idx ring)) in
    s1 ← slice (buf ring) (get_read_ptr ring) (u64 section_len);
    data1 ← blit data 0 s1;
    s2 ← slice (buf ring) 0 (u64 (read_len - section_len));
    data2 ← blit data1 section_len s2;
    Some (0, data2, unlocked {|
      read_idx := u64 (0 + (read_len - section_len)); write_idx := write_idx ring;
      size := size ring; cur_len := u64 (cur_len ring - read_len);
      lock := lock ring; buf := buf ring |})
  else
    s1 ← slice (buf ring) (get_read_ptr ring) read_len;
    data1 ← blit data 0 s1;
    Some (0, data1, unlocked {|
      read_idx := u64 (read_idx ring + read_len); write_idx := write_idx ring;
      size := size ring; cur_len := u64 (cur_len ring - read_len);
      lock := lock ring; buf := buf ring |}).

Definition pisces_early_ringbuf_is_full (ring : pisces_early_ringbuf) : bool :=
  negb (cur_len ring =? 0).

Definition pisces_early_ringbuf_is_empty (ring : pisces_early_ringbuf) : bool :=
  cur_len ring =? 0.

(** ** Specification: a bounded FIFO of bytes *)

Definition fifo_write (cap : Z) (q d : list byte) : Z * list byte :=
  if zlen d <=? cap - zlen q then (0, q ++ d) else (-1, q).

(** The result code, the bytes read and the queue left. *)
Definition fifo_read (q : list byte) (k : Z) : Z * list byte * list byte :=
  if k <=? zlen q then (0, take (Z.to_nat k) q, drop (Z.to_nat k) q) else (-1, [], q).

Definition contents (ring : pisces_early_ringbuf) : list byte :=
  cyc (buf ring) (read_idx ring) (cur_len ring).

Record wf (ring : pisces_early_ringbuf) : Prop := {
  wf_size : size ring = EARLY_RINGBUF_SIZE;
  wf_buf : zlen (buf ring) = EARLY_RINGBUF_SIZE;
  wf_read : 0 ≤ read_idx ring ≤ EARLY_RINGBUF_SIZE;
  wf_write : 0 ≤ write_idx ring ≤ EARLY_RINGBUF_SIZE;
  wf_len : 0 ≤ cur_len ring ≤ EARLY_RINGBUF_SIZE;
  wf_after : after (buf ring) (read_idx ring) (cur_len ring) (write_idx ring)
}.

(** Calls on one ring: a write of a caller's bytes, a read into a buffer. *)
Inductive op := Write (d : list byte) | Read (dst : list byte) (k : Z).

(** Callers pass buffers of the length they announce. *)
Definition op_ok (o : op) : Prop :=
  match o with
  | Write d => zlen d < 2 ^ 64
  | Read dst k => 0 ≤ k ≤ zlen dst ∧ k < 2 ^ 64
  end.

(** A call's result: its return code and the bytes it delivered. *)
Definition run_op (ring : pisces_early_ringbuf) (o : op)
  : option (Z * list byte * pisces_early_ringbuf) :=
  match o with
  | Write d => '(ret, r) ← pisces_early_ringbuf_write ring d (zlen d); Some (ret, [], r)
  | Read dst k =>
      '(ret, dst', r) ← pisces_early_ringbuf_read ring dst k;
      Some (ret, (if ret =? 0 then take (Z.to_nat k) dst' else []), r)
  end.

Fixpoint run_ops (ring : pisces_early_ringbuf) (os : list op)
  : option (list (Z * list byte) * pisces_early_ringbuf) :=
  match os with
  | [] => Some ([], ring)
  | o :: os =>
      '(ret, out, ring) ← run_op ring o;
      '(outs, ring) ← run_ops ring os;
      Some ((ret, out) :: outs, ring)
  end.

Definition fifo_op (q : list byte) (o : op) : Z * list byte * list byte :=
  match o with
  | Write d => let '(ret, q) := fifo_write EARLY_RINGBUF_SIZE q d in (ret, [], q)
  | Read _ k => fifo_read q k
  end.

Fixpoint fifo_ops (q : list byte) (os : list op) : list (Z * list byte) * list byte :=
  match os with
  | [] => ([], q)
  | o :: os =>
      let '(ret, out, q) := fifo_op q o in
      let '(outs, q) := fifo_ops q os in ((ret, out) :: outs, q)
  end.

(** ** Lemmas *)

Lemma contents_length ring : wf ring → zlen (contents ring) = cur_len ring.
Proof. intros []. apply cyc_length; lia. Qed.

(** The loop tests decide whether the section runs past the end. *)
Lemma is_write_loop_spec ring len :
  wf ring → 0 ≤ len ≤ EARLY_RINGBUF_SIZE - cur_len ring →
  if is_write_loop ring (u32 len) then EARLY_RINGBUF_SIZE - write_idx ring ≤ len
  else write_idx ring + len ≤ EARLY_RINGBUF_SIZE.
Proof.
  intros [Hs Hb Hr Hw Hl Ha] Hlen. unfold is_write_loop, after in *. rewrite Hs.
  unfold EARLY_RINGBUF_SIZE in *. unwrap. destruct (_ && _) eqn:?; [case_test|]; lia.
Qed.

Lemma is_read_loop_spec ring len :
  wf ring → 0 ≤ len ≤ cur_len ring →
  if is_read_loop ring (u32 len) then EARLY_RINGBUF_SIZE - read_idx ring ≤ len
  else read_idx ring + len ≤ EARLY_RINGBUF_SIZE.
Proof.
  intros [Hs Hb Hr Hw Hl Ha] Hlen. unfold is_read_loop, after in *. rewrite Hs.
  unfold EARLY_RINGBUF_SIZE in *. unwrap. destruct (_ && _) eqn:?; [case_test|]; lia.
Qed.

Ltac ring_arith :=
  unfold after, fits, EARLY_RINGBUF_SIZE in *; simpl in *; lia.

(** The length of the section up to the end of the buffer is exact as an [int]. *)
Lemma section_len_exact i :
  0 ≤ i ≤ EARLY_RINGBUF_SIZE →
  s32 (u64 (EARLY_RINGBUF_SIZE - i)) = EARLY_RINGBUF_SIZE - i.
Proof.
  intros. rewrite wrap_small, swrap_small; ring_arith.
Qed.

Lemma wf_unlocked ring : wf ring → wf (unlocked ring).
Proof. by intros []. Qed.

Lemma write_ok ring data :
  wf ring → zlen data ≤ EARLY_RINGBUF_SIZE - cur_len ring →
  ∃ ring', pisces_early_ringbuf_write ring data (zlen data) = Some (0, ring') ∧
    wf ring' ∧ contents ring' = contents ring ++ data.
Proof.
  intros Hwf Hlen. pose proof (is_write_loop_spec ring (zlen data) Hwf ltac:(lia)) as Hloop.
  destruct Hwf as [Hs Hb Hr Hw Hl Ha].
  unfold pisces_early_ringbuf_write, get_write_ptr. rewrite Hs.
  rewrite !section_len_exact by done. destruct (is_write_loop _ _);
    unwrap_by ring_arith; (case_test; [exfalso; ring_arith|]).
  - destruct (write_wrapped (buf ring) (write_idx ring) data) as
      (d1 & b1 & d2 & b2 & E1 & E2 & E3 & E4 & Hst); [lia|lia|].
    rewrite Hb in E1, E3.
    rewrite E1; simpl. rewrite E2; simpl. rewrite E3; simpl. rewrite E4; simpl.
    eexists. split; [done|]. pose proof (proj1 Hst). split.
    + split; ring_arith.
    + unfold contents; simpl. eapply cyc_stored; [..|done|done]; lia.
  - destruct (write_straight (buf ring) (write_idx ring) data) as (b1 & E1 & E2 & Hst); [lia|lia|].
    rewrite E1; simpl. rewrite E2; simpl.
    eexists. split; [done|]. pose proof (proj1 Hst). split.
    + split; ring_arith.
    + unfold contents; simpl. eapply cyc_stored; [..|done|done]; lia.
Qed.

Lemma write_full ring data :
  wf ring → EARLY_RINGBUF_SIZE - cur_len ring < zlen data →
  pisces_early_ringbuf_write ring data (zlen data) = Some (-1, unlocked ring).
Proof.
  intros [Hs Hb Hr Hw Hl Ha] Hlen. unfold pisces_early_ringbuf_write. rewrite Hs.
  rewrite section_len_exact by done. unwrap_by ring_arith.
  case_test; [done|ring_arith].
Qed.

Lemma read_ok ring dst k :
  wf ring → 0 ≤ k ≤ zlen dst → k ≤ cur_len ring →
  ∃ dst' ring', pisces_early_ringbuf_read ring dst k = Some (0, dst', ring') ∧
    wf ring' ∧ delivered dst (take (Z.to_nat k) (contents ring)) dst' ∧
    contents ring' = drop (Z.to_nat k) (contents ring).
Proof.
  intros Hwf Hk Hlen. pose proof (is_read_loop_spec ring k Hwf ltac:(lia)) as Hloop.
  destruct Hwf as [Hs Hb Hr Hw Hl Ha].
  unfold pisces_early_ringbuf_read, contents. rewrite Hs.
  rewrite !section_len_exact by done.
  rewrite (cyc_take _ _ _ k) by lia. destruct (is_read_loop _ _);
    unwrap_by ring_arith; (case_test; [exfalso; ring_arith|]).
  - destruct (read_wrapped (buf ring) (read_idx ring) k dst) as
      (s1 & d1 & s2 & d2 & E1 & E2 & E3 & E4 & Hd); [lia..|].
    rewrite Hb in E1, E3, E4. unfold get_read_ptr.
    rewrite E1; simpl. rewrite E2; simpl. rewrite E3; simpl. rewrite E4; simpl.
    eexists _, _. split; [done|]. split_and!; [split; ring_arith|done|].
    symmetry. apply cyc_drop; ring_arith.
  - destruct (read_straight (buf ring) (read_idx ring) k dst) as
      (s1 & d1 & E1 & E2 & Hd); [lia..|].
    unfold get_read_ptr. rewrite E1; simpl. rewrite E2; simpl.
    eexists _, _. split; [done|]. split_and!; [split; ring_arith|done|].
    symmetry. apply cyc_drop; ring_arith.
Qed.

Lemma read_short ring dst k :
  cur_len ring < k → pisces_early_ringbuf_read ring dst k = Some (-1, dst, unlocked ring).
Proof. intros. unfold pisces_early_ringbuf_read. case_test; [done|lia]. Qed.

(** One call simulates one FIFO operation. *)
Lemma run_op_refines ring o :
  wf ring → op_ok o →
  ∃ ret out ring', run_op ring o = Some (ret, out, ring') ∧ wf ring' ∧
    fifo_op (contents ring) o = (ret, out, contents ring').
Proof.
  intros Hwf Hok. pose proof (contents_length _ Hwf) as Hc.
  destruct o as [d|dst k]; simpl.
  - unfold fifo_write. rewrite Hc. case_test.
    + destruct (write_ok ring d Hwf) as (r' & -> & ? & ?); [lia|]. simpl. eexists _, _, _. split_and!; [done|done|congruence].
    + rewrite write_full by (done || lia). simpl. eexists _, _, _. eauto using wf_unlocked.
  - unfold fifo_read. rewrite Hc. destruct Hok. case_test.
    + destruct (read_ok ring dst k Hwf) as (dst' & r' & -> & ? & (_ & Ht & _) & ?); [lia..|].
      simpl. eexists _, _, _. split_and!; [done|done|].
      rewrite length_take, Nat.min_l in Ht by lia. congruence.
    + rewrite read_short by lia. simpl. eexists _, _, _. eauto using wf_unlocked.
Qed.

(** ** Properties *)

(** C18: From [pisces_early_ringbuf_init] on, any sequence of reads and writes
    of the ring buffer, with wrap-around at any point, returns and delivers
    exactly what a bounded FIFO of [EARLY_RINGBUF_SIZE] bytes does: an
    operation that does not fit fails with -1 and changes nothing, no call
    accesses memory outside of the buffers, and the contents at the end are
    those of the FIFO. *)
Theorem ringbuf_refines_fifo ring0 os :
  Forall op_ok os →
  ∃ outs ring', run_ops (snd (pisces_early_ringbuf_init ring0)) os = Some (outs, ring') ∧
    fifo_ops [] os = (outs, contents ring').
Proof.
  pose (ring := snd (pisces_early_ringbuf_init ring0)). fold ring. assert (wf ring) as Hwf.
  { split; cbn [size buf read_idx write_idx cur_len ring snd pisces_early_ringbuf_init];
      unfold after; rewrite ?length_replicate; unfold EARLY_RINGBUF_SIZE; lia. }
  change (fifo_ops [] os) with (fifo_ops (contents ring) os). clearbody ring.
  intros Hok. revert ring Hwf. induction Hok as [|o os Ho _ IH]; intros ring Hwf.
  - simpl. eauto.
  - destruct (run_op_refines ring o Hwf Ho) as (ret & out & ring' & E & Hwf' & Hf).
    destruct (IH ring' Hwf') as (outs & ring'' & E' & Hf').
    simpl. rewrite E; simpl. rewrite E'; simpl. rewrite Hf, Hf'. eauto.
Qed.

Lemma ringbuf_refines_fifo_witness : ∃ outs ring',
  run_ops (snd (pisces_early_ringbuf_init {| read_idx := 7; write_idx := 9; size := 1;
    cur_len := 3; lock := {| raw_lock := 5 |}; buf := [] |}))
    [Write [Byte.x61; Byte.x62]; Read [Byte.x00] 1; Read [Byte.x00; Byte.x00] 2]
  = Some (outs, ring') ∧
  fifo_ops [] [Write [Byte.x61; Byte.x62]; Read [Byte.x00] 1; Read [Byte.x00; Byte.x00] 2]
  = (outs, contents ring').
Proof.
  apply ringbuf_refines_fifo. repeat constructor; simpl; lia.
Defined.

(** [pisces_early_ringbuf_is_full] answers the wrong question: on a
    well-formed ring it is true as soon as one byte is stored, so it is the
    negation of [pisces_early_ringbuf_is_empty], although a ring that holds
    less than [EARLY_RINGBUF_SIZE] bytes still accepts a byte. *)
Theorem ringbuf_is_full_means_nonempty ring b :
  wf ring → 0 < cur_len ring < EARLY_RINGBUF_SIZE →
  pisces_early_ringbuf_is_full ring = true ∧
  pisces_early_ringbuf_is_full ring = negb (pisces_early_ringbuf_is_empty ring) ∧
  ∃ ring', pisces_early_ringbuf_write ring [b] 1 = Some (0, ring').
Proof.
  intros Hwf Hlen. unfold pisces_early_ringbuf_is_full, pisces_early_ringbuf_is_empty.
  split_and!; [lia|done|].
  destruct (write_ok ring [b] Hwf) as (r' & ? & _); [simpl; lia|]. eauto.
Qed.

Lemma ringbuf_is_full_means_nonempty_witness :
  let ring := {| read_idx := 0; write_idx := 1; size := EARLY_RINGBUF_SIZE; cur_len := 1;
                 lock := {| raw_lock := 0 |};
                 buf := replicate (Z.to_nat EARLY_RINGBUF_SIZE) Byte.x41 |} in
  pisces_early_ringbuf_is_full ring = true.
Proof.
  apply (ringbuf_is_full_means_nonempty _ Byte.x42).
  - split; cbn [size buf read_idx write_idx cur_len];
      unfold after; rewrite ?length_replicate; unfold EARLY_RINGBUF_SIZE; lia.
  - cbn [cur_len]. unfold EARLY_RINGBUF_SIZE. lia.
Defined.
