(* ===== verification/Store.v ===== *)
(** * Interface: a store of integer keys and values

    What the file table of an enclave ([Fs]) asks of the hash table
    ([Hashtable]): the operations, and laws that state them on the bag of
    pairs a store holds.  Keys may be stored twice, as [htable_insert]
    documents; a search that finds nothing answers 0. *)
From S2P Require Import Prelude.

(** The operations; [E] is what the environment decides (allocations). *)
Class StoreOps (T E : Type) := {
  store_create : E → option (option T);
  store_search : T → Z → option Z;
  store_insert : T → Z → Z → E → option (Z * T);
  store_remove : T → Z → option (Z * T);
  env_ok : E → Prop;
  env_creates : E → bool;
  env_inserts : E → bool
}.

(** The laws: [holds_bag t b] is "[t] is well formed and holds [b]". *)
Class StoreLaws (T E : Type) `{StoreOps T E} := {
  holds_bag : T → list (Z * Z) → Prop;
  holds_bag_perm t b b' : holds_bag t b → b ≡ₚ b' → holds_bag t b';
  store_create_spec e : env_ok e → env_creates e = true →
    ∃ t, store_create e = Some (Some t) ∧ holds_bag t [];
  store_search_spec t b k : holds_bag t b →
    ∃ r, store_search t k = Some r ∧ ((k, r) ∈ b ∨ (k ∉ b.*1 ∧ r = 0));
  store_insert_spec t b k v e : holds_bag t b → env_ok e →
    ∃ r t', store_insert t k v e = Some (r, t') ∧
            holds_bag t' (if env_inserts e then (k, v) :: b else b);
  store_remove_spec t b k : holds_bag t b →
    ∃ r t', store_remove t k = Some (r, t') ∧
      ((∃ b', b ≡ₚ (k, r) :: b' ∧ holds_bag t' b') ∨ (k ∉ b.*1 ∧ r = 0 ∧ holds_bag t' b))
}.

(** ** Sets of handles: every key is stored once, with itself as value. *)
Section handles.
Context {T E : Type} `{StoreLaws T E}.

Definition pairs (l : list Z) : list (Z * Z) := (λ p, (p, p)) <$> l.

Lemma pairs_fst l : (pairs l).*1 = l.
Proof. unfold pairs. rewrite <-list_fmap_compose. apply list_fmap_id. Qed.

Lemma elem_of_pairs k v l : (k, v) ∈ pairs l ↔ v = k ∧ k ∈ l.
Proof.
  unfold pairs. rewrite list_elem_of_fmap. split; [by intros (x & [= -> ->] & ?)|].
  intros [-> ?]. by exists k.
Qed.

(** Looking a handle up, when NULL is not a handle. *)
Lemma search_handle t l k :
  holds_bag t (pairs l) → 0 ∉ l → store_search t k = Some (if bool_decide (k ∈ l) then k else 0).
Proof.
  intros Ht Hl. destruct (store_search_spec t (pairs l) k Ht) as (r & -> & [Hr|[Hr ->]]).
  - apply elem_of_pairs in Hr as [-> ?]. by rewrite bool_decide_true.
  - rewrite pairs_fst in Hr. by rewrite bool_decide_false.
Qed.

Lemma pairs_perm_inv l k r b :
  pairs l ≡ₚ (k, r) :: b → ∃ l', l ≡ₚ k :: l' ∧ b ≡ₚ pairs l' ∧ r = k.
Proof.
  intros Hp. assert ((k, r) ∈ pairs l) as Hin by (rewrite Hp; left).
  apply elem_of_pairs in Hin as [-> Hin].
  apply elem_of_Permutation in Hin as [l' Hl']. exists l'. split; [done|]. split; [|done].
  apply (Permutation_cons_inv (a := (k, k))). rewrite <-Hp. unfold pairs. by rewrite Hl'.
Qed.

Lemma remove_handle t l k :
  holds_bag t (pairs l) → k ∈ l →
  ∃ r t' l', store_remove t k = Some (r, t') ∧ l ≡ₚ k :: l' ∧ holds_bag t' (pairs l').
Proof.
  intros Ht Hk. destruct (store_remove_spec t (pairs l) k Ht) as (r & t' & -> & [(b & Hb & Ht')|(Hn & _)]).
  - destruct (pairs_perm_inv _ _ _ _ Hb) as (l' & ? & Hbl & ->). exists k, t', l'.
    split_and!; [done..|]. by eapply holds_bag_perm.
  - by rewrite pairs_fst in Hn.
Qed.
End handles.
