(* ===== verification/Hashtable.v ===== *)
(** * The chained hash table ([src/util-hashtable.c], [src/util-hashtable.h])

    A table of collision chains whose length is a prime, doubled when the load
    limit is passed.  A chain is the list of its entries from its head: every
    entry is on one chain only, so the [next] pointers carry nothing else.
    Integers keep their width ([u32] sizes, counts and hashes, 64-bit keys and
    values).  [kmalloc] is the environment: each call's success is an argument.
    The outer [None] of an operation is behaviour C leaves undefined. *)
From stdpp Require Import gmap.
From S2P Require Import Prelude Store.

(** ** The code: data *)

Record hash_entry := { key : Z; value : Z; hash : Z }.

Record hashtable := {
  table_length : Z;
  table : list (list hash_entry);
  entry_count : Z;
  load_limit : Z;
  prime_index : Z;
  hash_fn : Z → Z;
  eq_fn : Z → Z → bool
}.

Definition set_table (h : hashtable) (t : list (list hash_entry)) : hashtable :=
  {| table_length := table_length h; table := t; entry_count := entry_count h;
     load_limit := load_limit h; prime_index := prime_index h;
     hash_fn := hash_fn h; eq_fn := eq_fn h |}.

Definition set_count (h : hashtable) (n : Z) : hashtable :=
  {| table_length := table_length h; table := table h; entry_count := n;
     load_limit := load_limit h; prime_index := prime_index h;
     hash_fn := hash_fn h; eq_fn := eq_fn h |}.

(** ** The code: hash functions *)

Definition do_hash (htable : hashtable) (key : Z) : Z :=
  let i := u32 (hash_fn htable key) in
  let i := u32 (i + u32 (Z.lnot (u32 (Z.shiftl i 9)))) in
  let i := Z.lxor i (Z.lor (Z.shiftr i 14) (u32 (Z.shiftl i 18))) in
  let i := u32 (i + u32 (Z.shiftl i 4)) in
  Z.lxor i (Z.lor (Z.shiftr i 10) (u32 (Z.shiftl i 22))).

(** [hash_long] as compiled when [__64BIT__] is defined ... *)
Definition GOLDEN_RATIO_PRIME_64 : Z := 0x9e37fffffffc0001.
Definition hash_long_64 (val : Z) : Z :=
  let hash := val in
  let n := hash in
  let n := u64 (Z.shiftl n 18) in let hash := u64 (hash - n) in
  let n := u64 (Z.shiftl n 33) in let hash := u64 (hash - n) in
  let n := u64 (Z.shiftl n 3) in let hash := u64 (hash + n) in
  let n := u64 (Z.shiftl n 3) in let hash := u64 (hash - n) in
  let n := u64 (Z.shiftl n 4) in let hash := u64 (hash + n) in
  let n := u64 (Z.shiftl n 2) in let hash := u64 (hash + n) in
  u32 (Z.shiftr hash 32).

(** ... and when it is not, as with the x86 compilers the module is built by. *)
Definition GOLDEN_RATIO_PRIME : Z := 0x9e370001.
Definition hash_long (val : Z) : Z := u32 (u64 (val * GOLDEN_RATIO_PRIME)).

(** One round of the loop of [hash_buffer], on byte [c] at index [i]. *)
Definition hash_buffer_round (hash i c : Z) : Z :=
  let hash := u32 (u32 (u32 (Z.shiftl hash 4) + c) + i) in
  let temp := Z.land hash 0xF0000000 in
  let hash := if temp =? 0 then hash else Z.lxor hash (Z.shiftr temp 24) in
  Z.land hash (u32 (Z.lnot temp)).

Fixpoint hash_buffer_from (hash i : Z) (msg : list Z) : Z :=
  match msg with
  | [] => hash
  | c :: msg => hash_buffer_from (hash_buffer_round hash i c) (u32 (i + 1)) msg
  end.

Definition hash_buffer (msg : list Z) : Z := hash_buffer_from 0 0 msg.

Definition indexFor (table_length hash_value : Z) : Z := hash_value mod table_length.

(** ** The code: sizes *)

Definition primes : list Z := [
  53; 97; 193; 389;
  769; 1543; 3079; 6151;
  12289; 24593; 49157; 98317;
  196613; 393241; 786433; 1572869;
  3145739; 6291469; 12582917; 25165843;
  50331653; 100663319; 201326611; 402653189;
  805306457; 1610612741].

Definition load_factors : list Z := [
  35; 64; 126; 253;
  500; 1003; 2002; 3999;
  7988; 15986; 31953; 63907;
  127799; 255607; 511182; 1022365;
  2044731; 4089455; 8178897; 16357798;
  32715575; 65431158; 130862298; 261724573;
  523449198; 1046898282].

Definition prime_table_len : Z := 26.

(** The loop of [create_htable] over [primes] from index [i]: the index it
    stops at and the size it chose. *)
Fixpoint find_prime (ps : list Z) (i min_size : Z) : Z * Z :=
  match ps with
  | [] => (i, 53)
  | p :: ps => if p >? min_size then (i, p) else find_prime ps (i + 1) min_size
  end.

(** ** The code: operations *)

(** The inner [None] is the NULL the function returns. *)
Definition create_htable (min_size : Z) (hash_fn : Z → Z) (eq_fn : Z → Z → bool)
    (htable_ok table_ok : bool) : option (option hashtable) :=
  if min_size >? 2 ^ 30 then Some None else
  let '(prime_index, size) := find_prime primes 0 min_size in
  if negb htable_ok then Some None else
  if negb table_ok then Some None else
  limit ← load_factors !! Z.to_nat prime_index;
  Some (Some {| table_length := size; table := replicate (Z.to_nat size) [];
                entry_count := 0; load_limit := limit; prime_index := prime_index;
                hash_fn := hash_fn; eq_fn := eq_fn |}).

(** An entry moved to the head of its chain in the new table. *)
Definition move_entry (new_size : Z) (new_table : list (list hash_entry))
    (e : hash_entry) : list (list hash_entry) :=
  alter (cons e) (Z.to_nat (indexFor new_size (hash e))) new_table.

(** The [while] loop that empties one chain into the new table. *)
Fixpoint move_chain (new_size : Z) (chain : list hash_entry)
    (new_table : list (list hash_entry)) : list (list hash_entry) :=
  match chain with
  | [] => new_table
  | tmp_entry :: next => move_chain new_size next (move_entry new_size new_table tmp_entry)
  end.

(** The [for] loop over the old table. *)
Fixpoint move_table (new_size : Z) (tbl new_table : list (list hash_entry))
  : list (list hash_entry) :=
  match tbl with
  | [] => new_table
  | chain :: tbl => move_table new_size tbl (move_chain new_size chain new_table)
  end.

(** [tmp_realloc(table, old_size, ..)] copies [old_size] {e bytes} of 8-byte
    chain pointers; the rest of the new block is indeterminate ([None]). *)
Definition tmp_realloc (tbl : list (list hash_entry)) (old_size new_len : Z)
  : list (option (list hash_entry)) :=
  (Some <$> take (Z.to_nat (old_size / 8)) tbl) ++
  replicate (Z.to_nat (new_len - old_size / 8)) None.

Definition hashtable_expand (h : hashtable) (table_ok realloc_ok : bool)
  : option (Z * hashtable) :=
  if prime_index h =? prime_table_len - 1 then Some (0, h) else
  let prime_index' := u32 (prime_index h + 1) in
  new_size ← primes !! Z.to_nat prime_index';
  old_size ← primes !! Z.to_nat (prime_index' - 1);
  limit ← load_factors !! Z.to_nat prime_index';
  if table_ok then
    Some (-1, {| table_length := new_size;
                 table := move_table new_size (table h) (replicate (Z.to_nat new_size) []);
                 entry_count := entry_count h; load_limit := limit;
                 prime_index := prime_index'; hash_fn := hash_fn h; eq_fn := eq_fn h |})
  else if negb realloc_ok then Some (0, h)
  else
    (* Plan B: [memset(new_table[htable->table_length], 0, ..)] writes through
       the element at [table_length], a pointer to memory or indeterminate. *)
    match tmp_realloc (table h) old_size new_size !! Z.to_nat (table_length h) with
    | Some (Some _) | Some None | None => None
    end.

Definition htable_count (h : hashtable) : Z := entry_count h.

(** Which of the (at most three) [kmalloc]s of an insertion succeed. *)
Record allocs := { table_ok : bool; realloc_ok : bool; entry_ok : bool }.

Definition htable_insert (h : hashtable) (key value : Z) (a : allocs)
  : option (Z * hashtable) :=
  let count := u32 (entry_count h + 1) in
  let h := set_count h count in
  h ← (if count >? load_limit h
       then snd <$> hashtable_expand h (table_ok a) (realloc_ok a) else Some h);
  if negb (entry_ok a) then Some (0, set_count h (u32 (entry_count h - 1))) else
  let hv := do_hash h key in
  let index := Z.to_nat (indexFor (table_length h) hv) in
  chain ← table h !! index;
  Some (-1, set_table h (<[index := {| key := key; value := value; hash := hv |} :: chain]>
                           (table h))).

(** The test of every chain walk. *)
Definition entry_matches (h : hashtable) (hash_value k : Z) (e : hash_entry) : bool :=
  (hash_value =? hash e) && eq_fn h k (key e).

(** The walk of [htable_change], [htable_inc] and [htable_dec]: the value of
    the first matching entry becomes [f] of it; the old value is returned. *)
Fixpoint chain_update (h : hashtable) (hv k : Z) (f : Z → Z) (c : list hash_entry)
  : option (Z * list hash_entry) :=
  match c with
  | [] => None
  | e :: next =>
      if entry_matches h hv k e
      then Some (value e, {| key := key e; value := f (value e); hash := hash e |} :: next)
      else '(old, next) ← chain_update h hv k f next; Some (old, e :: next)
  end.

(** Result code, the pointers given to [kfree], and the table. *)
Definition htable_change (h : hashtable) (k v : Z) (free_value : bool)
  : option (Z * list Z * hashtable) :=
  let hv := do_hash h k in
  let index := Z.to_nat (indexFor (table_length h) hv) in
  chain ← table h !! index;
  match chain_update h hv k (λ _, v) chain with
  | Some (old, chain) =>
      Some (-1, (if free_value then [old] else []), set_table h (<[index := chain]> (table h)))
  | None => Some (0, [], h)
  end.

Definition htable_inc (h : hashtable) (k v : Z) : option (Z * hashtable) :=
  let hv := do_hash h k in
  let index := Z.to_nat (indexFor (table_length h) hv) in
  chain ← table h !! index;
  match chain_update h hv k (λ x, u64 (x + v)) chain with
  | Some (_, chain) => Some (-1, set_table h (<[index := chain]> (table h)))
  | None => Some (0, h)
  end.

Definition htable_dec (h : hashtable) (k v : Z) : option (Z * hashtable) :=
  let hv := do_hash h k in
  let index := Z.to_nat (indexFor (table_length h) hv) in
  chain ← table h !! index;
  match chain_update h hv k (λ x, u64 (x - v)) chain with
  | Some (_, chain) => Some (-1, set_table h (<[index := chain]> (table h)))
  | None => Some (0, h)
  end.

Fixpoint chain_search (h : hashtable) (hv k : Z) (c : list hash_entry) : option Z :=
  match c with
  | [] => None
  | e :: next => if entry_matches h hv k e then Some (value e) else chain_search h hv k next
  end.

(** NULL (0) when there is no entry. *)
Definition htable_search (h : hashtable) (k : Z) : option Z :=
  let hv := do_hash h k in
  chain ← table h !! Z.to_nat (indexFor (table_length h) hv);
  Some (match chain_search h hv k chain with Some v => v | None => 0 end).

Fixpoint chain_remove (h : hashtable) (hv k : Z) (c : list hash_entry)
  : option (hash_entry * list hash_entry) :=
  match c with
  | [] => None
  | e :: next =>
      if entry_matches h hv k e then Some (e, next)
      else '(x, next) ← chain_remove h hv k next; Some (x, e :: next)
  end.

(** The value removed (0 when there is none), the keys given to [kfree], and
    the table. *)
Definition htable_remove (h : hashtable) (k : Z) (free_key : bool)
  : option (Z * list Z * hashtable) :=
  let hv := do_hash h k in
  let index := Z.to_nat (indexFor (table_length h) hv) in
  chain ← table h !! index;
  match chain_remove h hv k chain with
  | Some (e, chain) =>
      Some (value e, (if free_key then [key e] else []),
            set_count (set_table h (<[index := chain]> (table h))) (u32 (entry_count h - 1)))
  | None => Some (0, [], h)
  end.

(** What [free_htable] gives to [kfree], in order. *)
Inductive freed := FreeKey (k : Z) | FreeValue (v : Z) | FreeEntry (e : hash_entry)
                 | FreeTable | FreeHtable.

Fixpoint free_chain (free_values free_keys : bool) (c : list hash_entry) : list freed :=
  match c with
  | [] => []
  | e :: next =>
      (if free_keys then [FreeKey (key e)] else []) ++
      (if free_values then [FreeValue (value e)] else []) ++
      [FreeEntry e] ++ free_chain free_values free_keys next
  end.

Definition free_htable (h : hashtable) (free_values free_keys : bool) : list freed :=
  concat (free_chain free_values free_keys <$> table h) ++ [FreeTable; FreeHtable].

(** ** Invariant *)

(** The pairs stored, chain by chain. *)
Definition pair_of (e : hash_entry) : Z * Z := (key e, value e).
Definition elems (h : hashtable) : list (Z * Z) := pair_of <$> concat (table h).

(** Every entry is on the chain its hash selects. *)
Definition bucketed (n : Z) (t : list (list hash_entry)) : Prop :=
  ∀ i c e, t !! i = Some c → e ∈ c → Z.to_nat (indexFor n (hash e)) = i.

Record wf (h : hashtable) : Prop := {
  wf_prime : primes !! Z.to_nat (prime_index h) = Some (table_length h);
  wf_limit : load_factors !! Z.to_nat (prime_index h) = Some (load_limit h);
  wf_index : 0 ≤ prime_index h < prime_table_len;
  wf_length : zlen (table h) = table_length h;
  wf_bucketed : bucketed (table_length h) (table h);
  wf_hashed : ∀ e, e ∈ concat (table h) → hash e = do_hash h (key e);
  wf_count : entry_count h = u32 (zlen (concat (table h)))
}.

(** The keys are compared with [==], as every user of the table does. *)
Definition eq_is_equality (h : hashtable) : Prop :=
  ∀ a b, eq_fn h a b = bool_decide (a = b).

Definition same_fns (h h' : hashtable) : Prop :=
  hash_fn h' = hash_fn h ∧ eq_fn h' = eq_fn h.

(** The environments in which [hashtable_expand] does not reach its Plan B
    with memory in hand (its behaviour there is undefined, see below). *)
Definition no_plan_b (a : allocs) : Prop := table_ok a = false → realloc_ok a = false.

(** ** Specification: a finite map

    The operations as a client issues them, and what they do to a finite map.
    [htable_insert] adds an entry in front of whatever is there, so the map
    contract asks that the key be absent. *)
Inductive op :=
  | OInsert (k v : Z) (a : allocs)
  | OSearch (k : Z)
  | ORemove (k : Z) (free_key : bool)
  | OChange (k v : Z) (free_value : bool)
  | OInc (k v : Z)
  | ODec (k v : Z)
  | OCount.

Definition exec (o : op) (h : hashtable) : option (Z * hashtable) :=
  match o with
  | OInsert k v a => htable_insert h k v a
  | OSearch k => r ← htable_search h k; Some (r, h)
  | ORemove k b => '(r, _, h') ← htable_remove h k b; Some (r, h')
  | OChange k v b => '(r, _, h') ← htable_change h k v b; Some (r, h')
  | OInc k v => htable_inc h k v
  | ODec k v => htable_dec h k v
  | OCount => Some (htable_count h, h)
  end.

Definition map_update (m : gmap Z Z) (k : Z) (f : Z → Z) : Z * gmap Z Z :=
  match m !! k with Some v => (-1, <[k := f v]> m) | None => (0, m) end.

Definition spec (o : op) (m : gmap Z Z) : Z * gmap Z Z :=
  match o with
  | OInsert k v a => if entry_ok a then (-1, <[k := v]> m) else (0, m)
  | OSearch k => (default 0 (m !! k), m)
  | ORemove k _ => (default 0 (m !! k), delete k m)
  | OChange k v _ => map_update m k (λ _, v)
  | OInc k v => map_update m k (λ x, u64 (x + v))
  | ODec k v => map_update m k (λ x, u64 (x - v))
  | OCount => (u32 (Z.of_nat (size m)), m)
  end.

Definition allowed (o : op) (m : gmap Z Z) : Prop :=
  match o with
  | OInsert k _ a => m !! k = None ∧ no_plan_b a
  | _ => True
  end.

Fixpoint run (os : list op) (h : hashtable) : option (list Z * hashtable) :=
  match os with
  | [] => Some ([], h)
  | o :: os => '(r, h) ← exec o h; '(rs, h) ← run os h; Some (r :: rs, h)
  end.

Fixpoint spec_run (os : list op) (m : gmap Z Z) : list Z * gmap Z Z :=
  match os with
  | [] => ([], m)
  | o :: os => let '(r, m) := spec o m in let '(rs, m) := spec_run os m in (r :: rs, m)
  end.

Fixpoint all_allowed (os : list op) (m : gmap Z Z) : Prop :=
  match os with
  | [] => True
  | o :: os => allowed o m ∧ all_allowed os (spec o m).2
  end.

(** The table holds the map. *)
Record rep (h : hashtable) (m : gmap Z Z) : Prop := {
  rep_wf : wf h;
  rep_eq : eq_is_equality h;
  rep_elems : elems h ≡ₚ map_to_list m
}.

(** ** Lemmas: lists of chains *)

Lemma concat_lookup_perm {A} (t : list (list A)) i c :
  t !! i = Some c → concat t ≡ₚ c ++ concat (delete i t).
Proof.
  revert i. induction t as [|x t IH]; intros [|i] Hi; simplify_eq/=; [done|].
  rewrite (IH i Hi). by rewrite !app_assoc, (Permutation_app_comm x c).
Qed.

Lemma concat_insert_perm {A} (t : list (list A)) i c c' :
  t !! i = Some c → concat (<[i := c']> t) ≡ₚ c' ++ concat (delete i t).
Proof.
  revert i. induction t as [|x t IH]; intros [|i] Hi; simplify_eq/=; [done|].
  rewrite (IH i Hi). by rewrite !app_assoc, (Permutation_app_comm x c').
Qed.

Lemma elem_of_concat_lookup {A} (t : list (list A)) x :
  x ∈ concat t ↔ ∃ i c, t !! i = Some c ∧ x ∈ c.
Proof.
  induction t as [|y t IH]; simpl.
  - split; [by intros ?%not_elem_of_nil|by intros (?&?&?&?)].
  - rewrite elem_of_app, IH. split.
    + intros [?|(i & c & ? & ?)]; [by exists 0%nat, y|by exists (S i), c].
    + intros ([|i] & c & ? & ?); simplify_eq/=; eauto.
Qed.

Lemma primes_pos i p : primes !! i = Some p → 0 < p < 2 ^ 31.
Proof.
  assert (Forall (λ p, 0 < p < 2 ^ 31) primes) as H by (repeat constructor; lia).
  intros Hi. by eapply Forall_lookup_1 in H.
Qed.

Lemma indexFor_bound n x : 0 < n → 0 ≤ indexFor n x < n.
Proof. intros. unfold indexFor. by apply Z.mod_pos_bound. Qed.

Lemma wf_table_length h : wf h → 0 < table_length h < 2 ^ 31.
Proof. intros []. by eapply primes_pos. Qed.

(** The chain a hash selects exists. *)
Lemma wf_chain h hv :
  wf h → ∃ c, table h !! Z.to_nat (indexFor (table_length h) hv) = Some c.
Proof.
  intros Hwf. apply lookup_lt_is_Some_2. pose proof (wf_table_length _ Hwf).
  pose proof (indexFor_bound (table_length h) hv). destruct Hwf. lia.
Qed.

Lemma do_hash_ext h h' k : hash_fn h' = hash_fn h → do_hash h' k = do_hash h k.
Proof. unfold do_hash. by intros ->. Qed.

(** Moving entries between tables. *)

Lemma concat_alter_perm {A} (t : list (list A)) i c x :
  t !! i = Some c → concat (alter (cons x) i t) ≡ₚ x :: concat t.
Proof.
  revert i. induction t as [|y t IH]; intros [|i] Hi; simplify_eq/=; [done|].
  rewrite (IH i Hi). by rewrite Permutation_middle.
Qed.

Lemma move_entry_perm n t e :
  0 < n → zlen t = n → concat (move_entry n t e) ≡ₚ e :: concat t.
Proof.
  intros Hn Hl. unfold move_entry. pose proof (indexFor_bound n (hash e) Hn).
  destruct (lookup_lt_is_Some_2 t (Z.to_nat (indexFor n (hash e)))) as [c Hc]; [lia|].
  by eapply concat_alter_perm.
Qed.

Lemma move_entry_bucketed n t e :
  0 < n → bucketed n t → bucketed n (move_entry n t e).
Proof.
  intros Hn Hb i c x. unfold move_entry. rewrite list_lookup_alter.
  case_decide as Hi; [subst i|by apply Hb].
  destruct (t !! _) as [c0|] eqn:E; simpl; [|done]. intros [= <-].
  rewrite elem_of_cons. intros [->|?]; [done|by eapply Hb].
Qed.

Lemma move_chain_spec n c t :
  0 < n → zlen t = n → bucketed n t →
  zlen (move_chain n c t) = n ∧ concat (move_chain n c t) ≡ₚ c ++ concat t ∧
  bucketed n (move_chain n c t).
Proof.
  intros Hn. revert t. induction c as [|e c IH]; intros t Hl Hb; simpl; [done|].
  destruct (IH (move_entry n t e)) as (? & Hp & ?).
  - unfold move_entry. by rewrite length_alter.
  - by apply move_entry_bucketed.
  - split_and!; [done| |done]. rewrite Hp, move_entry_perm by done.
    by rewrite Permutation_middle.
Qed.

Lemma move_table_spec n tbl t :
  0 < n → zlen t = n → bucketed n t →
  zlen (move_table n tbl t) = n ∧ concat (move_table n tbl t) ≡ₚ concat tbl ++ concat t ∧
  bucketed n (move_table n tbl t).
Proof.
  intros Hn. revert t. induction tbl as [|c tbl IH]; intros t Hl Hb; simpl; [done|].
  destruct (move_chain_spec n c t Hn Hl Hb) as (? & Hp & ?).
  destruct (IH (move_chain n c t)) as (? & Hq & ?); [done..|].
  split_and!; [done| |done]. rewrite Hq, Hp.
  by rewrite !app_assoc, (Permutation_app_comm c).
Qed.

Lemma concat_replicate_nil {A} n : concat (replicate n ([] : list A)) = [].
Proof. by induction n. Qed.

Lemma bucketed_empty n k : bucketed n (replicate k []).
Proof. intros i c e [-> _]%lookup_replicate. by intros ?%not_elem_of_nil. Qed.

(** ** Lemmas: expansion *)

Lemma prime_lookups i :
  0 ≤ i < prime_table_len →
  is_Some (primes !! Z.to_nat i) ∧ is_Some (load_factors !! Z.to_nat i).
Proof.
  unfold prime_table_len. intros.
  split; apply lookup_lt_is_Some_2; change (length _) with 26%nat; lia.
Qed.

Lemma expand_spec h b1 b2 :
  wf h → (b1 = false → b2 = false) →
  ∃ r h', hashtable_expand h b1 b2 = Some (r, h') ∧ wf h' ∧ same_fns h h' ∧
    entry_count h' = entry_count h ∧ concat (table h') ≡ₚ concat (table h).
Proof.
  intros Hwf Hb. unfold hashtable_expand. case_test; [by eexists _, _|].
  pose proof (wf_index _ Hwf). unfold prime_table_len in *.
  assert (u32 (prime_index h + 1) = prime_index h + 1) as -> by (unwrap; lia).
  destruct (prime_lookups (prime_index h + 1)) as [[sz En] [lim El]];
    [unfold prime_table_len; lia|].
  rewrite En, El, Z.add_simpl_r, (wf_prime _ Hwf). simpl. destruct b1; simpl.
  2: { rewrite Hb by done. simpl. by eexists _, _. }
  pose proof (primes_pos _ _ En).
  destruct (move_table_spec sz (table h) (replicate (Z.to_nat sz) [])) as (Hl & Hp & Hk);
    [lia|rewrite length_replicate; lia|apply bucketed_empty|].
  rewrite concat_replicate_nil, app_nil_r in Hp.
  eexists _, _. split; [done|]. split_and!; [|by split|done|done].
  split; simpl; try done; [unfold prime_table_len; lia| |].
  - intros e. rewrite Hp. intros He. rewrite (do_hash_ext h) by done.
    by apply (wf_hashed _ Hwf).
  - rewrite Hp. apply (wf_count _ Hwf).
Qed.

(** Changing only the count. *)
Lemma wf_elems_count h n : elems (set_count h n) = elems h.
Proof. done. Qed.

(** ** Lemmas: chain walks *)

Lemma entry_matches_spec h k e :
  eq_is_equality h → hash e = do_hash h (key e) →
  entry_matches h (do_hash h k) k e = bool_decide (k = key e).
Proof.
  intros He Hh. unfold entry_matches. rewrite He, Hh.
  case_bool_decide as Hk; [subst; by rewrite Z.eqb_refl|]. by rewrite andb_false_r.
Qed.

Section walk.
Context (h : hashtable) (k : Z) (c : list hash_entry).
Context (Heq : eq_is_equality h) (Hhash : ∀ e, e ∈ c → hash e = do_hash h (key e)).

Lemma chain_search_spec :
  match chain_search h (do_hash h k) k c with
  | Some v => ∃ e, e ∈ c ∧ key e = k ∧ value e = v
  | None => ∀ e, e ∈ c → key e ≠ k
  end.
Proof using Heq Hhash.
  induction c as [|e c' IH]; simpl; [by intros ? ?%not_elem_of_nil|].
  rewrite entry_matches_spec by (done || apply Hhash; left). case_test.
  - exists e. split_and!; [left|done|done].
  - assert (∀ x, x ∈ c' → hash x = do_hash h (key x)) as Hc'
      by (intros; apply Hhash; by right).
    specialize (IH Hc'). destruct (chain_search _ _ _ _).
    + destruct IH as (x & ? & ? & ?). exists x. split_and!; [by right|done|done].
    + intros x [->|?]%elem_of_cons; [congruence|by apply IH].
Qed.

Lemma chain_remove_spec :
  match chain_remove h (do_hash h k) k c with
  | Some (e, c') => c ≡ₚ e :: c' ∧ key e = k
  | None => ∀ e, e ∈ c → key e ≠ k
  end.
Proof using Heq Hhash.
  induction c as [|e c' IH]; simpl; [by intros ? ?%not_elem_of_nil|].
  rewrite entry_matches_spec by (done || apply Hhash; left). case_test; [done|].
  assert (∀ x, x ∈ c' → hash x = do_hash h (key x)) as Hc'
    by (intros; apply Hhash; by right).
  specialize (IH Hc'). destruct (chain_remove _ _ _ _) as [[x r]|]; simpl.
  - destruct IH as [-> ?]. split; [|done]. apply perm_swap.
  - intros x [->|?]%elem_of_cons; [congruence|by apply IH].
Qed.

Lemma chain_update_spec f :
  match chain_update h (do_hash h k) k f c with
  | Some (old, c') => ∃ e rest, c ≡ₚ e :: rest ∧ key e = k ∧ value e = old ∧
      c' ≡ₚ {| key := k; value := f old; hash := hash e |} :: rest
  | None => ∀ e, e ∈ c → key e ≠ k
  end.
Proof using Heq Hhash.
  induction c as [|e c' IH]; simpl; [by intros ? ?%not_elem_of_nil|].
  rewrite entry_matches_spec by (done || apply Hhash; left). case_test.
  - subst. by exists e, c'.
  - assert (∀ x, x ∈ c' → hash x = do_hash h (key x)) as Hc'
      by (intros; apply Hhash; by right).
    specialize (IH Hc'). destruct (chain_update _ _ _ _ _) as [[old r]|]; simpl.
    + destruct IH as (x & rest & Hc & ? & ? & Hr). exists x, (e :: rest).
      rewrite Hc, Hr. split_and!; [apply perm_swap|done|done|apply perm_swap].
    + intros x [->|?]%elem_of_cons; [congruence|by apply IH].
Qed.
End walk.

(** ** Lemmas: the operations on the bag of pairs *)

Lemma elems_lookup h i c :
  table h !! i = Some c → elems h ≡ₚ (pair_of <$> c) ++ (pair_of <$> concat (delete i (table h))).
Proof. intros Hc. unfold elems. rewrite (concat_lookup_perm _ _ _ Hc), fmap_app. done. Qed.

Lemma elem_of_elems h i c e :
  table h !! i = Some c → e ∈ c → (key e, value e) ∈ elems h.
Proof.
  intros Hc He. apply list_elem_of_fmap. exists e. split; [done|].
  apply elem_of_concat_lookup. eauto.
Qed.

Lemma wf_chain_hash h i c :
  wf h → table h !! i = Some c → ∀ e, e ∈ c → hash e = do_hash h (key e).
Proof.
  intros Hwf Hc e He. apply (wf_hashed _ Hwf). apply elem_of_concat_lookup. eauto.
Qed.

(** An entry with key [k] is on the chain its hash selects. *)
Lemma key_on_chain h k v c :
  wf h → table h !! Z.to_nat (indexFor (table_length h) (do_hash h k)) = Some c →
  (k, v) ∈ elems h → ∃ e, e ∈ c ∧ key e = k ∧ value e = v.
Proof.
  intros Hwf Hc (e & [= -> ->] & He)%list_elem_of_fmap.
  pose proof (wf_hashed _ Hwf e He) as Hh.
  apply elem_of_concat_lookup in He as (i & c' & Hi & He).
  pose proof (wf_bucketed _ Hwf i c' e Hi He) as Hb. rewrite Hh in Hb. subst i.
  assert (c' = c) as -> by congruence. by exists e.
Qed.

(** Replacing the chain of an index by one with the same hashes. *)
Lemma wf_set_chain h i c c' n :
  wf h → table h !! i = Some c →
  (∀ e, e ∈ c' → Z.to_nat (indexFor (table_length h) (hash e)) = i ∧
                 hash e = do_hash h (key e)) →
  n = u32 (zlen (concat (<[i := c']> (table h)))) →
  wf (set_count (set_table h (<[i := c']> (table h))) n).
Proof.
  intros Hwf Hc Hc' Hn. destruct Hwf as [Hp Hl Hi Hlen Hb Hh Hct].
  split; simpl; try done; [by rewrite length_insert| |].
  - intros j d e. destruct (decide (i = j)) as [<-|].
    + rewrite list_lookup_insert_eq by (by eapply lookup_lt_Some).
      intros [= <-] He. by apply Hc'.
    + rewrite list_lookup_insert_ne by done. by apply Hb.
  - intros e. rewrite (concat_insert_perm _ _ c) by done.
    rewrite elem_of_app. intros [He|He]; [by apply Hc'|].
    apply Hh. rewrite (concat_lookup_perm _ _ _ Hc). rewrite elem_of_app. by right.
Qed.

Lemma search_elems h k :
  wf h → eq_is_equality h →
  ∃ r, htable_search h k = Some r ∧
    ((k, r) ∈ elems h ∨ (k ∉ (elems h).*1 ∧ r = 0)).
Proof.
  intros Hwf Heq. unfold htable_search.
  destruct (wf_chain h (do_hash h k) Hwf) as [c Hc]. rewrite Hc. simpl.
  pose proof (chain_search_spec h k c Heq (wf_chain_hash _ _ _ Hwf Hc)) as Hs.
  destruct (chain_search _ _ _ _) as [v|]; (eexists; split; [done|]).
  - destruct Hs as (e & He & <- & <-). left. by eapply elem_of_elems.
  - right. split; [|done]. intros ([k' v] & -> & Hk)%list_elem_of_fmap.
    destruct (key_on_chain _ _ _ _ Hwf Hc Hk) as (e & ? & ? & ?). by eapply Hs.
Qed.

Lemma absent_key h k c :
  wf h → table h !! Z.to_nat (indexFor (table_length h) (do_hash h k)) = Some c →
  (∀ e, e ∈ c → key e ≠ k) → k ∉ (elems h).*1.
Proof.
  intros Hwf Hc Hn ([k' v] & -> & Hk)%list_elem_of_fmap.
  destruct (key_on_chain _ _ _ _ Hwf Hc Hk) as (e & ? & ? & ?). by eapply Hn.
Qed.

Lemma expand_set_count h n b1 b2 :
  hashtable_expand (set_count h n) b1 b2 =
  (λ '(r, h'), (r, set_count h' n)) <$> hashtable_expand h b1 b2.
Proof.
  unfold hashtable_expand; simpl. case_test; [done|].
  set (i := u32 (prime_index h + 1)). clearbody i.
  destruct (primes !! Z.to_nat i) as [s1|]; simpl; [|done].
  destruct (primes !! Z.to_nat (i - 1)) as [s2|]; simpl; [|done].
  destruct (load_factors !! Z.to_nat i) as [lim|]; simpl; [|done].
  destruct b1, b2; simpl; [done..| |done]. by repeat case_match.
Qed.

Lemma u32_pred_succ x : fits 32 x → u32 (u32 (x + 1) - 1) = x.
Proof.
  unfold wrap, fits. intros. rewrite Zminus_mod_idemp_l. rewrite Z.mod_small; lia.
Qed.

Lemma set_count_id h : set_count h (entry_count h) = h.
Proof. by destruct h. Qed.

Lemma wf_count_fits h : wf h → fits 32 (entry_count h).
Proof. intros Hwf. rewrite (wf_count _ Hwf). by apply wrap_fits. Qed.

(** The table an insertion stores into, after the load-limit test. *)
Lemma insert_expand h n a :
  wf h → no_plan_b a →
  ∃ h1, (if n >? load_limit (set_count h n)
         then snd <$> hashtable_expand (set_count h n) (table_ok a) (realloc_ok a)
         else Some (set_count h n)) = Some (set_count h1 n) ∧
    wf h1 ∧ same_fns h h1 ∧ entry_count h1 = entry_count h ∧
    concat (table h1) ≡ₚ concat (table h).
Proof.
  intros Hwf Ha. case_test; [|by exists h].
  rewrite expand_set_count.
  destruct (expand_spec h _ _ Hwf Ha) as (r & h1 & -> & ?). simpl. by exists h1.
Qed.

Lemma insert_elems h k v a :
  wf h → no_plan_b a →
  ∃ r h', htable_insert h k v a = Some (r, h') ∧ wf h' ∧ same_fns h h' ∧
    (if entry_ok a then r = -1 ∧ elems h' ≡ₚ (k, v) :: elems h
     else r = 0 ∧ elems h' ≡ₚ elems h ∧ htable_count h' = htable_count h).
Proof.
  intros Hwf Ha. unfold htable_insert.
  destruct (insert_expand h (u32 (entry_count h + 1)) a Hwf Ha)
    as (h1 & -> & Hwf1 & Hfn & Hec & Hp). simpl.
  destruct (entry_ok a); simpl.
  2: { eexists _, _. split; [done|]. unfold htable_count; simpl.
       rewrite u32_pred_succ by (by apply wf_count_fits).
       rewrite <-Hec. split_and!; [|done|done| |done].
       - change (wf (set_count h1 (entry_count h1))). by rewrite set_count_id.
       - unfold elems; simpl. by rewrite Hp. }
  rewrite (do_hash_ext h1) by done.
  destruct (wf_chain h1 (do_hash h1 k) Hwf1) as [c Hc]. rewrite Hc. simpl.
  eexists _, _. split; [done|]. split_and!; [|done|done|].
  - apply (wf_set_chain h1 _ c _ (u32 (entry_count h + 1)) Hwf1 Hc).
    + intros e [->|He]%elem_of_cons; [done|].
      split; [by eapply (wf_bucketed _ Hwf1)|by eapply wf_chain_hash].
    + rewrite (concat_insert_perm _ _ c) by done. simpl.
      rewrite <-Hec, (wf_count _ Hwf1), (concat_lookup_perm _ _ _ Hc).
      unfold wrap. rewrite Zplus_mod_idemp_l. f_equal. lia.
  - unfold elems at 1; simpl. rewrite (concat_insert_perm _ _ c) by done. simpl.
    unfold elems. rewrite <-Hp, (concat_lookup_perm _ _ _ Hc). done.
Qed.

Lemma remove_elems h k b :
  wf h → eq_is_equality h →
  ∃ r fr h', htable_remove h k b = Some (r, fr, h') ∧ wf h' ∧ same_fns h h' ∧
    ((elems h ≡ₚ (k, r) :: elems h') ∨ (k ∉ (elems h).*1 ∧ r = 0 ∧ h' = h)).
Proof.
  intros Hwf Heq. unfold htable_remove.
  destruct (wf_chain h (do_hash h k) Hwf) as [c Hc]. rewrite Hc. simpl.
  pose proof (chain_remove_spec h k c Heq (wf_chain_hash _ _ _ Hwf Hc)) as Hr.
  destruct (chain_remove _ _ _ _) as [[e c']|]; (eexists _, _, _; split; [done|]).
  2: { split_and!; [done..|]. right. split_and!; [by eapply absent_key|done..]. }
  destruct Hr as [Hp <-]. split_and!; [|done|left].
  - apply (wf_set_chain h _ c _ _ Hwf Hc).
    + intros x Hx. assert (x ∈ c) by (rewrite Hp; by right).
      split; [by eapply (wf_bucketed _ Hwf)|by eapply wf_chain_hash].
    + rewrite (wf_count _ Hwf), (concat_insert_perm _ _ c), (concat_lookup_perm _ _ _ Hc), Hp
        by done.
      unfold wrap. rewrite Zminus_mod_idemp_l. f_equal. simpl. lia.
  - unfold elems; simpl. rewrite (concat_insert_perm _ _ c), (concat_lookup_perm _ _ _ Hc), Hp
      by done. done.
Qed.

(** The shared body of [htable_change], [htable_inc] and [htable_dec]. *)
Lemma update_elems h k f c :
  wf h → eq_is_equality h →
  table h !! Z.to_nat (indexFor (table_length h) (do_hash h k)) = Some c →
  match chain_update h (do_hash h k) k f c with
  | Some (old, c') =>
      let h' := set_table h (<[Z.to_nat (indexFor (table_length h) (do_hash h k)) := c']> (table h)) in
      wf h' ∧ ∃ rest, elems h ≡ₚ (k, old) :: rest ∧ elems h' ≡ₚ (k, f old) :: rest
  | None => k ∉ (elems h).*1
  end.
Proof.
  intros Hwf Heq Hc.
  pose proof (chain_update_spec h k c Heq (wf_chain_hash _ _ _ Hwf Hc) f) as Hu.
  destruct (chain_update _ _ _ _ _) as [[old c']|]; [|by eapply absent_key].
  destruct Hu as (e & rest & Hp & <- & <- & Hp').
  assert (e ∈ c) as He by (rewrite Hp; left).
  split.
  - apply (wf_set_chain h _ c _ (entry_count h) Hwf Hc).
    + intros x. rewrite Hp'. intros [->|Hx]%elem_of_cons; simpl.
      * split; [by eapply (wf_bucketed _ Hwf)|by eapply wf_chain_hash].
      * assert (x ∈ c) by (rewrite Hp; by right).
        split; [by eapply (wf_bucketed _ Hwf)|by eapply wf_chain_hash].
    + rewrite (wf_count _ Hwf), (concat_insert_perm _ _ c), (concat_lookup_perm _ _ _ Hc), Hp, Hp'
        by done. done.
  - exists ((pair_of <$> rest) ++ (pair_of <$> concat (delete
      (Z.to_nat (indexFor (table_length h) (do_hash h (key e)))) (table h)))).
    unfold elems; simpl.
    rewrite (concat_insert_perm _ _ c), (concat_lookup_perm _ _ _ Hc), Hp, Hp' by done.
    by rewrite !fmap_app.
Qed.

(** ** Lemmas: the operations on the map *)

Lemma same_fns_eq h h' : same_fns h h' → eq_is_equality h → eq_is_equality h'.
Proof. intros [_ E] He a b. rewrite E. apply He. Qed.

Section rep.
Context (h : hashtable) (m : gmap Z Z) (Hrep : rep h m).

Lemma rep_lookup k v : (k, v) ∈ elems h ↔ m !! k = Some v.
Proof using Hrep. rewrite (rep_elems _ _ Hrep). apply elem_of_map_to_list. Qed.

Lemma rep_absent k : k ∉ (elems h).*1 → m !! k = None.
Proof using Hrep.
  intros Hk. destruct (m !! k) as [v|] eqn:E; [|done].
  apply rep_lookup in E. destruct Hk. apply list_elem_of_fmap. by exists (k, v).
Qed.

(** A table whose pairs are those of [h] with key [k] taken out. *)
Lemma rep_delete h' k v :
  wf h' → same_fns h h' → elems h ≡ₚ (k, v) :: elems h' →
  m !! k = Some v ∧ rep h' (delete k m).
Proof using Hrep.
  intros ? ? Hp. assert (m !! k = Some v) as Hk by (apply rep_lookup; rewrite Hp; left).
  split; [done|]. split; [done|by eapply same_fns_eq, Hrep|].
  eapply Permutation_cons_inv. rewrite <-Hp, (rep_elems _ _ Hrep).
  symmetry. by apply map_to_list_delete.
Qed.

Lemma rep_update h' k f old rest :
  wf h' → same_fns h h' → elems h ≡ₚ (k, old) :: rest → elems h' ≡ₚ (k, f old) :: rest →
  m !! k = Some old ∧ rep h' (<[k := f old]> m).
Proof using Hrep.
  intros ? ? Hp Hp'. assert (m !! k = Some old) as Hk by (apply rep_lookup; rewrite Hp; left).
  split; [done|]. split; [done|by eapply same_fns_eq, Hrep|].
  rewrite Hp', <-insert_delete_eq.
  rewrite map_to_list_insert by apply lookup_delete_eq. f_equiv.
  eapply Permutation_cons_inv. rewrite <-Hp, (rep_elems _ _ Hrep).
  symmetry. by apply map_to_list_delete.
Qed.

Lemma exec_insert k v a :
  m !! k = None → no_plan_b a →
  ∃ h', htable_insert h k v a = Some ((spec (OInsert k v a) m).1, h') ∧
        rep h' (spec (OInsert k v a) m).2.
Proof using Hrep.
  intros Hk Ha. destruct Hrep as [Hwf Heq Hel].
  destruct (insert_elems h k v a Hwf Ha) as (r & h' & -> & Hwf' & Hfn & Hr).
  exists h'. simpl. destruct (entry_ok a).
  - destruct Hr as [-> Hp]. split; [done|]. split; [done|by eapply same_fns_eq|].
    simpl. by rewrite Hp, Hel, map_to_list_insert.
  - destruct Hr as (-> & Hp & _). split; [done|]. split; [done|by eapply same_fns_eq|].
    by rewrite Hp.
Qed.

Lemma exec_search k : htable_search h k = Some (default 0 (m !! k)).
Proof using Hrep.
  destruct (search_elems h k (rep_wf _ _ Hrep) (rep_eq _ _ Hrep)) as (r & -> & [Hr|[Hr ->]]).
  - apply rep_lookup in Hr. by rewrite Hr.
  - by rewrite (rep_absent k Hr).
Qed.

Lemma exec_remove k b :
  ∃ fr h', htable_remove h k b = Some (default 0 (m !! k), fr, h') ∧ rep h' (delete k m).
Proof using Hrep.
  destruct (remove_elems h k b (rep_wf _ _ Hrep) (rep_eq _ _ Hrep))
    as (r & fr & h' & -> & Hwf' & Hfn & [Hr|(Hr & -> & ->)]); exists fr.
  - destruct (rep_delete h' k r Hwf' Hfn Hr) as [-> ?]. by exists h'.
  - exists h. rewrite (rep_absent k Hr). split; [done|].
    by rewrite delete_id by (by apply rep_absent).
Qed.

(** The three updating walks at once. *)
Lemma exec_update k f :
  ∃ c, table h !! Z.to_nat (indexFor (table_length h) (do_hash h k)) = Some c ∧
  match chain_update h (do_hash h k) k f c with
  | Some (old, c') => (map_update m k f).1 = -1 ∧
      rep (set_table h (<[Z.to_nat (indexFor (table_length h) (do_hash h k)) := c']> (table h)))
          (map_update m k f).2
  | None => map_update m k f = (0, m)
  end.
Proof using Hrep.
  pose proof Hrep as [Hwf Heq _].
  destruct (wf_chain h (do_hash h k) Hwf) as [c Hc]. exists c. split; [done|].
  pose proof (update_elems h k f c Hwf Heq Hc) as Hu. unfold map_update.
  destruct (chain_update _ _ _ _ _) as [[old c']|].
  - destruct Hu as (Hwf' & rest & Hp & Hp').
    by destruct (rep_update _ k f old rest Hwf' (conj eq_refl eq_refl) Hp Hp') as [-> ?].
  - by rewrite (rep_absent k Hu).
Qed.

Lemma rep_count : htable_count h = u32 (Z.of_nat (size m)).
Proof using Hrep.
  unfold htable_count. rewrite (wf_count _ (rep_wf _ _ Hrep)). do 2 f_equal.
  rewrite <-length_map_to_list, <-(rep_elems _ _ Hrep). unfold elems. by rewrite length_fmap.
Qed.
End rep.

Lemma exec_spec o h m :
  rep h m → allowed o m →
  ∃ h', exec o h = Some ((spec o m).1, h') ∧ rep h' (spec o m).2.
Proof.
  intros Hrep Ho. destruct o as [k v a|k|k b|k v b|k v|k v|]; simpl in Ho |- *.
  - destruct Ho. by apply exec_insert.
  - rewrite (exec_search h m) by done. by exists h.
  - destruct (exec_remove h m Hrep k b) as (fr & h' & -> & ?). by exists h'.
  - destruct (exec_update h m Hrep k (λ _, v)) as (c & Hc & Hu).
    unfold htable_change. rewrite Hc; simpl.
    destruct (chain_update _ _ _ _ _) as [[old c']|]; [destruct Hu as [-> ?]|rewrite Hu]; eauto.
  - destruct (exec_update h m Hrep k (λ x, u64 (x + v))) as (c & Hc & Hu).
    unfold htable_inc. rewrite Hc; simpl.
    destruct (chain_update _ _ _ _ _) as [[old c']|]; [destruct Hu as [-> ?]|rewrite Hu]; eauto.
  - destruct (exec_update h m Hrep k (λ x, u64 (x - v))) as (c & Hc & Hu).
    unfold htable_dec. rewrite Hc; simpl.
    destruct (chain_update _ _ _ _ _) as [[old c']|]; [destruct Hu as [-> ?]|rewrite Hu]; eauto.
  - rewrite (rep_count h m) by done. by exists h.
Qed.

Lemma run_spec os h m :
  rep h m → all_allowed os m →
  ∃ h', run os h = Some ((spec_run os m).1, h') ∧ rep h' (spec_run os m).2.
Proof.
  revert h m. induction os as [|o os IH]; intros h m Hrep; simpl; [by exists h|].
  intros [Ho Hos]. destruct (exec_spec o h m Hrep Ho) as (h1 & -> & Hrep1). simpl.
  destruct (IH h1 _ Hrep1 Hos) as (h2 & -> & Hrep2). exists h2.
  destruct (spec o m) as [r m1]; simpl in *. by destruct (spec_run os m1).
Qed.

Lemma find_prime_spec ps i n :
  Exists (λ p, n < p) ps →
  ∃ j p, find_prime ps i n = (i + Z.of_nat j, p) ∧ ps !! j = Some p ∧ n < p.
Proof.
  revert i. induction ps as [|p ps IH]; intros i; simpl.
  { by intros ?%Exists_nil. }
  intros Hex. case_test; [exists 0%nat, p; rewrite Z.add_0_r; done|].
  apply Exists_cons in Hex as [?|Hex]; [lia|].
  destruct (IH (i + 1) Hex) as (j & q & -> & ? & ?). exists (S j), q.
  split_and!; [f_equal; lia|done..].
Qed.

Lemma create_rep n hf ef :
  n ≤ 2 ^ 30 → (∀ a b, ef a b = bool_decide (a = b)) →
  ∃ h, create_htable n hf ef true true = Some (Some h) ∧ rep h ∅ ∧ n < table_length h.
Proof.
  intros Hn He. unfold create_htable. case_test; [lia|].
  destruct (find_prime_spec primes 0 n) as (j & p & -> & Hp & Hlt).
  { unfold primes. do 25 apply Exists_cons_tl. apply Exists_cons_hd. lia. }
  assert (j < 26)%nat as Hj by (by apply lookup_lt_Some in Hp).
  destruct (prime_lookups (Z.of_nat j)) as [_ [lim El]]; [unfold prime_table_len; lia|].
  rewrite Z.add_0_l. cbn iota beta zeta delta [negb]. rewrite El. simpl.
  eexists. split; [done|]. split; [|done].
  pose proof (primes_pos _ _ Hp).
  split; [|done|unfold elems; simpl; by rewrite concat_replicate_nil].
  split; simpl; try done; [by rewrite Nat2Z.id|unfold prime_table_len; lia
    |rewrite length_replicate; lia|apply bucketed_empty| |].
  - intros e. rewrite concat_replicate_nil. by intros ?%not_elem_of_nil.
  - by rewrite concat_replicate_nil.
Qed.

(** ** The table as a store of handles

    The functions of [src/enclave_fs.c] that it is created with: [file_hash_fn]
    is [hash_long] and [file_eq_fn] compares keys. *)
Definition file_hash_fn (key : Z) : Z := hash_long key.
Definition file_eq_fn (key1 key2 : Z) : bool := key1 =? key2.

(** [kmalloc] results: of the two blocks of [create_htable], and of an insertion. *)
Record store_env := { htable_ok : bool; chains_ok : bool; insert_ok : allocs }.

#[export] Instance hashtable_store : StoreOps hashtable store_env := {
  store_create e := create_htable 0 file_hash_fn file_eq_fn (htable_ok e) (chains_ok e);
  store_search := htable_search;
  store_insert t k v e := htable_insert t k v (insert_ok e);
  store_remove t k := '(r, _, t') ← htable_remove t k false; Some (r, t');
  env_ok e := no_plan_b (insert_ok e);
  env_creates e := htable_ok e && chains_ok e;
  env_inserts e := entry_ok (insert_ok e)
}.

Definition table_holds (t : hashtable) (b : list (Z * Z)) : Prop :=
  wf t ∧ eq_is_equality t ∧ elems t ≡ₚ b.

Lemma file_eq_fn_spec a b : file_eq_fn a b = bool_decide (a = b).
Proof. unfold file_eq_fn. destruct (Z.eqb_spec a b); by case_bool_decide. Qed.

#[export] Instance hashtable_laws : StoreLaws hashtable store_env.
Proof.
  refine {| holds_bag := table_holds |}.
  - intros t b b' (? & ? & ?) Hp. split_and!; [done|done|]. by etrans.
  - intros e _ [H1 H2]%andb_prop. simpl in *. rewrite H1, H2.
    destruct (create_rep 0 file_hash_fn file_eq_fn) as (h & Hc & [Hwf Heq Hel] & _);
      [lia|exact file_eq_fn_spec|].
    exists h. split; [done|]. split_and!; [done|done|]. by rewrite map_to_list_empty in Hel.
  - intros t b k (Hwf & Heq & Hp). destruct (search_elems t k Hwf Heq) as (r & Hr & Hc).
    exists r. split; [done|]. by rewrite <-!Hp.
  - intros t b k v e (Hwf & Heq & Hp) He.
    destruct (insert_elems t k v (insert_ok e) Hwf He) as (r & t' & Hr & Hwf' & Hfn & Hc).
    exists r, t'. split; [done|]. split_and!; [done|by eapply same_fns_eq|]. simpl.
    destruct (entry_ok _); [destruct Hc as [_ Hc]|destruct Hc as (_ & Hc & _)]; by rewrite Hc, Hp.
  - intros t b k (Hwf & Heq & Hp).
    destruct (remove_elems t k false Hwf Heq) as (r & fr & t' & Hr & Hwf' & Hfn & Hc).
    exists r, t'. split; [simpl; by rewrite Hr|].
    assert (eq_is_equality t') by (by eapply same_fns_eq).
    destruct Hc as [Hc|(Hn & -> & ->)].
    + left. exists (elems t'). split; [by rewrite <-Hp|by split_and!].
    + right. split_and!; [by rewrite <-Hp|done|]. by split_and!.
Defined.

(** ** Properties *)

(** C4: A table fresh from [create_htable], driven by any sequence of
    insertions of absent keys, searches, removals, changes, increments,
    decrements and counts, answers exactly like a finite map from keys to
    values, through every growth of the table and every failed [kmalloc] of an
    insertion (other than the Plan B one): each operation returns without
    undefined behaviour, with the map's result, and the entry count is the
    map's size modulo [2^32]. *)
Theorem htable_refines_map (n : Z) (hf : Z → Z) (ef : Z → Z → bool) (os : list op)
    (Hn : n ≤ 2 ^ 30) (Hef : ∀ a b, ef a b = bool_decide (a = b))
    (Hos : all_allowed os ∅) :
  ∃ h0 h, create_htable n hf ef true true = Some (Some h0) ∧
    run os h0 = Some ((spec_run os ∅).1, h) ∧ rep h (spec_run os ∅).2.
Proof.
  destruct (create_rep n hf ef Hn Hef) as (h0 & Hc & Hrep & _).
  destruct (run_spec os h0 ∅ Hrep Hos) as (h & ? & ?). by exists h0, h.
Qed.

Definition alloc_all : allocs := {| table_ok := true; realloc_ok := true; entry_ok := true |}.
Definition demo_ops : list op :=
  [OInsert 1 10 alloc_all; OInsert 54 20 alloc_all; OSearch 1; OInc 54 5; ORemove 1 false;
   OSearch 1; ODec 54 26; OCount].

Lemma htable_refines_map_witness :
  ∃ h0 h, create_htable 0 hash_long Z.eqb true true = Some (Some h0) ∧
    run demo_ops h0 = Some ([-1; -1; 10; -1; 10; 0; -1; 1], h) ∧
    rep h {[54 := 2 ^ 64 - 1]}.
Proof.
  apply (htable_refines_map 0 hash_long Z.eqb demo_ops); [lia| |].
  - intros a b. destruct (Z.eqb_spec a b); by case_bool_decide.
  - by repeat split.
Defined.

(** [hashtable_expand] never continues past its fallback: when the new
    table cannot be allocated but the reallocation can, every well-formed table
    below the largest size runs into undefined behaviour (the [memset] writes
    through the pointer stored at [table_length] instead of clearing the new
    tail of the table). *)
Theorem expand_fallback_undefined (h : hashtable)
    (Hwf : wf h) (Hp : prime_index h ≠ prime_table_len - 1) :
  hashtable_expand h false true = None.
Proof.
  unfold hashtable_expand. case_test; [done|].
  pose proof (wf_index _ Hwf). unfold prime_table_len in *.
  assert (u32 (prime_index h + 1) = prime_index h + 1) as -> by (unwrap; lia).
  destruct (prime_lookups (prime_index h + 1)) as [[sz En] [lim El]];
    [unfold prime_table_len; lia|].
  rewrite En, El, Z.add_simpl_r, (wf_prime _ Hwf). simpl. by repeat case_match.
Qed.

Definition demo_table : hashtable :=
  {| table_length := 53; table := replicate 53 []; entry_count := 0; load_limit := 35;
     prime_index := 0; hash_fn := hash_long; eq_fn := Z.eqb |}.

Lemma expand_fallback_undefined_witness :
  hashtable_expand demo_table false true = None.
Proof.
  apply (expand_fallback_undefined demo_table); [|done].
  split; simpl; try done; [apply (bucketed_empty 53 53)|].
  by intros e ?%not_elem_of_nil.
Defined.

(** [free_htable] gives each entry stored in the table to [kfree] exactly
    once, its key and its value exactly when asked to, and then the table and
    the [struct hashtable], once each and last. *)
Theorem free_htable_frees_each_once (h : hashtable) (free_values free_keys : bool) :
  ∃ fs, free_htable h free_values free_keys = fs ++ [FreeTable; FreeHtable] ∧
    fs ≡ₚ (FreeEntry <$> concat (table h)) ++
          (if free_keys then FreeKey <$> (elems h).*1 else []) ++
          (if free_values then FreeValue <$> (elems h).*2 else []).
Proof.
  eexists. split; [done|]. unfold elems. generalize (table h) as t. clear h. intros t.
  assert (∀ c, free_chain free_values free_keys c ≡ₚ (FreeEntry <$> c) ++
    (if free_keys then FreeKey <$> (pair_of <$> c).*1 else []) ++
    (if free_values then FreeValue <$> (pair_of <$> c).*2 else [])) as Hc.
  { intros c. induction c as [|e c IH]; [by destruct free_keys, free_values|].
    cbn -[app]. rewrite IH. destruct free_keys, free_values; simpl; solve_Permutation. }
  induction t as [|c t IH]; [by destruct free_keys, free_values|].
  cbn -[app]. rewrite Hc, IH, !fmap_app.
  destruct free_keys, free_values; solve_Permutation.
Qed.

(** The shift-and-add sequence of the 64-bit [hash_long] multiplies by the
    golden ratio prime modulo [2^64], as its comment promises, and keeps the
    high half of the product. *)
Theorem hash_long_64_is_product (val : Z) :
  hash_long_64 val = u32 (Z.shiftr (u64 (val * GOLDEN_RATIO_PRIME_64)) 32).
Proof.
  assert (∀ x, ∃ q, u64 x = x + q * 2 ^ 64) as Hu.
  { intros x. exists (- (x / 2 ^ 64)). unfold wrap. rewrite Zmod_eq; lia. }
  unfold hash_long_64. rewrite !Z.shiftl_mul_pow2 by lia. do 2 f_equal.
  repeat match goal with
  | |- context [u64 ?x] =>
      lazymatch x with
      | context [u64 _] => fail
      | val * GOLDEN_RATIO_PRIME_64 => fail
      | _ => let q := fresh "q" in
             lazymatch goal with
             | |- u64 x = _ => fail
             | _ => destruct (Hu x) as [q ->]
             end
      end
  end.
  unfold wrap, GOLDEN_RATIO_PRIME_64.
  rewrite <-(Z_mod_plus_full (val * 11400862456688148481)
    (- q + q0 - q * 2 ^ 33 - q1 + q2 + q * 2 ^ 36 + q1 * 2 ^ 3 + q3 + q4
     - (q * 2 ^ 39 + q1 * 2 ^ 6 + q3 * 2 ^ 3 + q5) + q6
     + (q * 2 ^ 43 + q1 * 2 ^ 10 + q3 * 2 ^ 7 + q5 * 2 ^ 4 + q7) + q8
     + (q * 2 ^ 45 + q1 * 2 ^ 12 + q3 * 2 ^ 9 + q5 * 2 ^ 6 + q7 * 2 ^ 2 + q9)) (2 ^ 64)).
  f_equal. ring.
Qed.

(** [hash_buffer] stays below [2^28] for every message: the top four bits
    are folded back in each round. *)
Theorem hash_buffer_bound (msg : list Z) : 0 ≤ hash_buffer msg < 2 ^ 28.
Proof.
  unfold hash_buffer.
  assert (∀ msg hash i, fits 28 hash → fits 28 (hash_buffer_from hash i msg)) as H;
    [|by apply H].
  clear msg. induction msg as [|c msg IH]; intros hash i Hf; simpl; [done|].
  apply IH. unfold hash_buffer_round.
  assert (fits 32 (u32 (u32 (u32 (Z.shiftl hash 4) + c) + i))) as Hx by (by apply wrap_fits).
  revert Hx. generalize (u32 (u32 (u32 (Z.shiftl hash 4) + c) + i)) as x. intros x Hx.
  set (temp := Z.land x 4026531840).
  apply bits_fits; [done|]. intros j Hj. rewrite Z.land_spec.
  destruct (decide (32 ≤ j)) as [|Hj'].
  { unfold wrap. rewrite (Z.mod_pow2_bits_high (Z.lnot temp)) by lia. apply andb_false_r. }
  unfold wrap. rewrite (Z.mod_pow2_bits_low (Z.lnot temp)), Z.lnot_spec by lia.
  assert (Z.testbit temp j = Z.testbit x j) as ->.
  { unfold temp. rewrite Z.land_spec. replace (Z.testbit 4026531840 j) with true; [by rewrite andb_true_r|].
    assert (j = 28 ∨ j = 29 ∨ j = 30 ∨ j = 31) as [->| [->| [->| ->]]] by lia; done. }
  assert (Z.testbit (Z.shiftr temp 24) j = false) as Ht.
  { rewrite Z.shiftr_spec by lia. unfold temp. rewrite Z.land_spec.
    by rewrite (fits_bits 32 x) by (done || lia). }
  case_test; [|rewrite Z.lxor_spec, Ht, xorb_false_r]; apply andb_negb_r.
Qed.
