(* ===== verification/Xbuf.v ===== *)
(** * Cross-enclave message buffers: the code ([src/pisces_xbuf.c])

    An xbuf is memory shared by two operating systems: a flag word updated with
    locked instructions, a length and a data area of [total_size] bytes.  A
    message longer than the area is moved chunk by chunk under the STAGED flag.
    The functions that both sides run concurrently are machines here: one
    constructor of a program counter per access of the shared memory, one step
    function per C function.  [None] from a step is behaviour C leaves
    undefined (a [memcpy] outside of an object, or to NULL).  The data area is
    copied in one step; [XbufRpc] proves that no other access overlaps it. *)
From S2P Require Import Prelude.

(** ** The code: the shared structure *)

Definition XBUF_READY : Z := 0x01.
Definition XBUF_PENDING : Z := 0x02.
Definition XBUF_STAGED : Z := 0x04.
Definition XBUF_ACTIVE : Z := 0x08.
Definition XBUF_COMPLETE : Z := 0x10.

Record xbuf := {
  flags : Z;
  host_apic : Z;
  host_vector : Z;
  enclave_cpu : Z;
  enclave_vector : Z;
  total_size : Z;
  data_len : Z;
  data : list byte
}.

(** [sizeof(struct pisces_xbuf)]: the flags and six 32-bit words. *)
Definition sizeof_xbuf : Z := 8 + 6 * 4.

Definition with_flags (x : xbuf) (v : Z) : xbuf :=
  {| flags := v; host_apic := host_apic x; host_vector := host_vector x;
     enclave_cpu := enclave_cpu x; enclave_vector := enclave_vector x;
     total_size := total_size x; data_len := data_len x; data := data x |}.

Definition with_data_len (x : xbuf) (v : Z) : xbuf :=
  {| flags := flags x; host_apic := host_apic x; host_vector := host_vector x;
     enclave_cpu := enclave_cpu x; enclave_vector := enclave_vector x;
     total_size := total_size x; data_len := v; data := data x |}.

Definition with_data (x : xbuf) (v : list byte) : xbuf :=
  {| flags := flags x; host_apic := host_apic x; host_vector := host_vector x;
     enclave_cpu := enclave_cpu x; enclave_vector := enclave_vector x;
     total_size := total_size x; data_len := data_len x; data := v |}.

(** The bit fields laid over [flags]. *)
Definition ready (x : xbuf) : bool := Z.testbit (flags x) 0.
Definition pending (x : xbuf) : bool := Z.testbit (flags x) 1.
Definition staged (x : xbuf) : bool := Z.testbit (flags x) 2.
Definition active (x : xbuf) : bool := Z.testbit (flags x) 3.
Definition complete (x : xbuf) : bool := Z.testbit (flags x) 4.

Definition reset_flags (x : xbuf) : xbuf := with_flags x (Z.land (flags x) XBUF_READY).
Definition set_flags (x : xbuf) (new_flags : Z) : xbuf := with_flags x new_flags.
Definition raise_flag (x : xbuf) (f : Z) : xbuf := with_flags x (Z.lor (flags x) f).
Definition lower_flag (x : xbuf) (f : Z) : xbuf :=
  with_flags x (Z.land (flags x) (u64 (Z.lnot f))).

(** ** The code: one chunk at a time *)

(** [(left > xbuf_size) ? xbuf_size : left] *)
Definition chunk_len (xbuf_size left : Z) : Z :=
  if left >? xbuf_size then xbuf_size else left.

(** [init_stage_data], an access at a time. *)
Inductive stage_pc := GLen | GCopy | GRaise.

Definition init_stage_data_step (pc : stage_pc) (msg : list byte) (x : xbuf)
  : option (option stage_pc * xbuf) :=
  match pc with
  | GLen => Some (Some GCopy, with_data_len x (zlen msg))
  | GCopy =>
      d ← slice msg 0 (chunk_len (total_size x) (zlen msg));
      d ← blit (data x) 0 d;
      Some (Some GRaise, with_data x d)
  | GRaise => Some (None, raise_flag x XBUF_STAGED)
  end.

(** [send_data]: [SCheck] is the test of [ready] at the head of the loop,
    [SWait] the test of [staged], [SWaitReady] the test of [ready] while
    waiting, [SCopy] the [memcpy], [SRaise] the rest of the body. *)
Inductive send_pc := SCheck | SWait | SWaitReady | SCopy | SRaise.

Record sending := {
  s_pc : send_pc;
  s_size : Z;              (* xbuf_size *)
  s_data : list byte;
  bytes_sent : Z;
  s_left : Z               (* bytes_left *)
}.

Inductive send_result := SRun (s : sending) | SRet (ret : Z).

Definition s_goto (s : sending) (pc : send_pc) : sending :=
  {| s_pc := pc; s_size := s_size s; s_data := s_data s;
     bytes_sent := bytes_sent s; s_left := s_left s |}.

(** The test of the [while] of [send_data]. *)
Definition send_loop (s : sending) : send_result :=
  if s_left s >? 0 then SRun (s_goto s SCheck) else SRet (bytes_sent s).

Definition send_data (x : xbuf) (d : list byte) (data_len : Z) : send_result :=
  send_loop {| s_pc := SCheck; s_size := total_size x; s_data := d;
               bytes_sent := 0; s_left := data_len |}.

Definition send_step (s : sending) (x : xbuf) : option (send_result * xbuf) :=
  let staged_len := chunk_len (s_size s) (s_left s) in
  match s_pc s with
  | SCheck => Some (if ready x then SRun (s_goto s SWait) else SRet 0, x)
  | SWait => Some (SRun (s_goto s (if staged x then SWaitReady else SCopy)), x)
  | SWaitReady => Some (if ready x then SRun (s_goto s SWait) else SRet 0, x)
  | SCopy =>
      d ← slice (s_data s) (bytes_sent s) staged_len;
      d ← blit (data x) 0 d;
      Some (SRun (s_goto s SRaise), with_data x d)
  | SRaise =>
      Some (send_loop {| s_pc := SCheck; s_size := s_size s; s_data := s_data s;
                         bytes_sent := u32 (bytes_sent s + staged_len);
                         s_left := u32 (s_left s - staged_len) |},
            raise_flag x XBUF_STAGED)
  end.

(** [recv_data], likewise.  [r_buf] is the block [kmalloc] returned, whose
    contents are whatever they are; NULL is [None]. *)
Inductive recv_pc := RCheck | RWait | RWaitReady | RCopy | RLower.

Record receiving := {
  r_pc : recv_pc;
  r_size : Z;              (* xbuf_size *)
  r_buf : option (list byte);
  bytes_read : Z;
  r_left : Z               (* bytes_left *)
}.

(** The value returned and the block stored through [data]. *)
Inductive recv_result := RRun (r : receiving) | RRet (ret : Z) (buf : option (list byte)).

Definition r_goto (r : receiving) (pc : recv_pc) : receiving :=
  {| r_pc := pc; r_size := r_size r; r_buf := r_buf r;
     bytes_read := bytes_read r; r_left := r_left r |}.

Definition recv_loop (r : receiving) : recv_result :=
  if r_left r >? 0 then RRun (r_goto r RCheck) else RRet (bytes_read r) (r_buf r).

Definition recv_data (kmalloc : Z → option (list byte)) (x : xbuf) : recv_result :=
  recv_loop {| r_pc := RCheck; r_size := total_size x; r_buf := kmalloc (data_len x);
               bytes_read := 0; r_left := data_len x |}.

Definition recv_step (r : receiving) (x : xbuf) : option (recv_result * xbuf) :=
  let staged_len := chunk_len (r_size r) (r_left r) in
  match r_pc r with
  | RCheck => Some (if ready x then RRun (r_goto r RWait) else RRet 0 (r_buf r), x)
  | RWait => Some (RRun (r_goto r (if staged x then RCopy else RWaitReady)), x)
  | RWaitReady => Some (if ready x then RRun (r_goto r RWait) else RRet 0 (r_buf r), x)
  | RCopy =>
      buf ← r_buf r;
      d ← slice (data x) 0 staged_len;
      buf ← blit buf (bytes_read r) d;
      Some (RRun {| r_pc := RLower; r_size := r_size r; r_buf := Some buf;
                    bytes_read := bytes_read r; r_left := r_left r |}, x)
  | RLower =>
      Some (recv_loop {| r_pc := RCheck; r_size := r_size r; r_buf := r_buf r;
                         bytes_read := u32 (bytes_read r + staged_len);
                         r_left := u32 (r_left r - staged_len) |},
            lower_flag x XBUF_STAGED)
  end.

(** ** The code: set-up and switching *)

(** A descriptor: whether [recv_handler] is set, and the irq it is served by. *)
Record pisces_xbuf_desc := { recv_handler : bool; irq : Z }.

(** What the initialisers do outside of the xbuf. *)
Inductive setup_event := RequestIrq | ReleaseIrq (irq : Z) | KfreeDesc.

Definition memset_xbuf (x : xbuf) : xbuf :=
  {| flags := 0; host_apic := 0; host_vector := 0; enclave_cpu := 0; enclave_vector := 0;
     total_size := 0; data_len := 0; data := data x |}.

(** The pointer returned ([None] is NULL), the xbuf, and what was done.
    [IS_ERR] is false of the NULL a failed [kmalloc] returns, which the
    [memset] then writes through. *)
Definition pisces_xbuf_server_init (x : xbuf) (total_bytes : Z) (handler : bool)
    (target_cpu : Z) (kmalloc_ok : bool) (pisces_request_irq : Z)
    (pisces_irq_to_vector : Z → Z)
  : option (option pisces_xbuf_desc * xbuf * list setup_event) :=
  if ready x then Some (None, x, []) else
  if negb kmalloc_ok then None else
  let x := memset_xbuf x in
  let irq := pisces_request_irq in
  if irq <? 0 then Some (None, x, [RequestIrq; KfreeDesc]) else
  let vector := pisces_irq_to_vector irq in
  if vector <? 0 then Some (None, x, [RequestIrq; ReleaseIrq irq; KfreeDesc]) else
  let x := {| flags := flags x; host_apic := target_cpu; host_vector := vector;
              enclave_cpu := enclave_cpu x; enclave_vector := enclave_vector x;
              total_size := u32 (total_bytes - sizeof_xbuf); data_len := data_len x;
              data := data x |} in
  Some (Some {| recv_handler := handler; irq := irq |}, x, [RequestIrq]).

Definition pisces_xbuf_server_deinit (d : pisces_xbuf_desc) (pisces_release_irq : Z → Z)
  : Z * list setup_event :=
  if negb (pisces_release_irq (irq d) =? 0) then (-1, [ReleaseIrq (irq d)])
  else (0, [ReleaseIrq (irq d); KfreeDesc]).

Definition pisces_xbuf_client_init (x : xbuf) (ipi_vector target_cpu : Z) (kmalloc_ok : bool)
  : option pisces_xbuf_desc * xbuf :=
  if negb kmalloc_ok then (None, x) else
  (Some {| recv_handler := false; irq := 0 |},
   {| flags := flags x; host_apic := host_apic x; host_vector := host_vector x;
      enclave_cpu := target_cpu; enclave_vector := ipi_vector;
      total_size := total_size x; data_len := data_len x; data := data x |}).

Definition pisces_xbuf_client_deinit (d : pisces_xbuf_desc) : list setup_event := [KfreeDesc].

(** The control channel is a client ([enclave_ctrl.c]).  It returns 0 with or without a
    descriptor. *)
Definition pisces_ctrl_init (x : xbuf) (kmalloc_ok : bool) : Z * (option pisces_xbuf_desc * xbuf) :=
  (0, pisces_xbuf_client_init x 0 0 kmalloc_ok).
Definition pisces_ctrl_deinit (d : pisces_xbuf_desc) : Z * list setup_event := (0, pisces_xbuf_client_deinit d).

Definition pisces_xbuf_pending (x : xbuf) : Z := Z.b2z (pending x).

Definition pisces_xbuf_disable (x : xbuf) : Z * xbuf :=
  if negb (ready x) then (-1, x) else (0, lower_flag x XBUF_READY).

Definition pisces_xbuf_enable (x : xbuf) : Z * xbuf :=
  if ready x then (-1, x) else (0, set_flags x XBUF_READY).

(** ** Invariant of a chunked transfer

    [m] is moved through a data area of [T] bytes; [sent] bytes of it have been
    staged and [read] bytes taken out again. *)
Definition mk_flags (p s a c : bool) : Z :=
  1 + 2 * Z.b2z p + 4 * Z.b2z s + 8 * Z.b2z a + 16 * Z.b2z c.

Section transfer.
Context (T : Z) (m : list byte).

Definition chunk_at (k : Z) : Z := chunk_len T (zlen m - k).

(** The data area holds the chunk of [m] that starts at [k]. *)
Definition holds (x : xbuf) (k : Z) : Prop :=
  take (Z.to_nat (chunk_at k)) (data x) =
  take (Z.to_nat (chunk_at k)) (drop (Z.to_nat k) m).

Definition sender_at (sent : Z) (s : option sending) (x : xbuf) : Prop :=
  match s with
  | None => sent = zlen m
  | Some s =>
      s_size s = T ∧ s_left s = zlen m - sent ∧ 0 < s_left s ∧
      0 ≤ bytes_sent s ≤ sent ∧ s_data s = drop (Z.to_nat (sent - bytes_sent s)) m ∧
      match s_pc s with
      | SCopy => staged x = false
      | SRaise => staged x = false ∧ holds x sent
      | _ => True
      end
  end.

(** [None] is a receiver that has not called [recv_data] yet. *)
Definition receiver_at (read : Z) (r : option receiving) (x : xbuf) : Prop :=
  match r with
  | None => read = 0
  | Some r =>
      r_size r = T ∧ r_left r = zlen m - read ∧ 0 < r_left r ∧ bytes_read r = read ∧
      ∃ buf, r_buf r = Some buf ∧ zlen buf = zlen m ∧
        take (Z.to_nat read) buf = take (Z.to_nat read) m ∧
        match r_pc r with
        | RCopy => staged x = true
        | RLower => staged x = true ∧
            take (Z.to_nat (read + chunk_at read)) buf = take (Z.to_nat (read + chunk_at read)) m
        | _ => True
        end
  end.

Record sized (x : xbuf) : Prop := {
  sized_total : total_size x = T;
  sized_data : zlen (data x) = T
}.

Definition xfer (s : option sending) (r : option receiving) (x : xbuf) : Prop :=
  sized x ∧ data_len x = zlen m ∧
  ∃ sent read, sender_at sent s x ∧ receiver_at read r x ∧ 0 ≤ read ∧ sent ≤ zlen m ∧
    if staged x then read < zlen m ∧ sent = read + chunk_at read ∧ holds x read
    else sent = read.
End transfer.

(** ** Lemmas: flags *)

Lemma flags_read x p s a c :
  flags x = mk_flags p s a c →
  ready x = true ∧ pending x = p ∧ staged x = s ∧ active x = a ∧ complete x = c.
Proof.
  unfold ready, pending, staged, active, complete. intros ->. by destruct p, s, a, c.
Qed.

Section flags.
Context (x : xbuf) (p s a c : bool) (Hx : flags x = mk_flags p s a c).

Lemma raise_pending : flags (raise_flag x XBUF_PENDING) = mk_flags true s a c.
Proof using Hx. simpl. rewrite Hx. by destruct p, s, a, c. Qed.
Lemma raise_staged : flags (raise_flag x XBUF_STAGED) = mk_flags p true a c.
Proof using Hx. simpl. rewrite Hx. by destruct p, s, a, c. Qed.
Lemma raise_active : flags (raise_flag x XBUF_ACTIVE) = mk_flags p s true c.
Proof using Hx. simpl. rewrite Hx. by destruct p, s, a, c. Qed.
Lemma raise_complete : flags (raise_flag x XBUF_COMPLETE) = mk_flags p s a true.
Proof using Hx. simpl. rewrite Hx. by destruct p, s, a, c. Qed.
Lemma lower_staged : flags (lower_flag x XBUF_STAGED) = mk_flags p false a c.
Proof using Hx. simpl. rewrite Hx. by destruct p, s, a, c. Qed.
Lemma reset_all : flags (reset_flags x) = mk_flags false false false false.
Proof using Hx. simpl. rewrite Hx. by destruct p, s, a, c. Qed.
End flags.

Lemma staged_raise x f : staged (raise_flag x f) = staged x || Z.testbit f 2.
Proof. apply Z.lor_spec. Qed.

Lemma staged_lower x : staged (lower_flag x XBUF_STAGED) = false.
Proof. unfold staged. cbn [flags lower_flag with_flags]. rewrite Z.land_spec. apply andb_false_r. Qed.

(** ** Lemmas: chunks *)

Section chunks.
Context (T : Z) (m : list byte) (HT : 0 < T) (Hm : zlen m < 2 ^ 32).
Local Notation chunk_at := (chunk_at T m).

Lemma chunk_at_bounds k :
  0 ≤ k < zlen m → 0 < chunk_at k ≤ T ∧ k + chunk_at k ≤ zlen m.
Proof using HT. unfold Xbuf.chunk_at, chunk_len. intros. case_test; lia. Qed.

(** What [SCopy] (and [GCopy]) put into the data area. *)
Lemma stage_chunk x d sent base :
  sized T x → 0 ≤ base ≤ sent → sent < zlen m →
  d = drop (Z.to_nat base) m →
  ∃ c l, slice d (sent - base) (chunk_at sent) = Some c ∧ blit (data x) 0 c = Some l ∧
    zlen l = T ∧ holds T m (with_data x l) sent.
Proof using HT.
  intros [_ Hd] Hb Hs ->. pose proof (chunk_at_bounds sent ltac:(lia)) as Hc.
  rewrite slice_Some by (rewrite ?length_drop; lia).
  rewrite drop_drop. replace (Z.to_nat base + Z.to_nat (sent - base))%nat with (Z.to_nat sent) by lia.
  set (c := take _ _). assert (zlen c = chunk_at sent) as Hlen.
  { unfold c. rewrite length_take, length_drop. lia. }
  eexists c, _. split; [done|]. rewrite blit_Some by lia. split; [done|].
  rewrite !length_app, length_take, length_drop. split; [lia|].
  unfold holds. simpl.
  rewrite take_app_le by lia. rewrite take_ge by lia. done.
Qed.

(** What [RCopy] takes out of it. *)
Lemma fetch_chunk x buf read :
  sized T x → zlen buf = zlen m → 0 ≤ read < zlen m → holds T m x read →
  take (Z.to_nat read) buf = take (Z.to_nat read) m →
  ∃ c buf', slice (data x) 0 (chunk_at read) = Some c ∧ blit buf read c = Some buf' ∧
    zlen buf' = zlen m ∧ take (Z.to_nat read) buf' = take (Z.to_nat read) m ∧
    take (Z.to_nat (read + chunk_at read)) buf' = take (Z.to_nat (read + chunk_at read)) m.
Proof using HT.
  intros [_ Hd] Hl Hr Hh Hp. pose proof (chunk_at_bounds read Hr) as Hc.
  rewrite slice_Some by lia. rewrite drop_0. unfold holds in Hh. rewrite Hh.
  set (c := take _ (drop _ m)). assert (zlen c = chunk_at read) as Hlen.
  { unfold c. rewrite length_take, length_drop. lia. }
  eexists c, _. split; [done|]. rewrite blit_Some by lia. split; [done|].
  rewrite !length_app, length_take, length_drop. split; [lia|]. split.
  - rewrite take_app_le by (rewrite length_take; lia). rewrite take_ge by (rewrite length_take; lia).
    done.
  - rewrite Hp, app_assoc. unfold c. rewrite take_take_drop.
    rewrite <-Z2Nat.inj_add by lia. rewrite take_app_le by (rewrite length_take; lia).
    rewrite take_take. f_equal. lia.
Qed.
End chunks.

(** ** Lemmas: every step of either side keeps the transfer *)

Definition still_sending (r : send_result) : option sending :=
  match r with SRun s => Some s | SRet _ => None end.

(** The step changes no flag but STAGED. *)
Definition only_staged (x x' : xbuf) : Prop :=
  ∀ p s a c, flags x = mk_flags p s a c → ∃ s', flags x' = mk_flags p s' a c.

Lemma only_staged_same x x' : flags x' = flags x → only_staged x x'.
Proof. intros E p s a c Hx. exists s. by rewrite E. Qed.

Lemma xfer_ext T m s r x x' :
  xfer T m s r x → staged x' = staged x → data x' = data x → data_len x' = data_len x →
  total_size x' = total_size x → xfer T m s r x'.
Proof.
  intros ([Ht Hd] & Hl & sent & read & Hs & Hr & H0 & H1 & Hst) E1 E2 E3 E4.
  split; [split; congruence|]. split; [congruence|]. exists sent, read.
  unfold sender_at, receiver_at, holds in *. rewrite E1, E2. done.
Qed.

Section steps.
Context (T : Z) (m : list byte) (HT : 0 < T) (Hm : zlen m < 2 ^ 32).
Local Notation xfer := (xfer T m).

(** Moving only the sender's program counter. *)
Lemma xfer_s_goto s r x pc :
  xfer (Some s) r x → (match pc with SCopy => staged x = false | SRaise => False | _ => True end) →
  xfer (Some (s_goto s pc)) r x.
Proof using.
  intros (Hx & Hl & sent & read & (? & ? & ? & ? & ? & _) & Hr) Hpc.
  split; [done|]. split; [done|]. exists sent, read. split; [|done].
  repeat (split; [done|]). by destruct pc.
Qed.

Lemma xfer_r_goto s r x pc :
  xfer s (Some r) x → (match pc with RCopy => staged x = true | RLower => False | _ => True end) →
  xfer s (Some (r_goto r pc)) x.
Proof using.
  intros (Hx & Hl & sent & read & Hs & (? & ? & ? & ? & buf & ? & ? & ? & _) & Hr) Hpc.
  split; [done|]. split; [done|]. exists sent, read. split; [done|]. split; [|done].
  repeat (split; [done|]). exists buf. repeat (split; [done|]). by destruct pc.
Qed.

Lemma xfer_s_copy s r x :
  xfer (Some s) r x → s_pc s = SCopy →
  ∃ x', send_step s x = Some (SRun (s_goto s SRaise), x') ∧
    xfer (Some (s_goto s SRaise)) r x' ∧ flags x' = flags x.
Proof using HT.
  intros (Hx & Hl & sent & read & (Hsz & Hle & Hpos & Hb & Hd & Hpc) & Hr & H0 & H1 & Hst) Epc.
  rewrite Epc in Hpc. rewrite Hpc in Hst.
  destruct (stage_chunk T m HT x (s_data s) sent (sent - bytes_sent s)) as (c & l & Hc & Hl' & HlT & Hh);
    [done|lia|lia|done|].
  replace (sent - (sent - bytes_sent s)) with (bytes_sent s) in Hc by lia.
  unfold send_step. rewrite Epc, Hsz, Hle. unfold chunk_at in Hc. rewrite Hc. simpl. rewrite Hl'. simpl.
  eexists. split; [done|]. split; [|done]. split; [by destruct Hx|]. split; [done|].
  exists sent, read. change (staged (with_data x l)) with (staged x). rewrite Hpc.
  split; [by repeat (split; [done|])|]. split; [|done]. by destruct r.
Qed.

Lemma xfer_s_raise s r x :
  xfer (Some s) r x → s_pc s = SRaise →
  ∃ res x', send_step s x = Some (res, x') ∧ xfer (still_sending res) r x' ∧
    x' = raise_flag x XBUF_STAGED.
Proof using HT Hm.
  intros (Hx & Hl & sent & read & (Hsz & Hle & Hpos & Hb & Hd & Hpc) & Hr & H0 & H1 & Hst) Epc.
  rewrite Epc in Hpc. destruct Hpc as [Hpc Hh]. rewrite Hpc in Hst. subst read.
  pose proof (chunk_at_bounds T m HT sent ltac:(lia)) as Hc.
  unfold send_step. rewrite Epc, Hsz, Hle. fold (chunk_at T m sent). unfold send_loop. simpl.
  rewrite !(wrap_small 32) by (unfold fits; lia).
  eexists _, _. split; [done|]. split; [|done].
  split; [by destruct Hx|]. split; [done|]. exists (sent + chunk_at T m sent), sent.
  rewrite staged_raise, orb_true_r. split; [|split; [|done || split_and!; done || lia]].
  - case_test; simpl; [|lia].
    split_and!; try lia; try done. rewrite Hd. f_equal. lia.
  - destruct r as [r|]; [|done].
    destruct Hr as (? & ? & ? & ? & buf & ? & ? & ? & Hrp). repeat (split; [done|]).
    exists buf. repeat (split; [done|]). rewrite staged_raise, orb_true_r.
    destruct (r_pc r); try done. by destruct Hrp.
Qed.

Lemma send_step_xfer s r x :
  xfer (Some s) r x → ready x = true →
  ∃ res x', send_step s x = Some (res, x') ∧ xfer (still_sending res) r x' ∧
    only_staged x x' ∧ (staged x = true → staged x' = true).
Proof using HT Hm.
  intros Hx Hready. destruct (s_pc s) eqn:Epc.
  - eexists _, _. unfold send_step. rewrite Epc, Hready. split; [done|].
    split_and!; [by apply xfer_s_goto|by apply only_staged_same|done].
  - eexists _, _. unfold send_step. rewrite Epc. split; [done|].
    split_and!; [apply xfer_s_goto; [done|]; by destruct (staged x)|by apply only_staged_same|done].
  - eexists _, _. unfold send_step. rewrite Epc, Hready. split; [done|].
    split_and!; [by apply xfer_s_goto|by apply only_staged_same|done].
  - destruct (xfer_s_copy s r x Hx Epc) as (x' & -> & ? & ?). eexists _, _.
    split; [done|]. split_and!; [done|by apply only_staged_same|].
    unfold staged. congruence.
  - destruct (xfer_s_raise s r x Hx Epc) as (res & x' & -> & ? & ->). eexists _, _.
    split; [done|]. split_and!; [done| |by rewrite staged_raise, orb_true_r].
    intros p st a c Hf. exists true. by eapply raise_staged.
Qed.

Lemma xfer_r_copy s r x :
  xfer s (Some r) x → r_pc r = RCopy →
  ∃ r', recv_step r x = Some (RRun r', x) ∧ xfer s (Some r') x ∧ r_pc r' = RLower.
Proof using HT.
  intros (Hx & Hl & sent & read & Hs & (Hsz & Hle & Hpos & Hb & buf & Hbuf & Hbl & Hp & Hpc) & H0 & H1 & Hst) Epc.
  rewrite Epc in Hpc. rewrite Hpc in Hst. destruct Hst as (Hlt & Hsent & Hh).
  destruct (fetch_chunk T m HT x buf read) as (c & buf' & Hc & Hb' & Hl' & Hp1 & Hp2); [done|done|lia|done|done|].
  unfold recv_step. rewrite Epc, Hsz, Hle, Hbuf. unfold chunk_at in Hc. simpl. rewrite Hc. simpl.
  rewrite Hb, Hb'. simpl. eexists. split; [done|]. split; [|done].
  split; [done|]. split; [done|]. exists sent, read. rewrite Hpc. split; [done|].
  split; [|done]. simpl. repeat (split; [lia || done|]). by exists buf'.
Qed.

(** How a call of [recv_data] ends: everything was received, and the sender
    has returned. *)
Definition received (s : option sending) (n : Z) (buf : option (list byte)) (x : xbuf) : Prop :=
  n = zlen m ∧ buf = Some m ∧ s = None ∧ staged x = false ∧ sized T x.

Definition recv_goes_on (s : option sending) (res : recv_result) (x : xbuf) : Prop :=
  match res with
  | RRun r => xfer s (Some r) x
  | RRet n buf => received s n buf x
  end.

Lemma xfer_r_lower s r x :
  xfer s (Some r) x → r_pc r = RLower →
  ∃ res x', recv_step r x = Some (res, x') ∧ recv_goes_on s res x' ∧
    x' = lower_flag x XBUF_STAGED.
Proof using HT Hm.
  intros (Hx & Hl & sent & read & Hs & (Hsz & Hle & Hpos & Hb & buf & Hbuf & Hbl & Hp & Hpc) & H0 & H1 & Hst) Epc.
  rewrite Epc in Hpc. destruct Hpc as [Hpc Hp']. rewrite Hpc in Hst. destruct Hst as (Hlt & Hsent & Hh).
  pose proof (chunk_at_bounds T m HT read ltac:(lia)) as Hc.
  unfold recv_step. rewrite Epc, Hsz, Hle. fold (chunk_at T m read). unfold recv_loop. simpl.
  rewrite Hb, !(wrap_small 32) by (unfold fits; lia).
  eexists _, _. split; [done|]. split; [|done]. case_test; simpl.
  - split; [by destruct Hx|]. split; [done|]. exists sent, (read + chunk_at T m read).
    rewrite staged_lower. split; [|split].
    + destruct s as [s|]; [|done]. destruct Hs as (? & ? & ? & ? & ? & Hsp).
      repeat (split; [done|]). rewrite staged_lower. destruct (s_pc s); try done.
      by destruct Hsp; congruence.
    + simpl. repeat (split; [lia || done|]). exists buf. done.
    + lia.
  - assert (read + chunk_at T m read = zlen m) as E by lia.
    split; [done|]. split; [|split; [|split; [by rewrite staged_lower|by destruct Hx]]].
    + rewrite Hbuf. rewrite E, Nat2Z.id in Hp'. rewrite take_ge in Hp' by lia.
      by rewrite take_ge in Hp' by done; f_equal.
    + destruct s as [s|]; [|done]. destruct Hs as (? & ? & ? & ?). lia.
Qed.

Lemma recv_step_xfer s r x :
  xfer s (Some r) x → ready x = true →
  ∃ res x', recv_step r x = Some (res, x') ∧ recv_goes_on s res x' ∧ only_staged x x'.
Proof using HT Hm.
  intros Hx Hready. destruct (r_pc r) eqn:Epc.
  - eexists _, _. unfold recv_step. rewrite Epc, Hready. split; [done|].
    split; [by apply xfer_r_goto|by apply only_staged_same].
  - eexists _, _. unfold recv_step. rewrite Epc. split; [done|].
    split; [apply xfer_r_goto; [done|]; by destruct (staged x)|by apply only_staged_same].
  - eexists _, _. unfold recv_step. rewrite Epc, Hready. split; [done|].
    split; [by apply xfer_r_goto|by apply only_staged_same].
  - destruct (xfer_r_copy s r x Hx Epc) as (r' & -> & ? & ?). eexists _, _.
    split; [done|]. split; [done|by apply only_staged_same].
  - destruct (xfer_r_lower s r x Hx Epc) as (res & x' & -> & ? & ->). eexists _, _.
    split; [done|]. split; [done|]. intros p st a c Hf. exists false. by eapply lower_staged.
Qed.

(** The start of each side. *)
Lemma recv_data_xfer kmalloc s x :
  xfer s None x → 0 < zlen m → (∃ b, kmalloc (zlen m) = Some b ∧ zlen b = zlen m) →
  ∃ r, recv_data kmalloc x = RRun r ∧ xfer s (Some r) x ∧ r_pc r = RCheck.
Proof using.
  intros (Hx & Hl & sent & read & Hs & Hr & H0 & H1 & Hst) Hpos (b & Hb & Hbl). simpl in Hr. subst read.
  unfold recv_data, recv_loop. simpl. rewrite Hl, Hb. case_test; [|lia].
  eexists. split; [done|]. split; [|done]. split; [done|]. split; [done|].
  exists sent, 0. split; [done|]. split; [|done]. simpl.
  repeat (split; [lia || apply Hx|]). by exists b.
Qed.

(** [init_stage_data] followed by [send_data] of the rest. *)
Lemma send_rest_xfer x :
  sized T x → data_len x = zlen m → 0 < zlen m → holds T m x 0 → staged x = true →
  xfer (still_sending (send_data x (drop (Z.to_nat (chunk_at T m 0)) m)
                                 (zlen m - chunk_at T m 0))) None x.
Proof using HT.
  intros Hx Hl Hpos Hh Hst. pose proof (chunk_at_bounds T m HT 0 ltac:(lia)) as Hc.
  split; [done|]. split; [done|]. exists (chunk_at T m 0), 0. rewrite Hst.
  split; [|done || split_and!; done || lia].
  unfold send_data, send_loop. simpl. case_test; simpl; [|lia].
  split_and!; try lia; try done; [apply Hx|]. f_equal. lia.
Qed.
End steps.

(** ** Properties *)

(** [pisces_xbuf_server_init] on a channel that is not ready either returns
    a descriptor, with the flag word clear and a data area of [total_bytes] less
    the 32-byte header, or returns NULL having freed the descriptor and released
    the irq if it had one; [pisces_xbuf_enable] then succeeds exactly once, and
    leaves READY as the only flag. *)
Theorem xbuf_server_init_spec (x : xbuf) (total_bytes target_cpu irq_got : Z) (handler : bool)
    (to_vector : Z → Z)
    (Hready : ready x = false) (Hbytes : sizeof_xbuf ≤ total_bytes < 2 ^ 32) :
  ∃ d x' ev, pisces_xbuf_server_init x total_bytes handler target_cpu true irq_got to_vector
               = Some (d, x', ev) ∧
    flags x' = 0 ∧ data x' = data x ∧
    match d with
    | Some d => 0 ≤ irq_got ∧ 0 ≤ to_vector irq_got ∧ irq d = irq_got ∧
        total_size x' = total_bytes - 32 ∧ host_vector x' = to_vector irq_got ∧ ev = [RequestIrq]
    | None => KfreeDesc ∈ ev ∧ (0 ≤ irq_got → ReleaseIrq irq_got ∈ ev)
    end ∧
    ∃ x'', pisces_xbuf_enable x' = (0, x'') ∧ flags x'' = XBUF_READY ∧
           pisces_xbuf_enable x'' = (-1, x'').
Proof.
  unfold sizeof_xbuf in Hbytes. unfold pisces_xbuf_server_init. rewrite Hready.
  cbn [negb]. case_test; [|case_test]; eexists _, _, _; (split; [done|]); simpl.
  - split_and!; try done; [right; left|lia|by eexists].
  - split_and!; try done; [right; right; left|intros; right; left|by eexists].
  - unfold sizeof_xbuf. rewrite wrap_small by (unfold fits; lia).
    split_and!; try done; try lia. by eexists.
Qed.

Lemma xbuf_server_init_spec_witness :
  ∃ d x' ev, pisces_xbuf_server_init
      {| flags := 0; host_apic := 0; host_vector := 0; enclave_cpu := 0; enclave_vector := 0;
         total_size := 0; data_len := 0; data := replicate 4064 Byte.x00 |}
      4096 true 0 true 20 (λ i, i + 48) = Some (d, x', ev) ∧
    flags x' = 0 ∧ data x' = replicate 4064 Byte.x00 ∧
    match d with
    | Some d => 0 ≤ 20 ∧ 0 ≤ 20 + 48 ∧ irq d = 20 ∧
        total_size x' = 4096 - 32 ∧ host_vector x' = 20 + 48 ∧ ev = [RequestIrq]
    | None => KfreeDesc ∈ ev ∧ (0 ≤ 20 → ReleaseIrq 20 ∈ ev)
    end ∧
    ∃ x'', pisces_xbuf_enable x' = (0, x'') ∧ flags x'' = XBUF_READY ∧
           pisces_xbuf_enable x'' = (-1, x'').
Proof.
  apply (xbuf_server_init_spec
    {| flags := 0; host_apic := 0; host_vector := 0; enclave_cpu := 0; enclave_vector := 0;
       total_size := 0; data_len := 0; data := replicate 4064 Byte.x00 |}
    4096 0 20 true (λ i, i + 48)); [done|unfold sizeof_xbuf; lia].
Defined.
