(* ===== verification/XbufRpc.v ===== *)
(** * Cross-enclave calls: senders, interrupt handler and server together

    [pisces_xbuf_sync_send] by any number of threads of one system, and the
    [irq_handler], [pisces_xbuf_recv] and [pisces_xbuf_complete] of the system
    at the other end (both ends run this file's protocol), interleaved at the
    level of the accesses of the shared memory.  A schedule is a list of the
    parties that take a step.  The lock taken by [irq_handler] belongs to the
    descriptor of its own end, where nothing contends for it, and has no state
    here; the lock of the sending end is [xbuf_lock]. *)
From S2P Require Import Prelude Xbuf.

(** ** The code: a sender *)

(** [pisces_xbuf_sync_send].  [A*]: the loop that takes the channel, under the
    lock; [MStage], [MIpi], [MSend]: the message; [WComplete], [WReady]: the
    wait for completion; [CStaged], [CRecv], [CReset]: the response. *)
Inductive sync_pc :=
  | ALock | AReady | APending | AReset | ARaise | AUnlock (acquired : bool) | AUnlockErr | AWait
  | MStage (g : stage_pc) | MIpi | MSend (s : sending)
  | WComplete | WReady
  | CStaged | CRecv (r : receiving) | CReset
  | SDone (ret : Z).

Record sync_send := {
  pc : sync_pc;
  msg : list byte;
  want_resp : bool;                 (* resp_data is not NULL *)
  resp : option (list byte)         (* the block stored through it *)
}.

Definition goto (st : sync_send) (p : sync_pc) : sync_send :=
  {| pc := p; msg := msg st; want_resp := want_resp st; resp := resp st |}.

Definition store_resp (st : sync_send) (p : sync_pc) (b : option (list byte)) : sync_send :=
  {| pc := p; msg := msg st; want_resp := want_resp st; resp := b |}.

(** What the parties share: the xbuf, the lock of the senders' descriptor and
    the interrupt raised at the other end. *)
Record shared := { xb : xbuf; xbuf_lock : bool; ipi : bool }.

Definition on_xb (sh : shared) (x : xbuf) : shared :=
  {| xb := x; xbuf_lock := xbuf_lock sh; ipi := ipi sh |}.
Definition on_lock (sh : shared) (b : bool) : shared :=
  {| xb := xb sh; xbuf_lock := b; ipi := ipi sh |}.
Definition on_ipi (sh : shared) (b : bool) : shared :=
  {| xb := xb sh; xbuf_lock := xbuf_lock sh; ipi := b |}.

(** [send_data]'s result is not looked at. *)
Definition after_send (res : send_result) : sync_pc :=
  match res with SRun s => MSend s | SRet _ => WComplete end.

Definition after_recv (st : sync_send) (res : recv_result) : sync_send :=
  match res with
  | RRun r => goto st (CRecv r)
  | RRet n b => store_resp st (if n =? 0 then SDone (-1) else CReset) b
  end.

(** [init_stage_data] and then [send_data] of what is left. *)
Definition send_rest (x : xbuf) (d : list byte) : send_result :=
  let bytes_staged := if zlen d >? 0 then chunk_len (total_size x) (zlen d) else 0 in
  send_data x (drop (Z.to_nat bytes_staged) d) (zlen d - bytes_staged).

(** One step of a sender; [intr] makes the interruptible wait return early. *)
Definition sync_step (kmalloc : Z → option (list byte)) (intr : bool)
    (st : sync_send) (sh : shared) : option (sync_send * shared) :=
  let x := xb sh in
  match pc st with
  | ALock =>
      Some (if xbuf_lock sh then (st, sh) else (goto st AReady, on_lock sh true))
  | AReady => Some (goto st (if ready x then APending else AUnlockErr), sh)
  | AUnlockErr => Some (goto st (SDone (-1)), on_lock sh false)
  | APending => Some (goto st (if pending x then AUnlock false else AReset), sh)
  | AReset => Some (goto st ARaise, on_xb sh (reset_flags x))
  | ARaise => Some (goto st (AUnlock true), on_xb sh (raise_flag x XBUF_PENDING))
  | AUnlock acquired =>
      Some (goto st (if negb acquired then AWait
                     else if zlen (msg st) >? 0 then MStage GLen else MIpi), on_lock sh false)
  | AWait => Some (if negb (pending x) || intr then goto st ALock else st, sh)
  | MStage g =>
      '(g, x) ← init_stage_data_step g (msg st) x;
      Some (goto st (match g with Some g => MStage g | None => MIpi end), on_xb sh x)
  | MIpi => Some (goto st (after_send (send_rest x (msg st))), on_ipi sh true)
  | MSend s => '(res, x) ← send_step s x; Some (goto st (after_send res), on_xb sh x)
  | WComplete => Some (goto st (if complete x then CStaged else WReady), sh)
  | WReady => Some (goto st (if ready x then WComplete else SDone (-1)), sh)
  | CStaged =>
      Some (if want_resp st && staged x then after_recv st (recv_data kmalloc x)
            else goto st CReset, sh)
  | CRecv r => '(res, x) ← recv_step r x; Some (after_recv st res, on_xb sh x)
  | CReset => Some (goto st (SDone 0), on_xb sh (reset_flags x))
  | SDone _ => Some (st, sh)
  end.

Definition sync_send_start (d : list byte) (want : bool) : sync_send :=
  {| pc := ALock; msg := d; want_resp := want; resp := None |}.

(** [pisces_xbuf_send] is [pisces_xbuf_sync_send] with the response asked for
    and freed: what it returns, and whether a block is freed. *)
Definition pisces_xbuf_send_start (d : list byte) : sync_send := sync_send_start d true.
Definition pisces_xbuf_send_result (st : sync_send) : option (Z * bool) :=
  match pc st with
  | SDone ret => Some (ret, bool_decide (is_Some (resp st)))
  | _ => None
  end.

(** ** The code: the receiving end *)

(** [I*]: [irq_handler]; [H*]: its handler's [pisces_xbuf_recv]; [K*]: its
    [pisces_xbuf_complete] with the reply. *)
Inductive serve_pc :=
  | IIdle | IPending | IActive | IRaise | INoHandler
  | HActive | HRecv (r : receiving)
  | KActive | KStage (g : stage_pc) | KComplete | KSend (s : sending).

Record server := { ipc : serve_pc; reply : list byte }.

Definition igoto (sv : server) (p : serve_pc) : server := {| ipc := p; reply := reply sv |}.

Section serve.
Context (kmalloc : Z → option (list byte)).
(** The handler, when there is one: the reply to a request. *)
Context (handler : option (list byte → list byte)).

Definition handle (b : option (list byte)) : list byte :=
  match handler, b with Some f, Some m => f m | _, _ => [] end.

(** [pisces_xbuf_recv] returned the request: the handler completes with the
    reply. *)
Definition recv_done (sv : server) (res : recv_result) : server :=
  match res with
  | RRun r => igoto sv (HRecv r)
  | RRet _ b => {| ipc := KActive; reply := handle b |}
  end.

Definition complete_send (res : send_result) : serve_pc :=
  match res with SRun s => KSend s | SRet _ => IIdle end.

Definition serve_step (sv : server) (sh : shared) : option (server * shared) :=
  let x := xb sh in
  match ipc sv with
  | IIdle => Some (if ipi sh then (igoto sv IPending, on_ipi sh false) else (sv, sh))
  | IPending => Some (igoto sv (if pending x then IActive else IIdle), sh)
  | IActive => Some (igoto sv (if active x then IIdle else IRaise), sh)
  | IRaise => Some (igoto sv (if handler then HActive else INoHandler),
                    on_xb sh (raise_flag x XBUF_ACTIVE))
  | INoHandler => Some (igoto sv IIdle, on_xb sh (raise_flag x XBUF_COMPLETE))
  | HActive =>
      Some (if active x then recv_done sv (recv_data kmalloc x) else igoto sv IIdle, sh)
  | HRecv r => '(res, x) ← recv_step r x; Some (recv_done sv res, on_xb sh x)
  | KActive =>
      Some (igoto sv (if active x then (if zlen (reply sv) >? 0 then KStage GLen else KComplete)
                      else IIdle), sh)
  | KStage g =>
      '(g, x) ← init_stage_data_step g (reply sv) x;
      Some (igoto sv (match g with Some g => KStage g | None => KComplete end), on_xb sh x)
  | KComplete =>
      let x := raise_flag x XBUF_COMPLETE in
      Some (igoto sv (complete_send (send_rest x (reply sv))), on_xb sh x)
  | KSend s => '(res, x) ← send_step s x; Some (igoto sv (complete_send res), on_xb sh x)
  end.

(** ** The system *)

Record sys := { sh : shared; senders : list sync_send; srv : server }.

Inductive party := Sender (t : nat) (intr : bool) | Server.

Definition sys_step (w : party) (s : sys) : option sys :=
  match w with
  | Sender t intr =>
      match senders s !! t with
      | None => Some s
      | Some st =>
          '(st, sh) ← sync_step kmalloc intr st (sh s);
          Some {| sh := sh; senders := <[t := st]> (senders s); srv := srv s |}
      end
  | Server =>
      '(sv, sh) ← serve_step (srv s) (sh s);
      Some {| sh := sh; senders := senders s; srv := sv |}
  end.

Fixpoint run (ws : list party) (s : sys) : option sys :=
  match ws with
  | [] => Some s
  | w :: ws => s ← sys_step w s; run ws s
  end.

(** A channel that has been enabled and is not in use. *)
Definition start (x : xbuf) (msgs : list (list byte)) : sys :=
  {| sh := {| xb := x; xbuf_lock := false; ipi := false |};
     senders := pisces_xbuf_send_start <$> msgs;
     srv := {| ipc := IIdle; reply := [] |} |}.
End serve.

(** ** Invariant *)

(** Between [spin_lock_irqsave] and [spin_unlock_irqrestore]. *)
Definition in_lock (p : sync_pc) : Prop :=
  match p with
  | AReady | APending | AReset | ARaise | AUnlock _ | AUnlockErr => True
  | _ => False
  end.

(** Not holding the channel. *)
Definition is_free (p : sync_pc) : Prop :=
  match p with
  | ALock | AReady | APending | AReset | ARaise | AUnlock false | AWait | SDone _ => True
  | _ => False
  end.

Definition taking (p : sync_pc) : Prop :=
  match p with AReset | ARaise => True | _ => False end.

Section invariant.
Context (f : list byte → list byte) (T : Z).

(** The response block a sender ends with: none when the reply is empty. *)
Definition answer (m : list byte) : option (list byte) :=
  match f m with [] => None | r => Some r end.

(** A finished sender has its answer, the others nothing yet. *)
Definition outcome (st : sync_send) : Prop :=
  match pc st with
  | SDone ret => ret = 0 ∧ resp st = answer (msg st)
  | CReset => resp st = answer (msg st)
  | _ => resp st = None
  end.

Definition waits (p : sync_pc) : Prop := p = WComplete ∨ p = WReady.

(** The owner's half of a transfer of the request, and of the reply. *)
Definition sending_request (p : sync_pc) (so : option sending) : Prop :=
  match so with Some s => p = MSend s | None => waits p end.
Definition sending_reply (p : serve_pc) (so : option sending) : Prop :=
  match so with Some s => p = KSend s | None => p = IIdle end.

(** The server before and in its call of [recv_data]: its program counter,
    the interrupt, the ACTIVE flag. *)
Definition receiving_request (p : serve_pc) (i a : bool) (ro : option receiving) : Prop :=
  match ro with
  | Some r => p = HRecv r ∧ i = false ∧ a = true
  | None => (p = IIdle ∧ i = true ∧ a = false) ∨
            ((p = IPending ∨ p = IActive ∨ p = IRaise) ∧ i = false ∧ a = false) ∨
            (p = HActive ∧ i = false ∧ a = true)
  end.

Definition receiving_reply (p : sync_pc) (ro : option receiving) : Prop :=
  match ro with Some r => p = CRecv r | None => waits p ∨ p = CStaged end.

(** What [init_stage_data] has done before step [g]. *)
Definition staging (d : list byte) (g : stage_pc) (x : xbuf) : Prop :=
  match g with
  | GLen => True
  | GCopy => data_len x = zlen d
  | GRaise => data_len x = zlen d ∧ holds T d x 0
  end.

(** [init_stage_data] is done. *)
Definition is_staged (d : list byte) (x : xbuf) : Prop :=
  data_len x = zlen d ∧ holds T d x 0 ∧ staged x = true.

(** The channel while sender [st] owns it. *)
Inductive phase (st : sync_send) (x : xbuf) (i : bool) (sv : server) : Prop :=
  | PTaken :
      pc st = AUnlock true ∨ (∃ g, pc st = MStage g ∧ staging (msg st) g x) →
      flags x = mk_flags true false false false → i = false → ipc sv = IIdle → phase st x i sv
  | PNotify :
      pc st = MIpi → is_staged (msg st) x →
      flags x = mk_flags true true false false → i = false → ipc sv = IIdle → phase st x i sv
  | PRequest so ro s a :
      sending_request (pc st) so → receiving_request (ipc sv) i a ro →
      flags x = mk_flags true s a false → xfer T (msg st) so ro x → phase st x i sv
  | PReply g :
      waits (pc st) → reply sv = f (msg st) → i = false →
      ipc sv = KActive ∨ (ipc sv = KStage g ∧ f (msg st) ≠ [] ∧ staging (f (msg st)) g x) ∨
        (ipc sv = KComplete ∧ f (msg st) = []) →
      flags x = mk_flags true false true false → phase st x i sv
  | PReplyStaged :
      waits (pc st) → reply sv = f (msg st) → i = false →
      ipc sv = KComplete → f (msg st) ≠ [] → is_staged (f (msg st)) x →
      flags x = mk_flags true true true false → phase st x i sv
  | PResponse so ro s :
      receiving_reply (pc st) ro → sending_reply (ipc sv) so → i = false → f (msg st) ≠ [] →
      (ro = None → s = true) → flags x = mk_flags true s true true →
      xfer T (f (msg st)) so ro x → phase st x i sv
  | PFinish :
      ((waits (pc st) ∨ pc st = CStaged) ∧ f (msg st) = [] ∨ pc st = CReset) →
      i = false → ipc sv = IIdle →
      flags x = mk_flags true false true true → phase st x i sv.

(** The channel while nobody owns it. *)
Definition vacant (x : xbuf) (i : bool) (sv : server) : Prop :=
  flags x = mk_flags false false false false ∧ i = false ∧ ipc sv = IIdle.

Definition well_posed (st : sync_send) : Prop :=
  0 < zlen (msg st) < 2 ^ 32 ∧ want_resp st = true ∧ outcome st.

Record inv (s : sys) : Prop := {
  inv_sized : sized T (xb (sh s));
  inv_posed : ∀ t st, senders s !! t = Some st → well_posed st;
  inv_locked : ∀ t st, senders s !! t = Some st → in_lock (pc st) → xbuf_lock (sh s) = true;
  inv_unique : ∀ t t' st st', senders s !! t = Some st → senders s !! t' = Some st' →
    in_lock (pc st) → in_lock (pc st') → t = t';
  inv_phase :
    (vacant (xb (sh s)) (ipi (sh s)) (srv s) ∧
     ∀ t st, senders s !! t = Some st → is_free (pc st)) ∨
    (∃ t st, senders s !! t = Some st ∧ phase st (xb (sh s)) (ipi (sh s)) (srv s) ∧
     ∀ t' st', t' ≠ t → senders s !! t' = Some st' → is_free (pc st') ∧ ¬ taking (pc st'))
}.
End invariant.

(** ** Lemmas: the owner's and the server's steps move the phase on *)

Section phases.
Context (f : list byte → list byte) (T : Z) (kmalloc : Z → option (list byte)).
Context (HT : 0 < T) (Hf : ∀ m, zlen (f m) < 2 ^ 32).
Context (Hkm : ∀ n, 0 ≤ n → ∃ b, kmalloc n = Some b ∧ zlen b = n).
Local Notation phase := (phase f T).

Lemma nonempty_len {A} (l : list A) : l ≠ [] → 0 < zlen l.
Proof. destruct l; simpl; [done|lia]. Qed.

(** [send_rest] starts the transfer of a staged message. *)
Lemma send_rest_start x d :
  sized T x → is_staged T d x → 0 < zlen d → xfer T d (still_sending (send_rest x d)) None x.
Proof using HT.
  intros Hx (Hl & Hh & Hs) Hd. unfold send_rest. case_test; [|lia].
  destruct Hx as [Ht ?]. rewrite Ht.
  pose proof (send_rest_xfer T d HT x) as Hsr. unfold chunk_at in Hsr. rewrite Z.sub_0_r in Hsr.
  by apply Hsr.
Qed.

Lemma send_rest_empty x : send_rest x [] = SRet 0.
Proof. done. Qed.

(** The three steps of [init_stage_data]. *)
Lemma stage_step g d x :
  sized T x → staging T d g x → 0 < zlen d →
  ∃ o x', init_stage_data_step g d x = Some (o, x') ∧ sized T x' ∧
    match o with
    | Some g' => staging T d g' x' ∧ flags x' = flags x
    | None => is_staged T d x' ∧ x' = raise_flag x XBUF_STAGED
    end.
Proof using HT.
  intros Hx Hg Hd. destruct g; simpl in *.
  - eexists _, _. split; [done|]. split; [by destruct Hx|done].
  - destruct (stage_chunk T d HT x d 0 0) as (c & l & Hc & Hl & HlT & Hh); [done|lia|lia|done|].
    unfold chunk_at in Hc. rewrite !Z.sub_0_r in Hc. destruct Hx as [Ht Hdl].
    rewrite Ht, Hc. simpl. rewrite Hl. simpl. eexists _, _. split; [done|]. done.
  - eexists _, _. split; [done|]. split; [by destruct Hx|].
    destruct Hg. split; [|done]. split_and!; [done..|]. by rewrite staged_raise, orb_true_r.
Qed.

(** What a step of the owner leads to. *)
Record owner_ok (sv : server) (st' : sync_send) (sh' : shared) : Prop := {
  ok_sized : sized T (xb sh');
  ok_posed : well_posed f st';
  ok_phase : phase st' (xb sh') (ipi sh') sv ∨ (pc st' = SDone 0 ∧ vacant (xb sh') (ipi sh') sv)
}.

Definition owner_steps (st : sync_send) (sh0 : shared) (sv : server) : Prop :=
  ∀ intr, ∃ st' sh', sync_step kmalloc intr st sh0 = Some (st', sh') ∧ owner_ok sv st' sh'.

(** A step that changes only the program counter, the xbuf and the ipi. *)
Lemma owner_goto st l sv p x i :
  well_posed f st → sized T x → resp st = None →
  (match p with SDone _ => False | CReset => answer f (msg st) = None | _ => True end) →
  phase (goto st p) x i sv →
  owner_ok sv (goto st p) {| xb := x; xbuf_lock := l; ipi := i |}.
Proof using.
  intros (Hm & Hw & Ho) Hx Hr Hdone Hph. split; simpl; auto.
  split; [exact Hm|]. split; [exact Hw|]. unfold outcome; simpl. destruct p; try done. congruence.
Qed.

Lemma outcome_none st :
  outcome f st → (match pc st with SDone _ | CReset => False | _ => True end) → resp st = None.
Proof using. unfold outcome. by destruct (pc st). Qed.

Lemma on_same (sh0 : shared) : sh0 = {| xb := xb sh0; xbuf_lock := xbuf_lock sh0; ipi := ipi sh0 |}.
Proof using. by destruct sh0. Qed.

(** The wait for completion. *)
Lemma waits_step intr st sh0 p s a c :
  waits (pc st) → flags (xb sh0) = mk_flags p s a c →
  ∃ q, sync_step kmalloc intr st sh0 = Some (goto st q, sh0) ∧ (waits q ∨ c = true ∧ q = CStaged).
Proof using.
  intros Hw Hfl. destruct (flags_read _ _ _ _ _ Hfl) as (Hrd & _ & _ & _ & Hc).
  unfold sync_step. destruct Hw as [-> | ->].
  - eexists. split; [done|]. rewrite Hc. destruct c; [right|left; right]; done.
  - eexists. split; [done|]. rewrite Hrd. left. by left.
Qed.

Lemma owner_waits st sh0 sv p s a c :
  sized T (xb sh0) → well_posed f st → waits (pc st) → flags (xb sh0) = mk_flags p s a c →
  (∀ q, waits q ∨ c = true ∧ q = CStaged → phase (goto st q) (xb sh0) (ipi sh0) sv) →
  owner_steps st sh0 sv.
Proof using.
  intros Hx Hp Hw Hfl Hq intr. destruct (waits_step intr st sh0 _ _ _ _ Hw Hfl) as (q & -> & Hqw).
  exists (goto st q), sh0. split; [done|]. rewrite (on_same sh0).
  assert (resp st = None) as Hr.
  { apply outcome_none; [by destruct Hp as (_ & _ & ?)|]. by destruct Hw as [-> | ->]. }
  apply owner_goto; auto; destruct Hqw as [[-> | ->]|[_ ->]]; simpl; auto.
Qed.

Lemma after_send_request res : sending_request (after_send res) (still_sending res).
Proof using. destruct res; simpl; [done|]. by left. Qed.

Lemma after_send_quiet res :
  match after_send res with SDone _ => False | CReset => False | _ => True end.
Proof using. destruct res; simpl; auto. Qed.

Lemma owner_taken st sh0 sv :
  sized T (xb sh0) → well_posed f st →
  pc st = AUnlock true ∨ (∃ g, pc st = MStage g ∧ staging T (msg st) g (xb sh0)) →
  flags (xb sh0) = mk_flags true false false false → ipi sh0 = false → ipc sv = IIdle →
  owner_steps st sh0 sv.
Proof using HT.
  intros Hx Hp Hpc Hfl Hi Hv intr. pose proof Hp as (Hm & Hw & Ho).
  assert (resp st = None) as Hr.
  { apply outcome_none; [done|]. by destruct Hpc as [-> |(g & -> & _)]. }
  unfold sync_step. destruct Hpc as [E|(g & E & Hg)]; rewrite E.
  - simpl. case_test; [|lia]. eexists _, _. split; [done|].
    apply owner_goto; auto. apply PTaken; auto. right. by exists GLen.
  - destruct (stage_step g (msg st) (xb sh0)) as (o & x' & -> & Hx' & Ho'); [done..|lia|].
    simpl. eexists _, _. split; [done|]. destruct o as [g'|].
    + destruct Ho' as [Hg' Hfl']. apply owner_goto; auto. apply PTaken; auto; [|congruence].
      right. by exists g'.
    + destruct Ho' as [Hg' ->]. apply owner_goto; auto. apply PNotify; auto.
      by eapply raise_staged.
Qed.

Lemma owner_notify st sh0 sv :
  sized T (xb sh0) → well_posed f st → pc st = MIpi → is_staged T (msg st) (xb sh0) →
  flags (xb sh0) = mk_flags true true false false → ipc sv = IIdle → owner_steps st sh0 sv.
Proof using HT.
  intros Hx Hp E Hs Hfl Hv intr. pose proof Hp as (Hm & Hw & Ho).
  assert (resp st = None) as Hr by (apply outcome_none; [done|by rewrite E]).
  unfold sync_step. rewrite E. eexists _, _. split; [done|].
  pose proof (after_send_quiet (send_rest (xb sh0) (msg st))) as Hq.
  apply owner_goto; auto. 1: by destruct (after_send _).
  eapply PRequest; [apply after_send_request| |done|apply send_rest_start; auto; lia].
  left. auto.
Qed.

Lemma owner_request st sh0 sv so ro s a :
  sized T (xb sh0) → well_posed f st → sending_request (pc st) so →
  receiving_request (ipc sv) (ipi sh0) a ro → flags (xb sh0) = mk_flags true s a false →
  xfer T (msg st) so ro (xb sh0) → owner_steps st sh0 sv.
Proof using HT.
  intros Hx Hp Hs Hrq Hfl Hxf. destruct so as [so|]; simpl in Hs.
  - intros intr. pose proof Hp as (Hm & Hw & Ho). destruct (flags_read _ _ _ _ _ Hfl) as (Hrd & _).
    assert (resp st = None) as Hr by (apply outcome_none; [done|by rewrite Hs]).
    unfold sync_step. rewrite Hs.
    destruct (send_step_xfer T (msg st) HT ltac:(lia) so ro (xb sh0) Hxf Hrd)
      as (res & x' & -> & Hxf' & Hon & _). simpl.
    eexists _, _. split; [done|]. destruct (Hon _ _ _ _ Hfl) as [s' Hfl'].
    pose proof (after_send_quiet res) as Hq.
    apply owner_goto; auto; [by destruct Hxf'|by destruct (after_send _)|].
    eapply PRequest; [apply after_send_request|done|done|done].
  - eapply owner_waits; [done|done|done|done|]. intros q [Hq|[? _]]; [|done].
    by eapply (PRequest _ _ _ _ _ _ None).
Qed.

Lemma owner_response st sh0 sv so ro s :
  sized T (xb sh0) → well_posed f st → receiving_reply (pc st) ro → sending_reply (ipc sv) so →
  ipi sh0 = false → f (msg st) ≠ [] → (ro = None → s = true) →
  flags (xb sh0) = mk_flags true s true true → xfer T (f (msg st)) so ro (xb sh0) →
  owner_steps st sh0 sv.
Proof using HT Hf Hkm.
  intros Hx Hp Hrr Hsr Hi Hne Hs Hfl Hxf. pose proof Hp as (Hm & Hw & Ho).
  pose proof (nonempty_len _ Hne) as Hlen. pose proof (Hf (msg st)) as Hfb.
  destruct (flags_read _ _ _ _ _ Hfl) as (Hrd & _ & Hst & _).
  destruct ro as [r|]; simpl in Hrr; [|destruct Hrr as [Hwt|E]].
  - intros intr. assert (resp st = None) as Hr by (apply outcome_none; [done|by rewrite Hrr]).
    unfold sync_step. rewrite Hrr.
    destruct (recv_step_xfer T _ HT Hfb so r (xb sh0) Hxf Hrd) as (res & x' & -> & Hgo & Hon).
    simpl. eexists _, _. split; [done|]. destruct (Hon _ _ _ _ Hfl) as [s' Hfl'].
    destruct res as [r'|n b]; simpl in Hgo |- *.
    + apply owner_goto; auto; [by destruct Hgo|].
      by eapply (PResponse _ _ _ _ _ _ so (Some r') s').
    + destruct Hgo as (-> & -> & -> & Hst' & Hx'). case_test; [lia|].
      destruct (flags_read _ _ _ _ _ Hfl') as (_ & _ & Hs' & _).
      split; simpl; auto.
      * split; [exact Hm|]. split; [exact Hw|]. unfold outcome, answer; simpl.
        by destruct (f (msg st)).
      * left. apply PFinish; auto. by rewrite Hfl', <-Hs', Hst'.
  - specialize (Hs eq_refl). subst s. eapply owner_waits; [done..|].
    intros q Hq. apply (PResponse _ _ _ _ _ _ so None true); auto.
    simpl. destruct Hq as [|[_ ->]]; auto.
  - specialize (Hs eq_refl). subst s. intros intr.
    assert (resp st = None) as Hr by (apply outcome_none; [done|by rewrite E]).
    unfold sync_step. rewrite E, Hw, Hst. simpl.
    destruct (recv_data_xfer T _ kmalloc so (xb sh0) Hxf Hlen (Hkm (zlen (f (msg st))) ltac:(lia))) as (r & -> & Hxf' & _).
    eexists _, _. split; [done|]. simpl. rewrite (on_same sh0).
    apply owner_goto; auto. by eapply (PResponse _ _ _ _ _ _ so (Some r) true).
Qed.

Lemma owner_finish st sh0 sv :
  sized T (xb sh0) → well_posed f st →
  ((waits (pc st) ∨ pc st = CStaged) ∧ f (msg st) = [] ∨ pc st = CReset) →
  ipi sh0 = false → ipc sv = IIdle → flags (xb sh0) = mk_flags true false true true →
  owner_steps st sh0 sv.
Proof using.
  intros Hx Hp Hpc Hi Hv Hfl. pose proof Hp as (Hm & Hw & Ho).
  destruct (flags_read _ _ _ _ _ Hfl) as (Hrd & _ & Hst & _).
  destruct Hpc as [[[Hwt|E] Hne]|E].
  - eapply owner_waits; [done..|]. intros q Hq. apply PFinish; auto. left. split; [|done].
    by destruct Hq as [|[_ ->]]; auto.
  - intros intr. assert (resp st = None) as Hr by (apply outcome_none; [done|by rewrite E]).
    unfold sync_step. rewrite E, Hst, andb_false_r. eexists _, _. split; [done|].
    rewrite (on_same sh0). apply owner_goto; auto.
    + unfold answer. by rewrite Hne.
    + apply PFinish; auto.
  - intros intr. unfold sync_step. rewrite E. eexists _, _. split; [done|]. split; simpl; auto.
    + by destruct Hx.
    + split; [exact Hm|]. split; [exact Hw|]. unfold outcome in *. rewrite E in Ho. done.
    + right. split; [done|]. split_and!; auto. by eapply reset_all.
Qed.

Lemma owner_step st sh0 sv :
  sized T (xb sh0) → well_posed f st → phase st (xb sh0) (ipi sh0) sv → owner_steps st sh0 sv.
Proof using HT Hf Hkm.
  intros Hx Hp [? ? ? ?|? ? ? ? ?|so ro s a ? ? ? ?|g Hwt ? ? ? Hfl|Hwt ? ? ? ? ? Hfl|so ro s|? ? ? ?].
  - by apply owner_taken.
  - by apply owner_notify.
  - by eapply owner_request.
  - eapply owner_waits; [done..|]. intros q [?|[? _]]; [|done]. by eapply PReply.
  - eapply owner_waits; [done..|]. intros q [?|[? _]]; [|done]. by apply PReplyStaged.
  - by eapply owner_response.
  - by apply owner_finish.
Qed.

(** *** The server *)

Definition server_ok (st : sync_send) (sh0 : shared) (sv : server) : Prop :=
  ∃ sv' sh', serve_step kmalloc (Some f) sv sh0 = Some (sv', sh') ∧ sized T (xb sh') ∧
    phase st (xb sh') (ipi sh') sv' ∧ xbuf_lock sh' = xbuf_lock sh0.

Lemma server_quiet sv sh0 :
  ipc sv = IIdle → ipi sh0 = false → serve_step kmalloc (Some f) sv sh0 = Some (sv, sh0).
Proof using. intros E Hi. unfold serve_step. by rewrite E, Hi. Qed.

Lemma server_ok_quiet st sh0 sv :
  sized T (xb sh0) → ipc sv = IIdle → ipi sh0 = false → phase st (xb sh0) (ipi sh0) sv →
  server_ok st sh0 sv.
Proof using. intros. exists sv, sh0. split; [by apply server_quiet|done]. Qed.

Lemma complete_reply res : sending_reply (complete_send res) (still_sending res).
Proof using. by destruct res. Qed.

Lemma server_request st sh0 sv so ro s a :
  sized T (xb sh0) → well_posed f st → sending_request (pc st) so →
  receiving_request (ipc sv) (ipi sh0) a ro → flags (xb sh0) = mk_flags true s a false →
  xfer T (msg st) so ro (xb sh0) → server_ok st sh0 sv.
Proof using HT Hkm.
  intros Hx (Hm & Hw & Ho) Hs Hrq Hfl Hxf.
  destruct (flags_read _ _ _ _ _ Hfl) as (Hrd & Hpd & _ & Hac & _).
  destruct ro as [r|]; simpl in Hrq; [|destruct Hrq as [(E & Hi & ->)|[([E|[E|E]] & Hi & ->)|(E & Hi & ->)]]];
    unfold server_ok, serve_step.
  - destruct Hrq as (E & Hi & ->). rewrite E.
    destruct (recv_step_xfer T (msg st) HT ltac:(lia) so r (xb sh0) Hxf Hrd) as (res & x' & -> & Hgo & Hon).
    simpl. eexists _, _. split; [done|]. destruct (Hon _ _ _ _ Hfl) as [s' Hfl'].
    destruct res as [r'|n b]; simpl in Hgo |- *.
    + split; [by destruct Hgo|]. split; [|done].
      by eapply (PRequest _ _ _ _ _ _ so (Some r') s' true).
    + destruct Hgo as (-> & -> & -> & Hst' & Hx').
      destruct (flags_read _ _ _ _ _ Hfl') as (_ & _ & Hs' & _).
      split; [done|]. split; [|done]. apply (PReply _ _ _ _ _ _ GLen); simpl; auto.
      by rewrite Hfl', <-Hs', Hst'.
  - rewrite E, Hi. eexists _, _. split; [done|]. split; [done|]. split; [|done].
    eapply (PRequest _ _ _ _ _ _ so None); [done| |done|done]. right. left. simpl. auto.
  - rewrite E, Hpd. eexists _, _. split; [done|]. split; [done|]. split; [|done].
    eapply (PRequest _ _ _ _ _ _ so None); [done| |done|done]. right. left. simpl. auto.
  - rewrite E, Hac. eexists _, _. split; [done|]. split; [done|]. split; [|done].
    eapply (PRequest _ _ _ _ _ _ so None); [done| |done|done]. right. left. simpl. auto.
  - rewrite E. eexists _, _. split; [done|]. split; [by destruct Hx|]. split; [|done].
    eapply (PRequest _ _ _ _ _ _ so None); [done| |by eapply raise_active|].
    + right. right. simpl. auto.
    + apply (xfer_ext _ _ _ _ _ _ Hxf); try done. simpl. by rewrite staged_raise, orb_false_r.
  - rewrite E, Hac.
    destruct (recv_data_xfer T (msg st) kmalloc so (xb sh0) Hxf ltac:(lia) (Hkm (zlen (msg st)) ltac:(lia)))
      as (r & -> & Hxf' & _).
    eexists _, _. split; [done|]. split; [done|]. split; [|done].
    eapply (PRequest _ _ _ _ _ _ so (Some r)); [done|simpl; auto|done|done].
Qed.

Lemma server_reply st sh0 sv g :
  sized T (xb sh0) → waits (pc st) → reply sv = f (msg st) → ipi sh0 = false →
  ipc sv = KActive ∨ (ipc sv = KStage g ∧ f (msg st) ≠ [] ∧ staging T (f (msg st)) g (xb sh0)) ∨
    (ipc sv = KComplete ∧ f (msg st) = []) →
  flags (xb sh0) = mk_flags true false true false → server_ok st sh0 sv.
Proof using HT.
  intros Hx Hwt Hr Hi Hpc Hfl. destruct (flags_read _ _ _ _ _ Hfl) as (_ & _ & _ & Hac & _).
  unfold server_ok, serve_step. destruct Hpc as [E|[(E & Hne & Hg)|(E & Hne)]]; rewrite E, ?Hac, Hr.
  - eexists _, _. split; [done|]. split; [done|]. split; [|done].
    apply (PReply _ _ _ _ _ _ GLen); auto. right. case_test; simpl; [left|right].
    + split_and!; [done| |done]. by intros E'; rewrite E' in *.
    + split; [done|]. destruct (f (msg st)); [done|simpl in *; lia].
  - destruct (stage_step g (f (msg st)) (xb sh0) Hx Hg (nonempty_len _ Hne)) as (o & x' & -> & Hx' & Ho').
    simpl. eexists _, _. split; [done|]. split; [done|]. split; [|done]. destruct o as [g'|].
    + destruct Ho' as [Hg' Hfl']. apply (PReply _ _ _ _ _ _ g'); simpl; auto. congruence.
    + destruct Ho' as [Hg' ->]. apply PReplyStaged; auto. by eapply raise_staged.
  - rewrite Hne. eexists _, _. split; [done|]. split; [by destruct Hx|]. split; [|done].
    apply PFinish; simpl; auto. by apply (raise_complete _ _ _ _ _ Hfl).
Qed.

Lemma server_reply_staged st sh0 sv :
  sized T (xb sh0) → waits (pc st) → reply sv = f (msg st) → ipi sh0 = false →
  ipc sv = KComplete → f (msg st) ≠ [] → is_staged T (f (msg st)) (xb sh0) →
  flags (xb sh0) = mk_flags true true true false → server_ok st sh0 sv.
Proof using HT.
  intros Hx Hwt Hr Hi E Hne Hs Hfl. unfold server_ok, serve_step. rewrite E, Hr.
  assert (is_staged T (f (msg st)) (raise_flag (xb sh0) XBUF_COMPLETE)) as Hs'.
  { destruct Hs as (? & ? & Hst). split_and!; [done..|]. by rewrite staged_raise, Hst. }
  eexists _, _. split; [done|]. split; [by destruct Hx|]. split; [|done].
  eapply (PResponse _ _ _ _ _ _ _ None true); [by left|apply complete_reply|done..| |].
  - by eapply raise_complete.
  - apply send_rest_start; [by destruct Hx|done|by apply nonempty_len].
Qed.

Lemma server_response st sh0 sv so ro s :
  sized T (xb sh0) → receiving_reply (pc st) ro → sending_reply (ipc sv) so →
  ipi sh0 = false → f (msg st) ≠ [] → (ro = None → s = true) →
  flags (xb sh0) = mk_flags true s true true → xfer T (f (msg st)) so ro (xb sh0) →
  server_ok st sh0 sv.
Proof using HT Hf.
  intros Hx Hrr Hsr Hi Hne Hs Hfl Hxf. destruct so as [so|]; simpl in Hsr.
  - destruct (flags_read _ _ _ _ _ Hfl) as (Hrd & _ & Hst & _).
    unfold server_ok, serve_step. rewrite Hsr.
    destruct (send_step_xfer T _ HT (Hf _) so ro (xb sh0) Hxf Hrd)
      as (res & x' & -> & Hxf' & Hon & Hmono). simpl.
    eexists _, _. split; [done|]. destruct (Hon _ _ _ _ Hfl) as [s' Hfl'].
    split; [by destruct Hxf'|]. split; [|done].
    eapply (PResponse _ _ _ _ _ _ _ ro s'); [done|apply complete_reply|done|done| |done|done].
    intros Hro. destruct (flags_read _ _ _ _ _ Hfl') as (_ & _ & <- & _). apply Hmono.
    rewrite Hst. auto.
  - apply server_ok_quiet; auto. by eapply (PResponse _ _ _ _ _ _ None ro s).
Qed.

Lemma server_step st sh0 sv :
  sized T (xb sh0) → well_posed f st → phase st (xb sh0) (ipi sh0) sv → server_ok st sh0 sv.
Proof using HT Hf Hkm.
  intros Hx Hp Hph. pose proof Hph as Hph'.
  destruct Hph as [? ? ? ?|? ? ? ? ?|so ro s a ? ? ? ?|g Hwt ? ? ? Hfl|Hwt ? ? ? ? ? Hfl|so ro s|? ? ? ?].
  - by apply server_ok_quiet.
  - by apply server_ok_quiet.
  - by eapply server_request.
  - by eapply server_reply.
  - by apply server_reply_staged.
  - by eapply server_response.
  - by apply server_ok_quiet.
Qed.

(** *** Senders that do not own the channel *)

Lemma posed_goto st p :
  well_posed f st → resp st = None →
  (match p with SDone _ | CReset => False | _ => True end) → well_posed f (goto st p).
Proof using.
  intros (Hm & Hw & _) Hr Hp. split; [exact Hm|]. split; [exact Hw|].
  unfold outcome; simpl. by destruct p.
Qed.

(** Where a sender may go that finds [pending] to be [b]. *)
Definition free_next (b : bool) (p q : sync_pc) : Prop :=
  match p with
  | ALock => q = ALock ∨ q = AReady
  | AReady => q = APending
  | APending => q = if b then AUnlock false else AReset
  | AUnlock false => q = AWait
  | AWait => q = AWait ∨ q = ALock
  | AReset => q = ARaise
  | ARaise => q = AUnlock true
  | SDone r => q = SDone r
  | _ => False
  end.

Lemma free_step intr st sh0 p s a c :
  well_posed f st → is_free (pc st) → flags (xb sh0) = mk_flags p s a c →
  ∃ st' sh', sync_step kmalloc intr st sh0 = Some (st', sh') ∧ well_posed f st' ∧
    free_next p (pc st) (pc st') ∧ msg st' = msg st ∧ ipi sh' = ipi sh0 ∧
    xb sh' = match pc st with
             | AReset => reset_flags (xb sh0)
             | ARaise => raise_flag (xb sh0) XBUF_PENDING
             | _ => xb sh0
             end.
Proof using.
  intros Hp Hfree Hfl. destruct (flags_read _ _ _ _ _ Hfl) as (Hrd & Hpd & _).
  assert (match pc st with SDone _ => True | _ => resp st = None end) as Hr.
  { destruct Hp as (_ & _ & Ho). unfold outcome in Ho. by destruct (pc st). }
  pose proof (posed_goto st) as Hg. unfold sync_step. rewrite Hrd, Hpd.
  revert Hfree Hr.
  destruct (pc st) as [| | | | |[]| | | | | | | | | | |ret] eqn:E; intros Hfree Hr;
    try (by destruct Hfree).
  - destruct (xbuf_lock sh0); eexists _, _; (split; [done|]); simpl; rewrite ?E; auto 10.
  - eexists _, _; split; [done|]. simpl; auto 10.
  - eexists _, _; split; [done|]. destruct p; simpl; auto 10.
  - eexists _, _; split; [done|]. simpl; auto 10.
  - eexists _, _; split; [done|]. simpl; auto 10.
  - eexists _, _; split; [done|]. simpl; auto 10.
  - destruct (negb p || intr); eexists _, _; (split; [done|]); simpl; rewrite ?E; auto 10.
  - eexists _, _; split; [done|]. simpl. rewrite E; auto 10.
Qed.
End phases.

(** ** Lemmas: the lock *)

Definition lock_trans (p : sync_pc) (l : bool) (p' : sync_pc) (l' : bool) : Prop :=
  ((in_lock p ↔ in_lock p') ∧ l' = l) ∨
  (¬ in_lock p ∧ l = false ∧ l' = true) ∨ (in_lock p ∧ ¬ in_lock p' ∧ l' = false).

Lemma sync_step_lock kmalloc intr st sh0 st' sh' :
  sync_step kmalloc intr st sh0 = Some (st', sh') →
  lock_trans (pc st) (xbuf_lock sh0) (pc st') (xbuf_lock sh').
Proof.
  unfold sync_step, lock_trans.
  destruct (pc st) as [| | | | |acq| | |g| |s| | | |r| |ret] eqn:E.
  - destruct (xbuf_lock sh0) eqn:El; intros [= <- <-]; simpl; rewrite ?E, ?El; tauto.
  - intros [= <- <-]; simpl. destruct (ready _); simpl; tauto.
  - intros [= <- <-]; simpl. destruct (pending _); simpl; tauto.
  - intros [= <- <-]; simpl; tauto.
  - intros [= <- <-]; simpl; tauto.
  - intros [= <- <-]; simpl. right. right. split_and!; [done| |done].
    destruct acq; simpl; [|tauto]. destruct (_ >? 0); simpl; tauto.
  - intros [= <- <-]; simpl; tauto.
  - destruct (_ || _); intros [= <- <-]; simpl; rewrite ?E; simpl; tauto.
  - destruct (init_stage_data_step _ _ _) as [[o x]|]; [|done]. intros [= <- <-]; simpl.
    destruct o; simpl; tauto.
  - intros [= <- <-]; simpl. destruct (send_rest _ _); simpl; tauto.
  - destruct (send_step _ _) as [[res x]|]; [|done]. intros [= <- <-]; simpl.
    destruct res; simpl; tauto.
  - intros [= <- <-]; simpl. destruct (complete _); simpl; tauto.
  - intros [= <- <-]; simpl. destruct (ready _); simpl; tauto.
  - destruct (_ && _); intros [= <- <-]; simpl; [|tauto].
    destruct (recv_data _ _) as [|n b]; simpl; [tauto|]. destruct (n =? 0); simpl; tauto.
  - destruct (recv_step _ _) as [[res x]|]; [|done]. intros [= <- <-]; simpl.
    destruct res as [|n b]; simpl; [tauto|]. destruct (n =? 0); simpl; tauto.
  - intros [= <- <-]; simpl; tauto.
  - intros [= <- <-]; simpl; rewrite E; tauto.
Qed.

Lemma after_recv_msg st res : msg (after_recv st res) = msg st.
Proof. by destruct res. Qed.

Lemma sync_step_msg kmalloc intr st sh0 st' sh' :
  sync_step kmalloc intr st sh0 = Some (st', sh') → msg st' = msg st.
Proof.
  unfold sync_step. destruct (pc st).
  1: destruct (xbuf_lock sh0).
  9: destruct (_ || _).
  11: destruct (init_stage_data_step _ _ _) as [[o x]|].
  14: destruct (send_step _ _) as [[res x]|].
  18: destruct (_ && _).
  20: destruct (recv_step _ _) as [[res x]|].
  all: simpl; intros; simplify_eq; rewrite ?after_recv_msg; done.
Qed.

Definition lock_ok (l : bool) (ss : list sync_send) : Prop :=
  (∀ t st, ss !! t = Some st → in_lock (pc st) → l = true) ∧
  (∀ t t' st st', ss !! t = Some st → ss !! t' = Some st' →
     in_lock (pc st) → in_lock (pc st') → t = t').

Lemma lookup_insert_cases {A} (l : list A) (t t' : nat) (a b : A) :
  <[t := a]> l !! t' = Some b → (t' = t ∧ b = a) ∨ (t' ≠ t ∧ l !! t' = Some b).
Proof.
  rewrite list_lookup_insert_Some. intros [(-> & -> & _)|[? ?]]; [by left|].
  right. split; [by apply not_eq_sym|done].
Qed.

Lemma lock_ok_insert l l' ss t st st' :
  lock_ok l ss → ss !! t = Some st → lock_trans (pc st) l (pc st') l' →
  lock_ok l' (<[t := st']> ss).
Proof.
  intros [Hl Hu] Ht Htr. split.
  - intros t1 st1 [[-> ->]|[Hne H1]]%lookup_insert_cases Hin.
    + destruct Htr as [[Hiff ->]|[(_ & _ & ->)|(_ & Hn & _)]]; [|done|done].
      eapply Hl; [done|]. by apply Hiff.
    + specialize (Hl _ _ H1 Hin) as Hl1.
      destruct Htr as [[_ ->]|[(_ & _ & ->)|(Hp & _ & _)]]; [done|done|].
      destruct Hne. by eapply Hu.
  - assert (∀ t1 st1, t1 ≠ t → ss !! t1 = Some st1 → in_lock (pc st1) → in_lock (pc st') → False)
      as Hother.
    { intros t1 st1 Hne H1 Hin1 Hin. specialize (Hl _ _ H1 Hin1) as Hl1.
      destruct Htr as [[Hiff _]|[(_ & -> & _)|(_ & Hn & _)]]; [|done|done].
      apply Hne. eapply Hu; [done|done|done|by apply Hiff]. }
    intros t1 t2 st1 st2 [[-> ->]|[Hne1 H1]]%lookup_insert_cases
      [[-> ->]|[Hne2 H2]]%lookup_insert_cases Hin1 Hin2; [done| | |by eapply Hu].
    + by destruct (Hother t2 st2).
    + by destruct (Hother t1 st1).
Qed.

(** ** Lemmas: the system invariant *)

Section system.
Context (f : list byte → list byte) (T : Z) (kmalloc : Z → option (list byte)).
Context (HT : 0 < T) (Hf : ∀ m, zlen (f m) < 2 ^ 32).
Context (Hkm : ∀ n, 0 ≤ n → ∃ b, kmalloc n = Some b ∧ zlen b = n).
Local Notation inv := (inv f T).
Local Notation sys_step := (sys_step kmalloc (Some f)).

Lemma inv_lock_ok s : inv s → lock_ok (xbuf_lock (sh s)) (senders s).
Proof using. intros []. by split. Qed.

(** The flags of an owned channel. *)
Lemma phase_pending st x i sv :
  phase f T st x i sv → ∃ s a c, flags x = mk_flags true s a c.
Proof using. intros []; eauto. Qed.

(** A sender's step re-establishes the invariant when it does so for the
    channel and for the sender itself. *)
Lemma inv_sender s t st intr st' sh' :
  inv s → senders s !! t = Some st → sync_step kmalloc intr st (sh s) = Some (st', sh') →
  sized T (xb sh') → well_posed f st' →
  (vacant (xb sh') (ipi sh') (srv s) ∧
     (∀ u su, <[t := st']> (senders s) !! u = Some su → is_free (pc su)) ∨
   ∃ u su, <[t := st']> (senders s) !! u = Some su ∧ phase f T su (xb sh') (ipi sh') (srv s) ∧
     ∀ u' su', u' ≠ u → <[t := st']> (senders s) !! u' = Some su' →
               is_free (pc su') ∧ ¬ taking (pc su')) →
  inv {| sh := sh'; senders := <[t := st']> (senders s); srv := srv s |}.
Proof using.
  intros Hinv Ht Hstep Hx Hp Hph.
  destruct (lock_ok_insert _ (xbuf_lock sh') _ _ _ st' (inv_lock_ok _ Hinv) Ht) as [Hl Hu].
  { by eapply sync_step_lock. }
  split; simpl; [done| |done|done|done].
  intros u su [[_ ->]|[_ Hsu]]%lookup_insert_cases; [done|by eapply inv_posed].
Qed.

Lemma free_next_free p p' : free_next false p p' → is_free p' ∨ (taking p ∧ p' = AUnlock true).
Proof using. destruct p as [| | | | |[]| | | | | | | | | | |ret]; simpl; intros; destruct_or?; subst; simpl; auto. Qed.

Lemma free_next_owned p p' : free_next true p p' → ¬ taking p → is_free p' ∧ ¬ taking p'.
Proof using. destruct p as [| | | | |[]| | | | | | | | | | |ret]; simpl; intros; destruct_or?; subst; simpl; auto. Qed.

(** What one step of a sender leads to. *)
Definition sender_ok (s : sys) (t : nat) (intr : bool) (st : sync_send) : Prop :=
  ∃ st' sh', sync_step kmalloc intr st (sh s) = Some (st', sh') ∧
    inv {| sh := sh'; senders := <[t := st']> (senders s); srv := srv s |}.

Lemma others_free (s : sys) (t : nat) (st' : sync_send) (P : sync_send → Prop) :
  P st' → (∀ u su, u ≠ t → senders s !! u = Some su → P su) →
  ∀ u su, <[t := st']> (senders s) !! u = Some su → P su.
Proof using. intros ? Hs u su [[-> ->]|[Hne Hu]]%lookup_insert_cases; [done|by eapply Hs]. Qed.

Lemma sender_vacant s t st intr :
  inv s → senders s !! t = Some st → vacant (xb (sh s)) (ipi (sh s)) (srv s) →
  (∀ u su, senders s !! u = Some su → is_free (pc su)) → sender_ok s t intr st.
Proof using.
  intros Hinv Ht (Hfl & Hi & Hsv) Hfree.
  pose proof (inv_posed _ _ _ Hinv _ _ Ht) as Hp. pose proof (inv_sized _ _ _ Hinv) as Hx.
  destruct (free_step f kmalloc intr st (sh s) _ _ _ _ Hp (Hfree _ _ Ht) Hfl)
    as (st' & sh' & Hst & Hp' & Hnext & _ & Hi' & Hx').
  exists st', sh'. split; [done|].
  assert (sized T (xb sh')) as Hsz by (rewrite Hx'; destruct Hx; by destruct (pc st)).
  eapply inv_sender; [done..|].
  assert (pc st = ARaise ∨ pc st ≠ ARaise) as [E|E] by (destruct (pc st); auto).
  - right. rewrite E in *. simpl in Hnext. exists t, st'.
    rewrite list_lookup_insert_eq by (by eapply lookup_lt_Some). split; [done|]. split.
    + apply PTaken; [by left| |congruence|done]. rewrite Hx'. by eapply raise_pending.
    + intros u su Hne [[-> _]|[_ Hu]]%lookup_insert_cases; [done|]. split; [by eapply Hfree|].
      intros Htk. apply Hne. eapply (inv_unique _ _ _ Hinv); [done|done| |by rewrite E].
      by destruct (pc su).
  - left. split.
    + split_and!; [|congruence|done]. rewrite Hx'. destruct (pc st) eqn:E'; try done.
      by eapply reset_all.
    + apply others_free; [|by eauto]. destruct (free_next_free _ _ Hnext) as [?|[Htk Heq]]; [done|].
      destruct (pc st) as [| | | | |[]| | | | | | | | | | |ret]; simpl in *; congruence || done.
Qed.

Lemma sender_bystander s t st intr o so :
  inv s → senders s !! t = Some st → t ≠ o → senders s !! o = Some so →
  phase f T so (xb (sh s)) (ipi (sh s)) (srv s) →
  (∀ u su, u ≠ o → senders s !! u = Some su → is_free (pc su) ∧ ¬ taking (pc su)) →
  sender_ok s t intr st.
Proof using.
  intros Hinv Ht Hne Ho Hph Hother. destruct (Hother t st Hne Ht) as [Hfree Htk].
  pose proof (inv_posed _ _ _ Hinv _ _ Ht) as Hp. pose proof (inv_sized _ _ _ Hinv) as Hx.
  destruct (phase_pending _ _ _ _ Hph) as (c1 & c2 & c3 & Hfl).
  destruct (free_step f kmalloc intr st (sh s) _ _ _ _ Hp Hfree Hfl)
    as (st' & sh' & Hst & Hp' & Hnext & _ & Hi' & Hx').
  assert (xb sh' = xb (sh s)) as Hxe by (rewrite Hx'; by destruct (pc st)).
  exists st', sh'. split; [done|]. eapply inv_sender; [done..|by rewrite Hxe|done|].
  right. exists o, so. rewrite list_lookup_insert_ne by done. rewrite Hxe, Hi'.
  split; [done|]. split; [done|]. intros u su Hu [[-> ->]|[_ Hsu]]%lookup_insert_cases; [|by eauto].
  by eapply free_next_owned.
Qed.

Lemma sender_owner s t st intr :
  inv s → senders s !! t = Some st → phase f T st (xb (sh s)) (ipi (sh s)) (srv s) →
  (∀ u su, u ≠ t → senders s !! u = Some su → is_free (pc su) ∧ ¬ taking (pc su)) →
  sender_ok s t intr st.
Proof using HT Hf Hkm.
  intros Hinv Ht Hph Hother.
  pose proof (inv_posed _ _ _ Hinv _ _ Ht) as Hp. pose proof (inv_sized _ _ _ Hinv) as Hx.
  destruct (owner_step f T kmalloc HT Hf Hkm st (sh s) (srv s) Hx Hp Hph intr)
    as (st' & sh' & Hst & [Hx' Hp' Hph']).
  exists st', sh'. split; [done|]. eapply inv_sender; [done..|]. destruct Hph' as [Hph'|[E Hv]].
  - right. exists t, st'. rewrite list_lookup_insert_eq by (by eapply lookup_lt_Some).
    split; [done|]. split; [done|].
    intros u su Hu [[-> _]|[_ Hsu]]%lookup_insert_cases; [done|by eauto].
  - left. split; [done|]. apply others_free; [by rewrite E|]. intros u su Hu Hsu.
    by eapply Hother.
Qed.

Lemma server_inv s :
  inv s → ∃ sv' sh', serve_step kmalloc (Some f) (srv s) (sh s) = Some (sv', sh') ∧
    inv {| sh := sh'; senders := senders s; srv := sv' |}.
Proof using HT Hf Hkm.
  intros Hinv. pose proof (inv_sized _ _ _ Hinv) as Hx.
  destruct (inv_phase _ _ _ Hinv) as [[Hv Hfree]|(o & so & Ho & Hph & Hother)].
  - destruct Hv as (Hfl & Hi & Hsv). exists (srv s), (sh s).
    split; [by apply server_quiet|]. by destruct s.
  - pose proof (inv_posed _ _ _ Hinv _ _ Ho) as Hp.
    destruct (server_step f T kmalloc HT Hf Hkm so (sh s) (srv s) Hx Hp Hph)
      as (sv' & sh' & Hst & Hx' & Hph' & Hl).
    exists sv', sh'. split; [done|]. destruct Hinv. split; simpl; [done|done|by rewrite Hl|done|].
    right. by exists o, so.
Qed.

Lemma inv_step w s :
  inv s → ∃ s', sys_step w s = Some s' ∧ inv s' ∧ msg <$> senders s' = msg <$> senders s.
Proof using HT Hf Hkm.
  intros Hinv. destruct w as [t intr|]; simpl.
  - destruct (senders s !! t) as [st|] eqn:Ht; [|by exists s].
    assert (sender_ok s t intr st) as (st' & sh' & Hst & Hinv').
    { destruct (inv_phase _ _ _ Hinv) as [[Hv Hfree]|(o & so & Ho & Hph & Hother)].
      - by apply sender_vacant.
      - destruct (decide (t = o)) as [->|Hne]; [|by eapply sender_bystander].
        assert (so = st) as -> by congruence. by apply sender_owner. }
    rewrite Hst. eexists. split; [done|]. split; [done|]. simpl.
    rewrite list_fmap_insert, (sync_step_msg _ _ _ _ _ _ Hst).
    apply list_insert_id. by rewrite list_lookup_fmap, Ht.
  - destruct (server_inv s Hinv) as (sv' & sh' & -> & Hinv'). by eexists.
Qed.

Lemma inv_run ws s :
  inv s → ∃ s', run kmalloc (Some f) ws s = Some s' ∧ inv s' ∧
    msg <$> senders s' = msg <$> senders s.
Proof using HT Hf Hkm.
  revert s. induction ws as [|w ws IH]; intros s Hinv; simpl; [by exists s|].
  destruct (inv_step w s Hinv) as (s1 & -> & Hinv1 & <-). simpl. by apply IH.
Qed.

Lemma inv_start x msgs :
  sized T x → flags x = XBUF_READY → (∀ m, m ∈ msgs → 0 < zlen m < 2 ^ 32) →
  inv (start x msgs).
Proof using.
  intros Hx Hfl Hm. assert (∀ t st, (pisces_xbuf_send_start <$> msgs) !! t = Some st →
    ∃ m, m ∈ msgs ∧ st = pisces_xbuf_send_start m) as Hst.
  { intros t st. rewrite list_lookup_fmap. intros (m & Hm' & ->)%fmap_Some.
    exists m. split; [by eapply list_elem_of_lookup_2|done]. }
  split; simpl; [done| | | |left].
  - intros t st (m & Hin & ->)%Hst. by split; [apply Hm|].
  - by intros t st (m & Hin & ->)%Hst.
  - by intros t t' st st' (m & Hin & ->)%Hst.
  - split; [by split_and!|]. by intros t st (m & Hin & ->)%Hst.
Qed.
End system.

(** ** Lemmas: accesses of the message *)

(** The parts of the xbuf that are not the flag word. *)
Inductive area := Data | Length.

(** The part a sender's next step accesses, and whether it writes it. *)
Definition sender_access (p : sync_pc) : option (area * bool) :=
  match p with
  | MStage GLen => Some (Length, true)
  | MStage GCopy => Some (Data, true)
  | MSend s => match s_pc s with SCopy => Some (Data, true) | _ => None end
  | CStaged => Some (Length, false)
  | CRecv r => match r_pc r with RCopy => Some (Data, false) | _ => None end
  | _ => None
  end.

Definition server_access (p : serve_pc) : option (area * bool) :=
  match p with
  | HActive => Some (Length, false)
  | HRecv r => match r_pc r with RCopy => Some (Data, false) | _ => None end
  | KStage GLen => Some (Length, true)
  | KStage GCopy => Some (Data, true)
  | KSend s => match s_pc s with SCopy => Some (Data, true) | _ => None end
  | _ => None
  end.

(** Two accesses of the same part, one of which writes. *)
Definition races (a b : option (area * bool)) : Prop :=
  match a, b with
  | Some (p, w), Some (q, v) => p = q ∧ w || v = true
  | _, _ => False
  end.

(** In a transfer the two copies of a chunk exclude each other. *)
Lemma xfer_no_race T m s r x :
  xfer T m (Some s) (Some r) x → ¬ (s_pc s = SCopy ∧ r_pc r = RCopy).
Proof.
  intros (_ & _ & sent & read & Hs & Hr & _) [Es Er].
  destruct Hs as (_ & _ & _ & _ & _ & Hs), Hr as (_ & _ & _ & _ & buf & _ & _ & _ & Hr).
  rewrite Es in Hs. rewrite Er in Hr. congruence.
Qed.

Lemma phase_no_race f T st x i sv :
  phase f T st x i sv → ¬ races (sender_access (pc st)) (server_access (ipc sv)).
Proof.
  intros [? ? ? E|? ? ? ? E|so ro s a Hs Hr _ Hx|g Hwt _ _ _ _|Hwt _ _ _ _ _ _
         |so ro s Hr Hs _ _ _ _ Hx|? ? E ?].
  - rewrite E. destruct (sender_access _) as [[]|]; simpl; tauto.
  - rewrite E. destruct (sender_access _) as [[]|]; simpl; tauto.
  - destruct so as [so|]; simpl in Hs; [rewrite Hs; simpl|by destruct Hs as [-> | ->]; simpl; tauto].
    destruct (s_pc so) eqn:Es; simpl; try tauto.
    destruct ro as [r|]; simpl in Hr.
    + destruct Hr as (-> & _). simpl. destruct (r_pc r) eqn:Er; simpl; try tauto.
      exfalso. by eapply xfer_no_race.
    + destruct Hr as [(-> & _)|[([-> |[-> | ->]] & _)|(-> & _)]]; simpl; try tauto; by intros [].
  - destruct Hwt as [-> | ->]; simpl; tauto.
  - destruct Hwt as [-> | ->]; simpl; tauto.
  - destruct ro as [r|]; simpl in Hr.
    + rewrite Hr. simpl. destruct (r_pc r) eqn:Er; simpl; try tauto.
      destruct so as [so|]; simpl in Hs; rewrite Hs; simpl; [|tauto].
      destruct (s_pc so) eqn:Es; simpl; try tauto. exfalso. by eapply xfer_no_race.
    + destruct Hr as [[-> | ->]| ->]; simpl; try tauto.
      destruct so as [so|]; simpl in Hs; rewrite Hs; simpl; [|tauto].
      destruct (s_pc so); simpl; try tauto; by intros [].
  - rewrite E. destruct (sender_access _) as [[]|]; simpl; tauto.
Qed.

Lemma free_no_access p : is_free p → sender_access p = None.
Proof. by destruct p. Qed.

(** ** Properties *)


(** A 4-byte channel, a message of six bytes, one of three, and a handler that
    answers with the message and a byte more. *)
Definition demo_xbuf : xbuf :=
  {| flags := XBUF_READY; host_apic := 0; host_vector := 0; enclave_cpu := 1; enclave_vector := 2;
     total_size := 4; data_len := 0; data := replicate 4 Byte.x00 |}.
Definition demo_msgs : list (list byte) :=
  [[Byte.x01; Byte.x02; Byte.x03; Byte.x04; Byte.x05; Byte.x06]; [Byte.x07; Byte.x08; Byte.x09]].
Definition demo_handler (m : list byte) : list byte := take 20 (Byte.xff :: m).
Definition demo_kmalloc (n : Z) : option (list byte) := Some (replicate (Z.to_nat n) Byte.x00).
Definition demo_round : list party := [Sender 0 false; Server; Sender 1 false; Server].
Definition demo_schedule : list party := concat (replicate 80 demo_round).

Lemma demo_run :
  (λ s, (λ st, (pc st, resp st)) <$> senders s) <$>
    run demo_kmalloc (Some demo_handler) demo_schedule (start demo_xbuf demo_msgs) =
  Some ((λ m, (SDone 0, Some (Byte.xff :: m))) <$> demo_msgs).
Proof. vm_compute. reflexivity. Qed.

Lemma demo_handler_length m : zlen (demo_handler m) < 2 ^ 32.
Proof. unfold demo_handler. rewrite length_take. lia. Qed.

Lemma demo_kmalloc_ok n : 0 ≤ n → ∃ b, demo_kmalloc n = Some b ∧ zlen b = n.
Proof. intros. eexists. split; [done|]. rewrite length_replicate. lia. Qed.

Lemma demo_msgs_ok m : m ∈ demo_msgs → 0 < zlen m < 2 ^ 32.
Proof.
  unfold demo_msgs. rewrite !elem_of_cons.
  intros [->|[->|?%not_elem_of_nil]]; [..|done]; simpl; lia.
Qed.


(** C13: In every reachable state at most one sender holds the channel (is past
    the point where it raised PENDING and before it has reset the flags), and no
    two parties are about to access the data area, or the length word, with one
    of the accesses a write: the unlocked copies of the protocol do not race. *)
Theorem xbuf_exclusive (f : list byte → list byte) (kmalloc : Z → option (list byte))
    (x : xbuf) (msgs : list (list byte)) (ws : list party) (s : sys)
    (Hsize : 0 < total_size x) (Hdata : zlen (data x) = total_size x)
    (Hflags : flags x = XBUF_READY)
    (Hkm : ∀ n, 0 ≤ n → ∃ b, kmalloc n = Some b ∧ zlen b = n)
    (Hf : ∀ m, zlen (f m) < 2 ^ 32) (Hmsgs : ∀ m, m ∈ msgs → 0 < zlen m < 2 ^ 32)
    (Hrun : run kmalloc (Some f) ws (start x msgs) = Some s) :
  ∀ t t' st st', senders s !! t = Some st → senders s !! t' = Some st' →
    (¬ is_free (pc st) → ¬ is_free (pc st') → t = t') ∧
    (t ≠ t' → ¬ races (sender_access (pc st)) (sender_access (pc st'))) ∧
    ¬ races (sender_access (pc st)) (server_access (ipc (srv s))).
Proof.
  destruct (inv_run f (total_size x) kmalloc Hsize Hf Hkm ws (start x msgs))
    as (s' & Hrun' & Hinv & _); [by apply inv_start|].
  assert (s' = s) as -> by congruence.
  intros t t' st st' Ht Ht'.
  destruct (inv_phase _ _ _ Hinv) as [[_ Hfree]|(o & so & Ho & Hph & Hother)].
  - rewrite (free_no_access (pc st)) by (by eapply Hfree). split; [|auto].
    intros []. by eapply Hfree.
  - assert (∀ u su, senders s !! u = Some su → ¬ is_free (pc su) → u = o) as Hown.
    { intros u su Hu Hn. destruct (decide (u = o)) as [|Hne]; [done|].
      by destruct (Hother u su Hne Hu). }
    split; [|split].
    + intros H1 H2. rewrite (Hown _ _ Ht H1). symmetry. by eapply Hown.
    + intros Hne. destruct (decide (t = o)) as [->|Hne'].
      * rewrite (free_no_access (pc st')); [by destruct (sender_access _) as [[]|]; simpl; tauto|].
        by apply (Hother t').
      * rewrite (free_no_access (pc st)); [simpl; tauto|]. by apply (Hother t).
    + destruct (decide (t = o)) as [->|Hne'].
      * assert (so = st) as -> by congruence. by eapply phase_no_race.
      * rewrite (free_no_access (pc st)); [simpl; tauto|]. by apply (Hother t).
Qed.

Lemma xbuf_exclusive_witness :
  ∃ s, run demo_kmalloc (Some demo_handler) (take 40 demo_schedule) (start demo_xbuf demo_msgs) = Some s ∧
    ∀ t t' st st', senders s !! t = Some st → senders s !! t' = Some st' →
    (¬ is_free (pc st) → ¬ is_free (pc st') → t = t') ∧
    (t ≠ t' → ¬ races (sender_access (pc st)) (sender_access (pc st'))) ∧
    ¬ races (sender_access (pc st)) (server_access (ipc (srv s))).
Proof.
  destruct (run demo_kmalloc (Some demo_handler) (take 40 demo_schedule) (start demo_xbuf demo_msgs))
    as [s|] eqn:E; [|vm_compute in E; discriminate].
  exists s. split; [done|].
  apply (xbuf_exclusive demo_handler demo_kmalloc demo_xbuf demo_msgs (take 40 demo_schedule));
    [done|done|done|exact demo_kmalloc_ok|exact demo_handler_length|exact demo_msgs_ok|exact E].
Defined.
