(* ===== verification/XbufLive.v ===== *)
(** * Cross-enclave calls return ([src/pisces_xbuf.c])

    The protocol of [XbufRpc] under fair schedules: a rank of the states that no step
    raises, and in every state with a call that is not over a party whose step
    lowers it.  The waiting loops leave the rank as it is, and the party they
    wait for is the one that helps. *)
From Stdlib Require Import Wellfounded.Lexicographic_Product Relation_Operators.
From S2P Require Import Prelude Xbuf XbufRpc.
#[local] Open Scope Z_scope.
#[local] Arguments ready _ : simpl never.
#[local] Arguments pending _ : simpl never.
#[local] Arguments staged _ : simpl never.
#[local] Arguments active _ : simpl never.
#[local] Arguments complete _ : simpl never.

(** ** Fair schedules *)

Definition same_party (w v : party) : Prop :=
  match w, v with Sender t _, Sender u _ => t = u | Server, Server => True | _, _ => False end.

(** The server and each of [n] senders take steps again and again. *)
Definition fair (n : nat) (sched : nat → party) : Prop :=
  ∀ w, (match w with Sender t _ => (t < n)%nat | Server => True end) →
  ∀ i, ∃ j, (i ≤ j)%nat ∧ same_party (sched j) w.

(** ** Specification: the rank of a state *)

(** What is left of a transfer: 20 for each byte, and the steps to the next
    change of STAGED for the side whose turn it is. *)
Definition send_turn (p : send_pc) : Z :=
  match p with SCheck | SWaitReady => 5 | SWait => 4 | SCopy => 3 | SRaise => 2 end.
Definition recv_turn (p : recv_pc) : Z :=
  match p with RCheck | RWaitReady => 5 | RWait => 4 | RCopy => 3 | RLower => 2 end.
Definition send_cost (s : sending) (x : xbuf) : Z :=
  20 * Z.max 0 (s_left s) + (if staged x then 0 else send_turn (s_pc s)).
Definition recv_cost (r : receiving) (x : xbuf) : Z :=
  20 * Z.max 0 (r_left r) + (if staged x then recv_turn (r_pc r) else 0).

Section rank.
Context (f : list byte → list byte).

Definition reply_cost (m : list byte) : Z := 40 * zlen (f m) + 40.

(** The owner's share. *)
Definition owner_cost (st : sync_send) (x : xbuf) : Z :=
  let L := zlen (msg st) in let R := zlen (f (msg st)) in
  match pc st with
  | AUnlock true => 20 * L + 11
  | MStage GLen => 20 * L + 10 | MStage GCopy => 20 * L + 9 | MStage GRaise => 20 * L + 8
  | MIpi => 20 * L + 7
  | MSend s => send_cost s x
  | WReady => if complete x then 20 * R + 12 else 0
  | WComplete => if complete x then 20 * R + 11 else 0
  | CStaged => 20 * R + 10
  | CRecv r => recv_cost r x + 2
  | CReset => 1
  | _ => 0
  end.

(** The server's, with the message [m] of the owner. *)
Definition server_cost (m : list byte) (sv : server) (x : xbuf) : Z :=
  let L := zlen m in
  match ipc sv with
  | IIdle | INoHandler => if complete x then 0 else reply_cost m + 20 * L + 12
  | IPending => reply_cost m + 20 * L + 11
  | IActive => reply_cost m + 20 * L + 10
  | IRaise => reply_cost m + 20 * L + 9
  | HActive => reply_cost m + 20 * L + 8
  | HRecv r => reply_cost m + recv_cost r x
  | KActive => reply_cost m
  | KStage GLen => reply_cost m - 1 | KStage GCopy => reply_cost m - 2 | KStage GRaise => reply_cost m - 3
  | KComplete => reply_cost m - 4
  | KSend s => send_cost s x
  end.

Definition call_cost (st : sync_send) (x : xbuf) (sv : server) : Z :=
  owner_cost st x + server_cost (msg st) sv x.

(** Whether the next step is the owner's to take; otherwise it is the server's. *)
Definition owner_helps (st : sync_send) (x : xbuf) (sv : server) : bool :=
  match pc st with
  | MSend _ => match ipc sv with HRecv _ => negb (staged x) | _ => false end
  | WComplete | WReady => complete x
  | CRecv _ => staged x
  | _ => true
  end.

(** The way to the channel while it is free. *)
Definition entry_cost (p : sync_pc) : Z :=
  match p with
  | AUnlock false => 7 | AWait => 6 | ALock => 5 | AReady => 4 | APending => 3 | AReset => 2 | ARaise => 1
  | _ => 0
  end.
End rank.

(** ** Lemmas: the two sides of a transfer *)

Section transfer.
Context (T : Z) (m : list byte) (HT : 0 < T) (Hm : zlen m < 2 ^ 32).

Definition res_cost (res : send_result) (x : xbuf) : Z :=
  match res with SRun s => send_cost s x | SRet _ => 0 end.

(** A sender waits without effect, or comes closer to its next chunk. *)
Lemma send_step_cost s r x res x' :
  xfer T m (Some s) r x → ready x = true → send_step s x = Some (res, x') →
  if staged x then x' = x ∧ res_cost res x' = send_cost s x ∧ (∃ s', res = SRun s')
  else res_cost res x' + (if staged x' then 20 else 1) ≤ send_cost s x.
Proof using HT Hm.
  intros (Hx & Hl & sent & read & (Hsz & Hle & Hpos & Hb & Hd & Hpc) & Hr & H0 & H1 & Hst) Hrd.
  unfold send_step. destruct (s_pc s) eqn:Epc.
  - rewrite Hrd. intros [= <- <-]. unfold res_cost, send_cost. cbn [s_left s_pc s_goto]. rewrite ?Epc. destruct (staged x); cbn [send_turn]; [eauto|lia].
  - intros [= <- <-]. unfold res_cost, send_cost. cbn [s_left s_pc s_goto]. rewrite ?Epc. destruct (staged x); cbn [send_turn]; [eauto|lia].
  - rewrite Hrd. intros [= <- <-]. unfold res_cost, send_cost. cbn [s_left s_pc s_goto]. rewrite ?Epc. destruct (staged x); cbn [send_turn]; [eauto|lia].
  - rewrite Hpc. intros (c&_&(d&_&[= <- <-])%bind_Some)%bind_Some. unfold res_cost, send_cost.
    change (staged (with_data x d)) with (staged x). rewrite Hpc, Epc. cbn [s_left s_pc s_goto send_turn]. lia.
  - destruct Hpc as [Hpc _]. rewrite Hpc. intros [= <- <-]. rewrite Hpc in Hst. subst read.
    pose proof (chunk_at_bounds T m HT sent ltac:(lia)) as Hc. unfold chunk_at in Hc. rewrite <-Hle, <-Hsz in Hc.
    assert (u32 (s_left s - chunk_len (s_size s) (s_left s)) ≤ s_left s - 1) as Hu.
    { unfold u32, wrap. rewrite Z.mod_small; lia. }
    unfold res_cost, send_loop, send_cost. rewrite staged_raise, orb_true_r. cbn [s_left]. rewrite Hpc, Epc.
    case_test; cbn [s_left s_goto s_pc send_turn]; lia.
Qed.

Definition got_cost (res : recv_result) (x : xbuf) : Z :=
  match res with RRun r => recv_cost r x | RRet _ _ => 0 end.

(** Likewise a receiver. *)
Lemma recv_step_cost s r x res x' :
  xfer T m s (Some r) x → ready x = true → recv_step r x = Some (res, x') →
  if staged x then got_cost res x' + (if staged x' then 1 else 20) ≤ recv_cost r x
  else x' = x ∧ got_cost res x' = recv_cost r x ∧ (∃ r', res = RRun r').
Proof using HT Hm.
  intros (Hx & Hl & sent & read & Hs & (Hsz & Hle & Hpos & Hb & buf & Hbuf & Hbl & Hp & Hpc) & H0 & H1 & Hst) Hrd.
  unfold recv_step. destruct (r_pc r) eqn:Epc.
  - rewrite Hrd. intros [= <- <-]. unfold got_cost, recv_cost. cbn [r_left r_pc r_goto]. rewrite ?Epc. destruct (staged x); cbn [recv_turn]; [lia|eauto].
  - intros [= <- <-]. unfold got_cost, recv_cost. cbn [r_left r_pc r_goto]. rewrite ?Epc. destruct (staged x); cbn [recv_turn]; [lia|eauto].
  - rewrite Hrd. intros [= <- <-]. unfold got_cost, recv_cost. cbn [r_left r_pc r_goto]. rewrite ?Epc. destruct (staged x); cbn [recv_turn]; [lia|eauto].
  - rewrite Hpc. intros (b&_&(c&_&(d&_&[= <- <-])%bind_Some)%bind_Some)%bind_Some. unfold got_cost, recv_cost.
    rewrite Hpc, Epc. cbn [r_left r_pc r_goto recv_turn]. lia.
  - destruct Hpc as [Hpc _]. rewrite Hpc. intros [= <- <-]. rewrite Hpc in Hst. destruct Hst as (Hlt & _ & _).
    pose proof (chunk_at_bounds T m HT read ltac:(lia)) as Hc. unfold chunk_at in Hc. rewrite <-Hle, <-Hsz in Hc.
    assert (u32 (r_left r - chunk_len (r_size r) (r_left r)) ≤ r_left r - 1) as Hu.
    { unfold u32, wrap. rewrite Z.mod_small; lia. }
    unfold got_cost, recv_loop, recv_cost. rewrite staged_lower. cbn [r_left]. rewrite Hpc, Epc.
    case_test; cbn [r_left r_goto r_pc recv_turn]; lia.
Qed.

(** With all of it sent and some of it not read, a chunk is there. *)
Lemma xfer_last r x : xfer T m None (Some r) x → staged x = true.
Proof using.
  intros (_ & _ & sent & read & Hs & (_ & Hle & Hpos & _) & _ & _ & Hst). cbn in Hs. destruct (staged x); [done|]. lia.
Qed.
End transfer.

(** ** Lemmas: a call in progress *)

Lemma send_cost_nonneg s x : 0 ≤ send_cost s x.
Proof. unfold send_cost, send_turn. destruct (staged x), (s_pc s); lia. Qed.
Lemma recv_cost_nonneg r x : 0 ≤ recv_cost r x.
Proof. unfold recv_cost, recv_turn. destruct (staged x), (r_pc r); lia. Qed.

Section calls.
Context (f : list byte → list byte) (T : Z) (kmalloc : Z → option (list byte)).
Context (HT : 0 < T) (Hf : ∀ m, zlen (f m) < 2 ^ 32).
Context (Hkm : ∀ n, 0 ≤ n → ∃ b, kmalloc n = Some b ∧ zlen b = n).
Local Notation phase := (phase f T).
Local Notation call_cost := (call_cost f).
Local Notation server_cost := (server_cost f).
Local Notation owner_cost := (owner_cost f).

Lemma owner_cost_nonneg st x : 0 ≤ owner_cost st x.
Proof using.
  unfold XbufLive.owner_cost. destruct (pc st) as [| | | | |[]| | |[]| |s| | | |r| |]; try lia.
  - apply send_cost_nonneg.
  - destruct (complete x); lia.
  - destruct (complete x); lia.
  - pose proof (recv_cost_nonneg r x). lia.
Qed.

Lemma server_cost_nonneg m sv x : 0 ≤ server_cost m sv x.
Proof using.
  unfold XbufLive.server_cost, reply_cost. destruct (ipc sv) as [| | | | | |r| |[]| |s]; try lia.
  - destruct (complete x); lia.
  - destruct (complete x); lia.
  - pose proof (recv_cost_nonneg r x). lia.
  - apply send_cost_nonneg.
Qed.

Lemma call_cost_nonneg st x sv : 0 ≤ call_cost st x sv.
Proof using.
  unfold XbufLive.call_cost. pose proof (owner_cost_nonneg st x). pose proof (server_cost_nonneg (msg st) sv x). lia.
Qed.

(** What a step of one side costs the other. *)
Lemma server_cost_put m sv x x' :
  complete x' = complete x → staged x = false →
  server_cost m sv x' ≤ server_cost m sv x + (if staged x' then 5 else 0).
Proof using.
  intros Hc Hs. unfold XbufLive.server_cost, recv_cost, send_cost. rewrite Hc, Hs.
  destruct (ipc sv) as [| | | | | |r| |[]| |s], (staged x'); try lia.
  - destruct (r_pc r); cbn [recv_turn]; lia.
  - destruct (s_pc s); cbn [send_turn]; lia.
Qed.
Lemma server_cost_take m sv x x' :
  complete x' = complete x → staged x = true →
  server_cost m sv x' ≤ server_cost m sv x + (if staged x' then 0 else 5).
Proof using.
  intros Hc Hs. unfold XbufLive.server_cost, recv_cost, send_cost. rewrite Hc, Hs.
  destruct (ipc sv) as [| | | | | |r| |[]| |s], (staged x'); try lia.
  - destruct (r_pc r); cbn [recv_turn]; lia.
  - destruct (s_pc s); cbn [send_turn]; lia.
Qed.
Lemma owner_cost_put st x x' :
  complete x' = complete x → staged x = false →
  owner_cost st x' ≤ owner_cost st x + (if staged x' then 5 else 0).
Proof using.
  intros Hc Hs. unfold XbufLive.owner_cost, recv_cost, send_cost. rewrite Hc, Hs.
  destruct (pc st) as [| | | | |[]| | |[]| |s| | | |r| |], (staged x'); try lia.
  - destruct (s_pc s); cbn [send_turn]; lia.
  - destruct (r_pc r); cbn [recv_turn]; lia.
Qed.
Lemma owner_cost_take st x x' :
  complete x' = complete x → staged x = true →
  owner_cost st x' ≤ owner_cost st x + (if staged x' then 0 else 5).
Proof using.
  intros Hc Hs. unfold XbufLive.owner_cost, recv_cost, send_cost. rewrite Hc, Hs.
  destruct (pc st) as [| | | | |[]| | |[]| |s| | | |r| |], (staged x'); try lia.
  - destruct (s_pc s); cbn [send_turn]; lia.
  - destruct (r_pc r); cbn [recv_turn]; lia.
Qed.

(** A step of the owner ends its call, lowers the cost, or waits for the
    server, whose step it is then. *)
Definition owner_moves (st : sync_send) (x : xbuf) (sv : server) (st' : sync_send) (x' : xbuf) : Prop :=
  pc st' = SDone 0 ∨ call_cost st' x' sv < call_cost st x sv ∨
  (call_cost st' x' sv = call_cost st x sv ∧ owner_helps st x sv = false ∧ owner_helps st' x' sv = false).

Lemma owner_moves_waits intr st sh0 sv st' sh' p s a c :
  waits (pc st) → flags (xb sh0) = mk_flags p s a c → sync_step kmalloc intr st sh0 = Some (st', sh') →
  owner_moves st (xb sh0) sv st' (xb sh').
Proof using.
  intros Hw Hfl. destruct (flags_read _ _ _ _ _ Hfl) as (Hrd & _ & _ & _ & Hc).
  unfold sync_step, owner_moves, XbufLive.call_cost, XbufLive.owner_cost, owner_helps.
  destruct Hw as [-> | ->]; rewrite ?Hrd, ?Hc; intros [= <- <-]; right; cbn [pc goto msg]; rewrite ?Hc; destruct c;
    cbn; rewrite ?Hc; [left|right|left|right]; try (split; [|done]); lia.
Qed.

Lemma stage_step_pc g d x o x' :
  init_stage_data_step g d x = Some (o, x') →
  complete x' = complete x ∧ o = match g with GLen => Some GCopy | GCopy => Some GRaise | GRaise => None end.
Proof using.
  destruct g; cbn [init_stage_data_step].
  - by intros [= <- <-].
  - by intros (c&_&(e&_&[= <- <-])%bind_Some)%bind_Some.
  - intros [= <- <-]. split; [|done]. unfold complete. change (flags (raise_flag x XBUF_STAGED)) with (Z.lor (flags x) XBUF_STAGED).
    rewrite Z.lor_spec. apply orb_false_r.
Qed.
(** The rest after the chunk that [init_stage_data] staged. *)
Lemma send_rest_cost x d : total_size x = T → res_cost (send_rest x d) x ≤ 20 * zlen d + 5.
Proof using HT.
  intros Ht. unfold send_rest, send_data, send_loop, res_cost, send_cost. rewrite Ht. cbn [s_left].
  assert (0 ≤ (if zlen d >? 0 then chunk_len T (zlen d) else 0)) as H.
  { unfold chunk_len. repeat case_test; lia. }
  case_test; cbn [s_left s_goto s_pc send_turn]; destruct (staged x); lia.
Qed.

Lemma after_send_cost st res x :
  complete x = false → owner_cost (goto st (after_send res)) x = res_cost res x.
Proof using. intros Hc. destruct res; cbn; by rewrite ?Hc. Qed.

Lemma after_send_server res sv x :
  complete x = false → (∃ s, res = SRun s) → ∀ st,
  owner_helps (goto st (after_send res)) x sv = match ipc sv with HRecv _ => negb (staged x) | _ => false end.
Proof using. by intros Hc [s ->] st. Qed.

Lemma owner_rank intr st sh0 sv st' sh' :
  sized T (xb sh0) → well_posed f st → phase st (xb sh0) (ipi sh0) sv →
  sync_step kmalloc intr st sh0 = Some (st', sh') → owner_moves st (xb sh0) sv st' (xb sh').
Proof using HT Hf Hkm.
  intros Hx (Hm & Hw & Ho) Hph.
  destruct Hph as [Hpc Hfl _ Hv|Hpc Hs Hfl _ Hv|so ro s a Hso Hro Hfl Hxf|g Hwt _ _ _ Hfl|Hwt _ _ _ _ _ Hfl
    |so ro s Hro Hso _ Hne Hs Hfl Hxf|Hpc _ Hv Hfl];
    destruct (flags_read _ _ _ _ _ Hfl) as (Hrd & _ & Hst & _ & Hc).
  - destruct Hpc as [E|(g & E & _)]; unfold sync_step; rewrite E.
    + case_test; [|lia]. intros [= <- <-]. right. left. unfold XbufLive.call_cost, XbufLive.owner_cost. cbn. rewrite E. lia.
    + intros ([o x']&Hst'&[= <- <-])%bind_Some. apply stage_step_pc in Hst' as [Hc' ->]. right. left.
      unfold XbufLive.call_cost, XbufLive.owner_cost, XbufLive.server_cost. rewrite E, Hv. cbn [pc goto msg xb on_xb]. rewrite Hc'.
      destruct g; lia.
  - unfold sync_step. rewrite Hpc. intros [= <- <-]. right. left. cbn [xb on_ipi].
    unfold XbufLive.call_cost. rewrite after_send_cost by done. cbn [msg goto].
    pose proof (send_rest_cost (xb sh0) (msg st) ltac:(apply Hx)). unfold XbufLive.owner_cost at 1. rewrite Hpc. lia.
  - destruct so as [so|]; cbn in Hso; [|by eapply owner_moves_waits].
    unfold sync_step. rewrite Hso. intros ([res x']&Hsend&[= <- <-])%bind_Some. cbn [xb on_xb].
    destruct (send_step_xfer T (msg st) HT ltac:(lia) so ro (xb sh0) Hxf Hrd) as (? & ? & Hsend' & _ & Hon & _).
    rewrite Hsend in Hsend'. injection Hsend' as <- <-. destruct (Hon _ _ _ _ Hfl) as [s' Hfl'].
    destruct (flags_read _ _ _ _ _ Hfl') as (_ & _ & _ & _ & Hc').
    pose proof (send_step_cost T (msg st) HT ltac:(lia) so ro _ _ _ Hxf Hrd Hsend) as Hcost. right.
    unfold XbufLive.call_cost. rewrite after_send_cost by done. cbn [msg goto].
    assert (owner_cost st (xb sh0) = send_cost so (xb sh0)) as -> by (unfold XbufLive.owner_cost; by rewrite Hso).
    destruct (staged (xb sh0)) eqn:Es.
    + destruct Hcost as (-> & -> & Hres). right. split; [done|]. rewrite after_send_server by done.
      unfold owner_helps. rewrite Hso, Es. by destruct (ipc sv).
    + left. pose proof (server_cost_put (msg st) sv (xb sh0) x' ltac:(congruence) Es). destruct (staged x'); lia.
  - by eapply owner_moves_waits.
  - by eapply owner_moves_waits.
  - destruct ro as [r|]; cbn in Hro; [|destruct Hro as [Hwt|E]; [by eapply owner_moves_waits|]].
    + unfold sync_step. rewrite Hro. intros ([res x']&Hrecv&[= <- <-])%bind_Some. cbn [xb on_xb].
      destruct (recv_step_xfer T _ HT (Hf (msg st)) so r (xb sh0) Hxf Hrd) as (? & ? & Hrecv' & Hgo & Hon).
      rewrite Hrecv in Hrecv'. injection Hrecv' as <- <-. destruct (Hon _ _ _ _ Hfl) as [s' Hfl'].
      destruct (flags_read _ _ _ _ _ Hfl') as (_ & _ & _ & _ & Hc').
      pose proof (recv_step_cost T _ HT (Hf (msg st)) so r _ _ _ Hxf Hrd Hrecv) as Hcost. right.
      assert (owner_cost (after_recv st res) x' ≤ got_cost res x' + 2 ∧ msg (after_recv st res) = msg st) as [Ho' Hm'].
      { split; [|apply after_recv_msg]. destruct res as [r'|n b]; [done|]. cbn. destruct (n =? 0); cbn; lia. }
      assert (owner_cost st (xb sh0) = recv_cost r (xb sh0) + 2) as Eo by (unfold XbufLive.owner_cost; by rewrite Hro).
      unfold XbufLive.call_cost. rewrite Hm', Eo. destruct (staged (xb sh0)) eqn:Es.
      * left. pose proof (server_cost_take (msg st) sv (xb sh0) x' ltac:(congruence) Es). destruct (staged x'); lia.
      * destruct Hcost as (-> & Hc1 & [r' ->]). right. split; [cbn in Hc1 |- *; lia|]. unfold owner_helps.
        by rewrite Hro, Es.
    + specialize (Hs eq_refl). subst s. unfold sync_step. rewrite E, Hw, Hst. cbn [andb].
      destruct (recv_data_xfer T _ kmalloc so (xb sh0) Hxf (nonempty_len _ Hne) (Hkm (zlen (f (msg st))) ltac:(lia)))
        as (r & -> & Hxf' & Er). intros [= <- <-]. right. left.
      unfold XbufLive.call_cost, XbufLive.owner_cost. rewrite E. cbn [pc after_recv goto msg].
      destruct Hxf' as (_ & _ & sent & read & _ & (_ & Hle & _) & H0 & _). unfold recv_cost. rewrite Er, Hst. cbn [recv_turn]. lia.
  - destruct Hpc as [[[Hwt|E] Hne]|E]; [by eapply owner_moves_waits| |]; unfold sync_step; rewrite E.
    + rewrite Hst, andb_false_r. intros [= <- <-]. right. left. unfold XbufLive.call_cost, XbufLive.owner_cost. rewrite E. cbn. lia.
    + intros [= <- <-]. by left.
Qed.
(** A step of the server lowers the cost, or waits for the owner. *)
Definition server_moves (st : sync_send) (x : xbuf) (sv : server) (x' : xbuf) (sv' : server) : Prop :=
  call_cost st x' sv' < call_cost st x sv ∨
  (call_cost st x' sv' = call_cost st x sv ∧ owner_helps st x sv = true ∧ owner_helps st x' sv' = true).

Lemma server_moves_quiet st sh0 sv sv' sh' :
  ipc sv = IIdle → ipi sh0 = false → owner_helps st (xb sh0) sv = true →
  serve_step kmalloc (Some f) sv sh0 = Some (sv', sh') → server_moves st (xb sh0) sv (xb sh') sv'.
Proof using. intros E Hi Hh. rewrite server_quiet by done. intros [= <- <-]. by right. Qed.

Lemma raise_same x g : Z.testbit g 2 = false → Z.testbit g 4 = false →
  staged (raise_flag x g) = staged x ∧ complete (raise_flag x g) = complete x.
Proof using.
  intros H2 H4. unfold staged, complete. change (flags (raise_flag x g)) with (Z.lor (flags x) g).
  by rewrite !Z.lor_spec, H2, H4, !orb_false_r.
Qed.

Lemma owner_cost_same st x x' : complete x' = complete x → staged x' = staged x → owner_cost st x' = owner_cost st x.
Proof using. intros Hc Hs. unfold XbufLive.owner_cost, send_cost, recv_cost. by rewrite Hc, Hs. Qed.

Lemma waits_cost st x : waits (pc st) → complete x = false → owner_cost st x = 0.
Proof using. intros [E|E] Hc; unfold XbufLive.owner_cost; by rewrite E, Hc. Qed.
Lemma waits_complete_cost st x : waits (pc st) → owner_cost st x ≤ 20 * zlen (f (msg st)) + 12.
Proof using. intros [E|E]; unfold XbufLive.owner_cost; rewrite E; destruct (complete x); lia. Qed.

Lemma server_rank_request st sh0 sv so ro s a sv' sh' :
  well_posed f st → sending_request (pc st) so →
  receiving_request (ipc sv) (ipi sh0) a ro → flags (xb sh0) = mk_flags true s a false →
  xfer T (msg st) so ro (xb sh0) → serve_step kmalloc (Some f) sv sh0 = Some (sv', sh') →
  server_moves st (xb sh0) sv (xb sh') sv'.
Proof using HT Hkm.
  intros (Hm & Hw & Ho) Hs Hrq Hfl Hxf. destruct (flags_read _ _ _ _ _ Hfl) as (Hrd & Hpd & Hst & Hac & Hc).
  destruct ro as [r|]; cbn in Hrq; [|destruct Hrq as [(E & Hi & ->)|[([E|[E|E]] & Hi & ->)|(E & Hi & ->)]]];
    unfold serve_step.
  - destruct Hrq as (E & Hi & ->). rewrite E. intros ([res x']&Hrecv&[= <- <-])%bind_Some. cbn [xb on_xb].
    destruct (recv_step_xfer T (msg st) HT ltac:(lia) so r (xb sh0) Hxf Hrd) as (? & ? & Hrecv' & _ & Hon).
    rewrite Hrecv in Hrecv'. injection Hrecv' as <- <-. destruct (Hon _ _ _ _ Hfl) as [s' Hfl'].
    destruct (flags_read _ _ _ _ _ Hfl') as (_ & _ & _ & _ & Hc').
    pose proof (recv_step_cost T (msg st) HT ltac:(lia) so r _ _ _ Hxf Hrd Hrecv) as Hcost.
    assert (∀ x, server_cost (msg st) (recv_done (Some f) sv res) x = reply_cost f (msg st) + got_cost res x) as Er.
    { intros x. destruct res; cbn; lia. }
    assert (server_cost (msg st) sv (xb sh0) = reply_cost f (msg st) + recv_cost r (xb sh0)) as Ec.
    { unfold XbufLive.server_cost. by rewrite E. }
    unfold server_moves, XbufLive.call_cost. rewrite Er, Ec. destruct (staged (xb sh0)) eqn:Es.
    + left. pose proof (owner_cost_take st (xb sh0) x' ltac:(congruence) Es). destruct (staged x'); lia.
    + destruct Hcost as (-> & -> & [r' ->]). right. split; [done|]. unfold owner_helps. cbn [recv_done ipc igoto]. rewrite E, Es.
      destruct so as [so|]; cbn in Hs; [by rewrite Hs|]. apply xfer_last in Hxf. congruence.
  - rewrite E, Hi. intros [= <- <-]. left. unfold XbufLive.call_cost, XbufLive.server_cost. cbn [xb on_ipi ipc igoto]. rewrite E, Hc. lia.
  - rewrite E, Hpd. intros [= <- <-]. left. unfold XbufLive.call_cost, XbufLive.server_cost. cbn [xb ipc igoto]. rewrite E. lia.
  - rewrite E, Hac. intros [= <- <-]. left. unfold XbufLive.call_cost, XbufLive.server_cost. cbn [xb ipc igoto]. rewrite E. lia.
  - rewrite E. intros [= <- <-]. left. cbn [xb on_xb].
    destruct (raise_same (xb sh0) XBUF_ACTIVE eq_refl eq_refl) as [Es Ec].
    unfold XbufLive.call_cost. rewrite (owner_cost_same st (xb sh0)) by done.
    unfold XbufLive.server_cost. cbn [ipc igoto]. rewrite E. lia.
  - rewrite E, Hac.
    destruct (recv_data_xfer T (msg st) kmalloc so (xb sh0) Hxf ltac:(lia) (Hkm (zlen (msg st)) ltac:(lia)))
      as (r & -> & Hxf' & Er). intros [= <- <-]. left.
    unfold XbufLive.call_cost, XbufLive.server_cost. cbn [ipc igoto recv_done]. rewrite E.
    destruct Hxf' as (_ & _ & sent & read & _ & (_ & Hle & _) & H0 & _). unfold recv_cost. rewrite Er.
    destruct (staged (xb sh0)); cbn [recv_turn]; lia.
Qed.

Lemma server_rank_reply st sh0 sv g sv' sh' :
  waits (pc st) → reply sv = f (msg st) →
  ipc sv = KActive ∨ (ipc sv = KStage g ∧ f (msg st) ≠ [] ∧ staging T (f (msg st)) g (xb sh0)) ∨
    (ipc sv = KComplete ∧ f (msg st) = []) →
  flags (xb sh0) = mk_flags true false true false →
  serve_step kmalloc (Some f) sv sh0 = Some (sv', sh') → server_moves st (xb sh0) sv (xb sh') sv'.
Proof using.
  intros Hwt Hr Hpc Hfl. destruct (flags_read _ _ _ _ _ Hfl) as (_ & _ & _ & Hac & Hc).
  unfold serve_step. destruct Hpc as [E|[(E & Hne & Hg)|(E & Hne)]]; rewrite E, ?Hac, Hr.
  - intros [= <- <-]. left. unfold XbufLive.call_cost, XbufLive.server_cost. cbn [xb ipc igoto]. rewrite E.
    unfold reply_cost. case_test; lia.
  - intros ([o x']&Hst'&[= <- <-])%bind_Some. apply stage_step_pc in Hst' as [Hc' ->]. left. cbn [xb on_xb].
    unfold XbufLive.call_cost. rewrite !waits_cost by congruence. unfold XbufLive.server_cost. cbn [ipc igoto]. rewrite E.
    destruct g; lia.
  - rewrite Hne. intros [= <- <-]. left. unfold XbufLive.call_cost. cbn [xb on_xb]. rewrite (waits_cost st (xb sh0)) by done.
    pose proof (waits_complete_cost st (raise_flag (xb sh0) XBUF_COMPLETE) Hwt) as Hw. rewrite Hne in Hw.
    unfold XbufLive.server_cost, reply_cost. cbn [ipc igoto complete_send send_rest send_data send_loop]. rewrite E, Hne.
    cbn in Hw |- *. destruct (flags_read _ _ _ _ _ (raise_complete _ _ _ _ _ Hfl)) as (_ & _ & _ & _ & Hc'). rewrite Hc'. lia.
Qed.

Lemma server_rank st sh0 sv sv' sh' :
  sized T (xb sh0) → well_posed f st → phase st (xb sh0) (ipi sh0) sv →
  serve_step kmalloc (Some f) sv sh0 = Some (sv', sh') → server_moves st (xb sh0) sv (xb sh') sv'.
Proof using HT Hf Hkm.
  intros Hx Hp Hph. pose proof Hph as Hph'.
  destruct Hph as [Hpc Hfl Hi Hv|Hpc Hs Hfl Hi Hv|so ro s a Hso Hro Hfl Hxf|g Hwt Hr Hi Hpc Hfl|Hwt Hr Hi E Hne Hs Hfl
    |so ro s Hro Hso Hi Hne Hs Hfl Hxf|Hpc Hi Hv Hfl].
  - apply server_moves_quiet; [done..|]. unfold owner_helps. by destruct Hpc as [-> |(g & -> & _)].
  - apply server_moves_quiet; [done..|]. unfold owner_helps. by rewrite Hpc.
  - by eapply server_rank_request.
  - by eapply server_rank_reply.
  - destruct (flags_read _ _ _ _ _ Hfl) as (_ & _ & _ & _ & Hc). unfold serve_step. rewrite E, Hr. intros [= <- <-]. left.
    unfold XbufLive.call_cost. cbn [xb on_xb]. rewrite (waits_cost st (xb sh0)) by done.
    pose proof (waits_complete_cost st (raise_flag (xb sh0) XBUF_COMPLETE) Hwt).
    pose proof (send_rest_cost (raise_flag (xb sh0) XBUF_COMPLETE) (f (msg st)) ltac:(apply Hx)) as Hres.
    assert (complete (raise_flag (xb sh0) XBUF_COMPLETE) = true) as Hc'.
    { by destruct (flags_read _ _ _ _ _ (raise_complete _ _ _ _ _ Hfl)) as (_ & _ & _ & _ & ->). }
    assert (server_cost (msg st) (igoto sv (complete_send (send_rest (raise_flag (xb sh0) XBUF_COMPLETE) (f (msg st)))))
      (raise_flag (xb sh0) XBUF_COMPLETE) = res_cost (send_rest (raise_flag (xb sh0) XBUF_COMPLETE) (f (msg st)))
      (raise_flag (xb sh0) XBUF_COMPLETE)) as ->.
    { destruct (send_rest _ _); unfold XbufLive.server_cost; cbn [igoto ipc complete_send res_cost]; by rewrite ?Hc'. }
    unfold XbufLive.server_cost at 1. rewrite E. unfold reply_cost. lia.
  - destruct (flags_read _ _ _ _ _ Hfl) as (Hrd & _ & Hst & _ & Hc). destruct so as [so|]; cbn in Hso.
    + unfold serve_step. rewrite Hso. intros ([res x']&Hsend&[= <- <-])%bind_Some. cbn [xb on_xb].
      destruct (send_step_xfer T _ HT (Hf (msg st)) so ro (xb sh0) Hxf Hrd) as (? & ? & Hsend' & _ & Hon & _).
      rewrite Hsend in Hsend'. injection Hsend' as <- <-. destruct (Hon _ _ _ _ Hfl) as [s' Hfl'].
      destruct (flags_read _ _ _ _ _ Hfl') as (_ & _ & _ & _ & Hc').
      pose proof (send_step_cost T _ HT (Hf (msg st)) so ro _ _ _ Hxf Hrd Hsend) as Hcost.
      assert (server_cost (msg st) (igoto sv (complete_send res)) x' = res_cost res x') as Er.
      { destruct res; unfold XbufLive.server_cost; cbn [igoto ipc complete_send res_cost]; by rewrite ?Hc'. }
      assert (server_cost (msg st) sv (xb sh0) = send_cost so (xb sh0)) as Ec.
      { unfold XbufLive.server_cost. by rewrite Hso. }
      unfold server_moves, XbufLive.call_cost. rewrite Er, Ec. destruct (staged (xb sh0)) eqn:Es.
      * destruct Hcost as (-> & -> & _). right. split; [done|]. unfold owner_helps.
        destruct ro as [r|]; cbn in Hro; [by rewrite Hro, Es|]. by destruct Hro as [[-> | ->]| ->].
      * left. pose proof (owner_cost_put st (xb sh0) x' ltac:(congruence) Es). destruct (staged x'); lia.
    + apply server_moves_quiet; [done..|]. unfold owner_helps.
      destruct ro as [r|]; cbn in Hro; [rewrite Hro; by eapply xfer_last|]. by destruct Hro as [[-> | ->]| ->].
  - destruct (flags_read _ _ _ _ _ Hfl) as (_ & _ & _ & _ & Hc). apply server_moves_quiet; [done..|]. unfold owner_helps.
    by destruct Hpc as [[[[-> | ->]| ->] _]| ->].
Qed.
End calls.

(** ** Specification: the rank of the system *)

#[local] Instance is_free_dec p : Decision (is_free p).
Proof. destruct p as [| | | | |[]| | | | | | | | | | |]; apply _. Defined.

Definition undone (st : sync_send) : nat := match pc st with SDone _ => 0 | _ => 1 end.

(** The lock of the senders is held by one of them. *)
Definition held (s : sys) : Prop :=
  xbuf_lock (sh s) = true → ∃ t st, senders s !! t = Some st ∧ in_lock (pc st).

Section rank_system.
Context (f : list byte → list byte).

Definition weight (s : sys) (st : sync_send) : nat :=
  Z.to_nat (if pending (xb (sh s)) then
              if decide (is_free (pc st)) then 0 else call_cost f st (xb (sh s)) (srv s)
            else entry_cost (pc st)).

(** The calls that are not over; whether the channel is free; the cost of the
    owner's call, or the ways of all to the free channel. *)
Definition rank (s : sys) : nat * (nat * nat) :=
  (sum_list_with undone (senders s),
   (if pending (xb (sh s)) then 0%nat else 1%nat, sum_list_with (weight s) (senders s))).
Definition lower : nat * (nat * nat) → nat * (nat * nat) → Prop := slexprod _ _ lt (slexprod _ _ lt lt).

(** The parties whose next step lowers it. *)
Definition helps (s : sys) (w : party) : Prop :=
  match w with
  | Server => pending (xb (sh s)) = true ∧
      ∃ o so, senders s !! o = Some so ∧ ¬ is_free (pc so) ∧ owner_helps so (xb (sh s)) (srv s) = false
  | Sender t _ => ∃ st, senders s !! t = Some st ∧
      if pending (xb (sh s)) then ¬ is_free (pc st) ∧ owner_helps st (xb (sh s)) (srv s) = true
      else if xbuf_lock (sh s) then in_lock (pc st) else undone st = 1%nat
  end.
End rank_system.

(** ** Lemmas: sums over the senders *)

Lemma sum_insert {A} (g : A → nat) l t a b :
  l !! t = Some a → (sum_list_with g (<[t := b]> l) + g a = sum_list_with g l + g b)%nat.
Proof.
  revert t. induction l as [|c l IH]; intros [|t] H; simpl in *; simplify_eq; [lia|]. specialize (IH _ H). lia.
Qed.

Lemma sum_ext {A} (g h : A → nat) l : (∀ t a, l !! t = Some a → g a = h a) → sum_list_with g l = sum_list_with h l.
Proof.
  induction l as [|a l IH]; intros H; [done|]. cbn [sum_list_with]. rewrite (H 0%nat a) by done. f_equal.
  apply IH. intros t b Hb. by apply (H (S t)).
Qed.

(** All but one of them weigh nothing. *)
Lemma sum_one {A} (g : A → nat) l t a :
  l !! t = Some a → (∀ u b, u ≠ t → l !! u = Some b → g b = 0%nat) → sum_list_with g l = g a.
Proof.
  revert t. induction l as [|c l IH]; intros [|t] H H0; simpl in *; simplify_eq.
  - assert (sum_list_with g l = 0%nat) as ->; [|lia]. clear IH. induction l as [|b l IH]; [done|]. cbn [sum_list_with].
    rewrite (H0 1%nat b) by done. apply IH. intros u d Hu. destruct u as [|u]; [done|]. by apply (H0 (S (S u))).
  - rewrite (H0 0%nat c) by done. apply (IH t); [done|]. intros u b Hu. apply (H0 (S u)). lia.
Qed.

Lemma lower_wf : well_founded lower.
Proof. apply wf_slexprod; [apply lt_wf|]. apply wf_slexprod; apply lt_wf. Qed.

Lemma phase_not_free f T st x i sv : phase f T st x i sv → ¬ is_free (pc st).
Proof.
  intros [[-> |(g & -> & _)]| -> |so ? ? ? Hs|? [-> | ->]|[-> | ->]|? ro ? Hr|[[[[-> | ->]| ->] _]| ->]]; try by intros [].
  - destruct so; cbn in Hs; [rewrite Hs; by intros []|]. destruct Hs as [-> | ->]; by intros [].
  - destruct ro; cbn in Hr; [rewrite Hr; by intros []|]. destruct Hr as [[-> | ->]| ->]; by intros [].
Qed.

(** ** Lemmas: the system *)

Section system.
Context (f : list byte → list byte) (T : Z) (kmalloc : Z → option (list byte)).
Context (HT : 0 < T) (Hf : ∀ m, zlen (f m) < 2 ^ 32).
Context (Hkm : ∀ n, 0 ≤ n → ∃ b, kmalloc n = Some b ∧ zlen b = n).
Local Notation inv := (inv f T).
Local Notation sys_step := (sys_step kmalloc (Some f)).
Local Notation rank := (rank f).

(** The channel and its owner. *)
Definition owned (s : sys) (o : nat) (so : sync_send) : Prop :=
  senders s !! o = Some so ∧ phase f T so (xb (sh s)) (ipi (sh s)) (srv s) ∧
  ∀ u su, u ≠ o → senders s !! u = Some su → is_free (pc su) ∧ ¬ taking (pc su).

Lemma owned_pending s o so : owned s o so → pending (xb (sh s)) = true.
Proof using.
  intros (_ & Hph & _). apply phase_pending in Hph as (? & ? & ? & Hfl). by apply flags_read in Hfl as (_ & -> & _).
Qed.

Lemma owned_weight s o so : owned s o so →
  sum_list_with (weight f s) (senders s) = Z.to_nat (call_cost f so (xb (sh s)) (srv s)).
Proof using.
  intros Ho. pose proof (owned_pending _ _ _ Ho) as Hp. destruct Ho as (Hs & Hph & Hfree).
  rewrite (sum_one _ _ o so Hs); unfold weight; rewrite Hp.
  - by rewrite decide_False by (by eapply phase_not_free).
  - intros u b Hu Hb. by rewrite decide_True by (by eapply Hfree).
Qed.

(** The states that are left by a step that does not lower the rank. *)
Definition stays (w : party) (s s' : sys) : Prop :=
  rank s' = rank s ∧ ∀ v, helps s v → ¬ same_party w v ∧ helps s' v.

Lemma owned_lower s o so s' so' :
  owned s o so → owned s' o so' → (sum_list_with undone (senders s') = sum_list_with undone (senders s)) →
  call_cost f so' (xb (sh s')) (srv s') < call_cost f so (xb (sh s)) (srv s) → lower (rank s') (rank s).
Proof using.
  intros Ho Ho' Hu Hc. unfold XbufLive.rank. rewrite (owned_pending _ _ _ Ho), (owned_pending _ _ _ Ho').
  rewrite (owned_weight _ _ _ Ho), (owned_weight _ _ _ Ho'), Hu. apply right_slex, right_slex.
  pose proof (call_cost_nonneg f so' (xb (sh s')) (srv s')). lia.
Qed.
Lemma owned_rank_eq s o so s' so' :
  owned s o so → owned s' o so' → (sum_list_with undone (senders s') = sum_list_with undone (senders s)) →
  call_cost f so' (xb (sh s')) (srv s') = call_cost f so (xb (sh s)) (srv s) → rank s' = rank s.
Proof using.
  intros Ho Ho' Hu Hc. unfold XbufLive.rank. rewrite (owned_pending _ _ _ Ho), (owned_pending _ _ _ Ho').
  by rewrite (owned_weight _ _ _ Ho), (owned_weight _ _ _ Ho'), Hu, Hc.
Qed.

(** Who helps while the channel is owned. *)
Lemma owned_helps s o so v : owned s o so → helps s v ↔
  match v with Sender t _ => t = o ∧ owner_helps so (xb (sh s)) (srv s) = true
             | Server => owner_helps so (xb (sh s)) (srv s) = false end.
Proof using.
  intros Ho. pose proof (owned_pending _ _ _ Ho) as Hp. destruct Ho as (Hs & Hph & Hfree).
  pose proof (phase_not_free _ _ _ _ _ _ Hph) as Hn. unfold helps. rewrite Hp. destruct v as [t intr|]; split.
  - intros (st & Ht & Hnf & Hh). assert (t = o) as ->.
    { destruct (decide (t = o)) as [|Hne]; [done|]. by destruct (Hfree t st Hne Ht). }
    split; [done|]. congruence.
  - intros [-> Hh]. by exists so.
  - intros (_ & t & st & Ht & Hnf & Hh). assert (t = o) as ->.
    { destruct (decide (t = o)) as [|Hne]; [done|]. by destruct (Hfree t st Hne Ht). }
    congruence.
  - intros Hh. split; [done|]. by exists o, so.
Qed.
Lemma helps_vacant s v : pending (xb (sh s)) = false → helps s v →
  ∃ t intr st, v = Sender t intr ∧ senders s !! t = Some st ∧
    if xbuf_lock (sh s) then in_lock (pc st) else undone st = 1%nat.
Proof using. intros Hp. destruct v as [t intr|]; cbn; rewrite Hp; [|by intros []]. intros (st & ? & ?). by exists t, intr, st. Qed.

Lemma server_lower s s' : inv s → sys_step Server s = Some s' → lower (rank s') (rank s) ∨ stays Server s s'.
Proof using HT Hf Hkm.
  intros Hinv. cbn [XbufRpc.sys_step]. pose proof (inv_sized _ _ _ Hinv) as Hx.
  destruct (inv_phase _ _ _ Hinv) as [[(Hfl & Hi & Hsv) Hfree]|(o & so & Ho & Hph & Hother)].
  - rewrite server_quiet by done. intros [= <-]. right. destruct s as [sh0 ss sv]. split; [done|].
    intros v Hv. split; [|done]. apply helps_vacant in Hv as (t & intr & st & -> & _); [by intros []|].
    by apply flags_read in Hfl as (_ & -> & _).
  - pose proof (inv_posed _ _ _ Hinv _ _ Ho) as Hp.
    destruct (server_step f T kmalloc HT Hf Hkm so (sh s) (srv s) Hx Hp Hph) as (sv' & sh' & Hst & Hx' & Hph' & Hl).
    rewrite Hst. intros [= <-].
    assert (owned s o so) as Hown by done.
    assert (owned {| sh := sh'; senders := senders s; srv := sv' |} o so) as Hown' by done.
    destruct (server_rank f T kmalloc HT Hf Hkm so _ _ _ _ Hx Hp Hph Hst) as [Hc|(Hc & Hh & Hh')].
    + left. by eapply owned_lower.
    + right. split; [by eapply owned_rank_eq|]. intros v Hv. rewrite owned_helps in Hv by done.
      rewrite owned_helps by done. destruct v as [t intr|]; [|congruence]. split; [by intros []|]. by destruct Hv.
Qed.

Lemma insert_undone s t (st st' : sync_send) :
  senders s !! t = Some st → undone st' = undone st →
  sum_list_with undone (<[t := st']> (senders s)) = sum_list_with undone (senders s).
Proof using. intros Ht Hu. pose proof (sum_insert undone _ _ _ st' Ht). lia. Qed.

(** The owner's step. *)
Lemma owner_lower s o so intr s' :
  inv s → owned s o so → sys_step (Sender o intr) s = Some s' → lower (rank s') (rank s) ∨ stays (Sender o intr) s s'.
Proof using HT Hf Hkm.
  intros Hinv Hown. pose proof Hown as (Ho & Hph & Hother).
  pose proof (inv_posed _ _ _ Hinv _ _ Ho) as Hp. pose proof (inv_sized _ _ _ Hinv) as Hx.
  destruct (owner_step f T kmalloc HT Hf Hkm so (sh s) (srv s) Hx Hp Hph intr) as (so' & sh' & Hst & [Hx' Hp' Hph']).
  cbn [XbufRpc.sys_step]. rewrite Ho, Hst. intros [= <-]. pose proof (phase_not_free _ _ _ _ _ _ Hph) as Hnf.
  assert (undone so = 1%nat) as Hu by (unfold undone; destruct (pc so); try done; by destruct Hnf).
  pose proof (owner_rank f T kmalloc HT Hf Hkm _ _ _ _ _ _ Hx Hp Hph Hst) as Hr.
  assert (pc so' = SDone 0 ∨ phase f T so' (xb sh') (ipi sh') (srv s)) as [E|Hph''] by (destruct Hph' as [|[]]; auto).
  - left. apply left_slex. cbn [senders]. pose proof (sum_insert undone _ _ _ so' Ho) as Hs.
    unfold undone in Hs at 4. rewrite E in Hs. lia.
  - pose proof (phase_not_free _ _ _ _ _ _ Hph'') as Hnf'.
    assert (undone so' = 1%nat) as Hu' by (unfold undone; destruct (pc so'); try done; by destruct Hnf').
    assert (owned {| sh := sh'; senders := <[o := so']> (senders s); srv := srv s |} o so') as Hown'.
    { unfold owned. cbn [senders sh srv]. rewrite list_lookup_insert_eq by (by eapply lookup_lt_Some). split; [done|]. split; [done|].
      intros u su Hne [[-> _]|[_ Hsu]]%lookup_insert_cases; [done|by eapply Hother]. }
    pose proof (insert_undone s o so so' Ho ltac:(congruence)) as Hund.
    destruct Hr as [E|[Hc|(Hc & Hh & Hh')]]; [by unfold undone in Hu'; rewrite E in Hu'| |].
    + left. by eapply owned_lower.
    + right. split; [by eapply owned_rank_eq|]. intros v Hv. rewrite owned_helps in Hv by done.
      rewrite owned_helps by done. destruct v as [t i|]; [by destruct Hv; congruence|]. by split; [intros []|].
Qed.

(** A sender's that waits for the channel to be free. *)
Lemma bystander_stays s t st intr o so s' :
  inv s → owned s o so → senders s !! t = Some st → t ≠ o → sys_step (Sender t intr) s = Some s' →
  stays (Sender t intr) s s'.
Proof using.
  intros Hinv Hown Ht Hne. pose proof Hown as (Ho & Hph & Hother). destruct (Hother t st Hne Ht) as [Hfree Htk].
  pose proof (inv_posed _ _ _ Hinv _ _ Ht) as Hp. destruct (phase_pending _ _ _ _ _ _ Hph) as (c1 & c2 & c3 & Hfl).
  destruct (free_step f kmalloc intr st (sh s) _ _ _ _ Hp Hfree Hfl) as (st' & sh' & Hst & Hp' & Hnext & _ & Hi' & Hx').
  assert (xb sh' = xb (sh s)) as Hxe by (rewrite Hx'; by destruct (pc st)).
  cbn [XbufRpc.sys_step]. rewrite Ht, Hst. intros [= <-].
  destruct (free_next_owned _ _ Hnext Htk) as [Hfree' Htk'].
  assert (owned {| sh := sh'; senders := <[t := st']> (senders s); srv := srv s |} o so) as Hown'.
  { unfold owned. cbn [senders sh srv]. rewrite list_lookup_insert_ne by done. rewrite Hxe, Hi'. split; [done|].
    split; [done|]. intros u su Hu [[-> ->]|[_ Hsu]]%lookup_insert_cases; [done|by eapply Hother]. }
  split.
  - eapply owned_rank_eq; [done..| |by cbn; rewrite Hxe]. eapply insert_undone; [done|]. unfold undone.
    destruct (pc st) as [| | | | |[]| | | | | | | | | | |]; cbn in Hnext, Hfree; destruct_or?; try done; by rewrite ?Hnext.
  - intros v Hv. rewrite owned_helps in Hv by done. rewrite owned_helps by done. cbn [sh srv]. rewrite Hxe.
    destruct v as [u i|]; [|by split; [intros []|]]. split; [|done]. cbn. destruct Hv. congruence.
Qed.
Lemma entry_lower s t st st' sh' :
  senders s !! t = Some st → pending (xb (sh s)) = false → pending (xb sh') = false → undone st' = undone st →
  entry_cost (pc st') < entry_cost (pc st) →
  lower (rank {| sh := sh'; senders := <[t := st']> (senders s); srv := srv s |}) (rank s).
Proof using.
  intros Ht Hp Hp' Hu Hc. unfold XbufLive.rank. cbn [sh senders]. rewrite Hp, Hp', (insert_undone s t st st') by done.
  apply right_slex, right_slex. set (s' := {| sh := sh'; senders := _; srv := _ |}).
  rewrite (sum_ext (weight f s') (weight f s)) by (intros ? a _; unfold weight; cbn [sh s']; by rewrite Hp, Hp').
  pose proof (sum_insert (weight f s) _ _ _ st' Ht) as Hs.
  assert (weight f s st' < weight f s st)%nat; [|lia]. unfold weight. rewrite Hp.
  assert (0 ≤ entry_cost (pc st')) by (destruct (pc st') as [| | | | |[]| | | | | | | | | | |]; cbn; lia). lia.
Qed.

(** A sender's step while the channel is free. *)
Lemma entry_moves s t st intr s' :
  inv s → vacant (xb (sh s)) (ipi (sh s)) (srv s) → (∀ u su, senders s !! u = Some su → is_free (pc su)) →
  senders s !! t = Some st → sys_step (Sender t intr) s = Some s' → lower (rank s') (rank s) ∨ stays (Sender t intr) s s'.
Proof using.
  intros Hinv (Hfl & _) Hfree Ht. destruct (flags_read _ _ _ _ _ Hfl) as (Hrd & Hpd & _).
  cbn [XbufRpc.sys_step]. rewrite Ht. pose proof (Hfree _ _ Ht) as Hft. unfold sync_step. rewrite Hrd, Hpd.
  assert (∀ p sh', pc st = p → pending (xb sh') = false → (match p with SDone _ => False | _ => True end) →
    ∀ q, (match q with SDone _ => False | _ => True end) → entry_cost q < entry_cost p →
    lower (rank {| sh := sh'; senders := <[t := goto st q]> (senders s); srv := srv s |}) (rank s)) as Hlow.
  { intros p sh' E Hp' Hnd q Hnq Hq. apply (entry_lower s t st); [done|done|done| |by rewrite E].
    unfold undone. rewrite E. cbn [pc goto]. by destruct p, q. }
  assert (xbuf_lock (sh s) = true ∧ pc st = ALock ∨ (∃ r, pc st = SDone r) →
    stays (Sender t intr) s {| sh := sh s; senders := <[t := st]> (senders s); srv := srv s |}) as Hstay.
  { intros Hcase. rewrite list_insert_id by done. destruct s as [sh0 ss sv]. split; [done|]. intros v Hv. split; [|done].
    apply (helps_vacant _ _ Hpd) in Hv as (u & i & su & -> & Hu & Hh). cbn. intros <-. cbn in Ht, Hu, Hh, Hcase.
    rewrite Ht in Hu. injection Hu as <-. destruct Hcase as [[Hl E]|[r E]].
    - rewrite Hl in Hh. by rewrite E in Hh.
    - destruct (xbuf_lock sh0); [by rewrite E in Hh|]. by unfold undone in Hh; rewrite E in Hh. }
  destruct (pc st) as [| | | | |[]| | | | | | | | | | |ret] eqn:E; try (by destruct Hft).
  1: destruct (xbuf_lock (sh s)) eqn:El.
  all: cbn [mbind option_bind negb orb]; intros [= <-].
  - right. apply Hstay. auto.
  - left. by apply (Hlow ALock).
  - left. by apply (Hlow AReady).
  - left. by apply (Hlow APending).
  - left. apply (Hlow AReset); try done. cbn [xb on_xb].
    by destruct (flags_read _ _ _ _ _ (reset_all _ _ _ _ _ Hfl)) as (_ & -> & _).
  - left. unfold XbufLive.rank. cbn [sh xb on_xb senders].
    rewrite (insert_undone s t st) by (done || by unfold undone; cbn [pc goto]; rewrite E). apply right_slex.
    destruct (flags_read _ _ _ _ _ (raise_pending _ _ _ _ _ Hfl)) as (_ & -> & _). rewrite Hpd. apply left_slex. lia.
  - left. by apply (Hlow (AUnlock false)).
  - left. by apply (Hlow AWait).
  - right. apply Hstay. eauto.
Qed.

Lemma rank_step w s s' : inv s → sys_step w s = Some s' → lower (rank s') (rank s) ∨ stays w s s'.
Proof using HT Hf Hkm.
  intros Hinv. destruct w as [t intr|]; [|by apply server_lower]. destruct (senders s !! t) as [st|] eqn:Ht.
  - destruct (inv_phase _ _ _ Hinv) as [[Hv Hfree]|(o & so & Ho & Hph & Hother)]; [by eapply entry_moves|].
    destruct (decide (t = o)) as [->|Hne]; [by apply (owner_lower s o so)|]. right. by apply (bystander_stays s t st intr o so).
  - cbn [XbufRpc.sys_step]. rewrite Ht. intros [= <-]. right. split; [done|]. intros v Hv. split; [|done].
    destruct v as [u i|]; cbn; [|by intros []]. intros <-. destruct Hv as (st & Hu & _). congruence.
Qed.

(** While a call is not over, somebody helps. *)
Lemma helper_exists s t st :
  inv s → held s → senders s !! t = Some st → undone st = 1%nat →
  ∃ w, helps s w ∧ match w with Sender u _ => (u < length (senders s))%nat | Server => True end.
Proof using.
  intros Hinv Hheld Ht Hu. destruct (inv_phase _ _ _ Hinv) as [[(Hfl & _) Hfree]|(o & so & Ho & Hph & Hother)].
  - destruct (flags_read _ _ _ _ _ Hfl) as (_ & Hpd & _). destruct (xbuf_lock (sh s)) eqn:El.
    + destruct (Hheld El) as (u & su & Hsu & Hin). exists (Sender u false). split; [|by eapply lookup_lt_Some].
      exists su. by rewrite Hpd, El.
    + exists (Sender t false). split; [|by eapply lookup_lt_Some]. exists st. by rewrite Hpd, El.
  - assert (owned s o so) as Hown by done. destruct (owner_helps so (xb (sh s)) (srv s)) eqn:Eh.
    + exists (Sender o false). split; [|by eapply lookup_lt_Some]. by rewrite owned_helps by done.
    + exists Server. split; [|done]. by rewrite owned_helps by done.
Qed.

Lemma sync_step_takes intr st sh0 st' sh' :
  sync_step kmalloc intr st sh0 = Some (st', sh') → xbuf_lock sh0 = false → xbuf_lock sh' = true → in_lock (pc st').
Proof using.
  intros Hst Hl Hl'. destruct (pc st) eqn:E; unfold sync_step in Hst; rewrite E in Hst.
  1: by rewrite Hl in Hst; injection Hst as <- <-.
  8: destruct (init_stage_data_step _ _ _) as [[]|]; [|done].
  10: destruct (send_step _ _) as [[]|]; [|done].
  14: destruct (recv_step _ _) as [[]|]; [|done].
  13: destruct (_ && _).
  7: destruct (_ || _).
  all: injection Hst as <- <-; cbn in Hl'; congruence.
Qed.

Lemma serve_step_lock sv sh0 sv' sh' :
  serve_step kmalloc (Some f) sv sh0 = Some (sv', sh') → xbuf_lock sh' = xbuf_lock sh0.
Proof using.
  unfold serve_step. destruct (ipc sv).
  1: destruct (ipi sh0).
  7: destruct (active _).
  9: destruct (recv_step _ _) as [[]|]; [|done].
  11: destruct (init_stage_data_step _ _ _) as [[]|]; [|done].
  13: destruct (send_step _ _) as [[]|]; [|done].
  all: by intros [= <- <-].
Qed.

Lemma held_step w s s' : held s → sys_step w s = Some s' → held s'.
Proof using.
  intros Hheld. destruct w as [t intr|]; cbn [XbufRpc.sys_step].
  - destruct (senders s !! t) as [st|] eqn:Ht; [|by intros [= <-]].
    intros ([st' sh']&Hst&[= <-])%bind_Some. intros Hl. cbn [sh senders] in *.
    assert (<[t := st']> (senders s) !! t = Some st') as Ht' by (rewrite list_lookup_insert_eq by (by eapply lookup_lt_Some); done).
    destruct (xbuf_lock (sh s)) eqn:El; [|exists t, st'; by split; [|by eapply sync_step_takes]].
    pose proof (sync_step_lock _ _ _ _ _ _ Hst) as [[Hiff _]|[(_ & E & _)|(_ & _ & E)]]; [|congruence|congruence].
    destruct (Hheld El) as (u & su & Hu & Hin). destruct (decide (u = t)) as [->|Hne].
    + exists t, st'. split; [done|]. apply Hiff. congruence.
    + exists u, su. by rewrite list_lookup_insert_ne by done.
  - intros ([sv' sh']&Hst&[= <-])%bind_Some. intros Hl. cbn [sh senders] in *.
    rewrite (serve_step_lock _ _ _ _ Hst) in Hl. by apply Hheld.
Qed.

(** *** Fair schedules *)

Context (n : nat) (sched : nat → party) (Hfair : fair n sched).

Definition over (s : sys) : Prop := ∀ t st, senders s !! t = Some st → undone st = 0%nat.

Lemma run_over s i :
  inv s → held s → length (senders s) = n →
  ∃ k s', run kmalloc (Some f) (sched <$> seq i k) s = Some s' ∧ over s'.
Proof using HT Hf Hkm Hfair.
  remember (rank s) as r eqn:Er. revert s i Er. induction (lower_wf r) as [r _ IH]. intros s i -> Hinv Hheld Hn.
  destruct (decide (Forall (λ st, undone st = 0%nat) (senders s))) as [Hall|Hsome].
  { exists 0%nat, s. split; [done|]. intros t st Ht. exact (Forall_lookup_1 _ _ _ _ Hall Ht). }
  apply not_Forall_Exists in Hsome; [|apply _]. apply list.Exists_exists in Hsome as (st & Hin & Hu).
  apply list_elem_of_lookup_1 in Hin as [t Ht].
  assert (undone st = 1%nat) as Hu1 by (cbn in Hu; revert Hu; unfold undone; by destruct (pc st)).
  destruct (helper_exists s t st Hinv Hheld Ht Hu1) as (w & Hw & Hwn). rewrite Hn in Hwn.
  destruct (Hfair w Hwn i) as (j & Hij & Hj). clear t st Ht Hu Hu1.
  remember (j - i)%nat as d eqn:Ed. revert s i Hij Ed Hinv Hheld Hn IH Hw. induction d as [|d IHd]; intros s i Hij Ed Hinv Hheld Hn IH Hw.
  all: destruct (inv_step f T kmalloc HT Hf Hkm (sched i) s Hinv) as (s1 & Hs1 & Hinv1 & Hmsg).
  all: assert (length (senders s1) = n) as Hn1 by (rewrite <-Hn, <-(length_fmap msg), Hmsg; by rewrite length_fmap).
  all: pose proof (held_step _ _ _ Hheld Hs1) as Hheld1.
  all: destruct (rank_step _ _ _ Hinv Hs1) as [Hlow|[Heq Hst]];
    [destruct (IH _ Hlow s1 (S i) eq_refl Hinv1 Hheld1 Hn1) as (k & s' & Hrun & Hover);
     exists (S k), s'; split; [cbn; by rewrite Hs1|done]|].
  - assert (j = i) as -> by lia. by destruct (Hst w Hw).
  - destruct (Hst w Hw) as [_ Hw1].
    destruct (IHd s1 (S i)) as (k & s' & Hrun & Hover); [lia|lia|done|done|done|by rewrite Heq|done|].
    exists (S k), s'. split; [cbn; by rewrite Hs1|done].
Qed.
End system.

(** ** Properties *)


(** The two calls of [XbufRpc], in turn with the server. *)
Definition demo_sched (i : nat) : party := nth (i mod 4) demo_round Server.

Lemma demo_sched_fair : fair (length demo_msgs) demo_sched.
Proof.
  intros w Hw i. assert (∀ k, (k < 4)%nat → demo_sched (4 * i + k) = nth k demo_round Server) as Hs.
  { intros k Hk. unfold demo_sched. f_equal. rewrite Nat.add_comm, Nat.mul_comm, Nat.Div0.mod_add. by apply Nat.mod_small. }
  destruct w as [[|[|t]] intr|]; cbn in Hw; [exists (4 * i + 0)%nat|exists (4 * i + 2)%nat|lia|exists (4 * i + 1)%nat];
    (split; [lia|]); rewrite Hs by lia; done.
Qed.

