(* ===== verification/Queue.v ===== *)
(** * The generic queue ([src/util-queue.c])

    A linked list of pointers with a capacity.  The list head and the [node]
    links of a queue carry its entries in order and nothing else, so they are a
    list here.  [enqueue] tests the capacity and allocates before it takes the
    lock: its two parts are the two steps of a producer in [qstep]. *)
From S2P Require Import Prelude.

(** ** The code *)

Record gen_queue := {
  num_entries : Z;
  max_entries : Z;
  entries : list Z     (* the [entry] pointers, head first *)
}.

Definition init_queue (max : Z) : gen_queue :=
  {| num_entries := 0; max_entries := max; entries := [] |}.

Definition create_queue (max : Z) (kmalloc_ok : bool) : option gen_queue :=
  if negb kmalloc_ok then None else Some (init_queue max).

(** [enqueue] before the lock: [true] when it goes on to take it. *)
Definition enqueue_check (q : gen_queue) (kmalloc_ok : bool) : bool :=
  if num_entries q >=? max_entries q then false else kmalloc_ok.

(** [enqueue] under the lock. *)
Definition enqueue_locked (q : gen_queue) (entry : Z) : gen_queue :=
  {| num_entries := u32 (num_entries q + 1); max_entries := max_entries q;
     entries := entries q ++ [entry] |}.

Definition enqueue (q : gen_queue) (entry : Z) (kmalloc_ok : bool) : Z * gen_queue :=
  if enqueue_check q kmalloc_ok then (0, enqueue_locked q entry) else (-1, q).

(** The entry taken, 0 (NULL) when the queue is empty. *)
Definition dequeue (q : gen_queue) : Z * gen_queue :=
  match entries q with
  | [] => (0, q)
  | e :: rest => (e, {| num_entries := u32 (num_entries q - 1); max_entries := max_entries q;
                        entries := rest |})
  end.

(** The [while] of [deinit_queue]; [fuel] bounds its rounds. *)
Fixpoint deinit_loop (fuel : nat) (q : gen_queue) : option gen_queue :=
  match fuel with
  | O => None
  | S fuel =>
      let '(e, q) := dequeue q in
      if e =? 0 then Some q else deinit_loop fuel q
  end.
Definition deinit_queue (q : gen_queue) : option gen_queue :=
  deinit_loop (S (length (entries q))) q.

(** Producers and consumers on one queue: a producer that has passed the test
    ([waiting] holds its entry) takes the lock later. *)
Record queue_sys := { q_state : gen_queue; waiting : list Z; taken : list Z }.

Inductive qstep : relation queue_sys :=
  | qstep_check s e :
      enqueue_check (q_state s) true = true →
      qstep s {| q_state := q_state s; waiting := e :: waiting s; taken := taken s |}
  | qstep_add s w1 e w2 :
      waiting s = w1 ++ e :: w2 →
      qstep s {| q_state := enqueue_locked (q_state s) e; waiting := w1 ++ w2; taken := taken s |}
  | qstep_dequeue s :
      qstep s {| q_state := snd (dequeue (q_state s)); waiting := waiting s;
                 taken := taken s ++ [fst (dequeue (q_state s))] |}.

(** ** Specification *)

Record wf (q : gen_queue) : Prop := {
  wf_count : num_entries q = zlen (entries q);
  wf_bound : zlen (entries q) ≤ max_entries q;
  wf_max : fits 32 (max_entries q)
}.

Inductive op := Enqueue (e : Z) (kmalloc_ok : bool) | Dequeue.

Definition exec (o : op) (q : gen_queue) : Z * gen_queue :=
  match o with
  | Enqueue e ok => enqueue q e ok
  | Dequeue => dequeue q
  end.

Fixpoint exec_all (os : list op) (q : gen_queue) : list Z * gen_queue :=
  match os with
  | [] => ([], q)
  | o :: os => let '(r, q) := exec o q in let '(rs, q) := exec_all os q in (r :: rs, q)
  end.

(** A bounded first-in first-out queue of capacity [cap]. *)
Definition fifo (cap : Z) (o : op) (l : list Z) : Z * list Z :=
  match o with
  | Enqueue e ok => if (zlen l <? cap) && ok then (0, l ++ [e]) else (-1, l)
  | Dequeue => match l with [] => (0, []) | e :: l => (e, l) end
  end.

Fixpoint fifo_all (cap : Z) (os : list op) (l : list Z) : list Z * list Z :=
  match os with
  | [] => ([], l)
  | o :: os => let '(r, l) := fifo cap o l in let '(rs, l) := fifo_all cap os l in (r :: rs, l)
  end.

(** ** Lemmas *)

Lemma exec_fifo o q :
  wf q → (exec o q).1 = (fifo (max_entries q) o (entries q)).1 ∧
    entries (exec o q).2 = (fifo (max_entries q) o (entries q)).2 ∧
    wf (exec o q).2 ∧ max_entries (exec o q).2 = max_entries q.
Proof.
  intros [Hc Hb Hm]. unfold fits in Hm. destruct o as [e ok|]; simpl.
  - unfold enqueue, enqueue_check. rewrite Hc.
    destruct (Z.geb_spec (zlen (entries q)) (max_entries q)), (Z.ltb_spec (zlen (entries q)) (max_entries q));
      try lia; [by split_and!|].
    destruct ok; simpl; [|by split_and!]. split_and!; try done.
    split; simpl; [|rewrite length_app; simpl; lia|done].
    rewrite Hc, length_app, wrap_small by (unfold fits; lia). simpl. lia.
  - unfold dequeue. destruct (entries q) as [|e l] eqn:E; simpl.
    + rewrite E. split_and!; try done. by split; rewrite ?E.
    + split_and!; try done. simpl in *. split; simpl; [|lia|done].
      rewrite Hc, wrap_small by (unfold fits; lia). lia.
Qed.

Lemma exec_all_fifo os q :
  wf q → (exec_all os q).1 = (fifo_all (max_entries q) os (entries q)).1 ∧
    entries (exec_all os q).2 = (fifo_all (max_entries q) os (entries q)).2 ∧
    wf (exec_all os q).2.
Proof.
  revert q. induction os as [|o os IH]; intros q Hq; simpl; [done|].
  destruct (exec_fifo o q Hq) as (Hr & He & Hw & Hm).
  destruct (exec o q) as [r q1]; simpl in *. destruct (IH q1 Hw) as (Hrs & Hes & Hws).
  rewrite Hm, He in *. destruct (fifo _ o _) as [r' l]; simpl in *. subst.
  destruct (exec_all os q1), (fifo_all _ os _); simpl in *. by subst.
Qed.

Lemma init_wf max : fits 32 max → wf (init_queue max).
Proof. intros H. split; simpl; [done|unfold fits in H; lia|done]. Qed.

(** ** Properties *)

(** C23: A queue made by [create_queue], used by one party at a time, is a
    bounded first-in first-out queue: for every sequence of enqueues (of failed
    allocations as well) and dequeues the results are those of a list of at most
    [max_entries] entries, and the count is the number of entries held. *)
Theorem queue_is_bounded_fifo (max : Z) (os : list op) (Hmax : fits 32 max) :
  ∃ q, create_queue max true = Some q ∧
    (exec_all os q).1 = (fifo_all max os []).1 ∧
    entries (exec_all os q).2 = (fifo_all max os []).2 ∧
    num_entries (exec_all os q).2 = zlen (fifo_all max os []).2 ∧
    zlen (fifo_all max os []).2 ≤ max.
Proof.
  exists (init_queue max). split; [done|].
  destruct (exec_all_fifo os (init_queue max)) as (Hr & He & Hw); [by apply init_wf|].
  assert (max_entries (exec_all os (init_queue max)).2 = max) as Hm.
  { clear -Hmax. generalize (init_wf max Hmax). change max with (max_entries (init_queue max)) at 3.
    generalize (init_queue max) as q. induction os as [|o os IH]; intros q Hq; [done|].
    simpl. destruct (exec_fifo o q Hq) as (_ & _ & Hw & <-).
    destruct (exec o q) as [r q1]; simpl in *. rewrite <-(IH q1 Hw). by destruct (exec_all os q1). }
  destruct Hw as [Hc Hb _]. rewrite Hm in Hb. simpl in *. rewrite Hc, He in *. done.
Qed.

Lemma queue_is_bounded_fifo_witness :
  ∃ q, create_queue 2 true = Some q ∧
    (exec_all [Enqueue 5 true; Enqueue 6 true; Enqueue 7 true; Dequeue; Dequeue; Dequeue] q).1
      = [0; 0; -1; 5; 6; 0] ∧
    entries (exec_all [Enqueue 5 true; Enqueue 6 true; Enqueue 7 true; Dequeue; Dequeue; Dequeue] q).2
      = [] ∧
    num_entries (exec_all [Enqueue 5 true; Enqueue 6 true; Enqueue 7 true; Dequeue; Dequeue; Dequeue] q).2
      = 0 ∧ 0 ≤ 2.
Proof.
  apply (queue_is_bounded_fifo 2
    [Enqueue 5 true; Enqueue 6 true; Enqueue 7 true; Dequeue; Dequeue; Dequeue]); done.
Defined.

(** With several producers the capacity is not kept: [enqueue] tests it
    before it takes the lock, so for every capacity above 0 there is an
    interleaving after which the queue holds one entry more than [max_entries]. *)
Theorem queue_capacity_race (n : nat) (Hn : Z.of_nat n < 2 ^ 31) :
  ∃ s, rtc qstep {| q_state := init_queue (Z.of_nat n + 1); waiting := []; taken := [] |} s ∧
    num_entries (q_state s) = max_entries (q_state s) + 1 ∧
    zlen (entries (q_state s)) = num_entries (q_state s).
Proof.
  (* n + 2 producers pass the test one after the other, then add their entries *)
  assert (∀ k, rtc qstep {| q_state := init_queue (Z.of_nat n + 1); waiting := []; taken := [] |}
    {| q_state := init_queue (Z.of_nat n + 1); waiting := replicate k 1; taken := [] |}) as Hcheck.
  { induction k as [|k IH]; [done|]. eapply rtc_r; [exact IH|].
    apply (qstep_check {| q_state := _; waiting := _; taken := _ |} 1).
    unfold enqueue_check; simpl. case_test; [lia|done]. }
  assert (∀ k q, zlen (entries q) + Z.of_nat k < 2 ^ 32 → num_entries q = zlen (entries q) →
    ∃ q', rtc qstep {| q_state := q; waiting := replicate k 1; taken := [] |}
                    {| q_state := q'; waiting := []; taken := [] |} ∧
      num_entries q' = zlen (entries q') ∧ zlen (entries q') = zlen (entries q) + Z.of_nat k ∧
      max_entries q' = max_entries q) as Hadd.
  { induction k as [|k IH]; intros q Hb Hc; [exists q; split; [done|lia]|].
    destruct (IH (enqueue_locked q 1)) as (q' & Hr & Hq' & Hl & Hm); simpl.
    - rewrite length_app; simpl; lia.
    - rewrite length_app, Hc, wrap_small by (unfold fits; lia). simpl. lia.
    - exists q'. split; [|split; [done|split; [|done]]].
      + eapply rtc_l; [|exact Hr]. apply (qstep_add {| q_state := q; waiting := _; taken := [] |} [] 1).
        done.
      + rewrite Hl. simpl. rewrite length_app. simpl. lia. }
  destruct (Hadd (n + 2)%nat (init_queue (Z.of_nat n + 1))) as (q' & Hr & Hc & Hl & Hm); [simpl; lia|done|].
  eexists. split; [by etrans; [apply (Hcheck (n + 2)%nat)|exact Hr]|]. simpl in *.
  rewrite Hm. simpl. lia.
Qed.

Lemma queue_capacity_race_witness :
  ∃ s, rtc qstep {| q_state := init_queue (Z.of_nat 3 + 1); waiting := []; taken := [] |} s ∧
    num_entries (q_state s) = max_entries (q_state s) + 1 ∧
    zlen (entries (q_state s)) = num_entries (q_state s).
Proof. apply (queue_capacity_race 3). done. Defined.

(** [deinit_queue] terminates on every queue, but it stops at the first NULL
    entry: it empties
    the queue exactly when no NULL entry comes before another entry. *)
Theorem deinit_queue_empties (q : gen_queue) :
  ∃ q', deinit_queue q = Some q' ∧ (entries q' = [] ↔ ∀ pre post, entries q = pre ++ 0 :: post → post = []).
Proof.
  unfold deinit_queue. remember (entries q) as l eqn:E. revert q E.
  induction l as [|e l IH]; intros q E; simpl; unfold dequeue; rewrite <-E.
  - simpl. exists q. split; [done|]. rewrite <-E. split; [|done].
    intros _ pre post. by destruct pre.
  - case_test.
    + eexists. split; [done|]. simpl. subst e. split.
      * intros ->. intros [|? pre] post; simpl; [by intros [= <-]|]. by intros [= _ ?]; destruct pre.
      * intros H. apply (H []). done.
    + destruct (IH {| num_entries := u32 (num_entries q - 1); max_entries := max_entries q;
                     entries := l |} eq_refl) as (q' & Hd & Hq'). exists q'. split; [exact Hd|]. rewrite Hq'. split.
      * intros H [|x pre] post [= -> El]; [done|]. by eapply H.
      * intros H pre post El. apply (H (e :: pre)). by rewrite El.
Qed.
