(* ===== verification/FileIo.v ===== *)
(** * Files of the host ([src/file_io.c])

    Thin wrappers of the kernel's file functions and a recursive [mkdir].
    Characters are the integers of C's signed [char].  What the kernel's
    functions answer is an argument: a value, or a function of the calls made
    before ([ora]); every call is recorded. *)
From S2P Require Import Prelude.

(** ** The code *)

(** [IS_ERR]: the last 4095 addresses are error numbers. *)
Definition IS_ERR (ptr : Z) : bool := ptr >=? 2 ^ 64 - 4095.

Definition O_LARGEFILE : Z := 0x8000.

(** The pointer returned: NULL when [filp_open] fails. *)
Definition file_open (filp_open : list Z → Z → Z) (path : list Z) (mode : Z) : Z :=
  let file_ptr := filp_open path (Z.lor mode O_LARGEFILE) in
  if IS_ERR file_ptr then 0 else file_ptr.

Inductive file_event := FilpClose (file_ptr : Z).

Definition file_close (file_ptr : Z) : Z * list file_event := (0, [FilpClose file_ptr]).

(** [vfs_getattr]'s return value and the size it reports. *)
Definition file_size (vfs_getattr : Z → Z * Z) (file_ptr : Z) : Z :=
  let '(ret, size) := vfs_getattr file_ptr in
  if negb (ret =? 0) then -1 else size.

(** The calls of [vfs_read] and [vfs_write]: buffer, length and offset asked
    for, and bytes moved (or a negative error). *)
Record io := { io_addr : Z; io_len : Z; io_off : Z; io_ret : Z }.

Definition file_read (vfs_read : list io → Z → Z → Z → Z) (tr : list io)
    (buffer length offset : Z) : Z * list io :=
  let ret := vfs_read tr buffer length offset in
  (ret, tr ++ [{| io_addr := buffer; io_len := length; io_off := offset; io_ret := ret |}]).

Definition file_write (vfs_write : list io → Z → Z → Z → Z) (tr : list io)
    (buffer length offset : Z) : Z * list io :=
  let ret := vfs_write tr buffer length offset in
  (ret, tr ++ [{| io_addr := buffer; io_len := length; io_off := offset; io_ret := ret |}]).

Definition isprint (a : Z) : bool := (a >=? 32) && (a <=? 126).
Definition slash : Z := 47.

Section mkdir.
(** [file_mkdir(path, perms, 0)]: the answer of the kernel to the creation of
    one directory, after the creations in the list. *)
Context (mkdir : list (list Z) → list Z → Z).

(** The loops of [mkdir_recursive], a character at a time: [pre] is the string
    before [dirname_ptr], [cur] from there to [tmp_iter], [rest] from there to
    the end; [tr] the directories asked for so far. *)
Fixpoint mkdir_loop (pre cur rest : list Z) (tr : list (list Z)) : Z * list (list Z) :=
  match rest with
  | [] =>
      if zlen cur >? 1 then
        let tr' := tr ++ [pre ++ cur] in
        if negb (mkdir tr (pre ++ cur) =? 0) then (-1, tr') else (0, tr')
      else (0, tr)
  | c :: rest =>
      if c =? slash then
        if zlen cur >? 1 then
          let tr' := tr ++ [pre ++ cur] in
          if negb (mkdir tr (pre ++ cur) =? 0) then (-1, tr')
          else mkdir_loop (pre ++ cur ++ [c]) [] rest tr'
        else mkdir_loop (pre ++ cur ++ [c]) [] rest tr
      else if negb (isprint c) then (-1, tr)
      else mkdir_loop pre (cur ++ [c]) rest tr
  end.

Definition mkdir_recursive (path : list Z) (kmalloc_ok : bool) : Z * list (list Z) :=
  if negb kmalloc_ok then (-1, []) else mkdir_loop [] [] path [].
End mkdir.

(** [file_mkdir], as compiled for kernels from 3.1 on: [kern_path_create]'s
    answer ([IS_ERR] makes the function succeed) and [vfs_mkdir]'s. *)
Definition file_mkdir_one (kern_path_create_err : bool) (vfs_mkdir : Z) : Z :=
  if kern_path_create_err then 0 else vfs_mkdir.

Definition file_mkdir (kern_path_create_err : list (list Z) → list Z → bool)
    (vfs_mkdir : list (list Z) → list Z → Z) (path : list Z) (recurse : Z) (kmalloc_ok : bool)
  : Z * list (list Z) :=
  let one := λ tr p, file_mkdir_one (kern_path_create_err tr p) (vfs_mkdir tr p) in
  if negb (recurse =? 0) then mkdir_recursive one path kmalloc_ok
  else (one [] path, [path]).

(** ** Specification *)

(** The prefixes of a path that end where a name ends. *)
Fixpoint name_ends (pre cur rest : list Z) : list (list Z * list Z) :=
  match rest with
  | [] => [(pre, cur)]
  | c :: rest =>
      if c =? slash then (pre, cur) :: name_ends (pre ++ cur ++ [c]) [] rest
      else name_ends pre (cur ++ [c]) rest
  end.

(** The directory of an end, and whether its name has more than one character. *)
Definition dir_of (e : list Z * list Z) : list Z := e.1 ++ e.2.
Definition long_name (e : list Z * list Z) : Prop := 1 < zlen e.2.
#[export] Instance long_name_dec e : Decision (long_name e) := Z_lt_dec 1 (zlen e.2).

Definition printable (path : list Z) : Prop := Forall (λ c, isprint c = true) path.

(** ** Lemmas *)

Lemma mkdir_loop_ok mkdir pre cur rest tr :
  printable rest → (∀ tr p, mkdir tr p = 0) →
  mkdir_loop mkdir pre cur rest tr =
    (0, tr ++ (dir_of <$> filter long_name (name_ends pre cur rest))).
Proof.
  intros Hp Hm. revert pre cur tr. induction Hp as [|c rest Hc Hrest IH]; intros pre cur tr; simpl.
  - rewrite Hm, filter_cons. unfold long_name. simpl. case_test.
    + by rewrite decide_True by (unfold long_name; simpl; lia).
    + rewrite decide_False by (unfold long_name; simpl; lia). by rewrite app_nil_r.
  - destruct (c =? slash); rewrite ?Hc; simpl; [|apply IH].
    rewrite filter_cons, Hm. unfold long_name at 1. simpl. case_test.
    + rewrite decide_True by (unfold long_name; simpl; lia). rewrite IH. simpl. by rewrite <-app_assoc.
    + rewrite decide_False by (unfold long_name; simpl; lia). apply IH.
Qed.

(** ** Properties *)

(** On a printable path, when every creation succeeds, [mkdir_recursive]
    asks for exactly the prefixes of the path that end at a name of at least two
    characters, each once and in order of their length; so a directory whose
    name is a single character is never created, and what is below it is asked
    for without its parent. *)
Theorem mkdir_recursive_requests (mkdir : list (list Z) → list Z → Z) (path : list Z)
    (Hp : printable path) (Hm : ∀ tr p, mkdir tr p = 0) :
  mkdir_recursive mkdir path true =
    (0, dir_of <$> filter long_name (name_ends [] [] path)).
Proof. unfold mkdir_recursive. simpl. by rewrite mkdir_loop_ok. Qed.

(** For "/a/bc" only "/a/bc" is asked for. *)
Lemma mkdir_recursive_requests_witness :
  mkdir_recursive (λ _ _, 0) [47; 97; 47; 98; 99] true = (0, [[47; 97; 47; 98; 99]]).
Proof. apply (mkdir_recursive_requests (λ _ _, 0) [47; 97; 47; 98; 99]); [by repeat constructor|done]. Defined.
