(* ===== verification/Fs.v ===== *)
(** * Files opened for an enclave ([src/enclave_fs.c])

    The handlers of the VFS calls an enclave makes: they open, close, read and
    write files of the host and keep the open ones in a hash table and in a
    list.  The table is any store ([Store]); [Hashtable] is the instance.  The
    kernel's answers (pointers from [filp_open], bytes moved by [vfs_read]) are
    arguments.  A file handle is the address of its [struct file]. *)
From S2P Require Import Prelude Store FileIo.

(** ** The code: data *)

Record vfs_buf_desc := { size : Z; phys_addr : Z }.

Record pisces_lcall_resp := { status : Z; resp_data_len : Z }.

Record vfs_io_lcall := { file_handle : Z; offset : Z; length_ : Z; descs : list vfs_buf_desc }.

Definition respond (st : Z) : pisces_lcall_resp := {| status := u64 st; resp_data_len := 0 |}.

(** ** The code: reading and writing

    One call of [file_read] or [file_write] for buffer, length and offset. *)
Section transfer.
Context (file_io : list io → Z → Z → Z → Z * list io).

(** The inner [while]: [fuel] bounds its rounds.  The result is the last
    [ret], the offset, the total and the calls made. *)
Fixpoint io_desc (fuel : nat) (phys : Z) (bytes_done bytes_left offset total ret : Z)
    (tr : list io) : option (Z * Z * Z * list io) :=
  match fuel with
  | O => None
  | S fuel =>
      if bytes_left >? 0 then
        let '(ret, tr) := file_io tr (u64 (phys + bytes_done)) bytes_left offset in
        if ret <=? 0 then Some (ret, offset, total, tr)
        else io_desc fuel phys (u32 (bytes_done + ret)) (u32 (bytes_left - ret))
                     (u64 (offset + ret)) (u64 (total + ret)) ret tr
      else Some (ret, offset, total, tr)
  end.

(** The loop over the descriptors. *)
Fixpoint io_descs (len : Z) (ds : list vfs_buf_desc) (offset total : Z) (tr : list io)
  : option (Z * list io) :=
  match ds with
  | [] => Some (total, tr)
  | d :: ds =>
      if total >=? len then Some (total, tr) else
      '(ret, offset, total, tr) ←
        io_desc (S (Z.to_nat (size d))) (phys_addr d) 0 (size d) offset total 0 tr;
      if ret =? 0 then Some (total, tr) else io_descs len ds offset total tr
  end.
End transfer.

(** ** The code: handlers *)

Section fs.
Context {T E : Type} `{StoreOps T E}.

Record enclave_fs := {
  num_files : Z;
  open_file_table : T;
  open_file_list : list Z
}.

(** The value returned, and the state when the table was made. *)
Definition init_enclave_fs (nfiles : Z) (e : E) : option (Z * option enclave_fs) :=
  t ← store_create e;
  Some (match t with
        | None => (-1, None)
        | Some t => (0, Some {| num_files := nfiles; open_file_table := t; open_file_list := [] |})
        end).

Definition enclave_vfs_open_lcall (filp_open : list Z → Z → Z) (fs : enclave_fs)
    (path : list Z) (mode : Z) (e : E) (iter_ok : bool) : option (enclave_fs * pisces_lcall_resp) :=
  let file_ptr := file_open filp_open path mode in
  if IS_ERR file_ptr then Some (fs, respond 0) else
  found ← store_search (open_file_table fs) file_ptr;
  fs ← (if found =? 0 then
          '(_, t) ← store_insert (open_file_table fs) file_ptr file_ptr e;
          Some {| num_files := num_files fs; open_file_table := t;
                  open_file_list := if iter_ok then open_file_list fs ++ [file_ptr]
                                    else open_file_list fs |}
        else Some fs);
  Some ({| num_files := u32 (num_files fs + 1); open_file_table := open_file_table fs;
           open_file_list := open_file_list fs |}, respond file_ptr).

(** [list_for_each_entry_safe] up to the first node of the file. *)
Fixpoint remove_iter (p : Z) (l : list Z) : list Z :=
  match l with
  | [] => []
  | q :: l => if p =? q then l else q :: remove_iter p l
  end.

Definition enclave_vfs_close_lcall (fs : enclave_fs) (file_ptr : Z)
  : option (enclave_fs * pisces_lcall_resp * list file_event) :=
  found ← store_search (open_file_table fs) file_ptr;
  if found =? 0 then Some (fs, respond (-1), []) else
  '(_, t) ← store_remove (open_file_table fs) file_ptr;
  Some ({| num_files := u32 (num_files fs - 1); open_file_table := t;
           open_file_list := remove_iter file_ptr (open_file_list fs) |},
        respond 0, (file_close file_ptr).2).

Definition enclave_vfs_size_lcall (vfs_getattr : Z → Z * Z) (fs : enclave_fs) (file_ptr : Z)
  : option pisces_lcall_resp :=
  found ← store_search (open_file_table fs) file_ptr;
  Some (if found =? 0 then respond (-1) else respond (file_size vfs_getattr file_ptr)).

Definition enclave_vfs_read_lcall (vfs_read : list io → Z → Z → Z → Z) (fs : enclave_fs)
    (lcall : vfs_io_lcall) : option (pisces_lcall_resp * list io) :=
  found ← store_search (open_file_table fs) (file_handle lcall);
  if found =? 0 then Some (respond (-1), []) else
  '(total, tr) ← io_descs (file_read vfs_read) (length_ lcall) (descs lcall) (offset lcall) 0 [];
  Some (respond total, tr).

Definition enclave_vfs_write_lcall (vfs_write : list io → Z → Z → Z → Z) (fs : enclave_fs)
    (lcall : vfs_io_lcall) : option (pisces_lcall_resp * list io) :=
  found ← store_search (open_file_table fs) (file_handle lcall);
  if found =? 0 then Some (respond (-1), []) else
  '(total, tr) ← io_descs (file_write vfs_write) (length_ lcall) (descs lcall) (offset lcall) 0 [];
  Some (respond total, tr).

(** The files closed; the table is then freed. *)
Definition deinit_enclave_fs (fs : enclave_fs) : Z * list file_event :=
  (0, concat ((λ p, (file_close p).2) <$> open_file_list fs)).

(** ** Specification: a list of open handles *)

Inductive fs_op :=
  | FOpen (filp_open : list Z → Z → Z) (path : list Z) (mode : Z) (e : E)
  | FClose (h : Z)
  | FSize (h : Z) (vfs_getattr : Z → Z * Z).

Definition fs_exec (o : fs_op) (fs : enclave_fs)
  : option (enclave_fs * Z * list file_event) :=
  match o with
  | FOpen filp path mode e =>
      '(fs, r) ← enclave_vfs_open_lcall filp fs path mode e true; Some (fs, status r, [])
  | FClose h => '(fs, r, ev) ← enclave_vfs_close_lcall fs h; Some (fs, status r, ev)
  | FSize h g => r ← enclave_vfs_size_lcall g fs h; Some (fs, status r, [])
  end.

Definition fs_spec (o : fs_op) (l : list Z) : list Z * Z * list file_event :=
  match o with
  | FOpen filp path mode _ =>
      let p := file_open filp path mode in (l ++ [p], p, [])
  | FClose h => if bool_decide (h ∈ l) then (remove_iter h l, 0, [FilpClose h])
                else (l, 2 ^ 64 - 1, [])
  | FSize h g => (l, if bool_decide (h ∈ l) then u64 (file_size g h) else 2 ^ 64 - 1, [])
  end.

(** A successful open gives the address of a new [struct file]. *)
Definition fs_allowed (o : fs_op) (l : list Z) : Prop :=
  match o with
  | FOpen filp path mode e =>
      let p := filp path (Z.lor mode O_LARGEFILE) in
      0 < p < 2 ^ 64 - 4095 ∧ p ∉ l ∧ env_ok e ∧ env_inserts e = true
  | _ => True
  end.

Fixpoint fs_run (os : list fs_op) (fs : enclave_fs)
  : option (enclave_fs * list Z * list file_event) :=
  match os with
  | [] => Some (fs, [], [])
  | o :: os =>
      '(fs, r, ev) ← fs_exec o fs; '(fs, rs, evs) ← fs_run os fs;
      Some (fs, r :: rs, ev ++ evs)
  end.

Fixpoint fs_spec_run (os : list fs_op) (l : list Z) : list Z * list Z * list file_event :=
  match os with
  | [] => (l, [], [])
  | o :: os =>
      let '(l, r, ev) := fs_spec o l in
      let '(l, rs, evs) := fs_spec_run os l in (l, r :: rs, ev ++ evs)
  end.

Fixpoint fs_all_allowed (os : list fs_op) (l : list Z) : Prop :=
  match os with
  | [] => True
  | o :: os => fs_allowed o l ∧ fs_all_allowed os (fs_spec o l).1.1
  end.

(** The handles that opens return. *)
Fixpoint fs_opened (os : list fs_op) : list Z :=
  match os with
  | FOpen filp path mode _ :: os => file_open filp path mode :: fs_opened os
  | _ :: os => fs_opened os
  | [] => []
  end.
End fs.
Arguments enclave_fs : clear implicits.
Arguments fs_op : clear implicits.

(** ** Lemmas: handles *)

Lemma remove_iter_perm p l : p ∈ l → l ≡ₚ p :: remove_iter p l.
Proof.
  induction l as [|q l IH]; simpl; [by intros ?%not_elem_of_nil|].
  rewrite elem_of_cons. case_test; [by subst|]. intros [?|Hp]; [done|].
  rewrite (IH Hp) at 1. apply perm_swap.
Qed.

Section handles.
Context {T E : Type} `{StoreLaws T E}.

Record fs_rep (fs : enclave_fs T) (l : list Z) : Prop := {
  fs_table : holds_bag (open_file_table fs) (pairs l);
  fs_list : open_file_list fs = l;
  fs_count : num_files fs = u32 (zlen l);
  fs_nodup : NoDup l;
  fs_nonnull : 0 ∉ l
}.

Lemma file_open_ok filp path mode :
  0 < filp path (Z.lor mode O_LARGEFILE) < 2 ^ 64 - 4095 →
  file_open filp path mode = filp path (Z.lor mode O_LARGEFILE) ∧
  IS_ERR (file_open filp path mode) = false.
Proof using.
  intros Hp. unfold file_open. assert (IS_ERR (filp path (Z.lor mode O_LARGEFILE)) = false) as Herr.
  { unfold IS_ERR. destruct (Z.geb_spec (filp path (Z.lor mode O_LARGEFILE)) (2 ^ 64 - 4095)); [lia|done]. }
  by rewrite !Herr.
Qed.

Lemma u32_succ_pred x y : u32 (u32 x + y) = u32 (x + y).
Proof using. unfold wrap. by rewrite Zplus_mod_idemp_l. Qed.

Lemma open_spec fs l filp path mode e :
  fs_rep fs l → fs_allowed (FOpen filp path mode e) l →
  ∃ fs', enclave_vfs_open_lcall filp fs path mode e true =
           Some (fs', respond (file_open filp path mode)) ∧
    fs_rep fs' (l ++ [file_open filp path mode]).
Proof using T E H H0.
  intros Hrep (Hp & Hnew & He & Hok). destruct (file_open_ok _ _ _ Hp) as [Eo Herr].
  unfold enclave_vfs_open_lcall. rewrite Herr. rewrite Eo in *. set (p := filp _ _) in *.
  destruct Hrep as [Ht Hl Hc Hn H0l].
  rewrite (search_handle _ l) by done. rewrite bool_decide_false by done. simpl.
  destruct (store_insert_spec (open_file_table fs) (pairs l) p p e Ht He) as (r & t' & Hi & Ht').
  rewrite Hi. simpl. eexists. split; [done|]. rewrite Hok in Ht'. split; simpl.
  - eapply holds_bag_perm; [exact Ht'|]. unfold pairs. rewrite fmap_app. simpl.
    by rewrite Permutation_app_comm.
  - by rewrite Hl.
  - rewrite Hc, u32_succ_pred, length_app. f_equal. simpl. lia.
  - apply list.NoDup_app. split_and!; [done| |by apply list.NoDup_singleton].
    intros x Hx ->%list_elem_of_singleton. done.
  - rewrite elem_of_app, list_elem_of_singleton. intros [?|?]; [done|lia].
Qed.

Lemma close_spec fs l h :
  fs_rep fs l →
  ∃ fs', enclave_vfs_close_lcall fs h =
      Some (fs', respond (if bool_decide (h ∈ l) then 0 else -1),
            if bool_decide (h ∈ l) then [FilpClose h] else []) ∧
    fs_rep fs' (if bool_decide (h ∈ l) then remove_iter h l else l).
Proof using T E H H0.
  intros Hrep. pose proof Hrep as [Ht Hl Hc Hn H0l]. unfold enclave_vfs_close_lcall.
  rewrite (search_handle _ l) by done. simpl. case_bool_decide as Hh; [|by exists fs].
  destruct (Z.eqb_spec h 0) as [->|Hne]; [done|].
  destruct (remove_handle _ l h Ht Hh) as (r & t' & l' & -> & Hp & Ht'). simpl.
  pose proof (remove_iter_perm h l Hh) as Hp'.
  assert (l' ≡ₚ remove_iter h l) as Hl' by (apply (Permutation_cons_inv (a := h)); by rewrite <-Hp).
  eexists. split; [done|]. rewrite Hp' in Hn. apply list.NoDup_cons in Hn as [Hnin Hn]. split; simpl.
  - eapply holds_bag_perm; [exact Ht'|]. unfold pairs. by rewrite Hl'.
  - by rewrite Hl.
  - rewrite Hc. apply Permutation_length in Hp'. simpl in Hp'. unfold wrap.
    rewrite Zminus_mod_idemp_l. f_equal. lia.
  - done.
  - intros Hin. apply H0l. rewrite Hp'. by right.
Qed.

Lemma fs_exec_spec o fs l :
  fs_rep fs l → fs_allowed o l →
  ∃ fs', fs_exec o fs = Some (fs', (fs_spec o l).1.2, (fs_spec o l).2) ∧
    fs_rep fs' (fs_spec o l).1.1.
Proof using T E H H0.
  intros Hrep Ha. destruct o as [filp path mode e|h|h g]; cbn [fs_exec fs_spec].
  - destruct (open_spec fs l filp path mode e Hrep Ha) as (fs' & -> & Hrep'). exists fs'.
    split; [|done]. destruct Ha as [Hp _]. destruct (file_open_ok _ _ _ Hp) as [-> _]. simpl.
    rewrite wrap_small; [done|]. unfold fits. lia.
  - destruct (close_spec fs l h Hrep) as (fs' & -> & Hrep'). exists fs'.
    by case_bool_decide.
  - exists fs. unfold enclave_vfs_size_lcall. destruct Hrep as [Ht Hl Hc Hn H0l].
    rewrite (search_handle _ l) by done. case_bool_decide as Hh; simpl; [|done].
    destruct (Z.eqb_spec h 0) as [->|Hne]; done.
Qed.

Lemma fs_run_spec os fs l :
  fs_rep fs l → fs_all_allowed os l →
  ∃ fs', fs_run os fs = Some (fs', (fs_spec_run os l).1.2, (fs_spec_run os l).2) ∧
    fs_rep fs' (fs_spec_run os l).1.1.
Proof using T E H H0.
  revert fs l. induction os as [|o os IH]; intros fs l Hrep; simpl; [by exists fs|].
  intros [Ho Hos]. destruct (fs_exec_spec o fs l Hrep Ho) as (fs1 & -> & Hrep1). simpl.
  destruct (fs_spec o l) as [[l1 r] ev]; simpl in *.
  destruct (IH fs1 l1 Hrep1 Hos) as (fs2 & -> & Hrep2). exists fs2.
  by destruct (fs_spec_run os l1) as [[l2 rs] evs].
Qed.

Lemma deinit_events (fs : enclave_fs T) :
  (deinit_enclave_fs fs).2 = FilpClose <$> open_file_list fs.
Proof using.
  unfold deinit_enclave_fs. simpl. induction (open_file_list fs) as [|p l IH]; [done|].
  cbn. f_equal. exact IH.
Qed.

(** Every handle opened is closed once: by a close, or still open at the end. *)
Lemma fs_spec_closes (os : list (fs_op E)) l :
  (fs_spec_run os l).2 ++ (FilpClose <$> (fs_spec_run os l).1.1) ≡ₚ
  FilpClose <$> (l ++ fs_opened os).
Proof using.
  revert l. induction os as [|o os IH]; intros l; simpl; [by rewrite app_nil_r|].
  specialize (IH (fs_spec o l).1.1). destruct o as [filp path mode e|h|h g]; simpl in *.
  - destruct (fs_spec_run os _) as [[l2 rs] evs]; simpl in *. rewrite IH. by rewrite <-app_assoc.
  - case_bool_decide as Hh; simpl in *; destruct (fs_spec_run os _) as [[l2 rs] evs]; simpl in *;
      rewrite IH; [|done].
    rewrite (remove_iter_perm h l Hh) at 2. done.
  - destruct (fs_spec_run os _) as [[l2 rs] evs]; simpl in *. by rewrite IH.
Qed.

Lemma init_fs_rep e :
  env_ok e → env_creates e = true →
  ∃ fs, init_enclave_fs 0 e = Some (0, Some fs) ∧ fs_rep fs [].
Proof using T E H H0.
  intros He Hc. destruct (store_create_spec e He Hc) as (t & Ht & Hb). unfold init_enclave_fs.
  rewrite Ht. simpl. eexists. split; [done|]. split; simpl; try done; [by apply list.NoDup_nil|].
  by apply not_elem_of_nil.
Qed.
End handles.

(** ** Lemmas: reading and writing *)

(** The bytes moved by a sequence of calls. *)
Fixpoint moved (cs : list io) : Z :=
  match cs with [] => 0 | c :: cs => Z.max 0 (io_ret c) + moved cs end.

(** Each call starts at the file offset the calls before it have reached. *)
Fixpoint sequential (off : Z) (cs : list io) : Prop :=
  match cs with
  | [] => True
  | c :: cs => io_off c = off ∧ sequential (off + Z.max 0 (io_ret c)) cs
  end.

Definition inside (d : vfs_buf_desc) (c : io) : Prop :=
  phys_addr d ≤ io_addr c ∧ 0 < io_len c ∧ io_addr c + io_len c ≤ phys_addr d + size d.

Definition desc_ok (d : vfs_buf_desc) : Prop :=
  fits 32 (size d) ∧ 0 ≤ phys_addr d ∧ phys_addr d + size d < 2 ^ 64.

Fixpoint total_size (ds : list vfs_buf_desc) : Z :=
  match ds with [] => 0 | d :: ds => size d + total_size ds end.

Lemma moved_app a b : moved (a ++ b) = moved a + moved b.
Proof. induction a as [|c a IH]; simpl; lia. Qed.

Lemma moved_nonneg cs : 0 ≤ moved cs.
Proof. induction cs; simpl; lia. Qed.

Lemma sequential_app off a b :
  sequential off a → sequential (off + moved a) b → sequential off (a ++ b).
Proof.
  revert off. induction a as [|c a IH]; intros off; simpl; [by rewrite Z.add_0_r|].
  intros [? Ha] Hb. split; [done|]. apply IH; [done|]. by rewrite <-Z.add_assoc.
Qed.

Section io_loops.
(** The kernel moves at most the bytes asked for. *)
Context (vfs : list io → Z → Z → Z → Z) (Hvfs : ∀ tr a n off, vfs tr a n off ≤ n).
Local Notation file_io := (file_read vfs).

Lemma io_desc_spec fuel d bytes_done left offset total ret tr :
  desc_ok d → (Z.to_nat left < fuel)%nat → 0 ≤ left → 0 ≤ bytes_done → bytes_done + left = size d →
  0 ≤ offset → offset + left < 2 ^ 64 → 0 ≤ total → total + left < 2 ^ 64 →
  ∃ ret' cs, io_desc file_io fuel (phys_addr d) bytes_done left offset total ret tr =
      Some (ret', offset + moved cs, total + moved cs, tr ++ cs) ∧
    sequential offset cs ∧ Forall (inside d) cs ∧ moved cs ≤ left.
Proof using Hvfs.
  intros (Hs & Hp0 & Hp1). unfold fits in Hs. revert bytes_done left offset total ret tr.
  induction fuel as [|fuel IH]; intros bytes_done left offset total ret tr; [lia|].
  intros Hfuel Hl Hd Hsz Ho0 Ho1 Ht0 Ht1. simpl. destruct (Z.gtb_spec left 0).
  2: { exists ret, []. simpl. rewrite !Z.add_0_r, app_nil_r. split_and!; [done..|lia]. }
  set (a := u64 (phys_addr d + bytes_done)). set (r := vfs tr a left offset).
  assert (a = phys_addr d + bytes_done) as Ha by (unfold a; apply wrap_small; unfold fits; lia).
  pose proof (Hvfs tr a left offset) as Hr. fold r in Hr.
  set (c := {| io_addr := a; io_len := left; io_off := offset; io_ret := r |}).
  assert (inside d c) as Hin by (unfold inside, c; simpl; lia).
  case_test.
  - exists r, [c]. simpl. rewrite Z.max_l by lia. rewrite !Z.add_0_r.
    split; [done|]. split; [done|]. split; [by constructor|lia].
  - rewrite !wrap_small by (unfold fits; lia).
    destruct (IH (bytes_done + r) (left - r) (offset + r) (total + r) r (tr ++ [c]))
      as (ret' & cs & -> & Hseq & Hall & Hm); [lia..|].
    exists ret', (c :: cs). simpl. rewrite Z.max_r by lia.
    rewrite !Z.add_assoc, <-app_assoc. split_and!; [done|done|done|by constructor|lia].
Qed.

Lemma io_descs_spec len ds offset total tr :
  Forall desc_ok ds → 0 ≤ offset → offset + total_size ds < 2 ^ 64 →
  0 ≤ total → total + total_size ds < 2 ^ 64 →
  ∃ cs, io_descs file_io len ds offset total tr = Some (total + moved cs, tr ++ cs) ∧
    sequential offset cs ∧ Forall (λ c, ∃ d, d ∈ ds ∧ inside d c) cs ∧ moved cs ≤ total_size ds.
Proof using Hvfs.
  intros Hds. revert offset total tr. induction Hds as [|d ds Hd Hds IH];
    intros offset total tr Ho0 Ho1 Ht0 Ht1; cbn [io_descs total_size] in *.
  - exists []. simpl. rewrite Z.add_0_r, app_nil_r. by split_and!.
  - assert (0 ≤ total_size ds) as Hpos.
    { clear -Hds. induction Hds as [|d ds (Hd & _) Hds IH]; simpl; [done|]. unfold fits in Hd. lia. }
    destruct Hd as (Hd & Hdp). pose proof Hd as Hd'. unfold fits in Hd'.
    destruct (Z.geb_spec total len).
    { exists []. simpl. rewrite Z.add_0_r, app_nil_r. split; [done|]. split; [done|].
      split; [by constructor|lia]. }
    destruct (io_desc_spec (S (Z.to_nat (size d))) d 0 (size d) offset total 0 tr)
      as (ret & cs & -> & Hseq & Hall & Hm); [done|lia..|].
    pose proof (moved_nonneg cs). simpl. destruct (ret =? 0).
    + exists cs. split; [done|]. split; [done|]. split; [|lia].
      apply (list.Forall_impl _ _ _ Hall). intros c Hc. exists d. split; [left|done].
    + destruct (IH (offset + moved cs) (total + moved cs) (tr ++ cs)) as (cs' & -> & Hseq' & Hall' & Hm');
        [lia..|].
      exists (cs ++ cs'). rewrite moved_app, app_assoc, Z.add_assoc.
      split; [done|]. split; [by apply sequential_app|]. split; [|lia]. apply list.Forall_app. split.
      * apply (list.Forall_impl _ _ _ Hall). intros c Hc. exists d. split; [left|done].
      * apply (list.Forall_impl _ _ _ Hall'). intros c (d' & ? & ?). exists d'. split; [by right|done].
Qed.
End io_loops.

(** ** Properties *)

From S2P Require Hashtable.
#[local] Existing Instances Hashtable.hashtable_store Hashtable.hashtable_laws.

(** C11: Over any store that keeps the laws, any sequence of opens (that get a
    new file and its memory), closes and size queries answers as a plain list of
    open handles does: a handle is known exactly from its open to its close, an
    unknown one gets -1 and closes nothing, [num_files] counts the open ones; and
    the closes together with [deinit_enclave_fs] close every opened file exactly
    once. *)
Theorem fs_tracks_handles {T E : Type} `{StoreLaws T E} (os : list (fs_op E)) (e : E)
    (He : env_ok e) (Hc : env_creates e = true) (Hos : fs_all_allowed os []) :
  ∃ fs0 fs rs evs, init_enclave_fs 0 e = Some (0, Some fs0) ∧
    fs_run os fs0 = Some (fs, rs, evs) ∧
    rs = (fs_spec_run os []).1.2 ∧ open_file_list fs = (fs_spec_run os []).1.1 ∧
    num_files fs = u32 (zlen (open_file_list fs)) ∧
    evs ++ (deinit_enclave_fs fs).2 ≡ₚ FilpClose <$> fs_opened os.
Proof.
  destruct (init_fs_rep e He Hc) as (fs0 & Hinit & Hrep).
  destruct (fs_run_spec os fs0 [] Hrep Hos) as (fs & Hrun & Hrep').
  exists fs0, fs, (fs_spec_run os []).1.2, (fs_spec_run os []).2.
  destruct Hrep' as [_ Hl Hn _ _]. rewrite deinit_events, Hl.
  repeat (split; [done|]). exact (fs_spec_closes os []).
Qed.

Definition demo_env : Hashtable.store_env :=
  {| Hashtable.htable_ok := true; Hashtable.chains_ok := true;
     Hashtable.insert_ok := Hashtable.alloc_all |}.
Definition demo_fs_ops : list (fs_op Hashtable.store_env) :=
  [FOpen (λ _ _, 4096) [47; 97] 0 demo_env; FOpen (λ _ _, 8192) [47; 98] 0 demo_env;
   FSize 4096 (λ _, (0, 100)); FClose 4096; FClose 4096].

Lemma fs_tracks_handles_witness :
  ∃ fs0 fs rs evs, init_enclave_fs 0 demo_env = Some (0, Some fs0) ∧
    fs_run demo_fs_ops fs0 = Some (fs, rs, evs) ∧
    rs = [4096; 8192; 100; 0; 2 ^ 64 - 1] ∧ open_file_list fs = [8192] ∧
    num_files fs = u32 (zlen (open_file_list fs)) ∧
    evs ++ (deinit_enclave_fs fs).2 ≡ₚ FilpClose <$> [4096; 8192].
Proof.
  apply (fs_tracks_handles (T := Hashtable.hashtable) demo_fs_ops demo_env); [done|done|].
  split; [|split; [|by repeat split]]; simpl.
  - split; [lia|]. split; [by intros ?%not_elem_of_nil|done].
  - split; [lia|]. split; [by intros ?%list_elem_of_singleton|done].
Defined.

(** A failed open is not seen as one: [file_open] answers NULL, which
    [IS_ERR] does not catch, so the handler puts the handle 0 in the table and in
    the list and counts a file; the enclave gets status 0, and
    [deinit_enclave_fs] later closes the NULL file. *)
Theorem fs_failed_open_leaks {T E : Type} `{StoreLaws T E} (fs : enclave_fs T) (l : list Z)
    (filp : list Z → Z → Z) (path : list Z) (mode err : Z) (e : E)
    (Hrep : fs_rep fs l) (Herr : 1 ≤ err ≤ 4095)
    (Hfilp : filp path (Z.lor mode O_LARGEFILE) = 2 ^ 64 - err) (He : env_ok e) :
  ∃ fs', enclave_vfs_open_lcall filp fs path mode e true = Some (fs', respond 0) ∧
    num_files fs' = u32 (num_files fs + 1) ∧ open_file_list fs' = open_file_list fs ++ [0] ∧
    FilpClose 0 ∈ (deinit_enclave_fs fs').2.
Proof.
  assert (file_open filp path mode = 0) as Ho.
  { unfold file_open, IS_ERR. rewrite Hfilp.
    destruct (Z.geb_spec (2 ^ 64 - err) (2 ^ 64 - 4095)); [done|lia]. }
  unfold enclave_vfs_open_lcall. rewrite Ho. simpl. destruct Hrep as [Ht Hl Hn _ H0l].
  rewrite (search_handle _ l), bool_decide_false by done. simpl.
  destruct (store_insert_spec (open_file_table fs) (pairs l) 0 0 e Ht He) as (r & t' & -> & _).
  cbn [mbind option_bind]. eexists. split; [done|]. split; [done|]. split; [done|].
  change (FilpClose 0 ∈ concat ((λ p, [FilpClose p]) <$> (open_file_list fs ++ [0]))).
  rewrite fmap_app, concat_app. apply elem_of_app. right. by left.
Qed.

Definition empty_table : Hashtable.hashtable :=
  {| Hashtable.table_length := 53; Hashtable.table := replicate 53 [];
     Hashtable.entry_count := 0; Hashtable.load_limit := 35; Hashtable.prime_index := 0;
     Hashtable.hash_fn := Hashtable.file_hash_fn; Hashtable.eq_fn := Hashtable.file_eq_fn |}.
Definition empty_fs : enclave_fs Hashtable.hashtable :=
  {| num_files := 0; open_file_table := empty_table; open_file_list := [] |}.

Lemma empty_fs_rep : fs_rep (E := Hashtable.store_env) empty_fs [].
Proof.
  destruct (init_fs_rep (T := Hashtable.hashtable) demo_env) as (fs & Hi & Hr); [done|done|].
  assert (init_enclave_fs 0 demo_env = Some (0, Some empty_fs)) as E0 by reflexivity.
  assert (fs = empty_fs) as <- by congruence. exact Hr.
Qed.

Lemma fs_failed_open_leaks_witness :
  ∃ fs', enclave_vfs_open_lcall (λ _ _, 2 ^ 64 - 2) empty_fs [47; 120] 0 demo_env true
           = Some (fs', respond 0) ∧
    num_files fs' = u32 (0 + 1) ∧ open_file_list fs' = [] ++ [0] ∧
    FilpClose 0 ∈ (deinit_enclave_fs fs').2.
Proof.
  apply (fs_failed_open_leaks empty_fs [] (λ _ _, 2 ^ 64 - 2) [47; 120] 0 2 demo_env);
    [exact empty_fs_rep|lia|done|done].
Defined.

(** C31: Reading and writing an open file, with any number of descriptors and
    whatever (short, failed) transfers the file system makes: the handler
    terminates; its calls go through the file in order, each starting where the
    bytes moved so far end; every call stays inside one descriptor's memory; and
    the status is the number of bytes moved. *)
Theorem fs_read_write_spec {T E : Type} `{StoreLaws T E} (fs : enclave_fs T) (l : list Z)
    (vfs : list io → Z → Z → Z → Z) (lcall : vfs_io_lcall)
    (Hrep : fs_rep fs l) (Hopen : file_handle lcall ∈ l)
    (Hvfs : ∀ tr a n off, vfs tr a n off ≤ n)
    (Hdescs : Forall desc_ok (descs lcall)) (Hoff : 0 ≤ offset lcall)
    (Hend : offset lcall + total_size (descs lcall) < 2 ^ 64) :
  ∃ cs, enclave_vfs_read_lcall vfs fs lcall = Some (respond (moved cs), cs) ∧
    enclave_vfs_write_lcall vfs fs lcall = Some (respond (moved cs), cs) ∧
    sequential (offset lcall) cs ∧
    Forall (λ c, ∃ d, d ∈ descs lcall ∧ inside d c) cs ∧
    0 ≤ moved cs ≤ total_size (descs lcall).
Proof.
  destruct (io_descs_spec vfs Hvfs (length_ lcall) (descs lcall) (offset lcall) 0 [])
    as (cs & Hcs & Hseq & Hall & Hm); [done..|lia|].
  exists cs. unfold enclave_vfs_read_lcall, enclave_vfs_write_lcall.
  destruct Hrep as [Ht Hl Hn _ H0l]. rewrite (search_handle _ l), bool_decide_true by done. simpl.
  destruct (Z.eqb_spec (file_handle lcall) 0) as [E0|_]; [by rewrite E0 in Hopen|].
  change (file_write vfs) with (file_read vfs). rewrite Hcs. simpl. pose proof (moved_nonneg cs). by split_and!.
Qed.

Definition one_file_fs : enclave_fs Hashtable.hashtable :=
  match enclave_vfs_open_lcall (λ _ _, 4096) empty_fs [47; 97] 0 demo_env true with
  | Some (fs, _) => fs
  | None => empty_fs
  end.

Lemma one_file_rep : fs_rep (E := Hashtable.store_env) one_file_fs [4096].
Proof.
  destruct (open_spec empty_fs [] (λ _ _, 4096) [47; 97] 0 demo_env) as (fs' & Ho & Hrep).
  - exact empty_fs_rep.
  - split; [lia|]. split; [by intros ?%not_elem_of_nil|done].
  - unfold one_file_fs. rewrite Ho. exact Hrep.
Qed.

(** Two descriptors of 8 bytes, and a file of 10 bytes read from offset 0. *)
Definition demo_read : vfs_io_lcall :=
  {| file_handle := 4096; offset := 0; length_ := 16;
     descs := [{| size := 8; phys_addr := 65536 |}; {| size := 8; phys_addr := 131072 |}] |}.
Definition ten_bytes (_ : list io) (_ n off : Z) : Z := Z.min n (10 - off).

Lemma fs_read_write_spec_witness :
  ∃ cs, enclave_vfs_read_lcall ten_bytes one_file_fs demo_read = Some (respond (moved cs), cs) ∧
    enclave_vfs_write_lcall ten_bytes one_file_fs demo_read = Some (respond (moved cs), cs) ∧
    sequential 0 cs ∧ Forall (λ c, ∃ d, d ∈ descs demo_read ∧ inside d c) cs ∧
    0 ≤ moved cs ≤ 16.
Proof.
  apply (fs_read_write_spec one_file_fs [4096] ten_bytes demo_read).
  - exact one_file_rep.
  - by left.
  - intros. unfold ten_bytes. lia.
  - repeat constructor; simpl; lia.
  - simpl; lia.
  - simpl; lia.
Defined.

(** The length an enclave asks for does not bound what is read: it is only
    compared between descriptors, so with one descriptor of [n] bytes a file with
    enough data is read for [n] bytes whatever shorter length was asked for. *)
Theorem fs_read_ignores_length {T E : Type} `{StoreLaws T E} (fs : enclave_fs T) (l : list Z)
    (vfs : list io → Z → Z → Z → Z) (h off len n phys : Z)
    (Hrep : fs_rep fs l) (Hopen : h ∈ l) (Hvfs : ∀ tr a k o, vfs tr a k o = k)
    (Hlen : 0 < len < n) (Hn : n < 2 ^ 32) (Hoff : 0 ≤ off) (Hend : off + n < 2 ^ 64) :
  ∃ cs, enclave_vfs_read_lcall vfs fs {| file_handle := h; offset := off; length_ := len;
      descs := [{| size := n; phys_addr := phys |}] |} = Some (respond n, cs).
Proof.
  unfold enclave_vfs_read_lcall. destruct Hrep as [Ht Hl _ _ H0l]. simpl.
  rewrite (search_handle _ l), bool_decide_true by done. simpl.
  destruct (Z.eqb_spec h 0) as [E0|_]; [by rewrite E0 in Hopen|].
  destruct (Z.geb_spec 0 len); [lia|].
  replace (Z.to_nat n) with (S (Z.to_nat (n - 1))) by lia. simpl. rewrite !Hvfs.
  destruct (Z.gtb_spec n 0); [|lia]. destruct (Z.leb_spec n 0); [lia|].
  rewrite Z.sub_diag. simpl. destruct (Z.eqb_spec n 0); [lia|].
  rewrite Z.add_0_l, (wrap_small 64 n) by (unfold fits; lia). by eexists.
Qed.

Lemma fs_read_ignores_length_witness :
  ∃ cs, enclave_vfs_read_lcall (λ _ _ n _, n) one_file_fs
    {| file_handle := 4096; offset := 0; length_ := 1;
       descs := [{| size := 4096; phys_addr := 65536 |}] |} = Some (respond 4096, cs).
Proof.
  apply (fs_read_ignores_length one_file_fs [4096] (λ _ _ n _, n) 4096 0 1 4096 65536);
    [exact one_file_rep|by left|done|lia..].
Defined.
