(* ===== verification/Pci.v ===== *)
(** * Device assignment ([src/enclave_pci.c], [src/enclave_pci.h])

    The devices an enclave has been given, and the calls by which it attaches,
    maps, acknowledges and controls them.  A device structure is identified by
    its address; the list keeps them head first.  The functions run under the
    list's lock or in the one thread that serves the enclave's calls, and are
    sequential here.  What the kernel's PCI and IOMMU functions answer is an
    argument, what they are asked for is recorded as events.  [None] is
    behaviour C leaves undefined, or a loop that has not ended within [fuel]. *)
From S2P Require Import Prelude.

(** ** The code: data *)

Record pisces_pci_dev := {
  addr : Z;                    (* the address of the structure *)
  name : list Z;               (* a string of at most 127 characters *)
  bus : Z;
  devfn : Z;
  ready : bool;
  assigned : bool;
  iommu_enabled : bool;
  device_ipi_vector : Z;
  intx_disabled : bool
}.

Record enclave_pci_state := { dev_list : list pisces_pci_dev; dev_cnt : Z }.

Record pisces_pci_spec := { sp_name : list Z; sp_bus : Z; sp_dev : Z; sp_func : Z }.

(** Requests made to the kernel, for the device structure at an address. *)
Inductive pci_event :=
  | EnableDevice (a : Z) | DisableDevice (a : Z)
  | RequestRegions (a : Z) | ReleaseRegions (a : Z)
  | ResetFunction (a : Z) | RestoreState (a : Z)
  | DomainAlloc (a : Z) | DomainFree (a : Z)
  | PutDevice (a : Z) | KfreeDev (a : Z)
  | IommuMap (a gpa hpa page_size : Z) | IommuUnmap (a gpa page_size : Z)
  | AttachDevice (a : Z) | DetachDevice (a : Z)
  | RequestIrq (a : Z) | FreeIrq (a : Z) | DisableIrq (a : Z) | EnableIrq (a : Z)
  | Ipi (vector : Z)
  | Resp (status : Z).

Inductive host_pci_cmd_t :=
  | HOST_PCI_CMD_DMA_DISABLE | HOST_PCI_CMD_DMA_ENABLE | HOST_PCI_CMD_MEM_ENABLE
  | HOST_PCI_CMD_INTX_DISABLE | HOST_PCI_CMD_INTX_ENABLE.

(** The kernel's answers during the initialisation of a device. *)
Record pci_hw := {
  enable_fails : bool;
  regions_ret : Z;             (* pci_request_regions *)
  domain_ok : bool             (* iommu_domain_alloc *)
}.

Definition PCI_DEVFN (slot func : Z) : Z := Z.lor (Z.shiftl (Z.land slot 0x1f) 3) (Z.land func 0x07).

Definition set_state (d : pisces_pci_dev) (rdy asg iommu : bool) (vec : Z) (intx : bool)
  : pisces_pci_dev :=
  {| addr := addr d; name := name d; bus := bus d; devfn := devfn d; ready := rdy;
     assigned := asg; iommu_enabled := iommu; device_ipi_vector := vec; intx_disabled := intx |}.

(** ** The code: helpers *)

Fixpoint find_dev_by_name (l : list pisces_pci_dev) (n : list Z) : option pisces_pci_dev :=
  match l with
  | [] => None
  | d :: l => if bool_decide (name d = n) then Some d else find_dev_by_name l n
  end.

(** A store through the pointer [a]. *)
Definition store_dev (a : Z) (d' : pisces_pci_dev) (l : list pisces_pci_dev) : list pisces_pci_dev :=
  (λ d, if addr d =? a then d' else d) <$> l.

Definition set_dev (s : enclave_pci_state) (d : pisces_pci_dev) : enclave_pci_state :=
  {| dev_list := store_dev (addr d) d (dev_list s); dev_cnt := dev_cnt s |}.

(** [list_del] of the structure at [a]. *)
Definition list_del (a : Z) (l : list pisces_pci_dev) : list pisces_pci_dev :=
  filter (λ d, addr d ≠ a) l.

Definition __deinit_pci_dev (d : pisces_pci_dev) : pisces_pci_dev * list pci_event :=
  (set_state d false (assigned d) (iommu_enabled d) (device_ipi_vector d) (intx_disabled d),
   [DomainFree (addr d); ReleaseRegions (addr d); ResetFunction (addr d);
    RestoreState (addr d); DisableDevice (addr d)]).

Definition __init_pci_dev (d : pisces_pci_dev) (hw : pci_hw)
  : Z * pisces_pci_dev * list pci_event :=
  let a := addr d in
  if enable_fails hw then (- EBUSY, d, [EnableDevice a]) else
  if negb (regions_ret hw =? 0) then
    (regions_ret hw, d, [EnableDevice a; RequestRegions a; DisableDevice a]) else
  if negb (domain_ok hw) then
    (- ENOMEM, d, [EnableDevice a; RequestRegions a; ResetFunction a; DomainAlloc a;
                   ReleaseRegions a; DisableDevice a]) else
  (0, set_state d true (assigned d) true (device_ipi_vector d) (intx_disabled d),
   [EnableDevice a; RequestRegions a; ResetFunction a; DomainAlloc a]).

(** ** The code: adding and removing *)

(** The kernel's answers to [enclave_pci_add_dev]: [kmalloc]'s pointer (0 when
    it fails, which [IS_ERR] does not catch), and what it knows of the slot. *)
Record add_env := {
  new_addr : Z;
  slot_found : bool;           (* pci_get_bus_and_slot *)
  hdr_normal : bool;
  iommu_there : bool;          (* iommu_present *)
  init_hw : pci_hw
}.

Definition blank_dev (a : Z) : pisces_pci_dev :=
  {| addr := a; name := []; bus := 0; devfn := 0; ready := false; assigned := false;
     iommu_enabled := false; device_ipi_vector := 0; intx_disabled := false |}.

(** The structure once its fields are set. *)
Definition named_dev (a : Z) (spec : pisces_pci_spec) : pisces_pci_dev :=
  {| addr := a; name := sp_name spec; bus := sp_bus spec;
     devfn := PCI_DEVFN (sp_dev spec) (sp_func spec); ready := false; assigned := false;
     iommu_enabled := false; device_ipi_vector := 0; intx_disabled := true |}.

(** The labels [out_put], [out_del_list] and [out_free]. *)
Definition add_dev_fail (s : enclave_pci_state) (a ret : Z) (put : bool) (ev : list pci_event)
  : Z * enclave_pci_state * list pci_event :=
  (ret, {| dev_list := list_del a (dev_list s); dev_cnt := dev_cnt s |},
   ev ++ (if put then [PutDevice a] else []) ++ [KfreeDev a]).

Definition enclave_pci_add_dev (s : enclave_pci_state) (spec : pisces_pci_spec) (env : add_env)
  : option (Z * enclave_pci_state * list pci_event) :=
  let a := new_addr env in
  if a =? 0 then None else
  if find_dev_by_name (dev_list s) (sp_name spec) then Some (-1, s, [KfreeDev a]) else
  let s := {| dev_list := blank_dev a :: dev_list s; dev_cnt := u32 (dev_cnt s + 1) |} in
  let d := named_dev a spec in
  let s := set_dev s d in
  Some (
    if negb (slot_found env) then add_dev_fail s a (- EINVAL) false [] else
    if negb (hdr_normal env) then add_dev_fail s a (- EPERM) true [] else
    if negb (iommu_there env) then add_dev_fail s a (- ENODEV) true [] else
    let '(ret, d, ev) := __init_pci_dev d (init_hw env) in
    let s := set_dev s d in
    if negb (ret =? 0) then add_dev_fail s a ret true ev else (0, s, ev)).

(** [None] for the NULL device. *)
Definition __unregister_device (s : enclave_pci_state) (d : option pisces_pci_dev)
  : Z * enclave_pci_state :=
  match d with
  | Some d =>
      if negb (assigned d) && ready d
      then (0, {| dev_list := list_del (addr d) (dev_list s); dev_cnt := u32 (dev_cnt s - 1) |})
      else (-1, s)
  | None => (-1, s)
  end.

Definition enclave_pci_remove_dev (s : enclave_pci_state) (spec : pisces_pci_spec)
  : Z * enclave_pci_state * list pci_event :=
  let d := find_dev_by_name (dev_list s) (sp_name spec) in
  let '(ret, s) := __unregister_device s d in
  match d with
  | Some d =>
      if ret =? -1 then (-1, s, []) else
      let '(d, ev) := __deinit_pci_dev d in
      (0, {| dev_list := dev_list s; dev_cnt := u32 (dev_cnt s - 1) |}, ev ++ [KfreeDev (addr d)])
  | None => (-1, s, [])
  end.

Definition _host_pci_intx_irq_handler (d : pisces_pci_dev) (enclave_null : bool) : list pci_event :=
  if enclave_null then [] else
  if device_ipi_vector d =? 0 then [] else [DisableIrq (addr d); Ipi (device_ipi_vector d)].

(** ** The code: IOMMU mappings *)

(** [page_size] for a remaining [size]: it drops to small pages and stays. *)
Definition next_page (size page_size : Z) : Z := if size <? page_size then 4096 else page_size.

Section iommu.
(** The kernel's answer to a request, after the requests in the list. *)
Context (iommu_map : list pci_event → Z → Z → Z → Z).
Context (iommu_unmap : list pci_event → Z → Z → Z).

Fixpoint map_loop (fuel : nat) (a size page_size gpa hpa : Z) (tr : list pci_event)
  : option (Z * list pci_event) :=
  match fuel with
  | O => None
  | S fuel =>
      let page_size := next_page size page_size in
      let ret := iommu_map tr gpa hpa page_size in
      let tr := tr ++ [IommuMap a gpa hpa page_size] in
      if negb (ret =? 0) then Some (ret, tr) else
      let size := u64 (size - page_size) in
      if size >? 0 then map_loop fuel a size page_size (u64 (gpa + page_size)) (u64 (hpa + page_size)) tr
      else Some (0, tr)
  end.

Fixpoint unmap_loop (fuel : nat) (a size page_size gpa : Z) (tr : list pci_event)
  : option (Z * list pci_event) :=
  match fuel with
  | O => None
  | S fuel =>
      let page_size := next_page size page_size in
      let unmap_size := iommu_unmap tr gpa page_size in
      let tr := tr ++ [IommuUnmap a gpa page_size] in
      if negb (unmap_size =? page_size) then Some (-1, tr) else
      let size := u64 (size - page_size) in
      if size >? 0 then unmap_loop fuel a size page_size (u64 (gpa + page_size)) tr
      else Some (0, tr)
  end.

(** A device that is found and assigned. *)
Definition find_assigned (s : enclave_pci_state) (n : list Z) : option pisces_pci_dev :=
  match find_dev_by_name (dev_list s) n with
  | Some d => if assigned d then Some d else None
  | None => None
  end.

Definition enclave_pci_iommu_map (fuel : nat) (s : enclave_pci_state) (n : list Z)
    (region_start region_end gpa : Z) : option (list pci_event) :=
  match find_assigned s n with
  | None => Some [Resp (-1)]
  | Some d =>
      '(ret, tr) ← map_loop fuel (addr d) (u64 (region_end - region_start)) (512 * 4096)
                     gpa region_start [];
      Some (tr ++ [Resp ret])
  end.

Definition enclave_pci_iommu_unmap (fuel : nat) (s : enclave_pci_state) (n : list Z)
    (region_start region_end gpa : Z) : option (list pci_event) :=
  match find_assigned s n with
  | None => Some [Resp (-1)]
  | Some d =>
      '(ret, tr) ← unmap_loop fuel (addr d) (u64 (region_end - region_start)) (512 * 4096) gpa [];
      Some (tr ++ [Resp ret])
  end.
End iommu.

(** ** The code: attaching and interrupts *)

(** [ret]: [iommu_attach_device]'s answer.  The value returned, the state, and
    the requests (a failed attachment returns without a response).  The answer
    of [request_threaded_irq] is only printed. *)
Definition enclave_pci_attach (s : enclave_pci_state) (n : list Z) (ipi_vector ret : Z)
  : Z * enclave_pci_state * list pci_event :=
  match find_dev_by_name (dev_list s) n with
  | Some d =>
      if negb (assigned d) && ready d then
        let d := set_state d (ready d) true (iommu_enabled d) (device_ipi_vector d) (intx_disabled d) in
        let s := set_dev s d in
        if negb (ret =? 0) then (ret, s, [AttachDevice (addr d)]) else
        let d := set_state d (ready d) true (iommu_enabled d) ipi_vector false in
        (0, set_dev s d, [AttachDevice (addr d); RequestIrq (addr d); Resp 0])
      else (0, s, [Resp (-1)])
  | None => (0, s, [Resp (-1)])
  end.

Definition enclave_pci_detach (s : enclave_pci_state) (n : list Z)
  : Z * enclave_pci_state * list pci_event :=
  match find_assigned s n with
  | None => (0, s, [Resp (-1)])
  | Some d =>
      let d := set_state d (ready d) false (iommu_enabled d) 0 (intx_disabled d) in
      (0, set_dev s d, [DetachDevice (addr d); Resp 0])
  end.

Definition enclave_pci_ack_irq (s : enclave_pci_state) (n : list Z) : list pci_event :=
  match find_dev_by_name (dev_list s) n with
  | None => [Resp (-1)]
  | Some d => [EnableIrq (addr d); Resp 0]
  end.

Definition set_intx (d : pisces_pci_dev) (b : bool) : pisces_pci_dev :=
  set_state d (ready d) (assigned d) (iommu_enabled d) (device_ipi_vector d) b.

Definition enclave_pci_cmd (s : enclave_pci_state) (n : list Z) (cmd : host_pci_cmd_t)
  : enclave_pci_state * list pci_event :=
  match find_dev_by_name (dev_list s) n with
  | None => (s, [Resp (-1)])
  | Some d =>
      match cmd with
      | HOST_PCI_CMD_INTX_DISABLE =>
          if intx_disabled d then (s, [Resp 0])
          else (set_dev s (set_intx d true), [DisableIrq (addr d); FreeIrq (addr d); Resp 0])
      | HOST_PCI_CMD_INTX_ENABLE =>
          if negb (intx_disabled d) then (s, [Resp 0])
          else (set_dev s (set_intx d false), [RequestIrq (addr d); Resp 0])
      | _ => (s, [Resp (-1)])
      end
  end.

(** ** The code: set-up and teardown of the state *)

Definition init_enclave_pci : enclave_pci_state := {| dev_list := []; dev_cnt := 0 |}.

(** The loop of [deinit_enclave_pci].  [freed] are the structures given to
    [kfree]: looking at one of them again is undefined. *)
Fixpoint deinit_loop (fuel : nat) (s : enclave_pci_state) (freed : list Z) (ev : list pci_event)
  : option (enclave_pci_state * list pci_event) :=
  match fuel with
  | O => None
  | S fuel =>
      match dev_list s with
      | [] => Some (s, ev)
      | d :: _ =>
          if bool_decide (addr d ∈ freed) then None else
          let '(_, s) := __unregister_device s (Some d) in
          let '(d', ev') := __deinit_pci_dev d in
          let s := set_dev s d' in
          deinit_loop fuel {| dev_list := dev_list s; dev_cnt := u32 (dev_cnt s - 1) |}
            (addr d :: freed) (ev ++ ev' ++ [KfreeDev (addr d)])
      end
  end.

Definition deinit_enclave_pci (s : enclave_pci_state) : option (enclave_pci_state * list pci_event) :=
  deinit_loop (S (length (dev_list s))) s [] [].

(** Each device is torn down and initialised again, whatever the latter answers. *)
Definition reset_dev (hw : pisces_pci_dev → pci_hw) (d : pisces_pci_dev)
  : pisces_pci_dev * list pci_event :=
  let '(d, ev) := __deinit_pci_dev d in
  let '(_, d, ev') := __init_pci_dev d (hw d) in (d, ev ++ ev').

Definition reset_enclave_pci (hw : pisces_pci_dev → pci_hw) (s : enclave_pci_state)
  : enclave_pci_state * list pci_event :=
  ({| dev_list := fst ∘ reset_dev hw <$> dev_list s; dev_cnt := dev_cnt s |},
   concat (snd ∘ reset_dev hw <$> dev_list s)).

(** ** Lemmas *)

(** Structures and names are distinct. *)
Record wf (s : enclave_pci_state) : Prop := {
  wf_addrs : NoDup (addr <$> dev_list s);
  wf_names : NoDup (name <$> dev_list s)
}.

Lemma find_dev_None l n : find_dev_by_name l n = None ↔ n ∉ (name <$> l).
Proof.
  induction l as [|d l IH]; simpl.
  - split; [by intros _ ?%not_elem_of_nil|done].
  - rewrite not_elem_of_cons. case_bool_decide as Hn; [by split; [|intros [? _]; congruence]|].
    rewrite IH. split; [|tauto]. intros ?. by split; [congruence|].
Qed.

Lemma find_dev_Some l n d : find_dev_by_name l n = Some d → d ∈ l ∧ name d = n.
Proof.
  induction l as [|x l IH]; simpl; [done|]. case_bool_decide; [intros [= <-]; by split; [left|]|].
  intros [? ?]%IH. by split; [right|].
Qed.

Lemma store_dev_absent a d l : a ∉ (addr <$> l) → store_dev a d l = l.
Proof.
  induction l as [|x l IH]; simpl; [done|]. intros [Hx Hl]%not_elem_of_cons.
  destruct (Z.eqb_spec (addr x) a); [congruence|]. by rewrite IH.
Qed.

Lemma list_del_absent a l : a ∉ (addr <$> l) → list_del a l = l.
Proof.
  induction l as [|x l IH]; simpl; [done|]. intros [Hx Hl]%not_elem_of_cons.
  unfold list_del. rewrite filter_cons, decide_True by congruence. f_equal. by apply IH.
Qed.

Lemma list_del_head d l : addr d ∉ (addr <$> l) → list_del (addr d) (d :: l) = l.
Proof. intros Hd. unfold list_del. rewrite filter_cons, decide_False by tauto. by apply list_del_absent. Qed.

Lemma store_dev_head d d' l :
  addr d ∉ (addr <$> l) → store_dev (addr d) d' (d :: l) = d' :: l.
Proof. intros Hd. simpl. rewrite Z.eqb_refl. f_equal. by apply store_dev_absent. Qed.

Lemma init_dev_addr d hw : addr (__init_pci_dev d hw).1.2 = addr d.
Proof. unfold __init_pci_dev. by repeat case_match. Qed.

Lemma add_dev_fail_head a d l cnt ret put ev :
  addr d = a → a ∉ (addr <$> l) →
  add_dev_fail {| dev_list := d :: l; dev_cnt := cnt |} a ret put ev =
    (ret, {| dev_list := l; dev_cnt := cnt |}, ev ++ (if put then [PutDevice a] else []) ++ [KfreeDev a]).
Proof. intros <- Hd. unfold add_dev_fail. cbn [dev_list dev_cnt]. by rewrite list_del_head. Qed.

(** Whether the kernel lets the device be added. *)
Definition add_succeeds (env : add_env) : bool :=
  slot_found env && hdr_normal env && iommu_there env && negb (enable_fails (init_hw env)) &&
  (regions_ret (init_hw env) =? 0) && domain_ok (init_hw env).

(** What adding a device with a new name results in. *)
Definition add_result (s : enclave_pci_state) (spec : pisces_pci_spec) (env : add_env)
    (r : Z * enclave_pci_state * list pci_event) : Prop :=
  let '(ret, s', ev) := r in
  dev_cnt s' = u32 (dev_cnt s + 1) ∧
  if add_succeeds env
  then ret = 0 ∧
    dev_list s' = set_state (named_dev (new_addr env) spec) true false true 0 true :: dev_list s
  else ret ≠ 0 ∧ dev_list s' = dev_list s ∧ ∃ ev', ev = ev' ++ [KfreeDev (new_addr env)].

Lemma add_fail_result s spec env d ret put ev :
  addr d = new_addr env → new_addr env ∉ (addr <$> dev_list s) → ret ≠ 0 →
  add_succeeds env = false →
  add_result s spec env
    (add_dev_fail {| dev_list := d :: dev_list s; dev_cnt := u32 (dev_cnt s + 1) |}
       (new_addr env) ret put ev).
Proof.
  intros Hd Hn Hr Hs. rewrite add_dev_fail_head by done. unfold add_result. rewrite Hs.
  cbn [dev_list dev_cnt]. split; [done|]. split; [done|]. split; [done|].
  eexists. by rewrite app_assoc.
Qed.

Lemma add_dev_result s spec env :
  new_addr env ≠ 0 → new_addr env ∉ (addr <$> dev_list s) →
  sp_name spec ∉ (name <$> dev_list s) →
  ∃ r, enclave_pci_add_dev s spec env = Some r ∧ add_result s spec env r.
Proof.
  intros Ha Hfresh Hname. unfold enclave_pci_add_dev.
  destruct (Z.eqb_spec (new_addr env) 0) as [|_]; [done|].
  rewrite (proj2 (find_dev_None _ _) Hname). eexists. split; [done|].
  unfold set_dev. cbn [dev_list dev_cnt addr named_dev].
  rewrite (store_dev_head (blank_dev (new_addr env))) by done.
  pose proof (add_fail_result s spec env) as Hfail. unfold add_succeeds in Hfail.
  destruct (slot_found env) eqn:E1; cbn [negb]; [|by apply Hfail].
  destruct (hdr_normal env) eqn:E2; cbn [negb]; [|by apply Hfail].
  destruct (iommu_there env) eqn:E3; cbn [negb]; [|by apply Hfail].
  pose proof (init_dev_addr (named_dev (new_addr env) spec) (init_hw env)) as Haddr.
  destruct (__init_pci_dev _ _) as [[ret d] ev] eqn:Ei. cbn [fst snd addr named_dev] in Haddr.
  rewrite Haddr, (store_dev_head (named_dev (new_addr env) spec)) by done.
  unfold __init_pci_dev in Ei.
  destruct (enable_fails (init_hw env)) eqn:E4.
  { injection Ei as <- <- <-. by apply Hfail. }
  destruct (Z.eqb_spec (regions_ret (init_hw env)) 0) as [E5|E5].
  2: { injection Ei as <- <- <-. destruct (Z.eqb_spec (regions_ret (init_hw env)) 0); [done|].
       by apply Hfail. }
  destruct (domain_ok (init_hw env)) eqn:E6; injection Ei as <- <- <-; [|by apply Hfail].
  unfold add_result, add_succeeds. rewrite E1, E2, E3, E4, E5, E6. simpl. done.
Qed.

(** *** Mappings *)

(** The requests map the [size] bytes at [gpa] to those at [hpa], in order and
    without overlap, in pages of 2MB while they fit and of 4KB after that. *)
Fixpoint covers (a gpa hpa size : Z) (ev : list pci_event) : Prop :=
  match ev with
  | [] => size = 0
  | IommuMap a' g h p :: ev =>
      a' = a ∧ g = gpa ∧ h = hpa ∧ p = (if size <? 512 * 4096 then 4096 else 512 * 4096) ∧ p ≤ size ∧
      covers a (gpa + p) (hpa + p) (size - p) ev
  | _ => False
  end.

Lemma map_loop_covers iommu_map fuel a size ps gpa hpa tr :
  (∀ tr g h p, iommu_map tr g h p = 0) →
  0 < size → (4096 | size) → 0 ≤ gpa → 0 ≤ hpa → gpa + size < 2 ^ 64 → hpa + size < 2 ^ 64 →
  ps = 512 * 4096 ∨ (ps = 4096 ∧ size < 512 * 4096) →
  size ≤ 4096 * Z.of_nat fuel →
  ∃ ev, map_loop iommu_map fuel a size ps gpa hpa tr = Some (0, tr ++ ev) ∧
    covers a gpa hpa size ev.
Proof.
  intros Hok. revert size ps gpa hpa tr.
  induction fuel as [|fuel IH]; intros size ps gpa hpa tr Hpos Hdiv Hg0 Hh0 Hg Hh Hps Hfuel; [lia|].
  cbn [map_loop].
  assert (next_page size ps = if size <? 512 * 4096 then 4096 else 512 * 4096) as Hp.
  { unfold next_page. destruct Hps as [-> |[-> ?]]; [done|]. repeat case_test; lia. }
  rewrite Hp. set (p := if size <? 512 * 4096 then 4096 else 512 * 4096) in *.
  assert (4096 ≤ p ≤ size ∧ (4096 | p)) as [Hple Hpdiv].
  { unfold p. destruct Hdiv as [q ->]. case_test; [split; [lia|by exists 1]|].
    split; [lia|by exists 512]. }
  rewrite Hok. cbn [negb Z.eqb]. rewrite !wrap_small by (unfold fits; lia).
  destruct (Z.gtb_spec (size - p) 0).
  - destruct (IH (size - p) p (gpa + p) (hpa + p) (tr ++ [IommuMap a gpa hpa p]))
      as (ev & -> & Hcov); try lia; [by apply Z.divide_sub_r|unfold p; case_test; lia|].
    exists (IommuMap a gpa hpa p :: ev). rewrite <-app_assoc. simpl.
    split; [done|]. by repeat (split; [lia || done|]).
  - exists [IommuMap a gpa hpa p]. split; [done|]. simpl. repeat (split; [lia || done|]). lia.
Qed.

Lemma map_loop_unaligned iommu_map fuel a size ps gpa hpa tr :
  (∀ tr g h p, iommu_map tr g h p = 0) → size mod 4096 ≠ 0 → ps = 512 * 4096 ∨ ps = 4096 →
  map_loop iommu_map fuel a size ps gpa hpa tr = None.
Proof.
  intros Hok. revert size ps gpa hpa tr.
  induction fuel as [|fuel IH]; intros size ps gpa hpa tr Hsz Hps; [done|].
  cbn [map_loop]. rewrite Hok. cbn [negb Z.eqb].
  assert (next_page size ps = 512 * 4096 ∨ next_page size ps = 4096) as Hp.
  { unfold next_page. case_test; auto. }
  set (p := next_page size ps) in *.
  assert (u64 (size - p) mod 4096 ≠ 0) as Hmod.
  { unfold wrap. replace (2 ^ 64) with (4096 * 2 ^ 52) by lia.
    rewrite Z.rem_mul_r by lia. rewrite Z.mul_comm, Z_mod_plus_full, Zmod_mod.
    intros E. apply Hsz. replace size with (size - p + p) by lia.
    rewrite Zplus_mod, E. by destruct Hp as [-> | ->]. }
  destruct (Z.gtb_spec (u64 (size - p)) 0) as [|Hle]; [by apply IH|].
  pose proof (wrap_fits 64 (size - p) ltac:(lia)) as [? _].
  replace (u64 (size - p)) with 0 in Hmod by lia. done.
Qed.

(** *** Teardown *)

Definition released (d : pisces_pci_dev) : list pci_event :=
  (__deinit_pci_dev d).2 ++ [KfreeDev (addr d)].

Lemma deinit_loop_ok fuel s freed ev :
  NoDup (addr <$> dev_list s) → (∀ d, d ∈ dev_list s → addr d ∉ freed) →
  (length (dev_list s) < fuel)%nat →
  Forall (λ d, assigned d = false ∧ ready d = true) (dev_list s) →
  ∃ s', deinit_loop fuel s freed ev = Some (s', ev ++ concat (released <$> dev_list s)) ∧
    dev_list s' = [].
Proof.
  revert s freed ev. induction fuel as [|fuel IH]; intros [l cnt] freed ev Hnd Hfr Hlen Hall; [simpl in *; lia|].
  cbn [dev_list] in *. destruct l as [|d l]; simpl; [exists {| dev_list := []; dev_cnt := cnt |}; by rewrite app_nil_r|].
  apply list.Forall_cons in Hall as [[Ha Hr] Hall]. simpl in Hnd.
  apply list.NoDup_cons in Hnd as [Hd Hnd].
  rewrite bool_decide_false by (apply Hfr; left). rewrite Ha, Hr. cbn [negb andb dev_list dev_cnt].
  rewrite list_del_head by done.
  set (d' := set_state d false _ _ _ _). unfold set_dev. cbn [dev_list dev_cnt].
  rewrite store_dev_absent by done.
  edestruct (IH {| dev_list := l; dev_cnt := u32 (u32 (cnt - 1) - 1) |} (addr d :: freed))
    as (s' & Heq & Hs'); cbn [dev_list]; [done| | simpl in *; lia|done|].
  - intros x Hx. rewrite not_elem_of_cons. split; [|apply Hfr; by right].
    intros E. apply Hd. rewrite <-E. by apply list_elem_of_fmap_2.
  - exists s'. split; [|done]. rewrite Heq. cbn [dev_list]. unfold released at 2. simpl.
    by rewrite <-!app_assoc.
Qed.

Lemma deinit_loop_stuck fuel s freed ev d :
  NoDup (addr <$> dev_list s) → d ∈ dev_list s → assigned d = true ∨ ready d = false →
  deinit_loop fuel s freed ev = None.
Proof.
  revert s freed ev. induction fuel as [|fuel IH]; intros [l cnt] freed ev Hnd Hin Hbad; [done|].
  cbn [dev_list] in *. destruct l as [|x l]; [by apply not_elem_of_nil in Hin|]. simpl.
  case_bool_decide; [done|]. simpl in Hnd. apply list.NoDup_cons in Hnd as [Hx Hnd].
  destruct (negb (assigned x) && ready x) eqn:E; cbn [dev_list dev_cnt].
  - rewrite list_del_head by done. unfold set_dev. cbn [dev_list dev_cnt].
    rewrite store_dev_absent by done. apply IH; [done| |done]. simpl.
    apply elem_of_cons in Hin as [->|?]; [|done].
    apply andb_prop in E as [E1 E2]. destruct (assigned x); simpl in E1; destruct Hbad; congruence.
  - unfold set_dev. cbn [dev_list dev_cnt]. rewrite store_dev_head by done.
    destruct fuel as [|fuel]; [done|]. simpl. by rewrite bool_decide_true by left.
Qed.

(** ** Properties *)


Definition demo_spec : pisces_pci_spec := {| sp_name := [110]; sp_bus := 1; sp_dev := 2; sp_func := 0 |}.
Definition demo_add : add_env :=
  {| new_addr := 4096; slot_found := true; hdr_normal := true; iommu_there := true;
     init_hw := {| enable_fails := false; regions_ret := 0; domain_ok := true |} |}.


(** C35: For a region of a positive whole number of 4KB pages of an assigned
    device, when the IOMMU accepts every request, [enclave_pci_iommu_map]
    terminates, maps exactly the region (every byte once, in order, guest and
    host address advancing together, in 2MB pages while at least 2MB is left and
    4KB pages after that) and answers 0. *)
Theorem iommu_map_exact (s : enclave_pci_state) (n : list Z) (d : pisces_pci_dev)
    (iommu_map : list pci_event → Z → Z → Z → Z) (fuel : nat) (region_start region_end gpa : Z)
    (Hd : find_assigned s n = Some d) (Hok : ∀ tr g h p, iommu_map tr g h p = 0)
    (Hpos : 0 ≤ region_start < region_end) (Halign : (4096 | region_end - region_start))
    (Hend : region_end < 2 ^ 64) (Hg : 0 ≤ gpa) (Hgend : gpa + (region_end - region_start) < 2 ^ 64)
    (Hfuel : region_end - region_start ≤ 4096 * Z.of_nat fuel) :
  ∃ ev, enclave_pci_iommu_map iommu_map fuel s n region_start region_end gpa = Some (ev ++ [Resp 0]) ∧
    covers (addr d) gpa region_start (region_end - region_start) ev.
Proof.
  unfold enclave_pci_iommu_map. rewrite Hd, wrap_small by (unfold fits; lia).
  destruct (map_loop_covers iommu_map fuel (addr d) (region_end - region_start) (512 * 4096) gpa
    region_start []) as (ev & -> & Hcov); try done; try lia.
  by exists ev.
Qed.

Definition demo_dev : pisces_pci_dev :=
  set_state (named_dev 4096 demo_spec) true true true 0 true.
Definition demo_state : enclave_pci_state := {| dev_list := [demo_dev]; dev_cnt := 1 |}.

(** 2MB and two small pages. *)
Lemma iommu_map_exact_witness :
  ∃ ev, enclave_pci_iommu_map (λ _ _ _ _, 0) 600 demo_state [110] 0x100000 0x302000 0 =
      Some (ev ++ [Resp 0]) ∧
    covers 4096 0 0x100000 (0x302000 - 0x100000) ev.
Proof.
  apply (iommu_map_exact demo_state [110] demo_dev (λ _ _ _ _, 0) 600 0x100000 0x302000 0);
    [done|done|lia|by exists 514|lia|lia|lia|lia].
Defined.

(** A region whose size is not a whole number of 4KB pages is never done:
    the remaining size wraps around below zero instead of reaching it, and as
    long as the IOMMU accepts the requests the loop goes on mapping pages outside
    of the region, past any number of rounds. *)
Theorem iommu_map_unaligned_runs_on (s : enclave_pci_state) (n : list Z) (d : pisces_pci_dev)
    (iommu_map : list pci_event → Z → Z → Z → Z) (fuel : nat) (region_start region_end gpa : Z)
    (Hd : find_assigned s n = Some d) (Hok : ∀ tr g h p, iommu_map tr g h p = 0)
    (Hsize : (region_end - region_start) mod 4096 ≠ 0) :
  enclave_pci_iommu_map iommu_map fuel s n region_start region_end gpa = None.
Proof.
  unfold enclave_pci_iommu_map. rewrite Hd.
  rewrite map_loop_unaligned; [done|done| |by left].
  unfold wrap. replace (2 ^ 64) with (4096 * 2 ^ 52) by lia.
  rewrite Z.rem_mul_r by lia. by rewrite Z.mul_comm, Z_mod_plus_full, Zmod_mod.
Qed.

Lemma iommu_map_unaligned_runs_on_witness :
  enclave_pci_iommu_map (λ _ _ _ _, 0) 1000 demo_state [110] 0 4097 0 = None.
Proof.
  apply (iommu_map_unaligned_runs_on demo_state [110] demo_dev (λ _ _ _ _, 0) 1000 0 4097 0); done.
Defined.

(** [deinit_enclave_pci] works exactly when every device is ready and none
    is assigned: then it empties the list, tearing each device down and freeing
    it once, in list order.  A device that is still assigned (or was not made
    ready) stays in the list after its structure is freed, and the next round
    looks at freed memory. *)
Theorem pci_deinit_spec (s : enclave_pci_state) (Hwf : wf s) :
  (Forall (λ d, assigned d = false ∧ ready d = true) (dev_list s) →
   ∃ s', deinit_enclave_pci s = Some (s', concat (released <$> dev_list s)) ∧ dev_list s' = []) ∧
  (∀ d, d ∈ dev_list s → assigned d = true ∨ ready d = false → deinit_enclave_pci s = None).
Proof.
  destruct Hwf as [Hwa _]. unfold deinit_enclave_pci. split.
  - intros Hall. apply (deinit_loop_ok _ s [] []); [done| |lia|done].
    by intros d _ ?%not_elem_of_nil.
  - intros d Hd Hbad. by eapply deinit_loop_stuck.
Qed.

Lemma pci_deinit_spec_witness :
  (Forall (λ d, assigned d = false ∧ ready d = true) (dev_list demo_state) →
   ∃ s', deinit_enclave_pci demo_state = Some (s', concat (released <$> dev_list demo_state)) ∧
         dev_list s' = []) ∧
  (∀ d, d ∈ dev_list demo_state → assigned d = true ∨ ready d = false →
        deinit_enclave_pci demo_state = None).
Proof. apply (pci_deinit_spec demo_state). split; apply list.NoDup_singleton. Defined.

(** An attachment the IOMMU refuses is reported to nobody and not undone:
    the handler returns the error without sending the response the enclave waits
    for, and the device stays marked as assigned, so that it can no longer be
    attached or removed. *)
Theorem pci_failed_attach (s : enclave_pci_state) (n : list Z) (d : pisces_pci_dev)
    (vec vec' ret ret' : Z) (Hwf : wf s) (Hd : find_dev_by_name (dev_list s) n = Some d)
    (Hready : assigned d = false ∧ ready d = true) (Hret : ret ≠ 0) :
  ∃ s', enclave_pci_attach s n vec ret = (ret, s', [AttachDevice (addr d)]) ∧
    (enclave_pci_attach s' n vec' ret').2 = [Resp (-1)] ∧
    ∀ spec, sp_name spec = n → enclave_pci_remove_dev s' spec = (-1, s', []).
Proof.
  unfold enclave_pci_attach at 1. rewrite Hd. destruct Hready as [Ea Er]. rewrite Ea, Er.
  cbn [negb andb]. destruct (Z.eqb_spec ret 0) as [|_]; [done|].
  eexists. split; [done|].
  assert (∀ l, d ∈ l → NoDup (addr <$> l) → NoDup (name <$> l) → name d = n →
    find_dev_by_name (store_dev (addr d)
      (set_state d true true (iommu_enabled d) (device_ipi_vector d) (intx_disabled d)) l) n =
    Some (set_state d true true (iommu_enabled d) (device_ipi_vector d) (intx_disabled d))) as Hfind.
  { intros l. induction l as [|x l IH]; [by intros ?%not_elem_of_nil|].
    intros [<- |Hin]%elem_of_cons [Hx Hna]%list.NoDup_cons [Hxn Hnn]%list.NoDup_cons Hn; simpl.
    - rewrite Z.eqb_refl. simpl. by rewrite bool_decide_true.
    - destruct (Z.eqb_spec (addr x) (addr d)) as [E|E].
      + exfalso. apply Hx. rewrite E. by apply list_elem_of_fmap_2.
      + rewrite bool_decide_false; [by apply IH|]. intros E'. apply Hxn. rewrite E', <-Hn.
        by apply list_elem_of_fmap_2. }
  destruct (find_dev_Some _ _ _ Hd) as [Hin Hn], Hwf as [Hwa Hwn].
  specialize (Hfind _ Hin Hwa Hwn Hn). split.
  - unfold enclave_pci_attach, set_dev. cbn [dev_list addr set_state]. by rewrite Hfind.
  - intros spec <-. unfold enclave_pci_remove_dev, set_dev. cbn [dev_list addr set_state].
    by rewrite Hfind.
Qed.

Definition idle_state : enclave_pci_state :=
  {| dev_list := [set_state demo_dev true false true 0 true]; dev_cnt := 1 |}.

Lemma pci_failed_attach_witness :
  ∃ s', enclave_pci_attach idle_state [110] 50 (-22) = (-22, s', [AttachDevice 4096]) ∧
    (enclave_pci_attach s' [110] 50 0).2 = [Resp (-1)] ∧
    ∀ spec, sp_name spec = [110] → enclave_pci_remove_dev s' spec = (-1, s', []).
Proof.
  apply (pci_failed_attach idle_state [110] (set_state demo_dev true false true 0 true) 50 50 (-22) 0);
    [split; apply list.NoDup_singleton|done|done|done].
Defined.
