(* ===== verification/Pgtables.v ===== *)
(** * Page tables ([src/pgtables.h], [src/pgtables.c])

    The bit fields of the x86 paging structures, the index and address macros,
    and the two walkers.  A paging structure is a list of its fields from bit 0
    up, with their widths; reading and writing a field shifts and masks the word
    as the compiler does.  Memory is a function from the physical address of an
    8-byte word to its value ([__va] of a physical address reads that word). *)
From Stdlib Require Import String.
From S2P Require Import Prelude.
#[local] Open Scope string_scope.
#[local] Open Scope list_scope.
#[local] Open Scope Z_scope.

(** ** The code: bit fields *)

Definition layout : Type := list (string * Z).

(** Bit position and width of a field; an unknown field has width 0. *)
Fixpoint field_from (pos : Z) (l : layout) (n : string) : Z * Z :=
  match l with
  | [] => (pos, 0)
  | (m, w) :: l => if String.eqb n m then (pos, w) else field_from (pos + w) l n
  end.
Definition field (l : layout) (n : string) : Z * Z := field_from 0 l n.

Definition get_bits (pw : Z * Z) (e : Z) : Z := Z.land (Z.shiftr e pw.1) (Z.ones pw.2).
Definition set_bits (pw : Z * Z) (v e : Z) : Z :=
  Z.lor (Z.ldiff e (Z.shiftl (Z.ones pw.2) pw.1)) (Z.shiftl (Z.land v (Z.ones pw.2)) pw.1).

Definition get_field (l : layout) (n : string) (e : Z) : Z := get_bits (field l n) e.
Definition set_field (l : layout) (n : string) (v e : Z) : Z := set_bits (field l n) v e.

(** The fields most entries start with. *)
Definition low_flags : layout :=
  [("present", 1); ("writable", 1); ("user_page", 1); ("write_through", 1);
   ("cache_disable", 1); ("accessed", 1)].

Definition pde32_t : layout :=
  low_flags ++ [("reserved", 1); ("large_page", 1); ("global_page", 1); ("vmm_info", 3);
                ("pt_base_addr", 20)].
Definition pde32_4MB_t : layout :=
  low_flags ++ [("dirty", 1); ("large_page", 1); ("global_page", 1); ("vmm_info", 3); ("pat", 1);
                ("rsvd", 9); ("page_base_addr", 10)].
Definition pte32_t : layout :=
  low_flags ++ [("dirty", 1); ("pte_attr", 1); ("global_page", 1); ("vmm_info", 3);
                ("page_base_addr", 20)].

Definition pdpe32pae_t : layout :=
  [("present", 1); ("rsvd", 2); ("write_through", 1); ("cache_disable", 1); ("accessed", 1);
   ("avail", 1); ("rsvd2", 2); ("vmm_info", 3); ("pd_base_addr", 24); ("rsvd3", 28)].
Definition pde32pae_t : layout :=
  low_flags ++ [("avail", 1); ("large_page", 1); ("global_page", 1); ("vmm_info", 3);
                ("pt_base_addr", 24); ("rsvd", 28)].
Definition pde32pae_2MB_t : layout :=
  low_flags ++ [("dirty", 1); ("one", 1); ("global_page", 1); ("vmm_info", 3); ("pat", 1);
                ("rsvd", 8); ("page_base_addr", 15); ("rsvd2", 28)].
Definition pte32pae_t : layout :=
  low_flags ++ [("dirty", 1); ("pte_attr", 1); ("global_page", 1); ("vmm_info", 3);
                ("page_base_addr", 24); ("rsvd", 28)].

Definition pml4e64_t : layout :=
  low_flags ++ [("reserved", 1); ("zero", 2); ("vmm_info", 3); ("pdp_base_addr", 40);
                ("available", 11); ("no_execute", 1)].
Definition pdpe64_t : layout :=
  low_flags ++ [("avail", 1); ("large_page", 1); ("zero", 1); ("vmm_info", 3);
                ("pd_base_addr", 40); ("available", 11); ("no_execute", 1)].
Definition pdpe64_1GB_t : layout :=
  low_flags ++ [("dirty", 1); ("large_page", 1); ("global_page", 1); ("vmm_info", 3); ("pat", 1);
                ("rsvd", 17); ("page_base_addr", 22); ("available", 11); ("no_execute", 1)].
Definition pde64_t : layout :=
  low_flags ++ [("avail", 1); ("large_page", 1); ("global_page", 1); ("vmm_info", 3);
                ("pt_base_addr", 40); ("available", 11); ("no_execute", 1)].
Definition pde64_2MB_t : layout :=
  low_flags ++ [("dirty", 1); ("large_page", 1); ("global_page", 1); ("vmm_info", 3); ("pat", 1);
                ("rsvd", 8); ("page_base_addr", 31); ("available", 11); ("no_execute", 1)].
Definition pte64_t : layout :=
  low_flags ++ [("dirty", 1); ("pte_attr", 1); ("global_page", 1); ("vmm_info", 3);
                ("page_base_addr", 40); ("available", 11); ("no_execute", 1)].

Definition pf_error_t : layout :=
  [("present", 1); ("write", 1); ("user", 1); ("rsvd_access", 1); ("ifetch", 1); ("rsvd", 27)].

(** ** The code: macros *)

Definition PDE32_INDEX (x : Z) : Z := Z.land (Z.shiftr (u32 x) 22) 0x3ff.
Definition PTE32_INDEX (x : Z) : Z := Z.land (Z.shiftr (u32 x) 12) 0x3ff.
Definition PDPE32PAE_INDEX (x : Z) : Z := Z.land (Z.shiftr (u32 x) 30) 0x3.
Definition PDE32PAE_INDEX (x : Z) : Z := Z.land (Z.shiftr (u32 x) 21) 0x1ff.
Definition PTE32PAE_INDEX (x : Z) : Z := Z.land (Z.shiftr (u32 x) 12) 0x1ff.
Definition PML4E64_INDEX (x : Z) : Z := Z.land (Z.shiftr (u64 x) 39) 0x1ff.
Definition PDPE64_INDEX (x : Z) : Z := Z.land (Z.shiftr (u64 x) 30) 0x1ff.
Definition PDE64_INDEX (x : Z) : Z := Z.land (Z.shiftr (u64 x) 21) 0x1ff.
Definition PTE64_INDEX (x : Z) : Z := Z.land (Z.shiftr (u64 x) 12) 0x1ff.

Definition MAX_PDE64_ENTRIES : Z := 512.

Definition PAGE_TO_BASE_ADDR (x : Z) : Z := Z.shiftr x 12.
Definition PAGE_TO_BASE_ADDR_2MB (x : Z) : Z := Z.shiftr x 21.
Definition BASE_TO_PAGE_ADDR (x : Z) : Z := u64 (Z.shiftl x 12).
Definition BASE_TO_PAGE_ADDR_2MB (x : Z) : Z := u64 (Z.shiftl x 21).
Definition BASE_TO_PAGE_ADDR_1GB (x : Z) : Z := u64 (Z.shiftl x 30).

Definition PAGE_OFFSET_4KB (x : Z) : Z := Z.land x 0xfff.
Definition PAGE_OFFSET_2MB (x : Z) : Z := Z.land x 0x1fffff.
Definition PAGE_OFFSET_1GB (x : Z) : Z := Z.land x 0x3fffffff.

Definition PAGE_SIZE_4KB : Z := 4096.
Definition PAGE_SIZE_2MB : Z := 4096 * 512.
Definition PAGE_SIZE_1GB : Z := 0x40000000.

Definition CR3_TO_PML4E64_PA (cr3 : Z) : Z := Z.land (u64 cr3) 0x000ffffffffff000.

(** ** The code: walkers *)

Definition memory : Type := Z → Z.

(** Entry [i] of the table at [pa]. *)
Definition entry (mem : memory) (pa i : Z) : Z := mem (pa + 8 * i).

(** The pages the walkers print, with their base. *)
Inductive page := Page1G (base : Z) | Page2M (base : Z) | Page4K (base : Z).

(** [dump_pgtables] on the tables at the physical address [pgt] (0 is the NULL
    pointer): the return value, and the page printed. *)
Definition dump_pgtables (mem : memory) (pgt vaddr : Z) : Z * option page :=
  if pgt =? 0 then (-1, None) else
  let pml_entry := entry mem pgt (PML4E64_INDEX vaddr) in
  if get_field pml4e64_t "present" pml_entry =? 0 then (-1, None) else
  let pdp := BASE_TO_PAGE_ADDR (get_field pml4e64_t "pdp_base_addr" pml_entry) in
  let pdp_entry := entry mem pdp (PDPE64_INDEX vaddr) in
  if get_field pdpe64_t "present" pdp_entry =? 0 then (-1, None) else
  if negb (get_field pdpe64_t "large_page" pdp_entry =? 0) then
    (0, Some (Page1G (BASE_TO_PAGE_ADDR_1GB (get_field pdpe64_1GB_t "page_base_addr" pdp_entry)))) else
  let pd := BASE_TO_PAGE_ADDR (get_field pdpe64_t "pd_base_addr" pdp_entry) in
  let pd_entry := entry mem pd (PDE64_INDEX vaddr) in
  if get_field pde64_t "present" pd_entry =? 0 then (-1, None) else
  if negb (get_field pde64_t "large_page" pd_entry =? 0) then
    (0, Some (Page2M (BASE_TO_PAGE_ADDR_2MB (get_field pde64_2MB_t "page_base_addr" pd_entry)))) else
  let pt := BASE_TO_PAGE_ADDR (get_field pde64_t "pt_base_addr" pd_entry) in
  let pt_entry := entry mem pt (PTE64_INDEX vaddr) in
  if get_field pte64_t "present" pt_entry =? 0 then (-1, None) else
  (0, Some (Page4K (BASE_TO_PAGE_ADDR (get_field pte64_t "page_base_addr" pt_entry)))).

(** The loops of [walk_pgtables]: from index [i], [n] entries left, the running
    address [addr_iter] and the pages printed. *)
Definition walk_state : Type := Z * list (Z * page).
Definition advance (st : walk_state) (step : Z) : walk_state := (u64 (st.1 + step), st.2).
Definition print (st : walk_state) (p : page) : walk_state := (st.1, st.2 ++ [(st.1, p)]).

Fixpoint table_loop (body : Z → walk_state → walk_state) (n : nat) (i : Z) (st : walk_state)
  : walk_state :=
  match n with
  | O => st
  | S n => table_loop body n (i + 1) (body i st)
  end.

Definition walk_pt (mem : memory) (pt m : Z) (st : walk_state) : walk_state :=
  let pt_entry := entry mem pt m in
  if get_field pte64_t "present" pt_entry =? 0 then advance st PAGE_SIZE_4KB
  else advance (print st (Page4K (BASE_TO_PAGE_ADDR (get_field pte64_t "page_base_addr" pt_entry))))
               PAGE_SIZE_4KB.

Definition walk_pd (mem : memory) (pd k : Z) (st : walk_state) : walk_state :=
  let pd_entry := entry mem pd k in
  if get_field pde64_t "present" pd_entry =? 0 then advance st PAGE_SIZE_2MB else
  if negb (get_field pde64_t "large_page" pd_entry =? 0) then
    advance (print st (Page2M (BASE_TO_PAGE_ADDR_2MB (get_field pde64_2MB_t "page_base_addr" pd_entry))))
            PAGE_SIZE_2MB
  else table_loop (walk_pt mem (BASE_TO_PAGE_ADDR (get_field pde64_t "pt_base_addr" pd_entry))) 512 0 st.

Definition walk_pdp (mem : memory) (pdp j : Z) (st : walk_state) : walk_state :=
  let pdp_entry := entry mem pdp j in
  if get_field pdpe64_t "present" pdp_entry =? 0 then advance st PAGE_SIZE_1GB else
  if negb (get_field pdpe64_t "large_page" pdp_entry =? 0) then
    advance (print st (Page1G (BASE_TO_PAGE_ADDR_1GB (get_field pdpe64_1GB_t "page_base_addr" pdp_entry))))
            PAGE_SIZE_1GB
  else table_loop (walk_pd mem (BASE_TO_PAGE_ADDR (get_field pdpe64_t "pd_base_addr" pdp_entry))) 512 0 st.

Definition walk_pml (mem : memory) (pml i : Z) (st : walk_state) : walk_state :=
  let pml_entry := entry mem pml i in
  if get_field pml4e64_t "present" pml_entry =? 0 then advance st (PAGE_SIZE_1GB * 512)
  else table_loop (walk_pdp mem (BASE_TO_PAGE_ADDR (get_field pml4e64_t "pdp_base_addr" pml_entry))) 512 0 st.

Definition walk_pgtables (mem : memory) (pgt : Z) : Z * list (Z * page) :=
  if pgt =? 0 then (-1, []) else (0, (table_loop (walk_pml mem pgt) 512 0 (0, [])).2).

(** ** Specification: address translation

    One level of the walk the processor makes, as a radix tree of degree 512:
    bit 0 says an entry is present, bit 7 that it is a page above the last
    level, bits 12 to 51 hold the table or page number. *)
Fixpoint translate_from (mem : memory) (level : nat) (table vaddr : Z) : option Z :=
  let shift := 12 + 9 * Z.of_nat level in
  let e := mem (table + 8 * (vaddr / 2 ^ shift mod 512)) in
  if negb (Z.testbit e 0) then None else
  match level with
  | O => Some (e / 2 ^ 12 mod 2 ^ 40 * 2 ^ 12 + vaddr mod 2 ^ 12)
  | S level' =>
      if Z.testbit e 7 && (Z.of_nat level <? 3)
      then Some (e / 2 ^ shift mod 2 ^ (52 - shift) * 2 ^ shift + vaddr mod 2 ^ shift)
      else translate_from mem level' (e / 2 ^ 12 mod 2 ^ 40 * 2 ^ 12) vaddr
  end.
Definition translate (mem : memory) (root vaddr : Z) : option Z := translate_from mem 3 root vaddr.

(** The address a page printed by the walkers gives to [vaddr]. *)
Definition page_addr (p : page) (vaddr : Z) : Z :=
  match p with
  | Page1G b => b + PAGE_OFFSET_1GB vaddr
  | Page2M b => b + PAGE_OFFSET_2MB vaddr
  | Page4K b => b + PAGE_OFFSET_4KB vaddr
  end.

Definition widths (l : layout) : Z := foldr (λ f s, snd f + s) 0 l.

(** Every structure of the header, with the width of its base type. *)
Definition structures : list (layout * Z) :=
  [(pde32_t, 32); (pde32_4MB_t, 32); (pte32_t, 32); (pdpe32pae_t, 64); (pde32pae_t, 64);
   (pde32pae_2MB_t, 64); (pte32pae_t, 64); (pml4e64_t, 64); (pdpe64_t, 64); (pdpe64_1GB_t, 64);
   (pde64_t, 64); (pde64_2MB_t, 64); (pte64_t, 64); (pf_error_t, 32)].

(** ** Lemmas: fields *)

Lemma get_bits_div p w e : 0 ≤ p → 0 ≤ w → get_bits (p, w) e = e / 2 ^ p mod 2 ^ w.
Proof. intros. unfold get_bits. simpl. by rewrite Z.land_ones, Z.shiftr_div_pow2. Qed.

Lemma get_bits_spec p w e i :
  0 ≤ p → 0 ≤ w → 0 ≤ i → Z.testbit (get_bits (p, w) e) i = (i <? w) && Z.testbit e (i + p).
Proof.
  intros. unfold get_bits. simpl. rewrite Z.land_spec, Z.shiftr_spec, Z.testbit_ones_nonneg by lia.
  apply andb_comm.
Qed.

Lemma set_bits_spec p w v e i :
  0 ≤ p → 0 ≤ w → 0 ≤ i →
  Z.testbit (set_bits (p, w) v e) i =
    if (p <=? i) && (i <? p + w) then Z.testbit v (i - p) else Z.testbit e i.
Proof.
  intros. unfold set_bits. simpl.
  rewrite Z.lor_spec, Z.ldiff_spec, !Z.shiftl_spec, Z.land_spec by lia.
  destruct (Z.leb_spec p i); simpl.
  - rewrite Z.testbit_ones_nonneg by lia.
    destruct (Z.ltb_spec (i - p) w), (Z.ltb_spec i (p + w)); try lia; simpl;
      rewrite ?andb_false_r, ?andb_true_r, ?orb_false_r; done.
  - rewrite !(Z.testbit_neg_r _ (i - p)) by lia. by rewrite andb_true_r, orb_false_r.
Qed.

Lemma get_set_same p w v e :
  0 ≤ p → 0 ≤ w → get_bits (p, w) (set_bits (p, w) v e) = v mod 2 ^ w.
Proof.
  intros. apply Z.bits_inj'. intros i Hi.
  rewrite get_bits_spec, set_bits_spec by lia.
  destruct (Z.ltb_spec i w); simpl.
  - destruct (Z.leb_spec p (i + p)), (Z.ltb_spec (i + p) (p + w)); try lia. simpl.
    rewrite Z.mod_pow2_bits_low by lia. f_equal. lia.
  - by rewrite Z.mod_pow2_bits_high by lia.
Qed.

Lemma get_set_other p w p' w' v e :
  0 ≤ p → 0 ≤ w → 0 ≤ p' → 0 ≤ w' → p + w ≤ p' ∨ p' + w' ≤ p →
  get_bits (p', w') (set_bits (p, w) v e) = get_bits (p', w') e.
Proof.
  intros. apply Z.bits_inj'. intros i Hi.
  rewrite !get_bits_spec, set_bits_spec by lia.
  destruct (Z.ltb_spec i w'); simpl; [|done].
  destruct (Z.leb_spec p (i + p')), (Z.ltb_spec (i + p') (p + w)); simpl; try done; lia.
Qed.

Lemma set_bits_fits p w v e W :
  0 ≤ p → 0 ≤ w → p + w ≤ W → fits W e → fits W (set_bits (p, w) v e).
Proof.
  intros Hp Hw HW He. apply bits_fits; [lia|]. intros i Hi. rewrite set_bits_spec by lia.
  destruct (Z.leb_spec p i), (Z.ltb_spec i (p + w)); simpl; try lia; apply (fits_bits W); [lia|done].
Qed.

Lemma field_from_bounds l pos n :
  forallb (λ f, 0 <? f.2) l = true →
  pos ≤ (field_from pos l n).1 ∧ 0 ≤ (field_from pos l n).2 ∧
  (field_from pos l n).1 + (field_from pos l n).2 ≤ pos + widths l.
Proof.
  revert pos. induction l as [|[m w] l IH]; intros pos; simpl; [intros _; lia|].
  intros [Hw%Z.ltb_lt Hl]%andb_prop. fold (widths l).
  assert (0 ≤ widths l).
  { clear -Hl. induction l as [|[m w] l IH]; simpl in *; [done|].
    apply andb_prop in Hl as [Hw%Z.ltb_lt Hl]. fold (widths l). specialize (IH Hl). lia. }
  destruct (String.eqb n m); simpl; [lia|]. specialize (IH (pos + w) Hl). lia.
Qed.

Lemma field_from_disjoint l pos n n' :
  forallb (λ f, 0 <? f.2) l = true → n ≠ n' → n ∈ (fst <$> l) → n' ∈ (fst <$> l) →
  let '(p, w) := field_from pos l n in let '(p', w') := field_from pos l n' in
  p + w ≤ p' ∨ p' + w' ≤ p.
Proof.
  revert pos. induction l as [|[m w] l IH]; intros pos Hl Hne Hn Hn'; simpl in *.
  { by apply not_elem_of_nil in Hn. }
  apply andb_prop in Hl as [Hw%Z.ltb_lt Hl].
  pose proof (field_from_bounds l (pos + w) n Hl). pose proof (field_from_bounds l (pos + w) n' Hl).
  apply elem_of_cons in Hn as [->|Hn]; apply elem_of_cons in Hn' as [->|Hn']; [done| | |].
  - rewrite String.eqb_refl. destruct (String.eqb_spec n' m); [congruence|].
    destruct (field_from (pos + w) l n'); simpl in *. lia.
  - rewrite String.eqb_refl. destruct (String.eqb_spec n m); [congruence|].
    destruct (field_from (pos + w) l n); simpl in *. lia.
  - destruct (String.eqb_spec n m), (String.eqb_spec n' m); subst; [done| | |by apply IH].
    + destruct (field_from (pos + w) l n'); simpl in *. lia.
    + destruct (field_from (pos + w) l n); simpl in *. lia.
Qed.

(** ** Lemmas: translation *)

Lemma bit_field_zero p e : 0 ≤ p → (get_bits (p, 1) e =? 0) = negb (Z.testbit e p).
Proof.
  intros. rewrite get_bits_div by lia. change (2 ^ 1) with 2. rewrite <-Z.testbit_spec' by done.
  by destruct (Z.testbit e p).
Qed.

Lemma index_div v s : fits 64 v → 0 ≤ s → Z.land (Z.shiftr (u64 v) s) 0x1ff = v / 2 ^ s mod 512.
Proof.
  intros Hv Hs. rewrite wrap_small by done. change 0x1ff with (Z.ones 9).
  by rewrite Z.land_ones, Z.shiftr_div_pow2.
Qed.

Lemma base_to_page e p w s :
  0 ≤ p → 0 ≤ w → 0 ≤ s → w + s ≤ 64 →
  u64 (Z.shiftl (get_bits (p, w) e) s) = e / 2 ^ p mod 2 ^ w * 2 ^ s.
Proof.
  intros. rewrite get_bits_div, Z.shiftl_mul_pow2 by lia. apply wrap_small. unfold fits.
  pose proof (Z.mod_pos_bound (e / 2 ^ p) (2 ^ w) ltac:(lia)) as Hb.
  assert (2 ^ w * 2 ^ s = 2 ^ (w + s)) as Hws by (symmetry; apply Z.pow_add_r; lia).
  assert (2 ^ (w + s) ≤ 2 ^ 64) by (apply Z.pow_le_mono_r; lia). nia.
Qed.

Lemma offset_mod v w : 0 ≤ w → Z.land v (Z.ones w) = v mod 2 ^ w.
Proof. intros. by apply Z.land_ones. Qed.

(** ** Properties *)

(** Every paging structure of the header fills its base type exactly, and
    its fields behave as variables: what is assigned to a field is read back
    (truncated to the field's width), no other field changes, and the word stays
    within its width. *)
Theorem pgtable_fields (l : layout) (w : Z) (n n' : string) (v e : Z)
    (Hl : (l, w) ∈ structures) (Hn : n ∈ (fst <$> l)) (Hn' : n' ∈ (fst <$> l)) :
  widths l = w ∧
  get_field l n (set_field l n v e) = v mod 2 ^ (field l n).2 ∧
  (n' ≠ n → get_field l n' (set_field l n v e) = get_field l n' e) ∧
  (fits w e → fits w (set_field l n v e)).
Proof.
  assert (Forall (λ s, widths s.1 = s.2 ∧ forallb (λ f, 0 <? f.2) s.1 = true) structures) as Hall
    by (repeat constructor).
  rewrite list.Forall_forall in Hall. destruct (Hall _ Hl) as [Hw Hpos]. simpl in Hw, Hpos.
  split; [done|].
  unfold get_field, set_field, field.
  pose proof (field_from_bounds l 0 n Hpos) as Hb. pose proof (field_from_bounds l 0 n' Hpos) as Hb'.
  split; [|split].
  - destruct (field_from 0 l n) as [p fw]. simpl in *. apply get_set_same; lia.
  - intros Hne. pose proof (field_from_disjoint l 0 n n' Hpos (not_eq_sym Hne) Hn Hn') as Hd.
    destruct (field_from 0 l n) as [p fw], (field_from 0 l n') as [p' fw']. simpl in *.
    apply get_set_other; lia.
  - intros He. destruct (field_from 0 l n) as [p fw]. simpl in *. apply set_bits_fits; try lia. done.
Qed.

Lemma pgtable_fields_witness :
  widths pde64_2MB_t = 64 ∧
  get_field pde64_2MB_t "page_base_addr" (set_field pde64_2MB_t "page_base_addr" 5 3) = 5 mod 2 ^ 31 ∧
  ("present" ≠ "page_base_addr" →
     get_field pde64_2MB_t "present" (set_field pde64_2MB_t "page_base_addr" 5 3) =
     get_field pde64_2MB_t "present" 3) ∧
  (fits 64 3 → fits 64 (set_field pde64_2MB_t "page_base_addr" 5 3)).
Proof.
  apply (pgtable_fields pde64_2MB_t 64 "page_base_addr" "present" 5 3).
  - by apply (list_elem_of_lookup_2 _ 11).
  - by apply (list_elem_of_lookup_2 _ 12).
  - by apply (list_elem_of_lookup_2 _ 0).
Defined.

(** C22: [dump_pgtables] walks like the processor: for every memory and every
    64-bit address it finds a page exactly when the four-level translation
    succeeds, returns 0 exactly then, and the page it prints (1GB, 2MB or 4KB)
    together with the address's offset in it is the translation. *)
Theorem dump_pgtables_translates (mem : memory) (pgt vaddr : Z)
    (Hpgt : pgt ≠ 0) (Hv : fits 64 vaddr) :
  let '(ret, p) := dump_pgtables mem pgt vaddr in
  translate mem pgt vaddr = (λ p, page_addr p vaddr) <$> p ∧ (ret = 0 ↔ is_Some p) ∧
  (ret = 0 ∨ ret = -1).
Proof.
  unfold dump_pgtables. destruct (Z.eqb_spec pgt 0) as [|_]; [done|].
  unfold translate, get_field.
  change (field pml4e64_t "present") with (0, 1). change (field pml4e64_t "pdp_base_addr") with (12, 40).
  change (field pdpe64_t "present") with (0, 1). change (field pdpe64_t "large_page") with (7, 1).
  change (field pdpe64_t "pd_base_addr") with (12, 40).
  change (field pdpe64_1GB_t "page_base_addr") with (30, 22).
  change (field pde64_t "present") with (0, 1). change (field pde64_t "large_page") with (7, 1).
  change (field pde64_t "pt_base_addr") with (12, 40).
  change (field pde64_2MB_t "page_base_addr") with (21, 31).
  change (field pte64_t "present") with (0, 1). change (field pte64_t "page_base_addr") with (12, 40).
  unfold entry, PML4E64_INDEX, PDPE64_INDEX, PDE64_INDEX, PTE64_INDEX,
    BASE_TO_PAGE_ADDR, BASE_TO_PAGE_ADDR_2MB, BASE_TO_PAGE_ADDR_1GB.
  rewrite !index_div by done. rewrite !base_to_page by lia.
  rewrite !bit_field_zero by done. rewrite !negb_involutive.
  cbn [translate_from].
  change (12 + 9 * Z.of_nat 3) with 39. change (12 + 9 * Z.of_nat 2) with 30.
  change (12 + 9 * Z.of_nat 1) with 21. change (12 + 9 * Z.of_nat 0) with 12.
  change (Z.of_nat 3 <? 3) with false. change (Z.of_nat 2 <? 3) with true.
  change (Z.of_nat 1 <? 3) with true. rewrite !andb_false_r, !andb_true_r.
  change (52 - 30) with 22. change (52 - 21) with 31.
  assert (∀ t, t = None → t = (λ p, page_addr p vaddr) <$> None ∧
    (-1 = 0 ↔ is_Some (None : option page)) ∧ (-1 = 0 ∨ -1 = -1)) as Hfail.
  { intros t ->. split; [done|]. split; [|by right]. split; [done|by intros []]. }
  assert (∀ t p, t = Some (page_addr p vaddr) → t = (λ p, page_addr p vaddr) <$> Some p ∧
    (0 = 0 ↔ is_Some (Some p)) ∧ (0 = 0 ∨ 0 = -1)) as Hfound by (intros t p ->; by split_and!; auto).
  pose proof (offset_mod vaddr 30) as O30. pose proof (offset_mod vaddr 21) as O21.
  pose proof (offset_mod vaddr 12) as O12.
  repeat match goal with
  | |- context [if negb (Z.testbit ?e ?b) then _ else _] => destruct (Z.testbit e b) eqn:?; cbn [negb]
  | |- context [if Z.testbit ?e ?b then _ else _] => destruct (Z.testbit e b) eqn:?; cbn [negb]
  end; first [by apply Hfail|apply Hfound; unfold page_addr, PAGE_OFFSET_1GB, PAGE_OFFSET_2MB,
    PAGE_OFFSET_4KB; do 2 f_equal; symmetry; auto with lia].
Qed.

(** An identity mapping of the first 2MB: three tables at 4096, 8192 and 12288. *)
Definition demo_tables (a : Z) : Z :=
  if a =? 4096 then 8192 + 3 else if a =? 8192 then 12288 + 3 else if a =? 12288 then 0x83 else 0.

Lemma dump_pgtables_translates_witness :
  let '(ret, p) := (0, Some (Page2M 0)) in
  translate demo_tables 4096 5000 = (λ p, page_addr p 5000) <$> p ∧ (ret = 0 ↔ is_Some p) ∧
  (ret = 0 ∨ ret = -1).
Proof. apply (dump_pgtables_translates demo_tables 4096 5000); [lia|unfold fits; lia]. Defined.
