(* ===== verification/Trampoline.v ===== *)
(** * Borrowing Linux's boot trampoline ([src/trampoline_*/trampoline.c])

    To start a processor in an enclave the module replaces, for the time of the
    boot, what Linux's real-mode trampoline jumps to.  There is one variant per
    range of kernel versions; the makefile compiles one of them.  A page is the
    list of its bytes.  [maps_lock] is Linux's lock of processor operations. *)
From S2P Require Import Prelude.

(** ** The code: current kernels ([trampoline_3]) *)
Module V3.

Record state := {
  trampoline_pgd : list byte;            (* the page at trampoline_pgd_ptr *)
  trampoline_target : Z;                 (* the word at trampoline_target *)
  cached_pgd : list byte;                (* the page at cached_pgd_ptr *)
  cached_trampoline_target : Z;
  maps_lock : bool
}.

(** What [init_trampoline] finds: the addresses of the three symbols (0 when
    missing), the header's [trampoline_start], and whether a page is allocated.
    The value returned, [cpu_init_rip], and the state. *)
Definition init_trampoline (real_mode_header maps_begin maps_done trampoline_start : Z)
    (alloc_page_ok : bool) (cpu_init_rip : Z) (s : state) : Z * Z * state :=
  if real_mode_header =? 0 then (-1, cpu_init_rip, s) else
  let cpu_init_rip := trampoline_start in
  if maps_begin =? 0 then (-1, cpu_init_rip, s) else
  if maps_done =? 0 then (-1, cpu_init_rip, s) else
  if negb alloc_page_ok then (-1, cpu_init_rip, s) else
  (0, cpu_init_rip,
   {| trampoline_pgd := trampoline_pgd s; trampoline_target := trampoline_target s;
      cached_pgd := replicate 4096 Byte.x00;
      cached_trampoline_target := cached_trampoline_target s; maps_lock := maps_lock s |}).

(** [pml]: the bytes of the page at [trampoline_state.pml_pa]. *)
Definition setup_enclave_trampoline (pml : list byte) (bootmem_addr_pa : Z) (s : state) : Z * state :=
  (0, {| trampoline_pgd := pml; trampoline_target := bootmem_addr_pa;
         cached_pgd := trampoline_pgd s; cached_trampoline_target := trampoline_target s;
         maps_lock := true |}).

Definition restore_enclave_trampoline (s : state) : Z * state :=
  (0, {| trampoline_pgd := cached_pgd s; trampoline_target := cached_trampoline_target s;
         cached_pgd := cached_pgd s; cached_trampoline_target := cached_trampoline_target s;
         maps_lock := false |}).
End V3.

(** ** The code: older kernels

    These overwrite the trampoline code itself, the [TRAMPOLINE_SIZE] bytes at
    its base, with the module's own copy [trampoline_data], in which the page
    [trampoline_level4_pgt] and the word [secondary_startup_vector] have been
    set ([image] is that copy). *)
Module Old.

Record state := { trampoline : list byte; cached : list byte; maps_lock : bool }.

Section image.
Context (image : list byte → Z → list byte).

(** 2.6.39 to 3.5 ([trampoline_2]). *)
Definition setup_2 (pml : list byte) (bootmem_addr_pa : Z) (s : state) : Z * state :=
  (0, {| trampoline := image pml bootmem_addr_pa; cached := trampoline s; maps_lock := true |}).
Definition restore_2 (s : state) : Z * state :=
  (0, {| trampoline := cached s; cached := cached s; maps_lock := false |}).

(** Cray Linux ([trampoline_0]). *)
Definition setup_0 (pml : list byte) (bootmem_addr_pa : Z) (s : state) : Z * state :=
  (0, {| trampoline := image pml bootmem_addr_pa; cached := cached s; maps_lock := true |}).
Definition restore_0 (s : state) : Z * state :=
  (0, {| trampoline := trampoline s; cached := cached s; maps_lock := false |}).

(** The same code at the base the kernel has it at ([trampoline_1]). *)
Definition setup_1 (pml : list byte) (bootmem_addr_pa : Z) (s : state) : Z * state :=
  (0, {| trampoline := image pml bootmem_addr_pa; cached := cached s; maps_lock := true |}).
Definition restore_1 (s : state) : Z * state :=
  (0, {| trampoline := trampoline s; cached := cached s; maps_lock := false |}).
End image.

(** [init_trampoline]: the answer and the address sent with the first interrupts.
    [trampoline_0] needs two symbols, its base is a constant. *)
Definition init_0 (maps_begin maps_done trampoline_base cpu_init_rip : Z) : Z * Z :=
  if maps_begin =? 0 then (-1, cpu_init_rip) else
  if maps_done =? 0 then (-1, cpu_init_rip) else (0, trampoline_base).
(** [trampoline_1] and [trampoline_2] look the base up as well. *)
Definition init_1 (maps_begin maps_done trampoline_base cpu_init_rip : Z) : Z * Z :=
  if maps_begin =? 0 then (-1, cpu_init_rip) else
  if maps_done =? 0 then (-1, cpu_init_rip) else
  if trampoline_base =? 0 then (-1, cpu_init_rip) else (0, trampoline_base).
Definition init_2 (maps_begin maps_done trampoline_base cpu_init_rip : Z) : Z * Z :=
  if maps_begin =? 0 then (-1, cpu_init_rip) else
  if maps_done =? 0 then (-1, cpu_init_rip) else
  if trampoline_base =? 0 then (-1, cpu_init_rip) else (0, trampoline_base).
End Old.

(** ** The interface the boot code uses

    [setup] and [restore] of a variant, and the part of the state Linux relies
    on: that it comes back, and that the lock is held in between. *)
Class TrampolineOps (S : Type) := {
  tr_setup : list byte → Z → S → Z * S;
  tr_restore : S → Z * S;
  tr_linux : S → list byte * Z;      (* what Linux's own boots will use *)
  tr_held : S → bool
}.

Class TrampolineLaws (S : Type) `{TrampolineOps S} := {
  tr_setup_ok pml pa s : (tr_setup pml pa s).1 = 0;
  tr_setup_held pml pa s : tr_held (tr_setup pml pa s).2 = true;
  tr_restore_ok s : (tr_restore s).1 = 0;
  tr_restore_free s : tr_held (tr_restore s).2 = false;
  tr_round_trip pml pa s : tr_linux (tr_restore (tr_setup pml pa s).2).2 = tr_linux s
}.

#[export] Instance v3_ops : TrampolineOps V3.state := {
  tr_setup := V3.setup_enclave_trampoline;
  tr_restore := V3.restore_enclave_trampoline;
  tr_linux s := (V3.trampoline_pgd s, V3.trampoline_target s);
  tr_held := V3.maps_lock
}.
#[export] Instance v3_laws : TrampolineLaws V3.state.
Proof. by split. Qed.

Section old.
Context (image : list byte → Z → list byte).

#[local] Instance old2_ops : TrampolineOps Old.state := {
  tr_setup := Old.setup_2 image;
  tr_restore := Old.restore_2;
  tr_linux s := (Old.trampoline s, 0);
  tr_held := Old.maps_lock
}.
#[local] Instance old2_laws : TrampolineLaws Old.state.
Proof. by split. Qed.
End old.

(** [trampoline_0] and [trampoline_1] have no instance: they save nothing, and
    the restore leaves the enclave's code where it was copied. *)
Lemma restore_01_keeps_image image pml pa s :
  Old.trampoline (Old.restore_0 (Old.setup_0 image pml pa s).2).2 = image pml pa ∧
  Old.trampoline (Old.restore_1 (Old.setup_1 image pml pa s).2).2 = image pml pa.
Proof. done. Qed.
