(* ===== verification/Boot.v ===== *)
(** * Booting an enclave ([src/boot.c], [src/boot.h])

    The page tables an enclave's first processor starts on, the INIT and STARTUP
    interrupts that start it, and the order in which the trampoline is borrowed
    and given back.  Reads of the interrupt controller and of the flag the
    enclave sets are functions of what was done before. *)
From Stdlib Require Import String.
From S2P Require Import Prelude Pgtables Trampoline.
#[local] Open Scope string_scope.
#[local] Open Scope list_scope.
#[local] Open Scope Z_scope.

(** ** The code: the trampoline's page tables *)

Record trampoline_data := {
  pml_pa : Z;
  pdp0_pa : Z; pdp1_pa : Z; pdp2_pa : Z;
  pd0_pa : Z; pd1_pa : Z; pd2_pa : Z;
  cpu_init_rip : Z
}.

Definition PAGE_SIZE : Z := 4096.

Definition store (mem : memory) (a v : Z) : memory := λ b, if b =? a then v else mem b.

(** [memset(__va(pa), 0, PAGE_SIZE)] *)
Definition clear_page (mem : memory) (pa : Z) : memory :=
  λ b, if (pa <=? b) && (b <? pa + PAGE_SIZE) then 0 else mem b.

(** The assignments to the fields of one entry. *)
Definition link_pml (pdp e : Z) : Z :=
  set_field pml4e64_t "pdp_base_addr" (PAGE_TO_BASE_ADDR pdp)
    (set_field pml4e64_t "writable" 1 (set_field pml4e64_t "present" 1 e)).
Definition link_pdp (pd e : Z) : Z :=
  set_field pdpe64_t "pd_base_addr" (PAGE_TO_BASE_ADDR pd)
    (set_field pdpe64_t "writable" 1 (set_field pdpe64_t "present" 1 e)).
Definition map_2MB (addr e : Z) : Z :=
  set_field pde64_2MB_t "page_base_addr" (PAGE_TO_BASE_ADDR_2MB addr)
    (set_field pde64_2MB_t "large_page" 1
      (set_field pde64_2MB_t "writable" 1 (set_field pde64_2MB_t "present" 1 e))).

Definition update (mem : memory) (a : Z) (f : Z → Z) : memory := store mem a (f (mem a)).

Definition init_trampoline_pgts (ts : trampoline_data) (mem : memory) : memory :=
  let mem := clear_page mem (pml_pa ts) in
  let mem := clear_page mem (pdp0_pa ts) in
  let mem := clear_page mem (pdp1_pa ts) in
  let mem := clear_page mem (pdp2_pa ts) in
  let mem := clear_page mem (pd0_pa ts) in
  let mem := clear_page mem (pd1_pa ts) in
  let mem := clear_page mem (pd2_pa ts) in
  let mem := update mem (pml_pa ts + 8 * 0) (link_pml (pdp0_pa ts)) in
  let mem := update mem (pdp0_pa ts + 8 * 0) (link_pdp (pd0_pa ts)) in
  update mem (pd0_pa ts + 8 * 0) (map_2MB 0).

(** [if (!entry->present) { .. }] *)
Definition if_absent (mem : memory) (a : Z) (present : Z → Z) (f : Z → Z) : memory :=
  if present (mem a) =? 0 then update mem a f else mem.

(** The [for] over the page directory [pd]. *)
Fixpoint map_pages (n : nat) (pd virt phys : Z) (mem : memory) : memory :=
  match n with
  | O => mem
  | S n =>
      map_pages n pd (u64 (virt + PAGE_SIZE_2MB)) (u64 (phys + PAGE_SIZE_2MB))
        (if_absent mem (pd + 8 * PDE64_INDEX virt) (get_field pde64_2MB_t "present") (map_2MB phys))
  end.

(** Either of the two blocks of [pisces_setup_trampoline]: the 2MB pages from
    [phys] on are mapped at [virt], through the tables [pdp_pa] and [pd_pa] where
    the walk meets an absent entry. *)
Definition map_region (ts : trampoline_data) (virt phys bootmem_size pdp_pa pd_pa : Z)
    (mem : memory) : memory :=
  let num_pde_entries := u32 (bootmem_size / PAGE_SIZE_2MB) in
  let num_pde_entries :=
    if num_pde_entries >? MAX_PDE64_ENTRIES - PDE64_INDEX virt
    then MAX_PDE64_ENTRIES - PDE64_INDEX virt else num_pde_entries in
  let pml_entry := pml_pa ts + 8 * PML4E64_INDEX virt in
  let mem := if_absent mem pml_entry (get_field pml4e64_t "present") (link_pml pdp_pa) in
  let pdp := BASE_TO_PAGE_ADDR (get_field pml4e64_t "pdp_base_addr" (mem pml_entry)) in
  let pdp_entry := pdp + 8 * PDPE64_INDEX virt in
  let mem := if_absent mem pdp_entry (get_field pdpe64_t "present") (link_pdp pd_pa) in
  let pd := BASE_TO_PAGE_ADDR (get_field pdpe64_t "pd_base_addr" (mem pdp_entry)) in
  map_pages (Z.to_nat num_pde_entries) pd virt phys mem.

Definition KERN_VA_BASE : Z := 0xffffffff80000000.

(** The tables [pisces_setup_trampoline] builds. *)
Definition setup_pgts (ts : trampoline_data) (bootmem_addr_pa bootmem_size : Z) (mem : memory)
  : memory :=
  let mem := init_trampoline_pgts ts mem in
  let mem := map_region ts bootmem_addr_pa bootmem_addr_pa bootmem_size (pdp1_pa ts) (pd1_pa ts) mem in
  map_region ts KERN_VA_BASE bootmem_addr_pa bootmem_size (pdp2_pa ts) (pd2_pa ts) mem.

(** The seven pages [pisces_init_trampoline] allocates, from the first one's
    address. *)
Definition tables_at (p rip : Z) : trampoline_data :=
  {| pml_pa := p; pdp0_pa := p + 1 * PAGE_SIZE; pdp1_pa := p + 2 * PAGE_SIZE;
     pdp2_pa := p + 3 * PAGE_SIZE; pd0_pa := p + 4 * PAGE_SIZE; pd1_pa := p + 5 * PAGE_SIZE;
     pd2_pa := p + 6 * PAGE_SIZE; cpu_init_rip := rip |}.

Definition no_tables : trampoline_data :=
  {| pml_pa := 0; pdp0_pa := 0; pdp1_pa := 0; pdp2_pa := 0; pd0_pa := 0; pd1_pa := 0; pd2_pa := 0;
     cpu_init_rip := 0 |}.

(** The address of the pages (0 when there are none) and what [init_trampoline]
    answers. *)
Definition pisces_init_trampoline (pages rip : Z) (init_ret : Z) (mem : memory)
  : Z * trampoline_data * memory :=
  if pages =? 0 then (-1, no_tables, mem) else
  let ts := tables_at pages rip in (init_ret, ts, init_trampoline_pgts ts mem).

(** ** The code: starting a processor *)

Inductive apic_event :=
  | EsrWrite | EsrRead
  | Icr (value apicid : Z)
  | WaitIdle
  | DelayUs (us : Z)
  | Poll.                       (* a look at boot_params->initialized *)

Definition APIC_INT_LEVELTRIG : Z := 0x8000.
Definition APIC_INT_ASSERT : Z := 0x4000.
Definition APIC_DM_INIT : Z := 0x500.
Definition APIC_DM_STARTUP : Z := 0x600.

(** [APIC_INTEGRATED] is a macro of the kernel's headers; [lvr]: the version register,
    with the version in its lowest byte and the largest entry in its third. *)
Definition __lapic_get_maxlvt (APIC_INTEGRATED : Z → bool) (lvr : Z) : Z :=
  if APIC_INTEGRATED (Z.land lvr 255) then Z.land (Z.shiftr lvr 16) 255 else 2.

Section apic.
(** [__lapic_get_maxlvt()], [APIC_INTEGRATED(apic_version[id])], and what a read
    of the error register and a wait for idle give after the events so far. *)
Context (maxlvt : Z) (integrated : bool).
Context (esr icr_idle : list apic_event → Z).

Definition clear_esr (tr : list apic_event) : list apic_event :=
  tr ++ (if maxlvt >? 3 then [EsrWrite] else []) ++ [EsrRead].

(** The pair of INIT interrupts, of [__wakeup_secondary_cpu_via_init] and of
    [stop_enclave]: the events and the last [send_status]. *)
Definition send_init (apicid : Z) (tr : list apic_event) : Z * list apic_event :=
  let tr := if integrated then clear_esr tr else tr in
  let tr := tr ++ [Icr (Z.lor (Z.lor APIC_INT_LEVELTRIG APIC_INT_ASSERT) APIC_DM_INIT) apicid;
                   WaitIdle; DelayUs 10000;
                   Icr (Z.lor APIC_INT_LEVELTRIG APIC_DM_INIT) apicid] in
  (icr_idle tr, tr ++ [WaitIdle]).

(** The STARTUP loop: rounds left and the two statuses. *)
Fixpoint startup_loop (n : nat) (apicid rip send_status accept_status : Z) (tr : list apic_event)
  : Z * Z * list apic_event :=
  match n with
  | O => (send_status, accept_status, tr)
  | S n =>
      let tr := clear_esr tr in
      let tr := tr ++ [Icr (Z.lor APIC_DM_STARTUP (Z.shiftr rip 12)) apicid; DelayUs 300] in
      let send_status := icr_idle tr in
      let tr := tr ++ [WaitIdle; DelayUs 200] ++ (if maxlvt >? 3 then [EsrWrite] else []) in
      let accept_status := Z.land (esr tr) 0xEF in
      let tr := tr ++ [EsrRead] in
      if negb (send_status =? 0) || negb (accept_status =? 0)
      then (send_status, accept_status, tr)
      else startup_loop n apicid rip send_status accept_status tr
  end.

Definition __wakeup_secondary_cpu_via_init (rip phys_apicid : Z) (tr : list apic_event)
  : Z * list apic_event :=
  let '(send_status, tr) := send_init phys_apicid tr in
  let num_starts := if integrated then 2%nat else 0%nat in
  let '(send_status, accept_status, tr) :=
    startup_loop num_starts phys_apicid rip send_status 0 tr in
  (Z.lor send_status accept_status, tr).

(** The loop over the enclave's processors, by their APIC ids. *)
Fixpoint stop_enclave (apicids : list Z) (tr : list apic_event) : Z * list apic_event :=
  match apicids with
  | [] => (0, tr)
  | a :: apicids => stop_enclave apicids (send_init a tr).2
  end.

(** *** [boot_enclave] *)

(** What is written through [boot_params] before the boot. *)
Record launch_args := { launch_code_esi : Z; launch_code_target_addr : Z }.
Definition set_enclave_launch_args (target_addr esi : Z) : launch_args :=
  {| launch_code_esi := esi; launch_code_target_addr := target_addr |}.

(** The wait for the enclave's flag: [n] rounds left. *)
Fixpoint wait_initialized (initialized : list apic_event → bool) (n : nat) (tr : list apic_event)
  : list apic_event :=
  match n with
  | O => tr
  | S n => if initialized tr then tr ++ [Poll]
           else wait_initialized initialized n (tr ++ [Poll; DelayUs 100000])
  end.

Section trampoline.
Context {S : Type} `{TrampolineOps S}.

Record boot_state := {
  bmem : memory;
  trampoline_lock : bool;
  tramp : S
}.

(** [pml_bytes mem]: the bytes of the top-level table.  [None]: waits for ever. *)
Definition pisces_setup_trampoline (ts : trampoline_data) (pml_bytes : memory → list byte)
    (bootmem_addr_pa bootmem_size : Z) (b : boot_state) : option (Z * boot_state) :=
  if negb (bootmem_size mod PAGE_SIZE_2MB =? 0) then Some (-1, b) else
  if trampoline_lock b then None else
  let mem := setup_pgts ts bootmem_addr_pa bootmem_size (bmem b) in
  let '(ret, t) := tr_setup (pml_bytes mem) bootmem_addr_pa (tramp b) in
  Some (ret, {| bmem := mem; trampoline_lock := negb (ret =? -1); tramp := t |}).

Definition pisces_restore_trampoline (b : boot_state) : Z * boot_state :=
  let '(ret, t) := tr_restore (tramp b) in
  (ret, {| bmem := bmem b; trampoline_lock := false; tramp := t |}).

Record boot_result := {
  ret : Z; args : launch_args; after : boot_state; events : list apic_event
}.

Definition boot_enclave (ts : trampoline_data) (pml_bytes : memory → list byte)
    (bootmem_addr_pa bootmem_size kernel_addr apicid : Z)
    (initialized : list apic_event → bool) (b : boot_state) : option boot_result :=
  let args := set_enclave_launch_args kernel_addr (Z.shiftr bootmem_addr_pa 12) in
  '(r, b) ← pisces_setup_trampoline ts pml_bytes bootmem_addr_pa bootmem_size b;
  if negb (r =? 0) then Some {| ret := -1; args := args; after := b; events := [] |} else
  let '(_, tr) := __wakeup_secondary_cpu_via_init (cpu_init_rip ts) apicid [] in
  let tr := wait_initialized initialized 15 tr in
  let up := initialized tr in
  let '(_, b) := pisces_restore_trampoline b in
  Some {| ret := if up then 0 else -1; args := args; after := b; events := tr ++ [Poll] |}.
End trampoline.
End apic.
Arguments boot_state : clear implicits.
Arguments boot_result : clear implicits.

(** ** Specification: the words of the tables *)

(** The word links to the table at [t]; the word maps the 2MB page at [b]. *)
Definition is_link (e t : Z) : Prop :=
  Z.testbit e 0 = true ∧ Z.testbit e 7 = false ∧ e / 2 ^ 12 mod 2 ^ 40 * 2 ^ 12 = t.
Definition is_page (e b : Z) : Prop :=
  Z.testbit e 0 = true ∧ Z.testbit e 7 = true ∧ e / 2 ^ 21 mod 2 ^ 31 * 2 ^ 21 = b.

(** Index of an address at a level of the walk, as [translate] takes it. *)
Definition idx (level vaddr : Z) : Z := vaddr / 2 ^ (12 + 9 * level) mod 512.

(** ** Lemmas: entries *)

Lemma translate_2MB mem root v pdp pd b :
  is_link (mem (root + 8 * idx 3 v)) pdp → is_link (mem (pdp + 8 * idx 2 v)) pd →
  is_page (mem (pd + 8 * idx 1 v)) b → translate mem root v = Some (b + v mod 2 ^ 21).
Proof.
  unfold idx. intros (H1&H2&H3) (H4&H5&H6) (H7&H8&H9).
  unfold translate. cbn [translate_from].
  change (12 + 9 * Z.of_nat 3) with 39 in *. change (12 + 9 * Z.of_nat 2) with 30 in *.
  change (12 + 9 * Z.of_nat 1) with 21 in *.
  change (12 + 9 * 3) with 39 in *. change (12 + 9 * 2) with 30 in *. change (12 + 9 * 1) with 21 in *.
  rewrite H1, H2. cbn [negb andb]. rewrite H3, H4, H5. cbn [negb andb]. rewrite H6, H7, H8.
  cbn [negb andb Z.of_nat Z.ltb Z.compare]. change (52 - 21) with 31. by rewrite H9.
Qed.

Lemma link_pml_is_link t : t mod 4096 = 0 → 0 ≤ t < 2 ^ 52 → is_link (link_pml t 0) t.
Proof.
  intros Ht Hr. unfold link_pml, set_field, PAGE_TO_BASE_ADDR.
  change (field pml4e64_t "pdp_base_addr") with (12, 40).
  change (set_bits (field pml4e64_t "writable") 1 (set_bits (field pml4e64_t "present") 1 0)) with 3.
  split_and!.
  - by rewrite set_bits_spec by lia.
  - by rewrite set_bits_spec by lia.
  - rewrite <-get_bits_div, get_set_same, Z.shiftr_div_pow2 by lia.
    rewrite Z.mod_small by (split; [apply Z.div_pos|apply Z.div_lt_upper_bound]; lia).
    pose proof (Z.div_mod t 4096). change (2 ^ 12) with 4096. lia.
Qed.

Lemma link_pdp_is_link t : t mod 4096 = 0 → 0 ≤ t < 2 ^ 52 → is_link (link_pdp t 0) t.
Proof. apply link_pml_is_link. Qed.

Lemma map_2MB_is_page b : b mod PAGE_SIZE_2MB = 0 → 0 ≤ b < 2 ^ 52 → is_page (map_2MB b 0) b.
Proof.
  intros Ht Hr. unfold map_2MB, set_field, PAGE_TO_BASE_ADDR_2MB.
  change (field pde64_2MB_t "page_base_addr") with (21, 31).
  change (set_bits (field pde64_2MB_t "large_page") 1
    (set_bits (field pde64_2MB_t "writable") 1 (set_bits (field pde64_2MB_t "present") 1 0))) with 131.
  change PAGE_SIZE_2MB with (2 ^ 21) in *.
  split_and!.
  - by rewrite set_bits_spec by lia.
  - by rewrite set_bits_spec by lia.
  - rewrite <-get_bits_div, get_set_same, Z.shiftr_div_pow2 by lia.
    rewrite Z.mod_small by (split; [apply Z.div_pos|apply Z.div_lt_upper_bound]; lia).
    pose proof (Z.div_mod b (2 ^ 21)). lia.
Qed.

Lemma is_link_page_addr e t :
  is_link e t →
  BASE_TO_PAGE_ADDR (get_field pml4e64_t "pdp_base_addr" e) = t ∧
  BASE_TO_PAGE_ADDR (get_field pdpe64_t "pd_base_addr" e) = t.
Proof.
  intros (_&_&<-). unfold BASE_TO_PAGE_ADDR, get_field.
  change (field pml4e64_t "pdp_base_addr") with (12, 40).
  change (field pdpe64_t "pd_base_addr") with (12, 40). by rewrite base_to_page by lia.
Qed.

(** The two structures' base fields, and every present bit, are at the same place. *)
Lemma present_bit e :
  (get_field pml4e64_t "present" e =? 0) = negb (Z.testbit e 0) ∧
  (get_field pdpe64_t "present" e =? 0) = negb (Z.testbit e 0) ∧
  (get_field pde64_2MB_t "present" e =? 0) = negb (Z.testbit e 0).
Proof. unfold get_field. by split_and!; apply bit_field_zero. Qed.

Lemma update_eq mem a f : update mem a f a = f (mem a).
Proof. unfold update, store. by rewrite Z.eqb_refl. Qed.
Lemma update_ne mem a f b : b ≠ a → update mem a f b = mem b.
Proof. intros. unfold update, store. by destruct (Z.eqb_spec b a). Qed.

(** ** Lemmas: filling the tables *)

(** The later memory keeps every present word of the earlier one: how the code's
    [if (!entry->present)] changes memory. *)
Definition keeps (mem mem' : memory) : Prop := ∀ a, Z.testbit (mem a) 0 = true → mem' a = mem a.

#[export] Instance keeps_preorder : PreOrder keeps.
Proof.
  split; [by intros ? ?|].
  intros m1 m2 m3 H1 H2 a Ha. rewrite H2; [by apply H1|]. by rewrite H1.
Qed.

Lemma if_absent_keeps mem a pr f :
  (∀ e, (pr e =? 0) = negb (Z.testbit e 0)) → keeps mem (if_absent mem a pr f).
Proof.
  intros Hpr b Hb. unfold if_absent. rewrite Hpr.
  destruct (Z.testbit (mem a) 0) eqn:Ha; cbn [negb]; [done|].
  apply update_ne. congruence.
Qed.

Lemma if_absent_ne mem a b pr f : b ≠ a → if_absent mem a pr f b = mem b.
Proof. intros. unfold if_absent. case_test; [by apply update_ne|done]. Qed.

(** A table entry that is empty gets the new table; one that links stays. *)
Lemma if_absent_link mem a pr f t t' :
  (∀ e, (pr e =? 0) = negb (Z.testbit e 0)) → is_link (f 0) t' →
  (mem a = 0 ∧ t = t') ∨ is_link (mem a) t → is_link (if_absent mem a pr f a) t.
Proof.
  intros Hpr Hf [[Ha ->]|Ha]; unfold if_absent; rewrite Hpr.
  - rewrite Ha. simpl. by rewrite update_eq, Ha.
  - by rewrite (proj1 Ha).
Qed.

Lemma pde_index_succ virt :
  fits 64 (virt + PAGE_SIZE_2MB) → 0 ≤ virt → PDE64_INDEX virt + 1 < 512 →
  PDE64_INDEX (u64 (virt + PAGE_SIZE_2MB)) = PDE64_INDEX virt + 1.
Proof.
  intros Hf Hv Hi.
  assert (fits 64 virt) by (unfold fits, PAGE_SIZE_2MB in *; lia).
  rewrite wrap_small by done. unfold PDE64_INDEX in *. rewrite !index_div in * by (done || lia).
  unfold PAGE_SIZE_2MB. change (4096 * 512) with (1 * 2 ^ 21). rewrite Z.div_add by lia.
  pose proof (Z.div_mod (virt / 2 ^ 21) 512). pose proof (Z.mod_pos_bound (virt / 2 ^ 21) 512).
  rewrite (Z.mod_eq (_ + 1)) by lia.
  assert ((virt / 2 ^ 21 + 1) / 512 = virt / 2 ^ 21 / 512) as ->; [|lia].
  symmetry. apply (Z.div_unique _ _ _ (virt / 2 ^ 21 mod 512 + 1)); lia.
Qed.

Lemma map_pages_keeps n pd virt phys mem : keeps mem (map_pages n pd virt phys mem).
Proof.
  revert virt phys mem. induction n as [|n IH]; intros virt phys mem; [reflexivity|].
  simpl. etrans; [|apply IH]. apply if_absent_keeps. intros e. apply present_bit.
Qed.

Lemma map_pages_outside n pd virt phys mem a :
  0 ≤ virt → virt + Z.of_nat n * PAGE_SIZE_2MB ≤ 2 ^ 64 - 1 → PDE64_INDEX virt + Z.of_nat n ≤ 512 →
  (∀ i, 0 ≤ i < Z.of_nat n → a ≠ pd + 8 * (PDE64_INDEX virt + i)) →
  map_pages n pd virt phys mem a = mem a.
Proof.
  revert virt phys mem. induction n as [|n IH]; intros virt phys mem Hv Hn Hi Ha; [done|].
  assert (fits 64 (virt + PAGE_SIZE_2MB)) as Hf by (unfold fits, PAGE_SIZE_2MB in *; lia).
  simpl. destruct (decide (n = 0%nat)) as [->|].
  - simpl. apply if_absent_ne. specialize (Ha 0). lia.
  - pose proof (pde_index_succ virt Hf Hv ltac:(lia)) as Hs.
    rewrite IH.
    + apply if_absent_ne. specialize (Ha 0). lia.
    + apply wrap_fits. lia.
    + rewrite (wrap_small 64) by done. lia.
    + lia.
    + intros i Hr. rewrite Hs. specialize (Ha (i + 1)). lia.
Qed.

(** Page [i] of the region is mapped, unless its entry already held it. *)
Lemma map_pages_maps n pd virt phys mem i :
  0 ≤ virt → virt + Z.of_nat n * PAGE_SIZE_2MB ≤ 2 ^ 64 - 1 → PDE64_INDEX virt + Z.of_nat n ≤ 512 →
  0 ≤ phys → phys + Z.of_nat n * PAGE_SIZE_2MB ≤ 2 ^ 52 → phys mod PAGE_SIZE_2MB = 0 →
  0 ≤ i < Z.of_nat n →
  let a := pd + 8 * (PDE64_INDEX virt + i) in let b := phys + i * PAGE_SIZE_2MB in
  mem a = 0 ∨ is_page (mem a) b → is_page (map_pages n pd virt phys mem a) b.
Proof.
  intros Hv Hn Hx Hp Hn' Hm Hi. simpl.
  revert virt phys mem i Hv Hn Hx Hp Hn' Hm Hi.
  induction n as [|n IH]; intros virt phys mem i Hv Hn Hx Hp Hn' Hm Hi Hw; [lia|].
  assert (fits 64 (virt + PAGE_SIZE_2MB)) as Hf by (unfold fits, PAGE_SIZE_2MB in *; lia).
  assert (fits 64 (phys + PAGE_SIZE_2MB)) as Hf' by (unfold fits, PAGE_SIZE_2MB in *; lia).
  simpl. destruct (decide (i = 0)) as [->|Hi0].
  - match goal with |- is_page (map_pages _ _ _ _ ?m _) _ =>
      assert (is_page (m (pd + 8 * (PDE64_INDEX virt + 0))) (phys + 0 * PAGE_SIZE_2MB)) as Hpg end.
    { replace (phys + 0 * PAGE_SIZE_2MB) with phys in * by lia.
      rewrite Z.add_0_r in *. unfold if_absent. rewrite (proj2 (proj2 (present_bit _))).
      destruct Hw as [Hw|Hw].
      + rewrite Hw. simpl. rewrite update_eq, Hw. apply map_2MB_is_page; [done|].
        unfold PAGE_SIZE_2MB in *. lia.
      + by rewrite (proj1 Hw). }
    by rewrite map_pages_keeps by apply Hpg.
  - pose proof (pde_index_succ virt Hf Hv ltac:(lia)) as Hs.
    replace (pd + 8 * (PDE64_INDEX virt + i))
      with (pd + 8 * (PDE64_INDEX (u64 (virt + PAGE_SIZE_2MB)) + (i - 1))) in * by lia.
    replace (phys + i * PAGE_SIZE_2MB)
      with (u64 (phys + PAGE_SIZE_2MB) + (i - 1) * PAGE_SIZE_2MB) in *
      by (rewrite (wrap_small 64 (phys + _)) by done; lia).
    apply IH; try lia.
    + apply wrap_fits. lia.
    + rewrite (wrap_small 64) by done. lia.
    + apply wrap_fits. lia.
    + rewrite (wrap_small 64) by done. lia.
    + rewrite (wrap_small 64) by done. unfold PAGE_SIZE_2MB in *.
      replace (phys + 4096 * 512) with (phys + 1 * (4096 * 512)) by lia. by rewrite Z.mod_add by lia.
    + rewrite if_absent_ne; [done|]. lia.
Qed.

(** One block of [pisces_setup_trampoline]: given the tables [pdp] and [pd] the
    walk will use (the fresh ones where an entry is empty), it leaves the links
    in place, maps every page of the region whose entry was empty or already
    right, keeps every present word, and writes nowhere else. *)
Lemma map_region_spec ts virt phys size P D pdp pd mem n :
  let A1 := pml_pa ts + 8 * PML4E64_INDEX virt in
  let A2 := pdp + 8 * PDPE64_INDEX virt in
  let mem' := map_region ts virt phys size P D mem in
  n = Z.min (size / PAGE_SIZE_2MB) (512 - PDE64_INDEX virt) →
  0 ≤ size / PAGE_SIZE_2MB < 2 ^ 32 → 0 ≤ PDE64_INDEX virt < 512 →
  P mod 4096 = 0 → 0 ≤ P < 2 ^ 52 → D mod 4096 = 0 → 0 ≤ D < 2 ^ 52 →
  0 ≤ virt → virt + n * PAGE_SIZE_2MB ≤ 2 ^ 64 - 1 →
  0 ≤ phys → phys + n * PAGE_SIZE_2MB ≤ 2 ^ 52 → phys mod PAGE_SIZE_2MB = 0 →
  (mem A1 = 0 ∧ pdp = P) ∨ is_link (mem A1) pdp →
  (mem A2 = 0 ∧ pd = D) ∨ is_link (mem A2) pd →
  A1 ≠ A2 → (∀ j, 0 ≤ j < 512 → pd + 8 * j ≠ A1 ∧ pd + 8 * j ≠ A2) →
  is_link (mem' A1) pdp ∧ is_link (mem' A2) pd ∧ keeps mem mem' ∧
  (∀ i, 0 ≤ i < n → let a := pd + 8 * (PDE64_INDEX virt + i) in
     let b := phys + i * PAGE_SIZE_2MB in
     mem a = 0 ∨ is_page (mem a) b → is_page (mem' a) b) ∧
  (∀ a, a ≠ A1 → a ≠ A2 → (∀ i, 0 ≤ i < n → a ≠ pd + 8 * (PDE64_INDEX virt + i)) →
     mem' a = mem a).
Proof.
  intros A1 A2 mem' Hn Hs Hx HP HP' HD HD' Hv Hv' Hp Hp' Hm H1 H2 H12 Hpd.
  assert (n = Z.of_nat (Z.to_nat n)) as Hnn by (unfold PAGE_SIZE_2MB in *; lia).
  set (m1 := if_absent mem A1 (get_field pml4e64_t "present") (link_pml P)).
  assert (is_link (m1 A1) pdp) as L1.
  { apply (if_absent_link _ _ _ _ _ P); [apply present_bit|by apply link_pml_is_link|done]. }
  set (m2 := if_absent m1 A2 (get_field pdpe64_t "present") (link_pdp D)).
  assert (is_link (m2 A2) pd) as L2.
  { apply (if_absent_link _ _ _ _ _ D); [apply present_bit|by apply link_pdp_is_link|].
    unfold m1. by rewrite if_absent_ne by congruence. }
  assert (keeps mem m2) as K.
  { etrans; apply if_absent_keeps; apply present_bit. }
  assert (mem' = map_pages (Z.to_nat n) pd virt phys m2) as Hmem'.
  { unfold mem', map_region. fold A1. fold m1.
    rewrite (proj1 (is_link_page_addr _ _ L1)). fold A2. fold m2.
    rewrite (proj2 (is_link_page_addr _ _ L2)). f_equal. f_equal.
    rewrite (wrap_small 32) by done. change MAX_PDE64_ENTRIES with 512.
    rewrite Z.gtb_ltb. case_test; lia. }
  assert (keeps m2 mem') as K2 by (rewrite Hmem'; apply map_pages_keeps).
  assert (is_link (m2 A1) pdp) as L1' by (unfold m2; by rewrite if_absent_ne by congruence).
  split_and!.
  - rewrite K2; [done|apply L1'].
  - rewrite K2; [done|apply L2].
  - by etrans.
  - intros i Hi a b Ha. rewrite Hmem'. apply map_pages_maps; try (rewrite <-?Hnn; lia); try done.
    assert (m2 a = mem a) as Hma.
    { specialize (Hpd (PDE64_INDEX virt + i) ltac:(lia)).
      unfold m2, m1. rewrite !if_absent_ne; [done|fold a in Hpd; tauto..]. }
    fold a b. by rewrite Hma.
  - intros a Ha1 Ha2 Ha. rewrite Hmem', map_pages_outside; try (rewrite <-?Hnn; lia).
    + unfold m2, m1. by rewrite !if_absent_ne.
    + intros i Hi. apply Ha. lia.
Qed.

(** ** Lemmas: the addresses of a region *)

Lemma index_idx v :
  fits 64 v →
  PML4E64_INDEX v = idx 3 v ∧ PDPE64_INDEX v = idx 2 v ∧ PDE64_INDEX v = idx 1 v.
Proof.
  intros. unfold PML4E64_INDEX, PDPE64_INDEX, PDE64_INDEX, idx. by rewrite !index_div by (done || lia).
Qed.

Lemma idx_range l v : 0 ≤ idx l v < 512.
Proof. unfold idx. by apply Z.mod_pos_bound. Qed.

(** Addresses of a 2MB-aligned region that stays in its gigabyte differ in the
    page directory index only. *)
Lemma idx_offset v off :
  0 ≤ v → v mod PAGE_SIZE_2MB = 0 → 0 ≤ off → v mod PAGE_SIZE_1GB + off < PAGE_SIZE_1GB →
  idx 3 (v + off) = idx 3 v ∧ idx 2 (v + off) = idx 2 v ∧
  idx 1 (v + off) = idx 1 v + off / PAGE_SIZE_2MB ∧ (v + off) mod 2 ^ 21 = off mod PAGE_SIZE_2MB.
Proof.
  unfold idx, PAGE_SIZE_2MB, PAGE_SIZE_1GB. intros Hv Hm Hoff Hr.
  change (12 + 9 * 3) with (30 + 9). change (12 + 9 * 2) with 30. change (12 + 9 * 1) with 21.
  change 0x40000000 with (2 ^ 30) in Hr. change (4096 * 512) with (2 ^ 21) in *.
  assert ((v + off) / 2 ^ 30 = v / 2 ^ 30) as H30.
  { pose proof (Z.div_mod v (2 ^ 30)). symmetry.
    apply (Z.div_unique _ _ _ (v mod 2 ^ 30 + off)); [|lia].
    pose proof (Z.mod_pos_bound v (2 ^ 30)). lia. }
  assert (v = 2 ^ 21 * (v / 2 ^ 21)) as Hv21 by (pose proof (Z.div_mod v (2 ^ 21)); lia).
  assert ((v + off) / 2 ^ 21 = v / 2 ^ 21 + off / 2 ^ 21) as H21.
  { replace (v + off) with (off + v / 2 ^ 21 * 2 ^ 21) by lia. rewrite Z.div_add by lia. lia. }
  rewrite Z.pow_add_r, <-!Z.div_div, H30, H21 by lia.
  split_and!; [done|done| |].
  - assert (v mod 2 ^ 30 = 2 ^ 21 * (v / 2 ^ 21 mod 512)) as Hvm.
    { rewrite Hv21 at 1. change (2 ^ 30) with (2 ^ 21 * 512). by rewrite Z.mul_mod_distr_l by lia. }
    assert (off / 2 ^ 21 < 512 - v / 2 ^ 21 mod 512) by (apply Z.div_lt_upper_bound; lia).
    pose proof (Z.div_pos off (2 ^ 21)). pose proof (Z.mod_pos_bound (v / 2 ^ 21) 512).
    rewrite <-Zplus_mod_idemp_l. apply Z.mod_small. lia.
  - replace (v + off) with (off + v / 2 ^ 21 * 2 ^ 21) by lia. by apply Z.mod_add.
Qed.

Lemma clear_tables p mem a :
  clear_page (clear_page (clear_page (clear_page (clear_page (clear_page (clear_page mem p)
    (p + 1 * PAGE_SIZE)) (p + 2 * PAGE_SIZE)) (p + 3 * PAGE_SIZE)) (p + 4 * PAGE_SIZE))
    (p + 5 * PAGE_SIZE)) (p + 6 * PAGE_SIZE) a =
  if (p <=? a) && (a <? p + 7 * PAGE_SIZE) then 0 else mem a.
Proof.
  unfold clear_page, PAGE_SIZE.
  repeat match goal with
  | |- context [Z.leb ?x ?y] => destruct (Z.leb_spec x y); try lia; cbn [andb]
  | |- context [Z.ltb ?x ?y] => destruct (Z.ltb_spec x y); try lia; cbn [andb]
  end; done.
Qed.

(** The tables after [init_trampoline_pgts]. *)
Lemma init_trampoline_pgts_spec p rip mem :
  p mod 4096 = 0 → 0 < p → p + 7 * PAGE_SIZE ≤ 2 ^ 52 →
  let mem' := init_trampoline_pgts (tables_at p rip) mem in
  is_link (mem' p) (p + 1 * PAGE_SIZE) ∧ is_link (mem' (p + 1 * PAGE_SIZE)) (p + 4 * PAGE_SIZE) ∧
  is_page (mem' (p + 4 * PAGE_SIZE)) 0 ∧
  (∀ a, p ≤ a < p + 7 * PAGE_SIZE → a ≠ p → a ≠ p + 1 * PAGE_SIZE → a ≠ p + 4 * PAGE_SIZE →
     mem' a = 0) ∧
  (∀ a, a < p ∨ p + 7 * PAGE_SIZE ≤ a → mem' a = mem a).
Proof.
  intros Hp Hp0 Hp2 mem'. unfold PAGE_SIZE in *.
  set (zero := λ a, (p <=? a) && (a <? p + 7 * 4096)).
  assert (∀ a, mem' a = if a =? p + 4 * 4096 then map_2MB 0 0 else if a =? p + 1 * 4096
     then link_pdp (p + 4 * 4096) 0 else if a =? p then link_pml (p + 1 * 4096) 0
     else if zero a then 0 else mem a) as Hmem.
  { intros a. unfold mem', init_trampoline_pgts, tables_at, update, store.
    cbn [pml_pa pdp0_pa pdp1_pa pdp2_pa pd0_pa pd1_pa pd2_pa]. rewrite !Z.add_0_r.
    rewrite !clear_tables. unfold PAGE_SIZE. fold (zero p) (zero a).
    fold (zero (p + 1 * 4096)) (zero (p + 4 * 4096)).
    assert (zero p = true ∧ zero (p + 1 * 4096) = true ∧ zero (p + 4 * 4096) = true) as (->&->&->).
    { unfold zero. split_and!; apply andb_true_intro; split; apply Z.leb_le || apply Z.ltb_lt; lia. }
    repeat match goal with
    | |- context [Z.eqb ?x ?y] => destruct (Z.eqb_spec x y); try lia
    end; done. }
  assert (∀ k, 0 ≤ k < 7 → (p + k * 4096) mod 4096 = 0) as Hk.
  { intros. by rewrite Z.mod_add by lia. }
  rewrite !Hmem. unfold zero. split_and!.
  - repeat case_test; try lia. apply link_pml_is_link; [by apply Hk|lia].
  - repeat case_test; try lia. apply link_pdp_is_link; [by apply Hk|lia].
  - repeat case_test; try lia. by apply map_2MB_is_page.
  - intros a ????. rewrite Hmem. unfold zero. 
    destruct (Z.leb_spec p a), (Z.ltb_spec a (p + 7 * 4096)); try lia. repeat case_test; try lia.
  - intros a Ha. rewrite Hmem. unfold zero.
    destruct (Z.leb_spec p a), (Z.ltb_spec a (p + 7 * 4096)); try lia; repeat case_test; try lia; done.
Qed.

Lemma region_translates mem p virt phys pdp pd off :
  0 ≤ virt → virt mod PAGE_SIZE_2MB = 0 → 0 ≤ off →
  virt mod PAGE_SIZE_1GB + off < PAGE_SIZE_1GB →
  is_link (mem (p + 8 * idx 3 virt)) pdp → is_link (mem (pdp + 8 * idx 2 virt)) pd →
  is_page (mem (pd + 8 * (idx 1 virt + off / PAGE_SIZE_2MB)))
    (phys + off / PAGE_SIZE_2MB * PAGE_SIZE_2MB) →
  translate mem p (virt + off) = Some (phys + off).
Proof.
  intros Hv Hm Hoff Hr H1 H2 H3.
  destruct (idx_offset virt off Hv Hm Hoff Hr) as (E3&E2&E1&E0).
  rewrite (translate_2MB mem p (virt + off) pdp pd (phys + off / PAGE_SIZE_2MB * PAGE_SIZE_2MB));
    rewrite ?E3, ?E2, ?E1; try done.
  rewrite E0. f_equal. pose proof (Z.div_mod off PAGE_SIZE_2MB ltac:(done)). lia.
Qed.

(** The page of [off] is one of those the code maps. *)
Lemma region_page virt size off :
  0 ≤ virt → virt mod PAGE_SIZE_2MB = 0 → size mod PAGE_SIZE_2MB = 0 → 0 ≤ off < size →
  virt mod PAGE_SIZE_1GB + off < PAGE_SIZE_1GB →
  0 ≤ off / PAGE_SIZE_2MB < Z.min (size / PAGE_SIZE_2MB) (512 - idx 1 virt).
Proof.
  intros Hv Hm Hs Hoff Hr.
  destruct (idx_offset virt off) as (_&_&E1&_); [done..|lia|done|].
  pose proof (idx_range 1 (virt + off)). unfold PAGE_SIZE_2MB in *.
  pose proof (Z.div_pos off (4096 * 512)). pose proof (Z.div_mod size (4096 * 512)).
  assert (off / (4096 * 512) < size / (4096 * 512)) by (apply Z.div_lt_upper_bound; lia). lia.
Qed.

Lemma idx_low v : 0 ≤ v < PAGE_SIZE_2MB → idx 3 v = 0 ∧ idx 2 v = 0 ∧ idx 1 v = 0.
Proof. unfold idx, PAGE_SIZE_2MB. intros. by rewrite !Z.div_small by lia. Qed.

Lemma idx3_user v : 0 ≤ v < 2 ^ 47 → idx 3 v < 256.
Proof.
  unfold idx. intros. change (12 + 9 * 3) with 39.
  assert (v / 2 ^ 39 < 256) by (apply Z.div_lt_upper_bound; lia).
  pose proof (Z.div_pos v (2 ^ 39)). rewrite Z.mod_small; lia.
Qed.

Lemma idx_zero v :
  0 ≤ v < 2 ^ 47 → v mod PAGE_SIZE_2MB = 0 → idx 3 v = 0 → idx 2 v = 0 → idx 1 v = 0 → v = 0.
Proof.
  unfold idx, PAGE_SIZE_2MB. intros Hv Hm H3 H2 H1.
  change (12 + 9 * 3) with (21 + 9 + 9) in H3. change (12 + 9 * 2) with (21 + 9) in H2.
  change (12 + 9 * 1) with 21 in H1. change (4096 * 512) with (2 ^ 21) in Hm.
  rewrite !Z.pow_add_r, <-!Z.div_div in H3 by lia. rewrite Z.pow_add_r, <-Z.div_div in H2 by lia.
  set (w := v / 2 ^ 21) in *.
  assert (0 ≤ w < 2 ^ 26) as Hw.
  { unfold w. split; [apply Z.div_pos; lia|apply Z.div_lt_upper_bound; lia]. }
  pose proof (Z.div_mod v (2 ^ 21)). change (2 ^ 9) with 512 in *.
  pose proof (Z.div_mod w 512). pose proof (Z.div_mod (w / 512) 512).
  assert (0 ≤ w / 512 / 512 < 512) as Hs.
  { rewrite Z.div_div by lia. split; [apply Z.div_pos|apply Z.div_lt_upper_bound]; lia. }
  rewrite Z.mod_small in H3 by lia. lia.
Qed.

(** The tables after the first block: the low 2MB and the enclave's memory are
    mapped to themselves, nothing hangs on the kernel's PML entry, and the last
    two tables are still empty. *)
Lemma identity_region_spec p rip pa size mem :
  p mod 4096 = 0 → 0 < p → p + 7 * PAGE_SIZE ≤ 2 ^ 52 →
  0 ≤ pa → pa + size ≤ 2 ^ 47 → 0 < size → pa mod PAGE_SIZE_2MB = 0 →
  size mod PAGE_SIZE_2MB = 0 →
  let ts := tables_at p rip in
  let m1 := map_region ts pa pa size (pdp1_pa ts) (pd1_pa ts) (init_trampoline_pgts ts mem) in
  (is_link (m1 p) (p + 1 * PAGE_SIZE) ∧ is_link (m1 (p + 1 * PAGE_SIZE)) (p + 4 * PAGE_SIZE) ∧
   is_page (m1 (p + 4 * PAGE_SIZE)) 0) ∧
  (∀ off, 0 ≤ off < size → pa mod PAGE_SIZE_1GB + off < PAGE_SIZE_1GB → ∃ pdp pd,
     is_link (m1 (p + 8 * idx 3 pa)) pdp ∧ is_link (m1 (pdp + 8 * idx 2 pa)) pd ∧
     is_page (m1 (pd + 8 * (idx 1 pa + off / PAGE_SIZE_2MB)))
       (pa + off / PAGE_SIZE_2MB * PAGE_SIZE_2MB)) ∧
  (∀ i, 256 ≤ i < 512 → m1 (p + 8 * i) = 0) ∧
  (∀ a, p + 3 * PAGE_SIZE ≤ a < p + 4 * PAGE_SIZE ∨ p + 6 * PAGE_SIZE ≤ a < p + 7 * PAGE_SIZE →
     m1 a = 0) ∧
  (∀ a, a < p ∨ p + 7 * PAGE_SIZE ≤ a → m1 a = mem a).
Proof.
  intros Hp Hp0 Hp2 Hpa Hend Hsz Hpam Hszm ts m1.
  destruct (init_trampoline_pgts_spec p rip mem Hp Hp0 Hp2) as (L0&L1&L2&Z0&F0).
  fold ts in L0, L1, L2, Z0, F0. set (m0 := init_trampoline_pgts ts mem) in *.
  assert (fits 64 pa) as Hfp by (unfold fits; lia).
  destruct (index_idx pa Hfp) as (I3&I2&I1).
  pose proof (idx_range 3 pa). pose proof (idx_range 2 pa). pose proof (idx_range 1 pa).
  pose proof (idx3_user pa ltac:(lia)) as Hu. unfold PAGE_SIZE in *.
  set (pdp := if idx 3 pa =? 0 then p + 1 * 4096 else p + 2 * 4096).
  set (pd := if (idx 3 pa =? 0) && (idx 2 pa =? 0) then p + 4 * 4096 else p + 5 * 4096).
  assert (∀ k, 0 ≤ k < 7 → (p + k * 4096) mod 4096 = 0) as Hk.
  { intros. by rewrite Z.mod_add by lia. }
  set (n := Z.min (size / PAGE_SIZE_2MB) (512 - PDE64_INDEX pa)).
  assert (0 ≤ size / PAGE_SIZE_2MB < 2 ^ 32) as Hs32.
  { unfold PAGE_SIZE_2MB. split; [apply Z.div_pos; lia|apply Z.div_lt_upper_bound; lia]. }
  assert (n * PAGE_SIZE_2MB ≤ size) as Hn.
  { unfold n, PAGE_SIZE_2MB in *. pose proof (Z.div_mod size (4096 * 512)). lia. }
  assert (pdp ≠ p ∧ (idx 3 pa = 0 → pdp = p + 1 * 4096) ∧ (idx 3 pa ≠ 0 → pdp = p + 2 * 4096)) as Hpdp.
  { unfold pdp. case_test; lia. }
  assert ((idx 3 pa = 0 → idx 2 pa = 0 → pd = p + 4 * 4096) ∧
          (idx 3 pa ≠ 0 ∨ idx 2 pa ≠ 0 → pd = p + 5 * 4096)) as Hpd.
  { unfold pd. destruct (Z.eqb_spec (idx 3 pa) 0), (Z.eqb_spec (idx 2 pa) 0); simpl; lia. }
  destruct (map_region_spec ts pa pa size (pdp1_pa ts) (pd1_pa ts) pdp pd m0 n)
    as (R1&R2&RK&RP&RF).
  all: rewrite ?I1, ?I2, ?I3 in *; unfold ts in *; cbn [pml_pa pdp1_pa pd1_pa tables_at] in *.
  all: unfold PAGE_SIZE in *; try done; try lia.
  all: try (apply Hk; lia).
  - destruct (Z.eq_dec (idx 3 pa) 0) as [E|E].
    + right. rewrite E, Z.add_0_r. by rewrite (proj1 (proj2 Hpdp) E).
    + left. split; [apply Z0|]; lia.
  - destruct (Z.eq_dec (idx 3 pa) 0) as [E|E], (Z.eq_dec (idx 2 pa) 0) as [E'|E'];
      [right|left; split; [apply Z0|]; lia..].
    rewrite E', Z.add_0_r, (proj1 Hpd E E'), (proj1 (proj2 Hpdp) E). done.
  - fold m1 in R1, R2, RK, RP, RF. split_and!.
    + rewrite RK; [done|apply L0].
    + rewrite RK; [done|apply L1].
    + rewrite RK; [done|apply L2].
    + intros off Hoff Hr. exists pdp, pd. split_and!; [done|done|].
      pose proof (region_page pa size off Hpa Hpam Hszm Hoff Hr) as Hpg.
      apply RP; [unfold n; by rewrite I1|].
      destruct (decide (pd + 8 * (idx 1 pa + off / PAGE_SIZE_2MB) = p + 4 * 4096)) as [E|E];
        [right|left; apply Z0; lia].
      rewrite E. replace (pa + _) with 0; [done|].
      assert (off / PAGE_SIZE_2MB = 0) as -> by lia.
      rewrite (idx_zero pa); [done|lia|done|lia..].
    + intros i Hi. rewrite RF by lia. apply Z0; lia.
    + intros a Ha. rewrite RF by lia. apply Z0; lia.
    + intros a Ha. rewrite RF by lia. by apply F0.
Qed.

(** ** Properties: the trampoline's page tables *)

(** C6: For every previous contents of memory, page-aligned trampoline pages and
    2MB-aligned boot memory of a positive whole number of 2MB pages, the tables
    [pisces_setup_trampoline] builds translate the first 2MB to themselves, every
    address of the boot memory in its first gigabyte-aligned window to itself,
    and every offset of up to 1GB from the kernel's virtual base to that offset
    in the boot memory (whether the identity mapping got tables of its own or
    shares those of the low 2MB).  Nothing outside of the seven pages is
    written. *)
Theorem trampoline_tables (mem : memory) (p rip pa size : Z)
    (Hp : p mod 4096 = 0) (Hp0 : 0 < p) (Hp2 : p + 7 * PAGE_SIZE ≤ 2 ^ 52)
    (Hpa : 0 ≤ pa) (Hend : pa + size ≤ 2 ^ 47) (Hsz : 0 < size)
    (Hpam : pa mod PAGE_SIZE_2MB = 0) (Hszm : size mod PAGE_SIZE_2MB = 0) :
  let mem' := setup_pgts (tables_at p rip) pa size mem in
  (∀ a, 0 ≤ a < PAGE_SIZE_2MB → translate mem' p a = Some a) ∧
  (∀ off, 0 ≤ off < size → pa mod PAGE_SIZE_1GB + off < PAGE_SIZE_1GB →
     translate mem' p (pa + off) = Some (pa + off)) ∧
  (∀ off, 0 ≤ off < size → off < PAGE_SIZE_1GB →
     translate mem' p (KERN_VA_BASE + off) = Some (pa + off)) ∧
  (∀ a, a < p ∨ p + 7 * PAGE_SIZE ≤ a → mem' a = mem a).
Proof.
  intros mem'. destruct (identity_region_spec p rip pa size mem) as ((L0&L1&L2)&RP&Z1&Z2&F1); try done.
  unfold mem', setup_pgts. set (ts := tables_at p rip) in *.
  set (m1 := map_region ts pa pa size (pdp1_pa ts) (pd1_pa ts) (init_trampoline_pgts ts mem)) in *.
  assert (∀ k, 0 ≤ k < 7 → (p + k * 4096) mod 4096 = 0) as Hk.
  { intros. by rewrite Z.mod_add by lia. }
  set (n := Z.min (size / PAGE_SIZE_2MB) 512).
  assert (0 ≤ size / PAGE_SIZE_2MB < 2 ^ 32) as Hs32.
  { unfold PAGE_SIZE_2MB. split; [apply Z.div_pos; lia|apply Z.div_lt_upper_bound; lia]. }
  assert (n * PAGE_SIZE_2MB ≤ size) as Hn.
  { unfold n, PAGE_SIZE_2MB in *. pose proof (Z.div_mod size (4096 * 512)). lia. }
  destruct (map_region_spec ts KERN_VA_BASE pa size (pdp2_pa ts) (pd2_pa ts)
    (p + 3 * PAGE_SIZE) (p + 6 * PAGE_SIZE) m1 n) as (R1&R2&RK&RM&RF).
  all: change (PML4E64_INDEX KERN_VA_BASE) with 511 in *;
       change (PDPE64_INDEX KERN_VA_BASE) with 510 in *;
       change (PDE64_INDEX KERN_VA_BASE) with 0 in *.
  all: unfold ts in *; cbn [pml_pa pdp2_pa pd2_pa tables_at] in *; fold m1; unfold PAGE_SIZE in *.
  all: try done; try lia; try (apply Hk; lia).
  - unfold KERN_VA_BASE, n, PAGE_SIZE_2MB. lia.
  - left. split; [apply Z1; lia|done].
  - left. split; [apply Z2; lia|done].
  - set (m2 := map_region _ KERN_VA_BASE _ _ _ _ m1) in *. split_and!.
    + intros a Ha. destruct (idx_low a Ha) as (I3&I2&I1).
      rewrite (translate_2MB m2 p a (p + 1 * 4096) (p + 4 * 4096) 0);
        rewrite ?I3, ?I2, ?I1, ?Z.add_0_r; [|rewrite RK; apply L0 || apply L1 || apply L2..].
      by rewrite Z.mod_small by exact Ha.
    + intros off Hoff Hr. destruct (RP off Hoff Hr) as (pdp&pd&Q1&Q2&Q3).
      apply (region_translates m2 p pa pa pdp pd off); [done..|lia|done| | |].
      all: rewrite RK; apply Q1 || apply Q2 || apply Q3.
    + intros off Hoff Hr.
      apply (region_translates m2 p KERN_VA_BASE pa (p + 3 * 4096) (p + 6 * 4096) off); try done; [lia|].
      apply RM; [|left; apply Z2].
      * pose proof (region_page 0 size off) as Hpg. change (512 - idx 1 0) with 512 in Hpg.
        unfold n. apply Hpg; done || lia.
      * assert (off / PAGE_SIZE_2MB < 512) by (unfold PAGE_SIZE_1GB, PAGE_SIZE_2MB in *;
          apply Z.div_lt_upper_bound; lia).
        assert (0 ≤ off / PAGE_SIZE_2MB) by (apply Z.div_pos; unfold PAGE_SIZE_2MB; lia). lia.
    + intros a Ha. rewrite RF; [by apply F1|lia|lia|]. intros i Hi. unfold n in Hi. lia.
Qed.

(** 4MB at 256MB: the identity mapping shares the tables of the low 2MB. *)
Lemma trampoline_tables_witness :
  let mem' := setup_pgts (tables_at 65536 65536) 0x10000000 0x400000 (λ a, a) in
  (∀ a, 0 ≤ a < PAGE_SIZE_2MB → translate mem' 65536 a = Some a) ∧
  (∀ off, 0 ≤ off < 0x400000 → 0x10000000 mod PAGE_SIZE_1GB + off < PAGE_SIZE_1GB →
     translate mem' 65536 (0x10000000 + off) = Some (0x10000000 + off)) ∧
  (∀ off, 0 ≤ off < 0x400000 → off < PAGE_SIZE_1GB →
     translate mem' 65536 (KERN_VA_BASE + off) = Some (0x10000000 + off)) ∧
  (∀ a, a < 65536 ∨ 65536 + 7 * PAGE_SIZE ≤ a → mem' a = a).
Proof.
  apply (trampoline_tables (λ a, a) 65536 65536 0x10000000 0x400000); unfold PAGE_SIZE; done || lia.
Defined.

(** ** Lemmas: the interrupts sent *)

Definition icr_of (e : apic_event) : option (Z * Z) :=
  match e with Icr v a => Some (v, a) | _ => None end.

(** The interrupts of a trace, and its looks at the flag. *)
Definition icrs (tr : list apic_event) : list (Z * Z) := omap icr_of tr.
Fixpoint polls (tr : list apic_event) : nat :=
  match tr with [] => 0 | Poll :: tr => S (polls tr) | _ :: tr => polls tr end.

Definition init_pair (apicid : Z) : list (Z * Z) := [(0xC500, apicid); (0x8500, apicid)].

Lemma icrs_app t1 t2 : icrs (t1 ++ t2) = icrs t1 ++ icrs t2.
Proof. apply omap_app. Qed.
Lemma polls_app t1 t2 : polls (t1 ++ t2) = (polls t1 + polls t2)%nat.
Proof. induction t1 as [|[] t1 IH]; simpl; congruence. Qed.

Section interrupts.
Context (maxlvt : Z) (integrated : bool) (esr icr_idle : list apic_event → Z).

Lemma clear_esr_icrs tr : icrs (clear_esr maxlvt tr) = icrs tr ∧ polls (clear_esr maxlvt tr) = polls tr.
Proof.
  unfold clear_esr. rewrite icrs_app, polls_app. case_test; simpl; rewrite app_nil_r; split; done || lia.
Qed.

Lemma send_init_icrs apicid tr :
  icrs (send_init maxlvt integrated icr_idle apicid tr).2 = icrs tr ++ init_pair apicid ∧
  polls (send_init maxlvt integrated icr_idle apicid tr).2 = polls tr.
Proof.
  unfold send_init. cbn [snd]. rewrite !icrs_app, !polls_app.
  destruct (clear_esr_icrs tr) as [H1 H2].
  destruct integrated; rewrite ?H1, ?H2; simpl; rewrite app_nil_r; split; done || lia.
Qed.

(** At most [n] STARTUPs, at least one if a round is left, and all [n] if no
    error is reported. *)
Lemma startup_loop_icrs n apicid rip s a tr :
  let r := (startup_loop maxlvt esr icr_idle n apicid rip s a tr).2 in
  polls r = polls tr ∧ ∃ k, (k ≤ n)%nat ∧ (n ≠ 0%nat → k ≠ 0%nat) ∧
  icrs r = icrs tr ++ replicate k (Z.lor APIC_DM_STARTUP (Z.shiftr rip 12), apicid) ∧
  ((∀ t, icr_idle t = 0) → (∀ t, Z.land (esr t) 0xEF = 0) → k = n).
Proof.
  revert s a tr. induction n as [|n IH]; intros s a tr; cbn [startup_loop snd].
  - split; [done|]. exists 0%nat. rewrite app_nil_r. by split_and!.
  - set (t1 := clear_esr maxlvt tr ++ _). set (t2 := t1 ++ _).
    destruct (clear_esr_icrs tr) as [E1 E2].
    assert (icrs (t2 ++ [EsrRead]) = icrs tr ++ [(Z.lor APIC_DM_STARTUP (Z.shiftr rip 12), apicid)] ∧
            polls (t2 ++ [EsrRead]) = polls tr) as [E3 E4].
    { unfold t2, t1. rewrite !icrs_app, !polls_app, E1, E2.
      case_test; simpl; rewrite !app_nil_r; split; done || lia. }
    destruct (negb (icr_idle t1 =? 0) || negb (Z.land (esr t2) 0xEF =? 0)) eqn:Herr; cbn [snd].
    + split; [done|]. exists 1%nat. split_and!; [lia|done|done|].
      intros Hs Ha. rewrite Hs, Ha in Herr. done.
    + destruct (IH (icr_idle t1) (Z.land (esr t2) 0xEF) (t2 ++ [EsrRead])) as (Hp&k&Hk&_&Hi&Hall).
      split; [congruence|]. exists (S k). split_and!; [lia|done| |].
      * rewrite Hi, E3, <-app_assoc. done.
      * intros Hs Ha. f_equal. by apply Hall.
Qed.

Lemma wait_initialized_polls f n tr :
  icrs (wait_initialized f n tr) = icrs tr ∧ (polls (wait_initialized f n tr) ≤ polls tr + n)%nat.
Proof.
  revert tr. induction n as [|n IH]; intros tr; simpl; [split; [done|lia]|].
  case_test.
  - rewrite icrs_app, polls_app. simpl. rewrite app_nil_r. split; [done|]. change (polls [Poll]) with 1%nat. lia.
  - destruct (IH (tr ++ [Poll; DelayUs 100000])) as [H1 H2].
    rewrite H1, icrs_app. rewrite polls_app in H2. simpl. rewrite app_nil_r. split; [done|].
    change (polls [Poll; DelayUs 100000]) with 1%nat in H2. lia.
Qed.
End interrupts.

(** ** Properties: booting and stopping *)

Section boot.
Context (maxlvt : Z) (integrated : bool) (esr icr_idle : list apic_event → Z).
Context {S : Type} `{TrampolineLaws S}.

(** How a boot ends; [boot_enclave_spec] says it in words. *)
Definition booted (ts : trampoline_data) (pa size kernel_addr apicid : Z)
    (initialized : list apic_event → bool) (b : boot_state S) (r : boot_result S) : Prop :=
  args r = {| launch_code_esi := Z.shiftr pa 12; launch_code_target_addr := kernel_addr |} ∧
  trampoline_lock (after r) = false ∧ tr_held (tramp (after r)) = false ∧
  tr_linux (tramp (after r)) = tr_linux (tramp b) ∧ bmem (after r) = setup_pgts ts pa size (bmem b) ∧
  (∃ tr, events r = tr ++ [Poll] ∧ ret r = if initialized tr then 0 else -1) ∧
  (polls (events r) ≤ 16)%nat ∧
  ∃ k, icrs (events r) = init_pair apicid ++
         replicate k (Z.lor APIC_DM_STARTUP (Z.shiftr (cpu_init_rip ts) 12), apicid) ∧
    (k ≤ 2)%nat ∧ (k = 0%nat ↔ integrated = false) ∧
    ((∀ t, icr_idle t = 0) → (∀ t, Z.land (esr t) 0xEF = 0) → integrated = true → k = 2%nat).

Lemma boot_enclave_boots (ts : trampoline_data) (pml_bytes : memory → list byte)
    (pa size kernel_addr apicid : Z) (initialized : list apic_event → bool) (b : boot_state S) :
  trampoline_lock b = false → size mod PAGE_SIZE_2MB = 0 →
  ∃ r, boot_enclave maxlvt integrated esr icr_idle ts pml_bytes pa size kernel_addr apicid
         initialized b = Some r ∧ booted ts pa size kernel_addr apicid initialized b r.
Proof.
  intros Hfree Hsize.
  unfold boot_enclave, pisces_setup_trampoline. rewrite Hsize, Hfree. cbn [negb Z.eqb].
  set (mem' := setup_pgts ts pa size (bmem b)).
  pose proof (tr_setup_ok (pml_bytes mem') pa (tramp b)) as Hok.
  pose proof (tr_round_trip (pml_bytes mem') pa (tramp b)) as Hrt.
  destruct (tr_setup (pml_bytes mem') pa (tramp b)) as [? t1]. simpl in Hok, Hrt. subst.
  cbn [mbind option_bind negb Z.eqb].
  unfold __wakeup_secondary_cpu_via_init.
  pose proof (send_init_icrs maxlvt integrated icr_idle apicid []) as [I1 I2].
  destruct (send_init maxlvt integrated icr_idle apicid []) as [st tr0]. simpl in I1, I2.
  pose proof (startup_loop_icrs maxlvt esr icr_idle (if integrated then 2%nat else 0%nat) apicid
    (cpu_init_rip ts) st 0 tr0) as (J1&k&Hk&Hk0&J2&Hall).
  destruct (startup_loop _ _ _ _ _ _ _ _ _) as [[? ?] tr1]. cbn [snd] in J1, J2.
  pose proof (wait_initialized_polls initialized 15 tr1) as [W1 W2].
  set (tr2 := wait_initialized initialized 15 tr1) in *.
  unfold pisces_restore_trampoline. cbn [tramp].
  pose proof (tr_restore_free t1) as Hf. destruct (tr_restore t1) as [? t2]. simpl in Hf, Hrt.
  eexists. split; [reflexivity|]. unfold booted. cbn [args ret after events trampoline_lock tramp bmem].
  split_and!; try done.
  - by exists tr2.
  - rewrite polls_app. change (polls [Poll]) with 1%nat. change (polls []) with 0%nat in I2. lia.
  - exists k. rewrite icrs_app, W1, J2, I1. simpl. rewrite app_nil_r. split_and!; try done.
    + destruct integrated; lia.
    + destruct integrated; split; intros; (done || lia || by destruct Hk0).
    + intros Hs Ha ->. by rewrite Hall.
Qed.
(** C8: For any trampoline variant that keeps the interface's promises: booting
    with a free lock always comes to an end, with at most 16 looks at the
    enclave's flag; it returns 0 or -1, 0 exactly when the last look saw the
    flag; whatever the outcome the trampoline lock and Linux's lock are free
    again, Linux has the trampoline it had before and memory holds the tables
    built for the enclave.  The target processor gets one INIT (asserted, then
    deasserted) and then only STARTUPs at the trampoline's page: none for a
    discrete APIC, one or two for an integrated one, and two if no error is
    reported. *)
Theorem boot_enclave_spec (ts : trampoline_data) (pml_bytes : memory → list byte)
    (pa size kernel_addr apicid : Z) (initialized : list apic_event → bool) (b : boot_state S)
    (Hfree : trampoline_lock b = false) (Hsize : size mod PAGE_SIZE_2MB = 0) :
  ∃ r, boot_enclave maxlvt integrated esr icr_idle ts pml_bytes pa size kernel_addr apicid
         initialized b = Some r ∧
  args r = {| launch_code_esi := Z.shiftr pa 12; launch_code_target_addr := kernel_addr |} ∧
  trampoline_lock (after r) = false ∧ tr_held (tramp (after r)) = false ∧
  tr_linux (tramp (after r)) = tr_linux (tramp b) ∧ bmem (after r) = setup_pgts ts pa size (bmem b) ∧
  (∃ tr, events r = tr ++ [Poll] ∧ ret r = if initialized tr then 0 else -1) ∧
  (polls (events r) ≤ 16)%nat ∧
  ∃ k, icrs (events r) = init_pair apicid ++
         replicate k (Z.lor APIC_DM_STARTUP (Z.shiftr (cpu_init_rip ts) 12), apicid) ∧
    (k ≤ 2)%nat ∧ (k = 0%nat ↔ integrated = false) ∧
    ((∀ t, icr_idle t = 0) → (∀ t, Z.land (esr t) 0xEF = 0) → integrated = true → k = 2%nat).
Proof. exact (boot_enclave_boots ts pml_bytes pa size kernel_addr apicid initialized b Hfree Hsize). Qed.
End boot.

(** A boot in which the flag is seen at the third look. *)
Lemma boot_enclave_spec_witness :
  let b := {| bmem := λ _, 0; trampoline_lock := false;
              tramp := V3.Build_state [Byte.x01] 7 [] 0 false |} in
  let init (tr : list apic_event) := (2 <=? polls tr)%nat in
  ∃ r, boot_enclave 5 true (λ _, 0) (λ _, 0) (tables_at 65536 0x9000) (λ _, [Byte.x02]) 0x200000
         0x200000 0x400000 1 init b = Some r ∧
  args r = {| launch_code_esi := Z.shiftr 0x200000 12; launch_code_target_addr := 0x400000 |} ∧
  trampoline_lock (after r) = false ∧ tr_held (tramp (after r)) = false ∧
  tr_linux (tramp (after r)) = tr_linux (tramp b) ∧
  bmem (after r) = setup_pgts (tables_at 65536 0x9000) 0x200000 0x200000 (bmem b) ∧
  (∃ tr, events r = tr ++ [Poll] ∧ ret r = if init tr then 0 else -1) ∧
  (polls (events r) ≤ 16)%nat ∧
  ∃ k, icrs (events r) = init_pair 1 ++
         replicate k (Z.lor APIC_DM_STARTUP (Z.shiftr (cpu_init_rip (tables_at 65536 0x9000)) 12), 1) ∧
    (k ≤ 2)%nat ∧ (k = 0%nat ↔ true = false) ∧
    ((∀ t : list apic_event, 0 = 0) → (∀ t : list apic_event, Z.land 0 0xEF = 0) → true = true → k = 2%nat).
Proof.
  intros b init.
  apply (boot_enclave_spec 5 true (λ _, 0) (λ _, 0) (tables_at 65536 0x9000) (λ _, [Byte.x02])
    0x200000 0x200000 0x400000 1 init b); reflexivity.
Defined.

(** Stopping an enclave resets every one of its processors, in order: one
    INIT asserted and deasserted each, no STARTUP, and returns 0. *)
Theorem stop_enclave_resets (maxlvt : Z) (integrated : bool) (icr_idle : list apic_event → Z)
    (apicids : list Z) (tr : list apic_event) :
  let '(ret, tr') := stop_enclave maxlvt integrated icr_idle apicids tr in
  ret = 0 ∧ icrs tr' = icrs tr ++ concat (init_pair <$> apicids).
Proof.
  revert tr. induction apicids as [|a l IH]; intros tr; simpl; [by rewrite app_nil_r|].
  specialize (IH (send_init maxlvt integrated icr_idle a tr).2).
  destruct (stop_enclave _ _ _ _ _) as [r tr']. destruct IH as [-> ->].
  rewrite (proj1 (send_init_icrs _ _ _ _ _)), <-app_assoc. done.
Qed.
