(* ===== verification/BootParams.v ===== *)
(** * The boot parameters ([src/pisces_boot_params.c], [src/pisces_boot_params.h])

    The layout of an enclave's boot memory and the loading of its kernel and
    initial ramdisk.  The boot memory is a list of bytes from
    [enclave->bootmem_addr_pa] on; [boot_params], the structure at its start, is
    kept apart as a record, and offsets are from the start of the boot memory.
    A write past the end of the boot memory overwrites memory the enclave does
    not own: [OutOfBounds]. *)
From S2P Require Import Prelude FileIo.

(** ** The code *)

Definition PISCES_MAGIC : Z := 0x000FE110.

Record pisces_boot_params := {
  launch_code : list byte;               (* 64 bytes *)
  magic : Z;
  cpu_id : Z; apic_id : Z; cpu_khz : Z;
  trampoline_code_pa : Z;
  cmd_line : list Z;                     (* 1024 bytes *)
  kernel_addr : Z; kernel_size : Z;
  initrd_addr : Z; initrd_size : Z;
  console_ring_addr : Z; console_ring_size : Z;
  control_buf_addr : Z; control_buf_size : Z;
  longcall_buf_addr : Z; longcall_buf_size : Z;
  xpmem_buf_addr : Z; xpmem_buf_size : Z;
  base_mem_paddr : Z; base_mem_size : Z
}.

(** The fields of the packed structure in order, with their sizes. *)
Definition boot_params_fields : list Z :=
  [64; 16; 8; 8; 8; 8; 8; 8; 8; 8; 8; 1024; 8; 8; 8; 8; 8; 8; 8; 8; 8; 8; 8; 8; 8; 8].
Definition sizeof_boot_params : Z := foldr Z.add 0 boot_params_fields.
(** [sizeof(struct pisces_cons_ringbuf)]. *)
Definition sizeof_cons_ringbuf : Z := 8 + 8 + 8 + 8 + (64 * 1024 - 32).

Definition PAGE_SIZE_4KB : Z := 4096.
Definition PAGE_SIZE_2MB : Z := 4096 * 512.

(** Linux's [ALIGN], for a power of two. *)
Definition ALIGN (x a : Z) : Z := Z.land (x + (a - 1)) (Z.lnot (a - 1)).

(** [strncpy(dst, src, n)]: the bytes of [dst]. *)
Fixpoint strncpy (src : list Z) (n : nat) : list Z :=
  match n with
  | O => []
  | S n => match src with
           | [] => 0 :: strncpy [] n
           | c :: src => if c =? 0 then 0 :: strncpy [] n else c :: strncpy src n
           end
  end.

Inductive outcome (A : Type) := Ok (a : A) | OutOfBounds | NoFuel.
Arguments Ok {A}. Arguments OutOfBounds {A}. Arguments NoFuel {A}.

(** What [file_read] does at an offset, for a length: its result and the bytes
    it leaves at the start of the buffer. *)
Definition reader : Type := Z → Z → Z * list byte.

(** The [while] loop of [load_kernel] and [load_initrd]: [target] is the offset
    of the buffer.  The return value and the boot memory. *)
Fixpoint load_loop (fuel : nat) (rd : reader) (size target bytes_read : Z) (mem : list byte)
  : outcome (Z * list byte) :=
  match fuel with
  | O => NoFuel
  | S fuel =>
      if bytes_read <? size then
        let '(ret, data) := rd bytes_read (u64 (size - bytes_read)) in
        match blit mem (target + bytes_read) data with
        | None => OutOfBounds
        | Some mem =>
            if ret <=? 0 then Ok (-1, mem)
            else load_loop fuel rd size target (u64 (bytes_read + ret)) mem
        end
      else Ok (0, mem)
  end.

(** [load_kernel] and [load_initrd] on the open file [file] (0 is NULL) whose
    [file_size] is [size]: the return value, the size recorded, the memory, and
    the calls of [filp_close]. *)
Definition load_file (fuel : nat) (rd : reader) (file size target : Z) (mem : list byte)
  : outcome (Z * Z * list byte * list file_event) :=
  if file =? 0 then Ok (-1, 0, mem, []) else
  let size := u64 size in
  match load_loop fuel rd size target 0 mem with
  | OutOfBounds => OutOfBounds
  | NoFuel => NoFuel
  | Ok (ret, mem) =>
      Ok (ret, size, mem, if ret =? -1 then (file_close file).2 else [])
  end.

(** What [setup_boot_params] reads of the enclave and of the machine. *)
Record boot_env := {
  bootmem_addr_pa : Z; bootmem_size : Z;
  boot_cpu : Z; boot_apicid : Z; khz : Z; rip : Z;
  launch_code_image : list byte;
  kern_cmdline : list Z;
  kern_file : Z; kern_file_size : Z; kern_reader : reader;
  init_file : Z; init_file_size : Z; init_reader : reader
}.

(** What the other components' initialisations, called on the way, return. *)
Record init_results := { cons_init : Z; ctrl_init : Z; lcall_init : Z }.

Inductive setup_result :=
  | Failed (step : nat) (mem : list byte) (closed : list file_event)
  | SetUp (bp : pisces_boot_params) (mem : list byte) (offset : Z).

Definition load_kernel (fuel : nat) (e : boot_env) := load_file fuel (kern_reader e) (kern_file e) (kern_file_size e).
Definition load_initrd (fuel : nat) (e : boot_env) := load_file fuel (init_reader e) (init_file e) (init_file_size e).

(** The kernel, space for its BSS, and the ramdisk; [bp] is the structure, but for
    where they are and their sizes. *)
Definition load_images (fuel : nat) (e : boot_env) (bp : Z → Z → Z → Z → pisces_boot_params)
    (offset : Z) (mem : list byte) : outcome setup_result :=
  let offset := ALIGN offset PAGE_SIZE_2MB in
  if negb (offset =? PAGE_SIZE_2MB) then Ok (Failed 4 mem []) else
  match load_kernel fuel e offset mem with
  | OutOfBounds => OutOfBounds
  | NoFuel => NoFuel
  | Ok (ret, kernel_size, mem, closed) =>
      if ret =? -1 then Ok (Failed 5 mem closed) else
      let kernel := offset in
      let offset := u64 (offset + kernel_size) in
      let offset := u64 (offset + 4 * PAGE_SIZE_2MB) in
      let offset := u64 (ALIGN offset PAGE_SIZE_2MB) in
      match load_initrd fuel e offset mem with
      | OutOfBounds => OutOfBounds
      | NoFuel => NoFuel
      | Ok (ret, initrd_size, mem, closed) =>
          if ret =? -1 then Ok (Failed 6 mem closed) else
          Ok (SetUp (bp kernel kernel_size offset initrd_size) mem (u64 (offset + initrd_size)))
      end
  end.

(** Without XPMEM.  The failing step is numbered in the order of the code. *)
Definition setup_boot_params (fuel : nat) (e : boot_env) (r : init_results)
  : outcome setup_result :=
  let mem := replicate (Z.to_nat (bootmem_size e)) Byte.x00 in
  let pa := bootmem_addr_pa e in
  if bootmem_size e <? sizeof_boot_params then OutOfBounds else
  if negb (zlen (launch_code_image e) =? 64) then Ok (Failed 0 mem []) else
  let offset := ALIGN (0 + sizeof_boot_params) PAGE_SIZE_4KB in
  if cons_init r =? -1 then Ok (Failed 1 mem []) else
  let console := offset in
  let offset := ALIGN (offset + sizeof_cons_ringbuf) PAGE_SIZE_4KB in
  if ctrl_init r =? -1 then Ok (Failed 2 mem []) else
  let control := offset in
  let offset := ALIGN (offset + PAGE_SIZE_4KB) PAGE_SIZE_4KB in
  if lcall_init r =? -1 then Ok (Failed 3 mem []) else
  let longcall := offset in
  let offset := ALIGN (offset + PAGE_SIZE_4KB) PAGE_SIZE_4KB in
  let xpmem := offset in
  load_images fuel e (λ kernel kernel_size initrd initrd_size,
            {| launch_code := launch_code_image e; magic := PISCES_MAGIC; cpu_id := boot_cpu e;
               apic_id := boot_apicid e; cpu_khz := khz e; trampoline_code_pa := rip e;
               cmd_line := strncpy (kern_cmdline e) 1024;
               kernel_addr := pa + kernel; kernel_size := kernel_size;
               initrd_addr := pa + initrd; initrd_size := initrd_size;
               console_ring_addr := pa + console; console_ring_size := sizeof_cons_ringbuf;
               control_buf_addr := pa + control; control_buf_size := PAGE_SIZE_4KB;
               longcall_buf_addr := pa + longcall; longcall_buf_size := PAGE_SIZE_4KB;
               xpmem_buf_addr := pa + xpmem; xpmem_buf_size := PAGE_SIZE_4KB;
               base_mem_paddr := pa; base_mem_size := bootmem_size e |})
    (offset + PAGE_SIZE_4KB) mem.

Example layout_offsets :
  sizeof_boot_params = 1288 ∧ sizeof_cons_ringbuf = 65536 ∧
  ALIGN sizeof_boot_params PAGE_SIZE_4KB = 4096 ∧
  ALIGN (69632 + 4096 + 4096 + 4096) PAGE_SIZE_2MB = PAGE_SIZE_2MB.
Proof. done. Qed.

(** ** Specification: what reading a regular file does *)

(** Reads inside of the file make progress and deliver its bytes. *)
Definition regular (content : list byte) (rd : reader) : Prop :=
  ∀ pos len, 0 ≤ pos < zlen content → 0 < len →
    let '(ret, data) := rd pos len in
    0 < ret ≤ len ∧ slice content pos ret = Some data.

(** A reader that delivers at most [chunk] bytes at a time. *)
Definition chunked (chunk : Z) (content : list byte) : reader := λ pos len,
  let n := Z.min (Z.min chunk len) (zlen content - pos) in
  match slice content pos n with Some d => (n, d) | None => (-EFAULT, []) end.

(** ** Lemmas *)

Lemma ALIGN_spec x k :
  0 ≤ k → 0 ≤ x → ALIGN x (2 ^ k) = (x + (2 ^ k - 1)) / 2 ^ k * 2 ^ k.
Proof.
  intros Hk Hx. unfold ALIGN. rewrite <-Z.ldiff_land.
  replace (2 ^ k - 1) with (Z.ones k) at 2 by (rewrite Z.ones_equiv; lia).
  by rewrite Z.ldiff_ones_r, Z.shiftr_div_pow2, Z.shiftl_mul_pow2 by lia.
Qed.

Lemma ALIGN_bounds x k :
  0 ≤ k → 0 ≤ x → x ≤ ALIGN x (2 ^ k) < x + 2 ^ k ∧ ALIGN x (2 ^ k) mod 2 ^ k = 0.
Proof.
  intros Hk Hx. rewrite ALIGN_spec by done. assert (0 < 2 ^ k) by lia.
  pose proof (Z.div_mod (x + (2 ^ k - 1)) (2 ^ k)).
  pose proof (Z.mod_pos_bound (x + (2 ^ k - 1)) (2 ^ k)).
  split; [|by apply Z.mod_mul; lia]. nia.
Qed.

Lemma blit_app {A} (l : list A) off d1 d2 l1 :
  blit l off d1 = Some l1 → blit l1 (off + zlen d1) d2 = blit l off (d1 ++ d2).
Proof.
  intros H1. pose proof (blit_length _ _ _ _ H1) as Hlen.
  unfold blit in *. rewrite length_app, Hlen in *.
  destruct (bool_decide_reflect (0 ≤ off ∧ off + zlen d1 ≤ zlen l)) as [Hb|]; [|done].
  injection H1 as <-.
  destruct (bool_decide_reflect (0 ≤ off + zlen d1 ∧ off + zlen d1 + zlen d2 ≤ zlen l)),
    (bool_decide_reflect (0 ≤ off ∧ off + Z.of_nat (length d1 + length d2) ≤ zlen l)); try lia; [|done].
  f_equal. rewrite app_assoc.
  replace (Z.to_nat (off + zlen d1)) with (Z.to_nat off + length d1)%nat by lia.
  rewrite (app_assoc (take _ l)), take_app_length'; [|rewrite length_app, length_take; lia].
  rewrite <-!app_assoc. do 3 f_equal.
  rewrite !drop_app_ge by (rewrite ?length_app, ?length_take; lia).
  rewrite drop_drop. f_equal. rewrite ?length_take. lia.
Qed.

Lemma blit_beyond {A} (l d : list A) off : zlen l < off + zlen d → blit l off d = None.
Proof. intros. unfold blit. rewrite bool_decide_false; [done|lia]. Qed.

Section load.
Context (content : list byte) (rd : reader) (Hrd : regular content rd) (target : Z).
Context (Hsize : fits 64 (zlen content)) (Ht : 0 ≤ target).

Lemma load_step pos :
  0 ≤ pos < zlen content →
  ∃ ret data, rd pos (u64 (zlen content - pos)) = (ret, data) ∧ 0 < ret ∧ pos + ret ≤ zlen content ∧
    zlen data = ret ∧ drop (Z.to_nat pos) content = data ++ drop (Z.to_nat (pos + ret)) content.
Proof using Hrd Hsize.
  intros Hpos. rewrite wrap_small by (unfold fits in *; lia).
  specialize (Hrd pos (zlen content - pos) Hpos ltac:(lia)).
  destruct (rd pos (zlen content - pos)) as [ret data]. destruct Hrd as [Hr Hs].
  exists ret, data. split_and!; [done|lia|lia|by apply (slice_length _ pos _ _ Hs)|].
  rewrite slice_Some in Hs by lia. injection Hs as <-.
  replace (Z.to_nat (pos + ret)) with (Z.to_nat pos + Z.to_nat ret)%nat by lia.
  rewrite <-drop_drop. by rewrite take_drop.
Qed.

(** Loading ends, with the rest of the file in memory, or, when the file does not
    fit, by a write past the end of the boot memory. *)
Lemma load_loop_spec fuel pos mem :
  0 ≤ pos ≤ zlen content → zlen content - pos < Z.of_nat fuel →
  load_loop fuel rd (zlen content) target pos mem =
  if pos =? zlen content then Ok (0, mem) else
  match blit mem (target + pos) (drop (Z.to_nat pos) content) with
  | Some mem' => Ok (0, mem')
  | None => OutOfBounds
  end.
Proof using Hrd Hsize Ht.
  revert pos mem. induction fuel as [|fuel IH]; intros pos mem Hpos Hf; [lia|]. simpl.
  destruct (Z.ltb_spec pos (zlen content)) as [Hlt|]; destruct (Z.eqb_spec pos (zlen content)); try lia;
    [|done].
  destruct (load_step pos ltac:(lia)) as (ret&data&->&Hr&Hle&Hlen&->).
  destruct (blit mem (target + pos) data) as [mem1|] eqn:Hb.
  - destruct (Z.leb_spec ret 0); [lia|].
    rewrite wrap_small by (unfold fits in *; lia). rewrite IH by lia.
    rewrite Z.add_assoc, <-Hlen, (blit_app _ _ _ _ _ Hb).
    case_test; [|done]. rewrite drop_ge by lia. by rewrite app_nil_r, Hb.
  - rewrite blit_beyond; [done|]. rewrite length_app.
    pose proof (blit_None _ _ _ Hb ltac:(lia)). lia.
Qed.
End load.

Lemma load_file_spec content rd file target mem fuel :
  regular content rd → fits 64 (zlen content) → 0 ≤ target → file ≠ 0 →
  zlen content < Z.of_nat fuel →
  load_file fuel rd file (zlen content) target mem =
  if zlen content =? 0 then Ok (0, 0, mem, []) else
  match blit mem target content with
  | Some mem' => Ok (0, zlen content, mem', [])
  | None => OutOfBounds
  end.
Proof.
  intros Hrd Hs Ht Hf Hfuel. unfold load_file. destruct (Z.eqb_spec file 0); [done|].
  rewrite (wrap_small 64) by done. rewrite (load_loop_spec content rd) by (done || lia).
  rewrite Z.add_0_r, drop_0, (Z.eqb_sym 0). destruct (Z.eqb_spec (zlen content) 0) as [E|E].
  - by rewrite E.
  - by destruct (blit mem target content).
Qed.

(** An empty file and a write of nothing agree, inside of the memory. *)
Lemma load_file_fits content rd file target mem fuel mem' :
  regular content rd → fits 64 (zlen content) → 0 ≤ target → file ≠ 0 →
  zlen content < Z.of_nat fuel → blit mem target content = Some mem' →
  load_file fuel rd file (zlen content) target mem = Ok (0, zlen content, mem', []).
Proof.
  intros Hrd Hs Ht Hf Hfuel Hb. rewrite load_file_spec by done.
  destruct (Z.eqb_spec (zlen content) 0) as [E|E]; [|by rewrite Hb].
  destruct content; [|done]. rewrite E. f_equal. f_equal. f_equal.
  apply blit_inv in Hb as (_&_&Hb). rewrite Nat.add_0_r, app_nil_l, take_drop in Hb. congruence.
Qed.

Lemma strncpy_fits s n :
  (length s ≤ n)%nat → 0 ∉ s → strncpy s n = s ++ replicate (n - length s) 0.
Proof.
  revert n. induction s as [|c s IH]; intros n Hn H0.
  - rewrite Nat.sub_0_r. simpl. clear. induction n as [|n IH]; [done|]. simpl. by rewrite IH.
  - destruct n as [|n]; simpl in *; [lia|]. apply not_elem_of_cons in H0 as [Hc H0].
    destruct (Z.eqb_spec c 0); [congruence|]. rewrite IH; [done|lia|done].
Qed.

Lemma strncpy_length s n : length (strncpy s n) = n.
Proof. revert s. induction n; intros [|c s]; simpl; try case_test; simpl; auto. Qed.

Lemma slice_blit_same {A} (l d l' : list A) off : blit l off d = Some l' → slice l' off (zlen d) = Some d.
Proof.
  intros Hb. pose proof (blit_length _ _ _ _ Hb) as Hl. apply blit_inv in Hb as (H0&H1&->).
  rewrite slice_Some by lia. f_equal.
  rewrite drop_app_length' by (rewrite length_take; lia). by rewrite take_app_length' by lia.
Qed.

Lemma slice_blit_other {A} (l d l' : list A) off o n :
  blit l off d = Some l' → o + n ≤ off → slice l' o n = slice l o n.
Proof.
  intros Hb Ho. pose proof (blit_length _ _ _ _ Hb) as Hl. unfold slice. rewrite Hl.
  case_test; [|done]. f_equal. apply list_eq. intros i.
  destruct (decide (i < Z.to_nat n)%nat); [|by rewrite !lookup_take_ge by lia].
  rewrite !lookup_take_lt, !lookup_drop by lia. rewrite (blit_lookup _ _ _ _ _ Hb).
  rewrite bool_decide_false; [done|lia].
Qed.

(** Where the ramdisk goes, after a kernel of [n] bytes. *)
Definition initrd_offset (n : Z) : Z := ALIGN (PAGE_SIZE_2MB + n + 4 * PAGE_SIZE_2MB) PAGE_SIZE_2MB.

Lemma initrd_offset_bounds n :
  0 ≤ n →
  PAGE_SIZE_2MB + n + 4 * PAGE_SIZE_2MB ≤ initrd_offset n < PAGE_SIZE_2MB + n + 5 * PAGE_SIZE_2MB ∧
  initrd_offset n mod PAGE_SIZE_2MB = 0.
Proof.
  intros. unfold initrd_offset. change PAGE_SIZE_2MB with (2 ^ 21).
  pose proof (ALIGN_bounds (2 ^ 21 + n + 4 * 2 ^ 21) 21). lia.
Qed.

(** Everything before the kernel succeeded and the files are open. *)
Record ready (e : boot_env) (r : init_results) : Prop := {
  rd_launch : zlen (launch_code_image e) = 64;
  rd_cons : cons_init r ≠ -1; rd_ctrl : ctrl_init r ≠ -1; rd_lcall : lcall_init r ≠ -1;
  rd_kern : kern_file e ≠ 0; rd_init : init_file e ≠ 0;
  rd_mem : sizeof_boot_params ≤ bootmem_size e
}.

(** The common prefix of the runs below. *)
Lemma setup_boot_params_ready fuel e r :
  ready e r →
  setup_boot_params fuel e r =
  match load_file fuel (kern_reader e) (kern_file e) (kern_file_size e) PAGE_SIZE_2MB
          (replicate (Z.to_nat (bootmem_size e)) Byte.x00) with
  | OutOfBounds => OutOfBounds
  | NoFuel => NoFuel
  | Ok (ret, ks, mem, closed) =>
      if ret =? -1 then Ok (Failed 5 mem closed) else
      let offset := u64 (ALIGN (u64 (u64 (PAGE_SIZE_2MB + ks) + 4 * PAGE_SIZE_2MB)) PAGE_SIZE_2MB) in
      match load_file fuel (init_reader e) (init_file e) (init_file_size e) offset mem with
      | OutOfBounds => OutOfBounds
      | NoFuel => NoFuel
      | Ok (ret, rs, mem, closed) =>
          if ret =? -1 then Ok (Failed 6 mem closed) else
          let pa := bootmem_addr_pa e in
          Ok (SetUp
            {| launch_code := launch_code_image e; magic := PISCES_MAGIC; cpu_id := boot_cpu e;
               apic_id := boot_apicid e; cpu_khz := khz e; trampoline_code_pa := rip e;
               cmd_line := strncpy (kern_cmdline e) 1024;
               kernel_addr := pa + PAGE_SIZE_2MB; kernel_size := ks;
               initrd_addr := pa + offset; initrd_size := rs;
               console_ring_addr := pa + 4096; console_ring_size := 65536;
               control_buf_addr := pa + 69632; control_buf_size := 4096;
               longcall_buf_addr := pa + 73728; longcall_buf_size := 4096;
               xpmem_buf_addr := pa + 77824; xpmem_buf_size := 4096;
               base_mem_paddr := pa; base_mem_size := bootmem_size e |}
            mem (u64 (offset + rs)))
      end
  end.
Proof.
  intros [Hl Hc Hct Hlc _ _ Hm]. unfold setup_boot_params, load_images, load_kernel, load_initrd. rewrite Hl.
  destruct (Z.ltb_spec (bootmem_size e) sizeof_boot_params); [lia|].
  destruct (Z.eqb_spec (cons_init r) (-1)), (Z.eqb_spec (ctrl_init r) (-1)),
    (Z.eqb_spec (lcall_init r) (-1)); try done.
Qed.

(** What is recorded of a kernel and a ramdisk that fit. *)
Definition layout_of (e : boot_env) (kernel initrd : list byte) : pisces_boot_params :=
  let pa := bootmem_addr_pa e in
  {| launch_code := launch_code_image e; magic := PISCES_MAGIC; cpu_id := boot_cpu e;
     apic_id := boot_apicid e; cpu_khz := khz e; trampoline_code_pa := rip e;
     cmd_line := strncpy (kern_cmdline e) 1024;
     kernel_addr := pa + PAGE_SIZE_2MB; kernel_size := zlen kernel;
     initrd_addr := pa + initrd_offset (zlen kernel); initrd_size := zlen initrd;
     console_ring_addr := pa + 4096; console_ring_size := 65536;
     control_buf_addr := pa + 69632; control_buf_size := 4096;
     longcall_buf_addr := pa + 73728; longcall_buf_size := 4096;
     xpmem_buf_addr := pa + 77824; xpmem_buf_size := 4096;
     base_mem_paddr := pa; base_mem_size := bootmem_size e |}.

Lemma setup_boot_params_loads (fuel : nat) (e : boot_env) (r : init_results) (kernel initrd : list byte)
    (Hready : ready e r)
    (Hk : regular kernel (kern_reader e)) (Hks : kern_file_size e = zlen kernel)
    (Hi : regular initrd (init_reader e)) (His : init_file_size e = zlen initrd)
    (Hfit : initrd_offset (zlen kernel) + zlen initrd ≤ bootmem_size e)
    (Hmem : bootmem_size e < 2 ^ 63) (Hfuel : bootmem_size e < Z.of_nat fuel) :
  ∃ m1 m2, blit (replicate (Z.to_nat (bootmem_size e)) Byte.x00) PAGE_SIZE_2MB kernel = Some m1 ∧
    blit m1 (initrd_offset (zlen kernel)) initrd = Some m2 ∧ zlen m2 = bootmem_size e ∧
    setup_boot_params fuel e r =
      Ok (SetUp (layout_of e kernel initrd) m2 (initrd_offset (zlen kernel) + zlen initrd)).
Proof.
  pose proof (initrd_offset_bounds (zlen kernel) ltac:(lia)) as [Hob Hom].
  set (M := PAGE_SIZE_2MB) in *. assert (M = 2097152) as HM by done.
  set (m0 := replicate (Z.to_nat (bootmem_size e)) Byte.x00).
  assert (zlen m0 = bootmem_size e) as Hm0 by (unfold m0; rewrite length_replicate; lia).
  rewrite setup_boot_params_ready, Hks, His by done. fold m0 M.
  destruct (blit m0 M kernel) as [m1|] eqn:Hb1; [|apply blit_None in Hb1; lia].
  pose proof (blit_length _ _ _ _ Hb1) as Hm1.
  rewrite (load_file_fits kernel _ _ _ _ _ m1);
    [|done|unfold fits; lia|lia|apply Hready|lia|done].
  cbn [Z.eqb]. unfold fits in *.
  rewrite (wrap_small 64 (M + _)) by (unfold fits; lia).
  rewrite (wrap_small 64 (M + _ + _)) by (unfold fits; lia).
  change (ALIGN (M + zlen kernel + 4 * M) M) with (initrd_offset (zlen kernel)).
  rewrite (wrap_small 64 (initrd_offset _)) by (unfold fits; lia).
  destruct (blit m1 (initrd_offset (zlen kernel)) initrd) as [m2|] eqn:Hb2; [|apply blit_None in Hb2; lia].
  rewrite (load_file_fits initrd _ _ _ _ _ m2);
    [|done|unfold fits; lia|lia|apply Hready|lia|done].
  cbn [Z.eqb]. rewrite (wrap_small 64) by (unfold fits; lia).
  pose proof (blit_length _ _ _ _ Hb2). exists m1, m2. split_and!; [done..|lia|done].
Qed.


Definition demo_env : boot_env :=
  {| bootmem_addr_pa := 0x8000000; bootmem_size := 0xc00002; boot_cpu := 1; boot_apicid := 2;
     khz := 3; rip := 0x9000; launch_code_image := replicate 64 Byte.x90; kern_cmdline := [107];
     kern_file := 1; kern_file_size := 3;
     kern_reader := chunked 2 [Byte.x01; Byte.x02; Byte.x03];
     init_file := 2; init_file_size := 2; init_reader := chunked 1 [Byte.x04; Byte.x05] |}.

Lemma chunked_regular c content : 0 < c → regular content (chunked c content).
Proof.
  intros Hc pos len Hp Hl. unfold chunked.
  destruct (slice content pos _) eqn:Hs; [split; [lia|done]|].
  rewrite slice_Some in Hs by lia. done.
Qed.

Lemma demo_ready : ready demo_env {| cons_init := 0; ctrl_init := 0; lcall_init := 0 |}.
Proof. by split. Qed.


(** The sizes are never compared with the boot memory: with a kernel file,
    or after it a ramdisk, that reaches past the end of the boot memory,
    [setup_boot_params] reports no error, it writes the file over the memory
    behind (memory of Linux or of another enclave). *)
Theorem setup_boot_params_overruns (fuel : nat) (e : boot_env) (r : init_results)
    (kernel initrd : list byte)
    (Hready : ready e r)
    (Hk : regular kernel (kern_reader e)) (Hks : kern_file_size e = zlen kernel)
    (Hi : regular initrd (init_reader e)) (His : init_file_size e = zlen initrd)
    (Hmem : bootmem_size e < 2 ^ 62) (Hsz : zlen kernel < 2 ^ 62 ∧ zlen initrd < 2 ^ 62)
    (Hfuel : zlen kernel < Z.of_nat fuel ∧ zlen initrd < Z.of_nat fuel)
    (Hover : (kernel ≠ [] ∧ bootmem_size e < PAGE_SIZE_2MB + zlen kernel) ∨
             (initrd ≠ [] ∧ bootmem_size e < initrd_offset (zlen kernel) + zlen initrd)) :
  setup_boot_params fuel e r = OutOfBounds.
Proof.
  pose proof (initrd_offset_bounds (zlen kernel) ltac:(lia)) as [Hob _].
  set (M := PAGE_SIZE_2MB) in *. assert (M = 2097152) as HM by done.
  set (m0 := replicate (Z.to_nat (bootmem_size e)) Byte.x00).
  assert (0 ≤ bootmem_size e).
  { pose proof (rd_mem _ _ Hready) as Hs. change sizeof_boot_params with 1288 in Hs. lia. }
  assert (zlen m0 = bootmem_size e) as Hm0 by (unfold m0; rewrite length_replicate; lia).
  assert (∀ l : list byte, (zlen l =? 0) = false ↔ l ≠ []) as Hnil by (intros []; simpl; split; done).
  rewrite setup_boot_params_ready, Hks, His by done. fold m0 M.
  rewrite (load_file_spec kernel) by (unfold fits; try apply Hready; done || lia).
  assert (∀ m1, zlen m1 = bootmem_size e → initrd ≠ [] →
    bootmem_size e < initrd_offset (zlen kernel) + zlen initrd →
    load_file fuel (init_reader e) (init_file e) (zlen initrd)
      (u64 (ALIGN (u64 (u64 (M + zlen kernel) + 4 * M)) M)) m1 = OutOfBounds) as Hsecond.
  { intros m1 Hm1 Hne Hov.
    rewrite (wrap_small 64 (M + _)) by (unfold fits; lia).
    rewrite (wrap_small 64 (M + _ + _)) by (unfold fits; lia).
    change (ALIGN (M + zlen kernel + 4 * M) M) with (initrd_offset (zlen kernel)).
    rewrite (wrap_small 64) by (unfold fits; lia).
    rewrite (load_file_spec initrd) by (unfold fits; try apply Hready; done || lia).
    rewrite (proj2 (Hnil initrd) Hne). by rewrite blit_beyond by lia. }
  destruct (Z.eqb_spec (zlen kernel) 0) as [Ek|Ek]; cbn [Z.eqb].
  - destruct Hover as [[Hk0 _]|[Hi0 Hov]]; [by apply Hnil in Hk0; rewrite Ek in Hk0|].
    rewrite Ek in Hsecond, Hov. rewrite Hsecond; [done|exact Hm0|done|exact Hov].
  - destruct (blit m0 M kernel) as [m1|] eqn:Hb1; [|done]. cbn [Z.eqb].
    pose proof (blit_length _ _ _ _ Hb1). apply blit_inv in Hb1 as (_&Hle&_).
    destruct Hover as [[_ Hov]|[Hi0 Hov]]; [lia|]. rewrite Hsecond; done || lia.
Qed.

Lemma setup_boot_params_overruns_witness :
  let e := {| bootmem_addr_pa := 0x8000000; bootmem_size := 0x200002; boot_cpu := 1; boot_apicid := 2;
     khz := 3; rip := 0x9000; launch_code_image := replicate 64 Byte.x90; kern_cmdline := [];
     kern_file := 1; kern_file_size := 3;
     kern_reader := chunked 2 [Byte.x01; Byte.x02; Byte.x03];
     init_file := 2; init_file_size := 0; init_reader := chunked 1 [] |} in
  setup_boot_params 10 e {| cons_init := 0; ctrl_init := 0; lcall_init := 0 |} = OutOfBounds.
Proof.
  intros e.
  apply (setup_boot_params_overruns 10 e {| cons_init := 0; ctrl_init := 0; lcall_init := 0 |}
    [Byte.x01; Byte.x02; Byte.x03] []).
  - by split.
  - by apply chunked_regular.
  - done.
  - by apply chunked_regular.
  - done.
  - done.
  - done.
  - done.
  - by left.
Defined.
