(* ===== verification/Cons.v ===== *)
(** * Consoles ([src/enclave_cons.c], [src/enclave_cons.h], [src/v3_console.c])

    The boot console: a ring of bytes the enclave fills and a process of the host
    reads.  The console of a virtual machine in the enclave: a ring of messages
    in the other direction of trust, read one message at a time.  The rings are
    memory of the enclave: an access out of a ring is [None].  Each operation
    runs under the ring's lock ([Lock]).  [copy_to_user] is an argument: the user
    memory after the attempt and whether it faulted. *)
From S2P Require Import Prelude Circ.

(** ** The code: the boot console *)

Definition BUF_SIZE : Z := 64 * 1024 - 32.

Record pisces_cons_ringbuf := { read_idx : Z; write_idx : Z; cur_len : Z; buf : list byte }.

Section copy.
(** [copy_to_user(buffer, data)] on the process's memory from [buffer] on. *)
Context (copy_to_user : list byte → list byte → bool * list byte).

(** One of the two copies, of at most [read_len] bytes from the read index.
    The state: ring, user memory, file offset, bytes left to read. *)
Definition copy_part (read_len : Z) (r : pisces_cons_ringbuf) (user : list byte)
    (offset left_to_read : Z)
  : option (bool * pisces_cons_ringbuf * list byte * Z * Z) :=
  let read_len := if read_len >? left_to_read then left_to_read else read_len in
  data ← slice (buf r) (read_idx r) read_len;
  let '(fault, user) := copy_to_user user data in
  if fault then Some (true, r, user, offset, left_to_read) else
  let r := {| read_idx := u64 (read_idx r + read_len) mod BUF_SIZE; write_idx := write_idx r;
              cur_len := u64 (cur_len r - read_len); buf := buf r |} in
  Some (false, r, user, offset + read_len, u64 (left_to_read - read_len)).

(** The value returned, the ring, the user memory and the file offset. *)
Definition console_read (r : pisces_cons_ringbuf) (user : list byte) (length offset : Z)
  : option (Z * pisces_cons_ringbuf * list byte * Z) :=
  let length := if length >? cur_len r then cur_len r else length in
  let left_to_read := length in
  '(fault, r, user, offset, left_to_read) ←
    (if (left_to_read >? 0) && (read_idx r >=? write_idx r)
     then copy_part (u64 (BUF_SIZE - read_idx r)) r user offset left_to_read
     else Some (false, r, user, offset, left_to_read));
  if fault : bool then Some (- EFAULT, r, user, offset) else
  '(fault, r, user, offset, left_to_read) ←
    (if left_to_read >? 0
     then copy_part (u64 (write_idx r - read_idx r)) r user offset left_to_read
     else Some (false, r, user, offset, left_to_read));
  if fault : bool then Some (- EFAULT, r, user, offset) else
  Some (length, r, user, offset).
End copy.

(** *** Connecting *)

(** [struct pisces_cons]: the flag, and the descriptors now open on it. *)
Record pisces_cons := { connected : bool; open_fds : list Z }.

(** Called at every launch, a relaunch after a reset included. *)
Definition pisces_cons_init (c : pisces_cons) : Z * pisces_cons :=
  (0, {| connected := false; open_fds := open_fds c |}).

(** [fd]: what [anon_inode_getfd] returns. *)
Definition pisces_cons_connect (fd : Z) (c : pisces_cons) : Z * pisces_cons :=
  if connected c then (-1, c) else
  let c := {| connected := true; open_fds := open_fds c |} in
  if fd <? 0 then (fd, c) else (fd, {| connected := true; open_fds := fd :: open_fds c |}).

(** The release of a descriptor, when its last user closes it. *)
Definition console_release (fd : Z) (c : pisces_cons) : Z * pisces_cons :=
  (0, {| connected := false; open_fds := filter (λ f, f ≠ fd) (open_fds c) |}).

(** ** The code: the console of a virtual machine *)

(** [struct cons_msg]: 11 packed bytes. *)
Inductive cons_msg_body :=
  | Cursor (x y : Z) | Character (x y c style : Z) | Scroll (lines : Z) | Resolution (cols rows : Z).
Record cons_msg := { op : Z; body : cons_msg_body }.
Definition sizeof_cons_msg : Z := 1 + (4 + 4 + 1 + 1).

(** [struct cons_ring_buf] without its lock; the 16-bit fields are integers. *)
Record cons_ring_buf := {
  ring_read_idx : Z; ring_write_idx : Z; cur_entries : Z; total_entries : Z;
  kick_ipi_vec : Z; kick_apic : Z; msgs : list cons_msg
}.

(** Whether the interrupt wakes the readers. *)
Definition cons_kick (r : cons_ring_buf) : bool := cur_entries r >? 0.

Definition cons_dequeue (r : cons_ring_buf) : option (Z * option cons_msg * cons_ring_buf) :=
  if cur_entries r >? 0 then
    m ← msgs r !! Z.to_nat (ring_read_idx r);
    let cur := u16 (cur_entries r - 1) in
    let read := u16 (ring_read_idx r + 1) in
    if total_entries r =? 0 then None else
    Some (0, Some m, {| ring_read_idx := read mod total_entries r; ring_write_idx := ring_write_idx r;
                        cur_entries := cur; total_entries := total_entries r;
                        kick_ipi_vec := kick_ipi_vec r; kick_apic := kick_apic r; msgs := msgs r |})
  else Some (-1, None, r).

(** [console_read] of [v3_console.c] on a ring in which the wait has ended
    ([interrupted] by a signal, or with an entry): the value returned and the
    message copied out. *)
Definition v3_console_read (size : Z) (copy_fault : bool) (r : cons_ring_buf)
  : option (Z * option cons_msg * cons_ring_buf) :=
  if negb (size =? sizeof_cons_msg) then Some (- EFAULT, None, r) else
  '(ret, m, r) ← cons_dequeue r;
  if ret =? -1 then Some (- EFAULT, None, r) else
  if copy_fault then Some (- EFAULT, None, r) else Some (size, m, r).

(** [POLLIN | POLLRDNORM] *)
Definition console_poll (r : cons_ring_buf) : Z := if cur_entries r >? 0 then Z.lor 1 0x40 else 0.

(** [console_write]: the scan codes sent, one command each; [fault i]: the copy
    of byte [i] from user space fails. *)
Fixpoint console_write_loop (fault : nat → bool) (i : nat) (buf : list byte) (sent : list byte)
  : option Z * list byte :=
  match buf with
  | [] => (None, sent)
  | b :: buf => if fault i then (Some (- EFAULT), sent)
                else console_write_loop fault (S i) buf (sent ++ [b])
  end.
Definition console_write (fault : nat → bool) (buf : list byte) : Z * list byte :=
  let '(err, sent) := console_write_loop fault 0 buf [] in (default (zlen buf) err, sent).

(** What [v3_console_connect] leaves allocated. *)
Inductive resource := ConsState | Irq (irq : Z).
#[export] Instance resource_eq_dec : EqDecision resource.
Proof. solve_decision. Defined.

(** The answers: interrupt number, vector and descriptor (negative: failed), and
    the APIC of CPU 0. *)
Definition v3_console_connect (irq vec fd apic0 : Z) (r : cons_ring_buf)
  : Z * list resource * cons_ring_buf :=
  let set k v := {| ring_read_idx := ring_read_idx r; ring_write_idx := ring_write_idx r;
    cur_entries := cur_entries r; total_entries := total_entries r; kick_ipi_vec := v;
    kick_apic := k; msgs := msgs r |} in
  let k := u16 apic0 in
  if irq <? 0 then (-1, [], set k (kick_ipi_vec r)) else
  let r := set k (u16 vec) in
  if kick_ipi_vec r <? 0 then (-1, [Irq irq], r) else
  if fd <? 0 then (fd, [ConsState; Irq irq], r) else (fd, [ConsState; Irq irq], r).

(** [console_release]: what it sends and what is left allocated. *)
Definition v3_console_release (irq : Z) (held : list resource) : Z * list resource :=
  (0, filter (λ x, x ≠ Irq irq ∧ x ≠ ConsState) held).

(** ** Specification *)

(** The bytes waiting in the ring, and rings a well-behaved enclave leaves. *)
Definition contents (r : pisces_cons_ringbuf) : list byte := cyc (buf r) (read_idx r) (cur_len r).

Record wf (r : pisces_cons_ringbuf) : Prop := {
  wf_buf : zlen (buf r) = BUF_SIZE;
  wf_read : 0 ≤ read_idx r < BUF_SIZE;
  wf_write : 0 ≤ write_idx r < BUF_SIZE;
  wf_len : 0 ≤ cur_len r ≤ BUF_SIZE;
  wf_after : after (buf r) (read_idx r) (cur_len r) (write_idx r)
}.

(** [copy_to_user] into memory that is there. *)
Definition user_copy (user data : list byte) : bool * list byte :=
  match blit user 0 data with Some user => (false, user) | None => (true, user) end.

(** The messages waiting. *)
Definition messages (r : cons_ring_buf) : list cons_msg :=
  cyc (msgs r) (ring_read_idx r) (cur_entries r).

Record msg_wf (r : cons_ring_buf) : Prop := {
  mwf_len : zlen (msgs r) = total_entries r;
  mwf_total : 0 < total_entries r < 2 ^ 16;
  mwf_read : 0 ≤ ring_read_idx r < total_entries r;
  mwf_cur : 0 ≤ cur_entries r ≤ total_entries r
}.

(** ** Lemmas *)

Lemma copy_part_spec copy r user offset left n d user' :
  zlen (buf r) = BUF_SIZE → 0 ≤ read_idx r < BUF_SIZE → 0 ≤ cur_len r ≤ BUF_SIZE →
  0 ≤ n → read_idx r + Z.min n left ≤ BUF_SIZE → 0 ≤ left ≤ cur_len r →
  d = cyc (buf r) (read_idx r) (Z.min n left) → copy user d = (false, user') →
  copy_part copy n r user offset left =
  Some (false, {| read_idx := (read_idx r + Z.min n left) mod BUF_SIZE; write_idx := write_idx r;
                  cur_len := cur_len r - Z.min n left; buf := buf r |}, user',
        offset + Z.min n left, left - Z.min n left).
Proof.
  intros Hb Hr Hc Hn Hm Hl -> Hcp. unfold copy_part.
  assert (BUF_SIZE = 65504) as HB by done.
  replace (if n >? left then left else n) with (Z.min n left) by (rewrite Z.gtb_ltb; case_test; lia).
  rewrite cyc_straight by lia. simpl. rewrite Hcp. rewrite !(wrap_small 64) by (unfold fits; lia). done.
Qed.

(** The ring after [n] bytes were consumed. *)
Lemma consumed r n :
  wf r → 0 ≤ n ≤ cur_len r →
  let r' := {| read_idx := (read_idx r + n) mod BUF_SIZE; write_idx := write_idx r;
               cur_len := cur_len r - n; buf := buf r |} in
  wf r' ∧ contents r' = drop (Z.to_nat n) (contents r).
Proof.
  intros [Hb Hr Hw Hc Ha] Hn r'. assert (BUF_SIZE = 65504) as HB by done.
  assert (after (buf r) (read_idx r) n ((read_idx r + n) mod BUF_SIZE) ∧
          0 ≤ (read_idx r + n) mod BUF_SIZE < BUF_SIZE) as [Haf Hrg].
  { unfold after. rewrite Hb. destruct (decide (read_idx r + n < BUF_SIZE)).
    - rewrite Z.mod_small by lia. lia.
    - assert ((read_idx r + n) mod BUF_SIZE = read_idx r + n - BUF_SIZE) as ->; [|lia].
      symmetry. apply (Z.mod_unique _ _ 1); lia. }
  split.
  - unfold after in *. rewrite Hb in *. unfold r'. split; simpl; try lia. unfold after. rewrite Hb. lia.
  - unfold contents. simpl. symmetry. apply cyc_drop; done || lia.
Qed.

Lemma user_copy_spec user d :
  zlen d ≤ zlen user →
  ∃ u, user_copy user d = (false, u) ∧ delivered user d u.
Proof.
  intros Hl. destruct (delivered_blit user d Hl) as (u&Hb&Hd). exists u. unfold user_copy. by rewrite Hb.
Qed.

(** *** Reading *)

Lemma waiting_length r k : wf r → 0 ≤ k ≤ cur_len r → zlen (cyc (buf r) (read_idx r) k) = k.
Proof. intros [Hb Hr _ Hc _] ?. apply cyc_length; lia. Qed.
Lemma clip_len r len : (if len >? cur_len r then cur_len r else len) = Z.min len (cur_len r).
Proof. rewrite Z.gtb_ltb; case_test; lia. Qed.

Section reading.
Context (r : pisces_cons_ringbuf) (user : list byte) (len offset : Z).
Context (Hwf : wf r) (Hlen : 0 ≤ len).
Local Notation n := (Z.min len (cur_len r)).
Local Notation first := (BUF_SIZE - read_idx r).
Context (Huser : n ≤ zlen user) (Hn : 0 < n).

(** The ring and the answer that a read leaves. *)
Definition read_ring : pisces_cons_ringbuf :=
  {| read_idx := (read_idx r + n) mod BUF_SIZE; write_idx := write_idx r; cur_len := cur_len r - n; buf := buf r |}.
Definition reads (user' : list byte) : Prop :=
  console_read user_copy r user len offset = Some (n, read_ring, user', offset + n).

Lemma some_len : (n >? 0) = true.
Proof using Hn. rewrite Z.gtb_ltb. by apply Z.ltb_lt. Qed.

(** The bytes waiting are in one piece. *)
Lemma read_straight_part :
  read_idx r < write_idx r → n ≤ first ∧ ∃ u, reads u ∧ delivered user (cyc (buf r) (read_idx r) n) u.
Proof using Hwf Hlen Huser Hn.
  intros Hrw. pose proof Hwf as [Hb Hr Hw Hc Ha]. assert (BUF_SIZE = 65504) as HB by done.
  unfold after in Ha. rewrite Hb in Ha. split; [lia|]. unfold reads, console_read. rewrite clip_len, some_len. cbn [andb].
  rewrite Z.geb_leb. destruct (Z.leb_spec (write_idx r) (read_idx r)); [lia|].
  cbn [mbind option_bind]. rewrite some_len, (wrap_small 64) by (unfold fits; lia).
  destruct (user_copy_spec user (cyc (buf r) (read_idx r) n)) as (u&Hu&Hd); [by rewrite waiting_length by (done || lia)|].
  assert (Z.min (write_idx r - read_idx r) n = n) as Hmin by lia.
  rewrite (copy_part_spec _ r user offset n _ (cyc (buf r) (read_idx r) n) u); rewrite ?Hmin; try done; try lia.
  cbn [mbind option_bind]. by exists u.
Qed.

(** They may go round the end. *)
Lemma read_wrapped_parts :
  write_idx r ≤ read_idx r → ∃ u, reads u ∧
    (n ≤ first → delivered user (cyc (buf r) (read_idx r) n) u) ∧
    (first < n → ∃ v, delivered user (cyc (buf r) (read_idx r) first) v ∧ delivered v (cyc (buf r) 0 (n - first)) u).
Proof using Hwf Hlen Huser Hn.
  intros Hrw. pose proof Hwf as [Hb Hr Hw Hc Ha]. assert (BUF_SIZE = 65504) as HB by done.
  unfold after in Ha. rewrite Hb in Ha. unfold reads, console_read. rewrite clip_len, some_len. cbn [andb].
  rewrite Z.geb_leb. destruct (Z.leb_spec (write_idx r) (read_idx r)); [|lia].
  rewrite (wrap_small 64 first) by (unfold fits; lia).
  destruct (user_copy_spec user (cyc (buf r) (read_idx r) (Z.min first n))) as (v&Hv&Hd); [rewrite waiting_length by (done || lia); lia|].
  rewrite (copy_part_spec _ r user offset n first _ v) by (done || lia).
  cbn [mbind option_bind]. destruct (decide (n ≤ first)) as [Hfit|Hfit].
  - rewrite (Z.min_r first n) in * by done. rewrite Z.sub_diag. cbn [Z.gtb Z.compare mbind option_bind].
    exists v. split; [done|]. split; [done|lia].
  - rewrite (Z.min_l first n) in * by lia.
    assert ((n - first >? 0) = true) as -> by (rewrite Z.gtb_ltb; apply Z.ltb_lt; lia).
    rewrite Zplus_minus, Z_mod_same_full. cbn [write_idx read_idx]. rewrite Z.sub_0_r, (wrap_small 64) by (unfold fits; lia).
    destruct (user_copy_spec v (cyc (buf r) 0 (n - first))) as (u&Hu&Hd2).
    { rewrite cyc_length by lia. destruct Hd as [-> _]. lia. }
    rewrite (copy_part_spec _ _ _ _ _ _ (cyc (buf r) 0 (n - first)) u);
      cbn [buf read_idx cur_len]; try done; try lia; [|f_equal; lia].
    rewrite (Z.min_r _ (n - first)) by lia. cbn [mbind option_bind write_idx].
    exists u. split; [|split; [lia|intros _; by exists v]]. unfold read_ring.
    replace (read_idx r + n) with (n - first + 1 * BUF_SIZE) by lia. rewrite Z.mod_add by lia.
    rewrite Z.add_0_l. replace (cur_len r - first - (n - first)) with (cur_len r - n) by lia.
    by replace (offset + first + (n - first)) with (offset + n) by lia.
Qed.
End reading.

(** ** Properties *)

(** C36: Reading the boot console of a well-formed ring into memory large enough
    returns the number of bytes delivered, the smaller of the length asked for
    and the bytes waiting, consumes exactly those and leaves a well-formed ring.
    When the bytes do not wrap around the end of the ring the memory starts with
    them; when they do, the two parts are copied to the same place, so the second
    overwrites the first and the bytes of the first part behind it stay. *)
Theorem console_read_spec (r : pisces_cons_ringbuf) (user : list byte) (len offset : Z)
    (Hwf : wf r) (Hlen : 0 ≤ len) (Huser : Z.min len (cur_len r) ≤ zlen user) :
  let n := Z.min len (cur_len r) in
  let q := take (Z.to_nat n) (contents r) in
  let first := BUF_SIZE - read_idx r in
  ∃ r' user', console_read user_copy r user len offset = Some (n, r', user', offset + n) ∧
  wf r' ∧ contents r' = drop (Z.to_nat n) (contents r) ∧
  (n ≤ first → delivered user q user') ∧
  (first < n → ∃ u, delivered user (take (Z.to_nat first) q) u ∧
                    delivered u (drop (Z.to_nat first) q) user').
Proof.
  intros n q first. pose proof Hwf as [Hb Hr Hw Hc Ha]. assert (BUF_SIZE = 65504) as HB by done.
  assert (q = cyc (buf r) (read_idx r) n) as Hq by (unfold q, contents; apply cyc_take; lia).
  destruct (consumed r n Hwf ltac:(lia)) as [Hwf' Hrest].
  destruct (decide (n = 0)) as [Hn0|Hn0].
  { unfold console_read. rewrite clip_len. fold n. rewrite Hn0. cbn [Z.gtb Z.compare andb mbind option_bind].
    rewrite Z.add_0_r. exists r, user. split_and!; [done|done|by rewrite drop_0| |lia].
    intros _. rewrite Hq, Hn0, cyc_0. unfold delivered. by split_and!. }
  exists (read_ring r len). destruct (Z.lt_ge_cases (read_idx r) (write_idx r)) as [Hrw|Hrw].
  - destruct (read_straight_part r user len offset Hwf Hlen Huser ltac:(lia) Hrw) as (Hfit&u&Hu&Hd).
    exists u. rewrite Hq. split_and!; [done..|lia].
  - destruct (read_wrapped_parts r user len offset Hwf Hlen Huser ltac:(lia) Hrw) as (u&Hu&Hd1&Hd2).
    exists u. split_and!; [done..|by rewrite Hq|]. intros Hf. destruct (Hd2 Hf) as (v&Hv1&Hv2). exists v.
    assert (drop (Z.to_nat first) q = cyc (buf r) 0 (n - first)) as ->.
    { rewrite Hq. apply cyc_drop; try lia. unfold after, first. lia. }
    by rewrite Hq, cyc_take by lia.
Qed.

Definition demo_ring (read n : Z) : pisces_cons_ringbuf :=
  {| read_idx := read; write_idx := (read + n) mod BUF_SIZE; cur_len := n;
     buf := replicate (Z.to_nat BUF_SIZE) Byte.x41 |}.

Lemma demo_ring_wf read n :
  0 ≤ read < BUF_SIZE → 0 ≤ n ≤ BUF_SIZE → wf (demo_ring read n).
Proof.
  intros Hr Hn. assert (BUF_SIZE = 65504) as HB by done.
  split; cbn [buf read_idx write_idx cur_len demo_ring]; try lia.
  - rewrite length_replicate. lia.
  - apply Z.mod_pos_bound. lia.
  - unfold after. rewrite length_replicate, Z2Nat.id by lia.
    destruct (decide (read + n < BUF_SIZE)); [rewrite Z.mod_small by lia; lia|].
    assert ((read + n) mod BUF_SIZE = read + n - BUF_SIZE) as ->; [|lia].
    symmetry. apply (Z.mod_unique _ _ 1); lia.
Qed.

(** Four bytes, two before the end of the ring and two after. *)
Lemma console_read_spec_witness :
  ∃ r' user', console_read user_copy (demo_ring 65502 4) (replicate 8 Byte.x00) 6 0 =
    Some (4, r', user', 0 + 4) ∧ wf r' ∧
  contents r' = drop (Z.to_nat 4) (contents (demo_ring 65502 4)) ∧
  (4 ≤ BUF_SIZE - 65502 →
     delivered (replicate 8 Byte.x00) (take (Z.to_nat 4) (contents (demo_ring 65502 4))) user') ∧
  (BUF_SIZE - 65502 < 4 → ∃ u,
     delivered (replicate 8 Byte.x00)
       (take (Z.to_nat (BUF_SIZE - 65502)) (take (Z.to_nat 4) (contents (demo_ring 65502 4)))) u ∧
     delivered u
       (drop (Z.to_nat (BUF_SIZE - 65502)) (take (Z.to_nat 4) (contents (demo_ring 65502 4)))) user').
Proof.
  apply (console_read_spec (demo_ring 65502 4) (replicate 8 Byte.x00) 6 0).
  - by apply demo_ring_wf.
  - done.
  - done.
Defined.

(** *** One reader at a time *)

Inductive cons_op := Connect (fd : Z) | Release (fd : Z).

(** A descriptor that is released is open, and a new one differs from those. *)
Definition cons_op_ok (c : pisces_cons) (o : cons_op) : Prop :=
  match o with Connect fd => fd ∉ open_fds c | Release fd => fd ∈ open_fds c end.
Definition cons_do (c : pisces_cons) (o : cons_op) : pisces_cons :=
  match o with Connect fd => (pisces_cons_connect fd c).2 | Release fd => (console_release fd c).2 end.

Inductive cons_run : pisces_cons → list cons_op → pisces_cons → Prop :=
  | cons_run_nil c : cons_run c [] c
  | cons_run_cons c o os c' : cons_op_ok c o → cons_run (cons_do c o) os c' → cons_run c (o :: os) c'.

Definition one_reader (c : pisces_cons) : Prop :=
  (length (open_fds c) ≤ 1)%nat ∧ (connected c = false → open_fds c = []).

Lemma cons_do_one_reader c o : cons_op_ok c o → one_reader c → one_reader (cons_do c o).
Proof.
  intros Hok [Hl Hc]. destruct o as [fd|fd]; simpl in *.
  - unfold pisces_cons_connect. destruct (connected c) eqn:E; [split; simpl; [done|congruence]|].
    specialize (Hc eq_refl). destruct (fd <? 0); unfold one_reader; simpl; rewrite Hc; simpl; split; done || lia.
  - destruct (open_fds c) as [|f [|]] eqn:E; simpl in Hl; try lia; [by apply not_elem_of_nil in Hok|].
    apply list_elem_of_singleton in Hok as ->. unfold one_reader. simpl.
    rewrite filter_cons, decide_False by (intros H; by apply H). simpl. split; done || lia.
Qed.

(** After a console is initialised with no descriptor open, every sequence of
    connections and releases keeps at most one descriptor open, and a second
    connection is refused.  A connection whose descriptor cannot be created leaves
    the console connected: every later one is refused although nobody reads.  And
    the initialisation at a relaunch frees the console while a descriptor is still
    open, so a second one can be had. *)
Theorem cons_connect_exclusive (c c' : pisces_cons) (ops : list cons_op)
    (Hc : open_fds c = []) (Hrun : cons_run (pisces_cons_init c).2 ops c') :
  (length (open_fds c') ≤ 1)%nat ∧
  (open_fds c' ≠ [] → ∀ fd, pisces_cons_connect fd c' = (-1, c')) ∧
  (connected c' = false → ∀ err, err < 0 →
     let c1 := (pisces_cons_connect err c').2 in
     open_fds c1 = [] ∧ ∀ fd, pisces_cons_connect fd c1 = (-1, c1)) ∧
  (∀ fd fd', open_fds c' = [fd] → 0 ≤ fd' →
     open_fds (pisces_cons_connect fd' (pisces_cons_init c').2).2 = [fd'; fd]).
Proof.
  assert (one_reader c') as [Hl Hone].
  { assert (one_reader (pisces_cons_init c).2) as H0 by (unfold one_reader; simpl; rewrite Hc; split; [simpl; lia|done]).
    revert H0. clear Hc. induction Hrun; [done|]. intros. apply IHHrun. by apply cons_do_one_reader. }
  split; [done|]. split; [|split].
  - intros Hne fd. unfold pisces_cons_connect. destruct (connected c'); [done|]. by destruct Hne, Hone.
  - intros Hf err He. unfold pisces_cons_connect. rewrite Hf.
    destruct (Z.ltb_spec err 0); [|lia]. simpl. by split; [apply Hone|].
  - intros fd fd' E Hfd. unfold pisces_cons_connect. simpl. destruct (Z.ltb_spec fd' 0); [lia|].
    simpl. by rewrite E.
Qed.

Lemma cons_connect_exclusive_witness :
  (length [5] ≤ 1)%nat ∧ ∀ fd,
  pisces_cons_connect fd {| connected := true; open_fds := [5] |} =
    (-1, {| connected := true; open_fds := [5] |}).
Proof.
  destruct (cons_connect_exclusive {| connected := true; open_fds := [] |}
    {| connected := true; open_fds := [5] |} [Connect 4; Release 4; Connect 5]) as (H1&H2&_).
  - done.
  - apply cons_run_cons; [apply not_elem_of_nil|].
    apply cons_run_cons; [apply list_elem_of_here|].
    apply cons_run_cons; [apply not_elem_of_nil|]. apply cons_run_nil.
  - split; [exact H1|]. by apply H2.
Defined.

(** *** The messages of a virtual machine's console *)

(** Reading a virtual machine's console with a well-formed ring delivers the
    oldest message and removes exactly it; with no message it fails and changes
    nothing; a read of another size than a message's fails first; and a message
    that cannot be copied out is lost.  A ring whose announced capacity is zero,
    with a message announced, makes the host divide by zero. *)
Theorem v3_console_read_spec (r : cons_ring_buf) (size : Z) (fault : bool)
    (Hwf : msg_wf r) (Hsize : size = sizeof_cons_msg) :
  (messages r = [] → v3_console_read size fault r = Some (- EFAULT, None, r)) ∧
  (∀ m ms, messages r = m :: ms → ∃ r', msg_wf r' ∧ messages r' = ms ∧
     cons_kick r = true ∧
     v3_console_read size fault r =
       Some (if fault then (- EFAULT, None, r') else (size, Some m, r'))) ∧
  (∀ size', size' ≠ sizeof_cons_msg → v3_console_read size' fault r = Some (- EFAULT, None, r)) ∧
  (∀ r0, total_entries r0 = 0 → 0 < cur_entries r0 → v3_console_read size fault r0 = None).
Proof.
  destruct Hwf as [Hl Ht Hr Hc]. subst size. unfold v3_console_read. rewrite Z.eqb_refl. cbn [negb].
  pose proof (cyc_length (msgs r) (ring_read_idx r) (cur_entries r) ltac:(lia) ltac:(lia)) as Hlen.
  split_and!.
  - intros H0. unfold messages in H0. rewrite H0 in Hlen. simpl in Hlen.
    unfold cons_dequeue. rewrite <-Hlen. done.
  - intros m ms Hm. unfold messages in Hm. rewrite Hm in Hlen. simpl in Hlen.
    assert (ring_read_idx r + 1 < 2 ^ 16 ∨ ring_read_idx r + 1 = total_entries r) by lia.
    assert (∃ nx, (u16 (ring_read_idx r + 1)) mod total_entries r = nx ∧ 0 ≤ nx < total_entries r ∧
      after (msgs r) (ring_read_idx r) 1 nx) as (nx&Hnx&Hnxr&Hafter).
    { eexists. split; [reflexivity|]. rewrite (wrap_small 16) by (unfold fits; lia). split; [by apply Z.mod_pos_bound; lia|].
      unfold after. rewrite Hl. destruct (decide (ring_read_idx r + 1 = total_entries r)) as [->|].
      - rewrite Z.mod_same by lia. lia.
      - rewrite Z.mod_small by lia. lia. }
    exists {| ring_read_idx := nx; ring_write_idx := ring_write_idx r; cur_entries := cur_entries r - 1;
         total_entries := total_entries r; kick_ipi_vec := kick_ipi_vec r; kick_apic := kick_apic r;
         msgs := msgs r |}.
    split; [by split; simpl; lia|]. split; [|split].
    + unfold messages. simpl.
      rewrite <-(cyc_drop (msgs r) (ring_read_idx r) (cur_entries r) 1) by (done || lia).
      rewrite Hm. done.
    + unfold cons_kick. rewrite Z.gtb_ltb. apply Z.ltb_lt. lia.
    + unfold cons_dequeue. rewrite Z.gtb_ltb. destruct (Z.ltb_spec 0 (cur_entries r)); [|lia].
      assert (msgs r !! Z.to_nat (ring_read_idx r) = Some m) as ->.
      { pose proof (cyc_lookup (msgs r) (ring_read_idx r) (cur_entries r) 0%nat ltac:(lia) ltac:(lia)
          ltac:(lia)) as Hh. rewrite Hm, bool_decide_true, Nat.add_0_r in Hh by lia. done. }
      cbn [mbind option_bind]. destruct (Z.eqb_spec (total_entries r) 0); [lia|].
      cbn [mbind option_bind Z.eqb]. rewrite Hnx, (wrap_small 16) by (unfold fits; lia).
      by destruct fault.
  - intros size' Hs. by destruct (Z.eqb_spec size' sizeof_cons_msg).
  - intros r0 H0 Hc0. unfold cons_dequeue. rewrite Z.gtb_ltb. destruct (Z.ltb_spec 0 (cur_entries r0)); [|lia].
    destruct (msgs r0 !! Z.to_nat (ring_read_idx r0)); [|done]. simpl. by rewrite H0.
Qed.

Definition demo_msgs : cons_ring_buf :=
  {| ring_read_idx := 1; ring_write_idx := 1; cur_entries := 2; total_entries := 2; kick_ipi_vec := 0;
     kick_apic := 0; msgs := [{| op := 3; body := Scroll 1 |}; {| op := 1; body := Cursor 2 3 |}] |}.

Lemma v3_console_read_spec_witness :
  ∃ r', msg_wf r' ∧ messages r' = [{| op := 3; body := Scroll 1 |}] ∧ cons_kick demo_msgs = true ∧
  v3_console_read 11 false demo_msgs = Some (11, Some {| op := 1; body := Cursor 2 3 |}, r').
Proof.
  destruct (v3_console_read_spec demo_msgs 11 false) as (_&H&_).
  - split; simpl; lia.
  - reflexivity.
  - by apply (H {| op := 1; body := Cursor 2 3 |} [{| op := 3; body := Scroll 1 |}]).
Defined.

(** The 16-bit vector field is never negative: a failed conversion of the
    interrupt goes unnoticed, and the console is connected with vector 65535. *)
Lemma v3_connect_vector_unchecked irq fd apic0 r :
  0 ≤ irq → 0 ≤ fd →
  let '(ret, held, r') := v3_console_connect irq (-1) fd apic0 r in
  ret = fd ∧ held = [ConsState; Irq irq] ∧ kick_ipi_vec r' = 65535.
Proof.
  intros. unfold v3_console_connect. destruct (Z.ltb_spec irq 0); [lia|]. simpl.
  destruct (Z.ltb_spec fd 0); [lia|]. done.
Qed.

(** Without a descriptor nothing is given back. *)
Lemma v3_connect_leaks irq vec fd apic0 r :
  0 ≤ irq → fd < 0 → (v3_console_connect irq vec fd apic0 r).1 = (fd, [ConsState; Irq irq]).
Proof.
  intros. unfold v3_console_connect. destruct (Z.ltb_spec irq 0); [lia|]. simpl.
  pose proof (wrap_fits 16 vec ltac:(lia)) as Hf. unfold fits in Hf.
  destruct (Z.ltb_spec (u16 vec) 0); [lia|]. by destruct (Z.ltb_spec fd 0); [|lia].
Qed.
