(* ===== verification/Resources.v ===== *)
(** * Resources of an enclave ([src/enclave.c])

    The processors and memory blocks an enclave was given, and the table of
    enclaves.  [cpumask_t] is an integer's bits below
    [NR_CPUS], the list of memory blocks is in list order.  [None] is undefined
    behaviour: a bit outside of the mask, a NULL pointer followed. *)
From S2P Require Import Prelude.
From stdpp Require Import sorting.
#[local] Open Scope Z_scope.

(** ** The code *)

Record enclave_mem_block := { base_addr : Z; pages : Z }.

(** The fields of [struct pisces_enclave] these functions use. *)
Record resources := {
  num_cpus : Z;
  assigned_cpus : Z;
  memdesc_list : list enclave_mem_block;
  memdesc_num : Z
}.

Definition no_resources : resources :=
  {| num_cpus := 0; assigned_cpus := 0; memdesc_list := []; memdesc_num := 0 |}.

(** [for_each_cpu] *)
Definition for_each_cpu (NR_CPUS mask : Z) : list Z :=
  filter (λ c, Z.testbit mask c = true) (seqZ 0 NR_CPUS).

(** [cpu_id] is a [u32]. *)
Definition pisces_enclave_add_cpu (NR_CPUS cpu_id : Z) (r : resources) : option (Z * resources) :=
  let cpu_id := u32 cpu_id in
  if cpu_id >=? NR_CPUS then None else
  if Z.testbit (assigned_cpus r) cpu_id then Some (-1, r) else
  Some (0, {| num_cpus := u32 (num_cpus r + 1); assigned_cpus := Z.setbit (assigned_cpus r) cpu_id;
              memdesc_list := memdesc_list r; memdesc_num := memdesc_num r |}).

(** The [list_for_each_entry] of [pisces_enclave_add_mem]. *)
Fixpoint insert_block (b : enclave_mem_block) (l : list enclave_mem_block) : list enclave_mem_block :=
  match l with
  | [] => []
  | iter :: rest =>
      if base_addr iter >? base_addr b then b :: iter :: rest
      else match rest with [] => [iter; b] | _ => iter :: insert_block b rest end
  end.

(** [pages] is a [u32].  [kmalloc] returns NULL when it fails, which is not what
    the code tests. *)
Definition pisces_enclave_add_mem (kmalloc_ok : bool) (base pages : Z) (r : resources)
  : option (Z * resources) :=
  if negb kmalloc_ok then None else
  let memdesc := {| base_addr := base; pages := u32 pages |} in
  Some (0, {| num_cpus := num_cpus r; assigned_cpus := assigned_cpus r;
              memdesc_list := if memdesc_num r =? 0 then memdesc :: memdesc_list r
                              else insert_block memdesc (memdesc_list r);
              memdesc_num := u32 (memdesc_num r + 1) |}).

(** *** The table of enclaves: [enclave_map], the pointers (0 is NULL) *)

Definition MAX_ENCLAVES : nat := 128.
Definition enclave_map_init : list Z := replicate MAX_ENCLAVES 0.

(** The loop from index [i] on. *)
Fixpoint alloc_loop (enclave i : Z) (m : list Z) : Z * list Z :=
  match m with
  | [] => (-1, [])
  | p :: m => if p =? 0 then (i, enclave :: m)
              else let '(ret, m) := alloc_loop enclave (i + 1) m in (ret, p :: m)
  end.
Definition alloc_enclave_index (enclave : Z) (m : list Z) : Z * list Z := alloc_loop enclave 0 m.
Definition free_enclave_index (idx : Z) (m : list Z) : list Z := <[Z.to_nat idx := 0]> m.

(** ** Specification *)

Definition block_le (a b : enclave_mem_block) : Prop := base_addr a ≤ base_addr b.

(** The counts count, and the blocks are in address order. *)
Record wf (NR_CPUS : Z) (r : resources) : Prop := {
  wf_cpus : num_cpus r = zlen (for_each_cpu NR_CPUS (assigned_cpus r));
  wf_mask : 0 ≤ assigned_cpus r;
  wf_blocks : StronglySorted block_le (memdesc_list r);
  wf_num : memdesc_num r = zlen (memdesc_list r)
}.

(** Requests to the two functions, and the state after them. *)
Inductive request := AddCpu (cpu_id : Z) | AddMem (base pages : Z).
Definition serve (NR_CPUS : Z) (q : request) (r : resources) : option (Z * resources) :=
  match q with
  | AddCpu c => pisces_enclave_add_cpu NR_CPUS c r
  | AddMem b p => pisces_enclave_add_mem true b p r
  end.
Fixpoint serve_all (NR_CPUS : Z) (qs : list request) (r : resources) : option (list Z * resources) :=
  match qs with
  | [] => Some ([], r)
  | q :: qs => '(ret, r) ← serve NR_CPUS q r;
               '(rets, r) ← serve_all NR_CPUS qs r; Some (ret :: rets, r)
  end.

Definition request_ok (NR_CPUS : Z) (q : request) : Prop :=
  match q with AddCpu c => 0 ≤ c < NR_CPUS | AddMem _ p => fits 32 p end.

(** What was asked for, in the order of the requests. *)
Definition cpus_of (qs : list request) : list Z := omap (λ q, match q with AddCpu c => Some c | _ => None end) qs.
Definition blocks_of (qs : list request) : list enclave_mem_block :=
  omap (λ q, match q with AddMem b p => Some {| base_addr := b; pages := p |} | _ => None end) qs.

(** ** Lemmas *)

Lemma insert_block_perm b l : l ≠ [] → insert_block b l ≡ₚ b :: l.
Proof.
  induction l as [|i l IH]; [done|]. intros _. simpl. case_test; [done|].
  destruct l as [|j l]; [by apply Permutation_swap|]. rewrite IH by done. by apply Permutation_swap.
Qed.

Lemma insert_block_sorted b l :
  StronglySorted block_le l → StronglySorted block_le (insert_block b l).
Proof.
  intros Hs. induction Hs as [|i l Hs IH Hall]; [constructor|]. simpl.
  rewrite Z.gtb_ltb. destruct (Z.ltb_spec (base_addr b) (base_addr i)) as [Hlt|Hge].
  - constructor; [by constructor|]. constructor; [unfold block_le; lia|].
    eapply Forall_impl; [exact Hall|]. unfold block_le. intros. lia.
  - destruct l as [|j l]; [repeat constructor; done|].
    constructor; [done|]. rewrite insert_block_perm by done. by constructor.
Qed.

Lemma for_each_cpu_set n m c :
  0 ≤ c < n → Z.testbit m c = false →
  for_each_cpu n (Z.setbit m c) ≡ₚ c :: for_each_cpu n m.
Proof.
  intros Hc Hb. unfold for_each_cpu. apply NoDup_Permutation.
  - apply NoDup_filter, NoDup_seqZ.
  - constructor; [|apply NoDup_filter, NoDup_seqZ]. rewrite list_elem_of_filter. intros [Ht _]. congruence.
  - intros x. rewrite elem_of_cons, !list_elem_of_filter, elem_of_seqZ.
    destruct (decide (x = c)) as [->|Hne].
    + rewrite Z.setbit_eq by lia. split; [by left|]. intros _. split; [done|lia].
    + split.
      * intros [Ht Hr]. rewrite Z.setbit_neq in Ht by lia. naive_solver.
      * intros [?|[Ht Hr]]; [done|]. rewrite Z.setbit_neq by lia. done.
Qed.

Lemma for_each_cpu_length n m : 0 ≤ n → zlen (for_each_cpu n m) ≤ n.
Proof.
  intros. unfold for_each_cpu. pose proof (length_filter (λ c, Z.testbit m c = true) (seqZ 0 n)) as H1.
  rewrite length_seqZ in H1. lia.
Qed.

Lemma elem_of_for_each_cpu n m c :
  c ∈ for_each_cpu n m ↔ 0 ≤ c < n ∧ Z.testbit m c = true.
Proof.
  unfold for_each_cpu. rewrite list_elem_of_filter, elem_of_seqZ, Z.add_0_l. tauto.
Qed.

(** What each request is answered, given the processors already there. *)
Fixpoint answers (seen : list Z) (qs : list request) : list Z :=
  match qs with
  | [] => []
  | AddCpu c :: qs => (if decide (c ∈ seen) then -1 else 0) :: answers (c :: seen) qs
  | AddMem _ _ :: qs => 0 :: answers seen qs
  end.

Lemma answers_proper s1 s2 qs : (∀ c, c ∈ s1 ↔ c ∈ s2) → answers s1 qs = answers s2 qs.
Proof.
  revert s1 s2. induction qs as [|[c|b p] qs IH]; intros s1 s2 Hs; simpl; [done| |f_equal; by apply IH].
  f_equal; [|apply IH; intros x; rewrite !elem_of_cons; naive_solver].
  destruct (decide (c ∈ s1)), (decide (c ∈ s2)); naive_solver.
Qed.

Section track.
Context (n : Z) (Hn : 0 ≤ n < 2 ^ 32).

Lemma serve_spec q r :
  request_ok n q → wf n r → zlen (memdesc_list r) < 2 ^ 32 - 1 →
  ∃ ret r', serve n q r = Some (ret, r') ∧ wf n r' ∧
    [ret] = answers (for_each_cpu n (assigned_cpus r)) [q] ∧
    (∀ c, c ∈ for_each_cpu n (assigned_cpus r') ↔
          c ∈ for_each_cpu n (assigned_cpus r) ∨ q = AddCpu c) ∧
    memdesc_list r' ≡ₚ blocks_of [q] ++ memdesc_list r.
Proof using Hn.
  intros Hq [Hc Hm Hb Hl] Hlen. destruct q as [c|b p]; simpl in *.
  - unfold pisces_enclave_add_cpu. rewrite (wrap_small 32) by (unfold fits; lia).
    rewrite Z.geb_leb. destruct (Z.leb_spec n c); [lia|].
    destruct (Z.testbit (assigned_cpus r) c) eqn:Hbit.
    + exists (-1), r. split; [done|]. split; [by split|]. split; [|split].
      * rewrite decide_True; [done|]. by apply elem_of_for_each_cpu.
      * intros x. split; [by left|]. intros [?|[= ->]]; [done|]. by apply elem_of_for_each_cpu.
      * done.
    + pose proof (for_each_cpu_set n (assigned_cpus r) c Hq Hbit) as Hp.
      pose proof (for_each_cpu_length n (Z.setbit (assigned_cpus r) c) ltac:(lia)) as Hle.
      rewrite Hp in Hle. simpl in Hle.
      eexists 0, _. split; [reflexivity|]. split; [split; simpl|split; [|split; simpl]].
      * rewrite Hp. simpl. rewrite (wrap_small 32) by (unfold fits; lia). lia.
      * rewrite Z.setbit_spec'. apply Z.lor_nonneg. split; [done|]. apply Z.pow_nonneg. lia.
      * done.
      * done.
      * rewrite decide_False; [done|]. rewrite elem_of_for_each_cpu. intros [_ ?]. congruence.
      * intros x. rewrite Hp, elem_of_cons.
        split; [intros [->|?]; [by right|by left]|intros [?|[= ->]]; [by right|by left]].
      * done.
  - unfold pisces_enclave_add_mem. cbn [negb]. rewrite (wrap_small 32 p) by done.
    set (d := {| base_addr := b; pages := p |}).
    set (l' := if memdesc_num r =? 0 then d :: memdesc_list r else insert_block d (memdesc_list r)).
    assert (l' ≡ₚ d :: memdesc_list r ∧ StronglySorted block_le l') as [Hp Hs].
    { unfold l'. rewrite Hl. destruct (memdesc_list r) as [|i l] eqn:E; [by split; [|repeat constructor]|].
      rewrite (proj2 (Z.eqb_neq _ _)) by (simpl; lia).
      split; [by apply insert_block_perm|by apply insert_block_sorted]. }
    eexists 0, _. split; [reflexivity|]. split; [split; simpl; try done|split; [done|split; simpl]].
    + fold l'. rewrite Hp. simpl. rewrite (wrap_small 32) by (unfold fits; lia). lia.
    + intros x. split; [by left|by intros [?|?]].
    + done.
Qed.
End track.

Lemma no_resources_wf n : wf n no_resources.
Proof.
  split; simpl; try done; [|constructor].
  assert (∀ l, filter (λ c, Z.testbit 0 c = true) l = []) as Hf.
  { induction l as [|x l IH]; [done|]. rewrite filter_cons, decide_False, IH; [done|].
    by rewrite Z.testbit_0_l. }
  unfold for_each_cpu. by rewrite Hf.
Qed.

(** ** Properties *)

(** C32: For every sequence of valid requests to a fresh enclave, all are served
    without undefined behaviour; a processor is refused exactly when it was added
    before; afterwards the mask holds exactly the processors added and [num_cpus]
    counts them, and the memory blocks are exactly those added (with
    multiplicity), in address order, with [memdesc_num] their number. *)
Theorem resources_track (n : Z) (qs : list request)
    (Hn : 0 ≤ n < 2 ^ 32) (Hqs : Forall (request_ok n) qs) (Hlen : zlen qs < 2 ^ 32) :
  ∃ r, serve_all n qs no_resources = Some (answers [] qs, r) ∧ wf n r ∧
  (∀ c, c ∈ for_each_cpu n (assigned_cpus r) ↔ c ∈ cpus_of qs) ∧
  memdesc_list r ≡ₚ blocks_of qs.
Proof.
  pose proof (no_resources_wf n) as H0.
  assert (∀ r, wf n r → zlen (memdesc_list r) + zlen qs < 2 ^ 32 →
    ∃ r', serve_all n qs r = Some (answers (for_each_cpu n (assigned_cpus r)) qs, r') ∧ wf n r' ∧
      (∀ c, c ∈ for_each_cpu n (assigned_cpus r') ↔
            c ∈ for_each_cpu n (assigned_cpus r) ∨ c ∈ cpus_of qs) ∧
      memdesc_list r' ≡ₚ blocks_of qs ++ memdesc_list r) as Hgen.
  { clear H0 Hlen. induction Hqs as [|q qs Hq Hqs IH]; intros r Hwf Hl; simpl in *.
    { exists r. split; [done|]. split; [done|]. split; [|done].
      intros c. split; [by left|]. intros [?|Hf]; [done|]. by apply not_elem_of_nil in Hf. }
    destruct (serve_spec n Hn q r Hq Hwf ltac:(lia)) as (ret&r1&->&Hwf1&Hret&Hc1&Hm1).
    cbn [mbind option_bind].
    destruct (IH r1 Hwf1) as (r2&->&Hwf2&Hc2&Hm2).
    { rewrite Hm1, length_app. destruct q; simpl; lia. }
    cbn [mbind option_bind]. exists r2. split; [|split; [done|split]].
    - do 2 f_equal. destruct q as [c|b p]; simpl in *; injection Hret as ->.
      + f_equal. apply answers_proper. intros x. rewrite Hc1, elem_of_cons. naive_solver.
      + f_equal. apply answers_proper. intros x. rewrite Hc1. split; [by intros [?|?]|by left].
    - intros c. rewrite Hc2, Hc1. destruct q; simpl; rewrite ?elem_of_cons; naive_solver.
    - rewrite Hm2, Hm1. destruct q; simpl; [done|]. by rewrite Permutation_middle. }
  destruct (Hgen no_resources H0 Hlen) as (r&Hs&Hwf&Hc&Hm).
  exists r. pose proof (wf_cpus n _ H0) as Hz. simpl in Hz.
  destruct (for_each_cpu n 0) eqn:E; [|simpl in Hz; lia].
  simpl in Hs, Hc. rewrite E in Hs, Hc. split; [done|]. split; [done|]. split.
  - intros c. rewrite Hc. split; [|by right]. intros [Hf|?]; [by apply not_elem_of_nil in Hf|done].
  - by rewrite Hm, app_nil_r.
Qed.

Lemma resources_track_witness :
  let qs := [AddMem 0x2000 1; AddCpu 3; AddMem 0x1000 2; AddCpu 3; AddCpu 0] in
  ∃ r, serve_all 8 qs no_resources = Some ([0; 0; 0; -1; 0], r) ∧ wf 8 r ∧
  (∀ c, c ∈ for_each_cpu 8 (assigned_cpus r) ↔ c ∈ cpus_of qs) ∧
  memdesc_list r ≡ₚ blocks_of qs.
Proof.
  apply (resources_track 8 [AddMem 0x2000 1; AddCpu 3; AddMem 0x1000 2; AddCpu 3; AddCpu 0]).
  - done.
  - repeat constructor; simpl; unfold fits; lia.
  - done.
Defined.

(** Allocating an index takes the first free entry of the table for the
    enclave and changes nothing else, or fails exactly when the table is full,
    leaving it as it was; freeing the index gives the previous table back. *)
Theorem enclave_index_spec (enclave : Z) (m : list Z) :
  let '(ret, m') := alloc_enclave_index enclave m in
  (ret = -1 ∧ m' = m ∧ 0 ∉ m) ∨
  (∃ i : nat, ret = Z.of_nat i ∧ m !! i = Some 0 ∧ (∀ j, (j < i)%nat → m !! j ≠ Some 0) ∧
     m' = <[i := enclave]> m ∧ free_enclave_index ret m' = m).
Proof.
  unfold alloc_enclave_index.
  assert (∀ k, 0 ≤ k → let '(ret, m') := alloc_loop enclave k m in
    (ret = -1 ∧ m' = m ∧ 0 ∉ m) ∨
    (∃ i : nat, ret = k + Z.of_nat i ∧ m !! i = Some 0 ∧ (∀ j, (j < i)%nat → m !! j ≠ Some 0) ∧
       m' = <[i := enclave]> m)) as H.
  { induction m as [|p m IH]; intros k Hk; simpl.
    - left. split; [done|]. split; [done|]. apply not_elem_of_nil.
    - destruct (Z.eqb_spec p 0) as [->|Hp].
      + right. exists 0%nat. simpl. split_and!; try done; lia.
      + specialize (IH (k + 1) ltac:(lia)). destruct (alloc_loop enclave (k + 1) m) as [ret m'].
        destruct IH as [(->&->&H0)|(i&->&Hi&Hj&->)].
        * left. split; [done|]. split; [done|]. rewrite elem_of_cons. naive_solver.
        * right. exists (S i). simpl. split_and!; [lia|done| |done].
          intros [|j] Hlt; simpl; [congruence|]. apply Hj. lia. }
  specialize (H 0 ltac:(lia)). destruct (alloc_loop enclave 0 m) as [ret m'].
  destruct H as [?|(i&->&Hi&Hj&->)]; [by left|]. right. exists i.
  split_and!; try done; try lia. unfold free_enclave_index.
  rewrite Z.add_0_l, Nat2Z.id, list_insert_insert_eq. by apply list_insert_id.
Qed.
