(* ===== verification/Ctrl.v ===== *)
(** * The control channel ([src/enclave_ctrl.c], [src/ctrl_ioctl.h])

    The commands the host sends an enclave: their packed layout, and the control
    calls of the host's processes.  A command is sent with [pisces_xbuf_sync_send]
    ([XbufRpc]): here the bytes handed to it are recorded and its return value
    and the response's status are a function of everything sent.  [None] is a
    read outside of an object, another undefined behaviour of a callee, or a
    trampoline lock that is never free. *)
From S2P Require Import Prelude Resources Pci Pgtables Trampoline Boot Cons.
#[local] Open Scope Z_scope.

(** ** The code: commands ([src/ctrl_ioctl.h]) *)

Definition PISCES_CMD_ADD_CPU : Z := 100.
Definition PISCES_CMD_ADD_MEM : Z := 101.
Definition PISCES_CMD_REMOVE_CPU : Z := 110.
Definition PISCES_CMD_REMOVE_MEM : Z := 111.
Definition PISCES_CMD_CREATE_VM : Z := 120.
Definition PISCES_CMD_FREE_VM : Z := 121.
Definition PISCES_CMD_LAUNCH_VM : Z := 122.
Definition PISCES_CMD_STOP_VM : Z := 123.
Definition PISCES_CMD_PAUSE_VM : Z := 124.
Definition PISCES_CMD_CONTINUE_VM : Z := 125.
Definition PISCES_CMD_VM_DBG : Z := 141.
Definition PISCES_CMD_VM_CONS_CONNECT : Z := 150.
Definition PISCES_CMD_ADD_V3_PCI : Z := 180.
Definition PISCES_CMD_FREE_V3_PCI : Z := 190.
Definition PISCES_CMD_LAUNCH_JOB : Z := 200.
Definition PISCES_CMD_LOAD_FILE : Z := 201.
Definition PISCES_CMD_STORE_FILE : Z := 202.
Definition PISCES_CMD_SHUTDOWN : Z := 900.

(** The sizes of the packed structures. *)
Definition sizeof_pisces_cmd : Z := 8 + 4.
Definition sizeof_memory_range : Z := 8 + 8.
Definition sizeof_vm_path : Z := 256 + 128.
Definition sizeof_pisces_pci_spec : Z := 128 + 4 + 4 + 4.
Definition sizeof_pisces_dbg_spec : Z := 4 + 4 + 4.
Definition sizeof_pisces_job_spec : Z := 64 + 256 + 256 + 256 + 8 + 1 + 8 + 8 + 8.
Definition sizeof_pisces_file_pair : Z := 128 + 128.
Definition sizeof_cmd_cpu_add : Z := sizeof_pisces_cmd + 8 + 8.
Definition sizeof_cmd_mem_add : Z := sizeof_pisces_cmd + 8 + 8.
Definition sizeof_cmd_vm_ctrl : Z := sizeof_pisces_cmd + 4.
Definition sizeof_cmd_add_pci_dev : Z := sizeof_pisces_cmd + sizeof_pisces_pci_spec + 4.
Definition sizeof_cmd_free_pci_dev : Z := sizeof_pisces_cmd + sizeof_pisces_pci_spec.

(** A command structure of [size] bytes: its header, and what follows. *)
Definition command (cmd size : Z) (payload : list byte) : list byte :=
  le 8 cmd ++ le 4 (size - sizeof_pisces_cmd) ++ payload.

Definition cmd_cpu_add (cmd cpu_id apic_id : Z) : list byte :=
  command cmd sizeof_cmd_cpu_add (le 8 cpu_id ++ le 8 apic_id).
Definition cmd_mem_add (phys_addr size : Z) : list byte :=
  command PISCES_CMD_ADD_MEM sizeof_cmd_mem_add (le 8 phys_addr ++ le 8 size).
Definition cmd_vm_ctrl (cmd vm_id : Z) : list byte := command cmd sizeof_cmd_vm_ctrl (le 4 vm_id).
Definition cmd_add_pci_dev (spec : list byte) : list byte :=
  command PISCES_CMD_ADD_V3_PCI sizeof_cmd_add_pci_dev (spec ++ le 4 0).
Definition cmd_free_pci_dev (spec : list byte) : list byte :=
  command PISCES_CMD_FREE_V3_PCI sizeof_cmd_free_pci_dev spec.

(** The fields of a [struct pisces_pci_spec]: a C string and three words. *)
Fixpoint cstr (l : list byte) : list Z :=
  match l with [] => [] | b :: l => if Z_of_byte b =? 0 then [] else Z_of_byte b :: cstr l end.
Definition pci_spec_of (s : list byte) : pisces_pci_spec :=
  {| sp_name := cstr (take 128 s); sp_bus := unle (take 4 (drop 128 s));
     sp_dev := unle (take 4 (drop 132 s)); sp_func := unle (take 4 (drop 136 s)) |}.

(** ** The code: sending *)

Section ctrl.
Context {S : Type} `{TrampolineOps S}.

Record enclave := {
  running : bool;              (* state == ENCLAVE_RUNNING *)
  res : resources;
  pci : enclave_pci_state;
  boot : boot_state S;
  sent : list (list byte)      (* the commands handed to the channel *)
}.

Definition with_res (e : enclave) (r : resources) : enclave :=
  {| running := running e; res := r; pci := pci e; boot := boot e; sent := sent e |}.
Definition with_pci (e : enclave) (p : enclave_pci_state) : enclave :=
  {| running := running e; res := res e; pci := p; boot := boot e; sent := sent e |}.
Definition with_boot (e : enclave) (b : boot_state S) : enclave :=
  {| running := running e; res := res e; pci := pci e; boot := b; sent := sent e |}.

(** What the rest of the kernel answers. *)
Record env := {
  NR_CPUS : Z;
  apicid : Z → Z;                               (* cpu_present_to_apicid *)
  sync : list (list byte) → Z * Z;              (* return value and resp->status *)
  kmalloc_ok : bool;
  pci_env : add_env;
  ts : trampoline_data; pml_bytes : memory → list byte;
  bootmem_pa : Z; bootmem_sz : Z;
  cons_irq : Z; cons_vec : Z; cons_fd : Z; ring_at : Z → cons_ring_buf
}.
Context (v : env).

(** [pisces_xbuf_sync_send(desc, &cmd, len, &resp, &resp_len)]. *)
Definition xbuf_sync_send (cmd : list byte) (len : Z) (e : enclave) : option (Z * Z * enclave) :=
  bytes ← slice cmd 0 len;
  let sent := sent e ++ [bytes] in
  let '(ret, status) := sync v sent in
  Some (ret, u64 status, {| running := running e; res := res e; pci := pci e; boot := boot e;
                            sent := sent |}).

(** The status of a call into an [int], -1 when it could not be made. *)
Definition sync_status (cmd : list byte) (len : Z) (e : enclave) : option (Z * enclave) :=
  '(ret, status, e) ← xbuf_sync_send cmd len e;
  Some (if ret =? 0 then s32 status else -1, e).

Definition send_vm_cmd (cmd_id vm_id : Z) (e : enclave) : option (Z * enclave) :=
  '(ret, status, e) ← xbuf_sync_send (cmd_vm_ctrl cmd_id vm_id) sizeof_cmd_vm_ctrl e;
  if negb (ret =? 0) then Some (-1, e) else Some (s64 status, e).

Definition ctrl_add_mem (base pages : Z) (e : enclave) : option (Z * enclave) :=
  '(ret, _, e) ← xbuf_sync_send (cmd_mem_add base (u64 (pages * 4096))) sizeof_cmd_mem_add e;
  Some (if ret =? 0 then 0 else -1, e).

Definition ctrl_add_cpu (cpu_id : Z) (e : enclave) : option (Z * enclave) :=
  '(_, b) ← pisces_setup_trampoline (ts v) (pml_bytes v) (bootmem_pa v) (bootmem_sz v) (boot e);
  '(status, e) ← sync_status (cmd_cpu_add PISCES_CMD_ADD_CPU cpu_id (apicid v cpu_id))
                   sizeof_cmd_cpu_add (with_boot e b);
  let '(_, b) := pisces_restore_trampoline (boot e) in
  Some (if negb (status =? 0) then -1 else 0, with_boot e b).

(** [spec]: the bytes of the [struct pisces_pci_spec]. *)
Definition ctrl_add_pci (spec : list byte) (e : enclave) : option (Z * enclave) :=
  '(status, e) ← sync_status (cmd_add_pci_dev spec) sizeof_cmd_add_pci_dev e;
  if negb (status =? 0) then
    let '(_, p, _) := enclave_pci_remove_dev (pci e) (pci_spec_of spec) in
    Some (-1, with_pci e p)
  else Some (0, e).

(** ** The code: the control calls *)

(** [copy_from_user(&x, argp, n)] where the process's memory at [argp] is [user]. *)
Definition copy_from_user (user : list byte) (n : Z) : option (list byte) := slice user 0 n.

(** The cases that pass a structure through: copied in, sent, status returned. *)
Definition forward (cmd n : Z) (user : list byte) (e : enclave) : option (Z * enclave) :=
  match copy_from_user user n with
  | None => Some (- EFAULT, e)
  | Some spec =>
      '(status, e) ← sync_status (command cmd (sizeof_pisces_cmd + n) spec) (sizeof_pisces_cmd + n) e;
      if status <? 0 then Some (-1, e) else Some (status, e)
  end.

(** The cases of which only the call's own success counts. *)
Definition plain (len : Z) (bytes : list byte) (e : enclave) : option (Z * enclave) :=
  '(ret, _, e) ← xbuf_sync_send bytes len e; Some (if ret =? 0 then 0 else -1, e).

(** One definition for each case; a structure that cannot be copied in is [-EFAULT]. *)
Definition case_add_cpu (cpu_id : Z) (e : enclave) : option (Z * enclave) :=
  '(r, res') ← pisces_enclave_add_cpu (NR_CPUS v) cpu_id (res e);
  let e := with_res e res' in
  if negb (r =? 0) then Some (-1, e) else ctrl_add_cpu cpu_id e.

Definition case_remove_cpu (cpu_id : Z) (e : enclave) : option (Z * enclave) :=
  '(status, e) ← sync_status (cmd_cpu_add PISCES_CMD_REMOVE_CPU cpu_id (apicid v cpu_id))
                   sizeof_cmd_cpu_add e;
  Some (if negb (status =? 0) then -1 else 0, e).

Definition case_add_mem (user : list byte) (e : enclave) : option (Z * enclave) :=
  match copy_from_user user sizeof_memory_range with
  | None => Some (- EFAULT, e)
  | Some reg =>
      let base := unle (take 8 reg) in let pages := unle (take 8 (drop 8 reg)) in
      '(r, res') ← pisces_enclave_add_mem (kmalloc_ok v) base pages (res e);
      let e := with_res e res' in
      if negb (r =? 0) then Some (-1, e) else ctrl_add_mem base pages e
  end.

Definition case_add_v3_pci (user : list byte) (e : enclave) : option (Z * enclave) :=
  match copy_from_user user sizeof_pisces_pci_spec with
  | None => Some (- EFAULT, e)
  | Some spec =>
      '(r, p, _) ← enclave_pci_add_dev (pci e) (pci_spec_of spec) (pci_env v);
      let e := with_pci e p in
      if negb (r =? 0) then Some (r, e) else ctrl_add_pci spec e
  end.

Definition case_free_v3_pci (user : list byte) (e : enclave) : option (Z * enclave) :=
  match copy_from_user user sizeof_pisces_pci_spec with
  | None => Some (- EFAULT, e)
  | Some spec =>
      '(status, e) ← sync_status (cmd_free_pci_dev spec) sizeof_cmd_add_pci_dev e;
      if negb (status =? 0) then Some (-1, e) else
      let '(r, p, _) := enclave_pci_remove_dev (pci e) (pci_spec_of spec) in
      Some (if negb (r =? 0) then -1 else 0, with_pci e p)
  end.

Definition case_launch_job := forward PISCES_CMD_LAUNCH_JOB sizeof_pisces_job_spec.
Definition case_load_file := forward PISCES_CMD_LOAD_FILE sizeof_pisces_file_pair.
Definition case_store_file := forward PISCES_CMD_STORE_FILE sizeof_pisces_file_pair.
Definition case_create_vm := forward PISCES_CMD_CREATE_VM sizeof_vm_path.

(** Launching, stopping, freeing, pausing and continuing a machine. *)
Definition case_vm (ioctl vm_id : Z) (e : enclave) : option (Z * enclave) :=
  '(status, e) ← send_vm_cmd ioctl vm_id e;
  Some (if negb (status =? 0) then -1 else 0, e).

Definition case_vm_cons_connect (vm_id : Z) (e : enclave) : option (Z * enclave) :=
  '(cons_pa, e) ← send_vm_cmd PISCES_CMD_VM_CONS_CONNECT vm_id e;
  if cons_pa <=? 0 then Some (-1, e) else
  let '(r, _, _) := v3_console_connect (cons_irq v) (cons_vec v) (cons_fd v) (apicid v 0)
                      (ring_at v cons_pa) in
  Some (r, e).

Definition case_vm_dbg (user : list byte) (e : enclave) : option (Z * enclave) :=
  match copy_from_user user sizeof_pisces_dbg_spec with
  | None => Some (- EFAULT, e)
  | Some spec =>
      plain (sizeof_pisces_cmd + sizeof_pisces_dbg_spec)
        (command PISCES_CMD_VM_DBG (sizeof_pisces_cmd + sizeof_pisces_dbg_spec) spec) e
  end.

Definition case_shutdown (e : enclave) : option (Z * enclave) :=
  plain sizeof_pisces_cmd (command PISCES_CMD_SHUTDOWN sizeof_pisces_cmd []) e.

Definition ctrl_ioctl (ioctl arg : Z) (user : list byte) (e : enclave) : option (Z * enclave) :=
  if negb (running e) then Some (-1, e) else
  if ioctl =? PISCES_CMD_ADD_CPU then case_add_cpu arg e
  else if ioctl =? PISCES_CMD_REMOVE_CPU then case_remove_cpu arg e
  else if ioctl =? PISCES_CMD_ADD_MEM then case_add_mem user e
  else if ioctl =? PISCES_CMD_REMOVE_MEM then Some (-1, e)
  else if ioctl =? PISCES_CMD_ADD_V3_PCI then case_add_v3_pci user e
  else if ioctl =? PISCES_CMD_FREE_V3_PCI then case_free_v3_pci user e
  else if ioctl =? PISCES_CMD_LAUNCH_JOB then case_launch_job user e
  else if ioctl =? PISCES_CMD_LOAD_FILE then case_load_file user e
  else if ioctl =? PISCES_CMD_STORE_FILE then case_store_file user e
  else if ioctl =? PISCES_CMD_CREATE_VM then case_create_vm user e
  else if (ioctl =? PISCES_CMD_LAUNCH_VM) || (ioctl =? PISCES_CMD_STOP_VM) ||
          (ioctl =? PISCES_CMD_FREE_VM) || (ioctl =? PISCES_CMD_PAUSE_VM) ||
          (ioctl =? PISCES_CMD_CONTINUE_VM) then case_vm ioctl arg e
  else if ioctl =? PISCES_CMD_VM_CONS_CONNECT then case_vm_cons_connect arg e
  else if ioctl =? PISCES_CMD_VM_DBG then case_vm_dbg user e
  else if ioctl =? PISCES_CMD_SHUTDOWN then case_shutdown e
  else Some (-1, e).
End ctrl.
Arguments enclave : clear implicits.

Example command_sizes :
  sizeof_pisces_cmd = 12 ∧ sizeof_cmd_cpu_add = 28 ∧ sizeof_cmd_add_pci_dev = 156 ∧
  sizeof_cmd_free_pci_dev = 152 ∧ sizeof_pisces_job_spec = 865.
Proof. done. Qed.

(** ** Specification: framing *)

(** The enclave finds a command by its header: the number, and the number of
    bytes that follow. *)
Definition framed (cmd : Z) (bytes : list byte) : Prop :=
  unle (take 8 bytes) = cmd ∧ zlen bytes = sizeof_pisces_cmd + unle (take 4 (drop 8 bytes)).

(** ** Lemmas *)

Ltac unfold_cases :=
  unfold case_add_cpu, case_remove_cpu, case_add_mem, case_add_v3_pci, case_free_v3_pci, case_launch_job,
    case_load_file, case_store_file, case_create_vm, case_vm, case_vm_cons_connect, case_vm_dbg, case_shutdown in *.

Lemma cstr_name n rest :
  Forall (λ c, 0 < c < 256) n → cstr ((byte_of_Z <$> n) ++ Byte.x00 :: rest) = n.
Proof.
  induction 1 as [|c n Hc _ IH]; [done|]. simpl. rewrite Z_of_byte_of_Z, Z.mod_small by lia.
  destruct (Z.eqb_spec c 0); [lia|]. f_equal. exact IH.
Qed.

Lemma command_framed cmd size payload :
  fits 64 cmd → zlen payload = size - sizeof_pisces_cmd → fits 32 (zlen payload) →
  framed cmd (command cmd size payload) ∧ zlen (command cmd size payload) = size.
Proof.
  intros Hc Hp Hf. unfold framed, command.
  rewrite !length_app, !le_length, take_app_le, take_ge by (rewrite ?le_length; lia).
  rewrite drop_app_length' by (by rewrite le_length).
  rewrite take_app_le, take_ge by (rewrite ?le_length; lia).
  rewrite !unle_le, <-Hp. change (8 * Z.of_nat 8) with 64. change (8 * Z.of_nat 4) with 32.
  rewrite !Z.mod_small by done. unfold sizeof_pisces_cmd in *. lia.
Qed.

Section lemmas.
Context {S : Type} `{TrampolineLaws S}.
Implicit Types (e : enclave S) (v : env).

(** [e'] is [e] after at most one command of number [cmd], correctly framed. *)
Definition sends (cmd : Z) e e' : Prop :=
  sent e' = sent e ∨ ∃ bytes, sent e' = sent e ++ [bytes] ∧ framed cmd bytes.

Lemma xbuf_sync_send_whole v bytes e :
  xbuf_sync_send v bytes (zlen bytes) e =
  Some ((sync v (sent e ++ [bytes])).1, u64 (sync v (sent e ++ [bytes])).2,
        {| running := running e; res := res e; pci := pci e; boot := boot e;
           sent := sent e ++ [bytes] |}).
Proof.
  unfold xbuf_sync_send. rewrite slice_Some by lia. rewrite drop_0, take_ge by lia.
  cbn [mbind option_bind]. by destruct (sync v (sent e ++ [bytes])).
Qed.

Lemma sync_status_whole v bytes len e :
  zlen bytes = len →
  ∃ st, sync_status v bytes len e =
    Some (st, {| running := running e; res := res e; pci := pci e; boot := boot e;
                 sent := sent e ++ [bytes] |}).
Proof.
  intros <-. unfold sync_status. rewrite xbuf_sync_send_whole. cbn [mbind option_bind].
  by eexists.
Qed.

Lemma send_vm_cmd_whole v cmd vm e :
  fits 64 cmd →
  ∃ st e', send_vm_cmd v cmd vm e = Some (st, e') ∧ sends cmd e e' ∧ boot e' = boot e.
Proof.
  intros Hc. unfold send_vm_cmd.
  destruct (command_framed cmd sizeof_cmd_vm_ctrl (le 4 vm) Hc) as [Hf Hl];
    [by rewrite le_length|by rewrite le_length|].
  fold (cmd_vm_ctrl cmd vm) in Hf, Hl. rewrite <-Hl, xbuf_sync_send_whole. cbn [mbind option_bind].
  case_test; eexists _, _; (split; [reflexivity|]); split; try done; right; by exists (cmd_vm_ctrl cmd vm).
Qed.

Lemma forward_whole v cmd n user e :
  fits 64 cmd → fits 32 n →
  ∃ st e', forward v cmd n user e = Some (st, e') ∧ sends cmd e e' ∧ boot e' = boot e.
Proof.
  intros Hc Hn. unfold forward, copy_from_user.
  destruct (slice user 0 n) as [spec|] eqn:Hs; [|eexists _, e; split; [done|]; by split; [left|]].
  pose proof (slice_length _ _ _ _ Hs) as Hl.
  destruct (command_framed cmd (sizeof_pisces_cmd + n) spec Hc) as [Hf Hcl];
    [unfold sizeof_pisces_cmd; lia|by rewrite Hl|].
  destruct (sync_status_whole v _ _ e Hcl) as [st ->]. cbn [mbind option_bind].
  case_test; eexists _, _; (split; [reflexivity|]); split; try done; right; by eexists.
Qed.

Lemma plain_whole v cmd n payload e :
  fits 64 cmd → zlen payload = n → fits 32 n →
  ∃ st e', plain v (sizeof_pisces_cmd + n) (command cmd (sizeof_pisces_cmd + n) payload) e = Some (st, e') ∧
    sends cmd e e' ∧ boot e' = boot e.
Proof.
  intros Hc Hp Hn. unfold plain.
  destruct (command_framed cmd (sizeof_pisces_cmd + n) payload Hc) as [Hf Hl];
    [unfold sizeof_pisces_cmd; lia|by rewrite Hp|].
  pose proof (xbuf_sync_send_whole v (command cmd (sizeof_pisces_cmd + n) payload) e) as Hw.
  rewrite Hl in Hw. rewrite Hw. cbn [mbind option_bind].
  eexists _, _. split; [reflexivity|]. split; [right; by eexists|done].
Qed.

Lemma ctrl_add_mem_whole v base pages e :
  ∃ st e', ctrl_add_mem v base pages e = Some (st, e') ∧ sends PISCES_CMD_ADD_MEM e e' ∧ boot e' = boot e.
Proof.
  apply (plain_whole v PISCES_CMD_ADD_MEM 16 (le 8 base ++ le 8 (u64 (pages * 4096)))); done || idtac.
Qed.

Lemma ctrl_add_pci_whole v spec e :
  zlen spec = sizeof_pisces_pci_spec →
  ∃ st e', ctrl_add_pci v spec e = Some (st, e') ∧ sends PISCES_CMD_ADD_V3_PCI e e' ∧ boot e' = boot e.
Proof.
  intros Hs. unfold ctrl_add_pci.
  destruct (command_framed PISCES_CMD_ADD_V3_PCI sizeof_cmd_add_pci_dev (spec ++ le 4 0)) as [Hf Hl];
    [done|rewrite length_app, le_length, Nat2Z.inj_add, Hs; done..|].
  destruct (sync_status_whole v _ _ e Hl) as [st Hst]. fold (cmd_add_pci_dev spec) in *. rewrite Hst.
  cbn [mbind option_bind]. case_test.
  - destruct (enclave_pci_remove_dev _ _) as [[? p] ?]. eexists _, _. split; [reflexivity|].
    split; [right; by eexists|done].
  - eexists _, _. split; [reflexivity|]. split; [right; by eexists|done].
Qed.

Lemma cpu_command_framed cmd a b :
  fits 64 cmd →
  framed cmd (cmd_cpu_add cmd a b) ∧ zlen (cmd_cpu_add cmd a b) = sizeof_cmd_cpu_add.
Proof. intros. apply command_framed; done. Qed.

Lemma ctrl_add_cpu_whole v cpu e :
  trampoline_lock (boot e) = false →
  ∃ st e', ctrl_add_cpu v cpu e = Some (st, e') ∧ sends PISCES_CMD_ADD_CPU e e' ∧
    trampoline_lock (boot e') = false ∧ res e' = res e ∧ running e' = running e ∧
    (st = 0 ∨ st = -1).
Proof.
  intros Hl. unfold ctrl_add_cpu.
  assert (∃ r b, pisces_setup_trampoline (ts v) (pml_bytes v) (bootmem_pa v) (bootmem_sz v) (boot e) = Some (r, b))
    as (r&b&->).
  { unfold pisces_setup_trampoline. case_test; [by eexists _, _|]. rewrite Hl.
    destruct (tr_setup _ _ _). by eexists _, _. }
  cbn [mbind option_bind].
  destruct (cpu_command_framed PISCES_CMD_ADD_CPU cpu (apicid v cpu)) as [Hf Hlen]; [done|].
  destruct (sync_status_whole v _ _ (with_boot e b) Hlen) as [st ->]. cbn [mbind option_bind].
  unfold pisces_restore_trampoline. destruct (tr_restore _) as [? t].
  eexists _, _. split; [reflexivity|]. split; [right; by eexists|].
  split; [done|]. split; [done|]. split; [done|]. case_test; auto.
Qed.
(** *** The cases

    Each ends with a value, after at most one command of number [cmd], with the
    trampoline free. *)
Definition handled (cmd : Z) e (o : option (Z * enclave S)) : Prop :=
  ∃ ret e', o = Some (ret, e') ∧ sends cmd e e' ∧ trampoline_lock (boot e') = false.

Section cases.
Context (v : env) (e : enclave S) (Hl : trampoline_lock (boot e) = false).

Lemma handled_boot cmd ret e' : sends cmd e e' → boot e' = boot e → handled cmd e (Some (ret, e')).
Proof using Hl. intros Hs Hb. exists ret, e'. by rewrite Hb. Qed.
Lemma handled_silent cmd ret : handled cmd e (Some (ret, e)).
Proof using Hl. apply handled_boot; [by left|done]. Qed.
Lemma handled_whole cmd o : (∃ st e', o = Some (st, e') ∧ sends cmd e e' ∧ boot e' = boot e) → handled cmd e o.
Proof using Hl. intros (st&e'&->&Hs&Hb). by apply handled_boot. Qed.

Lemma add_cpu_handled cpu : u32 cpu < NR_CPUS v → handled PISCES_CMD_ADD_CPU e (case_add_cpu v cpu e).
Proof using All.
  intros Hc. unfold case_add_cpu, pisces_enclave_add_cpu. rewrite Z.geb_leb.
  destruct (Z.leb_spec (NR_CPUS v) (u32 cpu)); [lia|]. case_test; cbn [mbind option_bind negb Z.eqb].
  - apply handled_boot; [by left|done].
  - match goal with |- context [ctrl_add_cpu v cpu ?x] =>
      destruct (ctrl_add_cpu_whole v cpu x) as (st&e'&->&Hs&Hlk&_); [done|] end.
    by exists st, e'.
Qed.

Lemma remove_cpu_handled cpu : handled PISCES_CMD_REMOVE_CPU e (case_remove_cpu v cpu e).
Proof using All.
  unfold case_remove_cpu. destruct (cpu_command_framed PISCES_CMD_REMOVE_CPU cpu (apicid v cpu)) as [Hf Hlen]; [done|].
  destruct (sync_status_whole v _ _ e Hlen) as [st ->]. cbn [mbind option_bind].
  apply handled_boot; [right; by eexists|done].
Qed.

Lemma add_mem_handled user : kmalloc_ok v = true → handled PISCES_CMD_ADD_MEM e (case_add_mem v user e).
Proof using All.
  intros Hk. unfold case_add_mem. destruct (copy_from_user user _) as [reg|]; [|apply handled_silent].
  unfold pisces_enclave_add_mem. rewrite Hk. cbn [negb mbind option_bind Z.eqb].
  match goal with |- context [ctrl_add_mem v ?b ?p ?x] =>
    destruct (ctrl_add_mem_whole v b p x) as (st&e'&->&Hs&Hb) end. by apply handled_boot.
Qed.

Lemma add_pci_handled user : new_addr (pci_env v) ≠ 0 → handled PISCES_CMD_ADD_V3_PCI e (case_add_v3_pci v user e).
Proof using All.
  intros Ha. unfold case_add_v3_pci. destruct (copy_from_user user _) as [spec|] eqn:Hc; [|apply handled_silent].
  pose proof (slice_length _ _ _ _ Hc) as Hlen.
  destruct (enclave_pci_add_dev (pci e) (pci_spec_of spec) (pci_env v)) as [[[r p] ev]|] eqn:Hadd.
  2: { unfold enclave_pci_add_dev in Hadd. destruct (Z.eqb_spec (new_addr (pci_env v)) 0); [done|].
       by destruct (find_dev_by_name _ _). }
  cbn [mbind option_bind]. destruct (negb (r =? 0)); [apply handled_boot; [by left|done]|].
  destruct (ctrl_add_pci_whole v spec (with_pci e p) Hlen) as (st&e'&->&Hs&Hb). by apply handled_boot.
Qed.

Lemma forward_handled cmd n user : fits 64 cmd → fits 32 n → handled cmd e (forward v cmd n user e).
Proof using All. intros Hc Hn. by apply handled_whole, forward_whole. Qed.

Lemma vm_handled cmd vm_id : fits 64 cmd → handled cmd e (case_vm v cmd vm_id e).
Proof using All.
  intros Hc. unfold case_vm. destruct (send_vm_cmd_whole v cmd vm_id e Hc) as (st&e'&->&Hs&Hb).
  cbn [mbind option_bind]. by apply handled_boot.
Qed.

Lemma vm_cons_handled vm_id : handled PISCES_CMD_VM_CONS_CONNECT e (case_vm_cons_connect v vm_id e).
Proof using All.
  unfold case_vm_cons_connect. destruct (send_vm_cmd_whole v PISCES_CMD_VM_CONS_CONNECT vm_id e) as (st&e'&->&Hs&Hb); [done|].
  cbn [mbind option_bind]. case_test; [by apply handled_boot|].
  destruct (v3_console_connect _ _ _ _ _) as [[r ?] ?]. by apply handled_boot.
Qed.

Lemma vm_dbg_handled user : handled PISCES_CMD_VM_DBG e (case_vm_dbg v user e).
Proof using All.
  unfold case_vm_dbg. destruct (copy_from_user user _) as [spec|] eqn:Hc; [|apply handled_silent].
  apply handled_whole, plain_whole; [done| |done]. by apply slice_length in Hc.
Qed.

Lemma shutdown_handled : handled PISCES_CMD_SHUTDOWN e (case_shutdown v e).
Proof using All.
  unfold case_shutdown. change sizeof_pisces_cmd with (sizeof_pisces_cmd + 0). by apply handled_whole, plain_whole.
Qed.
End cases.
End lemmas.

(** ** Properties *)

(** The user memory of the pass-through calls is as long as the call reads, or
    not there. *)
Section properties.
Context {S : Type} `{TrampolineLaws S}.


(** The release of a PCI device hands the channel the size of a larger
    structure than the one it has: whenever the enclave runs and the device's
    description can be copied in, four bytes past the end of the command are
    read and sent. *)
Theorem ctrl_free_pci_overreads (v : env) (arg : Z) (user : list byte) (e : enclave S)
    (Hrun : running e = true) (Huser : sizeof_pisces_pci_spec ≤ zlen user) :
  (∃ spec, slice user 0 sizeof_pisces_pci_spec = Some spec ∧
     sizeof_cmd_add_pci_dev = zlen (cmd_free_pci_dev spec) + 4) ∧
  ctrl_ioctl v PISCES_CMD_FREE_V3_PCI arg user e = None.
Proof.
  destruct (slice user 0 sizeof_pisces_pci_spec) as [spec|] eqn:Hs;
    [|rewrite slice_Some in Hs by (unfold sizeof_pisces_pci_spec in *; lia); done].
  pose proof (slice_length _ _ _ _ Hs) as Hl.
  destruct (command_framed PISCES_CMD_FREE_V3_PCI sizeof_cmd_free_pci_dev spec) as [_ Hc];
    [done|by rewrite Hl|by rewrite Hl|].
  fold (cmd_free_pci_dev spec) in Hc.
  split; [exists spec; split; [done|]; by rewrite Hc|].
  change (ctrl_ioctl v PISCES_CMD_FREE_V3_PCI arg user e) with
    (if negb (running e) then Some (-1, e) else
     match slice user 0 sizeof_pisces_pci_spec with
     | None => Some (- EFAULT, e)
     | Some spec =>
        '(status, e) ← sync_status v (cmd_free_pci_dev spec) sizeof_cmd_add_pci_dev e;
        if negb (status =? 0) then Some (-1, e) else
        let '(r, p, _) := enclave_pci_remove_dev (pci e) (pci_spec_of spec) in
        Some (if negb (r =? 0) then -1 else 0, with_pci e p)
     end).
  rewrite Hrun, Hs. cbv iota beta. unfold sync_status, xbuf_sync_send.
  assert (slice (cmd_free_pci_dev spec) 0 sizeof_cmd_add_pci_dev = None) as ->; [|done].
  unfold slice. rewrite bool_decide_false; [done|]. rewrite Hc.
  unfold sizeof_cmd_add_pci_dev, sizeof_cmd_free_pci_dev, sizeof_pisces_pci_spec, sizeof_pisces_cmd. lia.
Qed.

(** The enclave's processors are not accounted for: when the enclave refuses
    a new processor the call fails but the processor stays registered, and when
    it gives a processor back the registration stays as well; in both cases every
    later attempt to add that processor fails without asking the enclave. *)
Theorem ctrl_cpu_accounting (v : env) (c : Z) (user : list byte) (e : enclave S)
    (Hrun : running e = true) (Hc : 0 ≤ c < NR_CPUS v) (Hc32 : fits 32 c)
    (Hl : trampoline_lock (boot e) = false) :
  (Z.testbit (assigned_cpus (res e)) c = false →
   (∀ s, (sync v s).1 ≠ 0 ∨ s32 (u64 (sync v s).2) ≠ 0) →
   ∃ e', ctrl_ioctl v PISCES_CMD_ADD_CPU c user e = Some (-1, e') ∧
     Z.testbit (assigned_cpus (res e')) c = true ∧
     ctrl_ioctl v PISCES_CMD_ADD_CPU c user e' = Some (-1, e')) ∧
  (Z.testbit (assigned_cpus (res e)) c = true → ∀ ret e',
     ctrl_ioctl v PISCES_CMD_REMOVE_CPU c user e = Some (ret, e') →
     res e' = res e ∧ ctrl_ioctl v PISCES_CMD_ADD_CPU c user e' = Some (-1, e')).
Proof.
  assert (∀ x : enclave S, running x = true → Z.testbit (assigned_cpus (res x)) c = true →
    ctrl_ioctl v PISCES_CMD_ADD_CPU c user x = Some (-1, x)) as Hagain.
  { intros [rn rs pc bt sn] Hr Hb. simpl in Hr, Hb. unfold ctrl_ioctl. unfold_cases. simpl. rewrite Hr. simpl.
    unfold pisces_enclave_add_cpu. rewrite (wrap_small 32) by done. rewrite Z.geb_leb.
    destruct (Z.leb_spec (NR_CPUS v) c); [lia|]. by rewrite Hb. }
  split.
  - intros Hb Hno. unfold ctrl_ioctl at 1. unfold case_add_cpu at 1, case_remove_cpu. rewrite Hrun. cbn [negb].
    change (PISCES_CMD_ADD_CPU =? PISCES_CMD_ADD_CPU) with true. cbv iota.
    unfold pisces_enclave_add_cpu. rewrite (wrap_small 32 c) by done.
    rewrite Z.geb_leb. destruct (Z.leb_spec (NR_CPUS v) c); [lia|]. rewrite Hb.
    cbn [mbind option_bind negb Z.eqb].
    match goal with |- context [ctrl_add_cpu v c ?x] => set (e1 := x) end.
    destruct (ctrl_add_cpu_whole v c e1 Hl) as (st&e'&Hst&_&_&Hres&Hrn&[->| ->]).
    + exfalso. revert Hst. unfold ctrl_add_cpu. destruct (pisces_setup_trampoline _ _ _ _ _) as [[? b]|]; [|done].
      cbn [mbind option_bind]. unfold sync_status.
      destruct (cpu_command_framed PISCES_CMD_ADD_CPU c (apicid v c)) as [_ Hlen]; [done|].
      rewrite <-Hlen, xbuf_sync_send_whole. cbn [mbind option_bind].
      destruct (pisces_restore_trampoline _) as [? ?]. intros [= Hz _]. revert Hz.
      destruct (Hno (sent e ++ [cmd_cpu_add PISCES_CMD_ADD_CPU c (apicid v c)])) as [Hx|Hx].
      * by rewrite (proj2 (Z.eqb_neq _ _) Hx).
      * case_test; [|done]. by rewrite (proj2 (Z.eqb_neq _ _) Hx).
    + exists e'. split; [done|].
      assert (Z.testbit (assigned_cpus (res e')) c = true) as Hb' by (rewrite Hres; simpl; apply Z.setbit_eq; lia).
      split; [done|]. apply Hagain; [|done]. by rewrite Hrn.
  - intros Hb ret e'. unfold ctrl_ioctl at 1. unfold case_remove_cpu at 1. rewrite Hrun. cbn [negb].
    change (PISCES_CMD_REMOVE_CPU =? PISCES_CMD_ADD_CPU) with false.
    change (PISCES_CMD_REMOVE_CPU =? PISCES_CMD_REMOVE_CPU) with true. cbv iota.
    destruct (cpu_command_framed PISCES_CMD_REMOVE_CPU c (apicid v c)) as [_ Hlen]; [done|].
    destruct (sync_status_whole v _ _ e Hlen) as [st ->]. cbn [mbind option_bind].
    intros [= _ <-]. split; [done|]. by apply Hagain.
Qed.
End properties.

Definition demo_env (status : Z) : env :=
  {| NR_CPUS := 8; apicid := λ c, 2 * c; sync := λ _, (0, status); kmalloc_ok := true;
     pci_env := demo_add; ts := tables_at 65536 0x9000; pml_bytes := λ _, [];
     bootmem_pa := 0x200000; bootmem_sz := 0x200000; cons_irq := 40; cons_vec := 50; cons_fd := 7;
     ring_at := λ _, demo_msgs |}.
Definition demo_enclave : enclave V3.state :=
  {| running := true; res := no_resources; pci := init_enclave_pci;
     boot := {| bmem := λ _, 0; trampoline_lock := false; tramp := V3.Build_state [] 0 [] 0 false |};
     sent := [] |}.


Lemma ctrl_free_pci_overreads_witness :
  ctrl_ioctl (demo_env 0) PISCES_CMD_FREE_V3_PCI 0 (replicate 140 Byte.x41) demo_enclave = None.
Proof.
  apply (ctrl_free_pci_overreads (demo_env 0) 0 (replicate 140 Byte.x41) demo_enclave); done.
Defined.

(** The enclave answers every command with status 1. *)
Lemma ctrl_cpu_accounting_witness :
  ∃ e', ctrl_ioctl (demo_env 1) PISCES_CMD_ADD_CPU 3 [] demo_enclave = Some (-1, e') ∧
  Z.testbit (assigned_cpus (res e')) 3 = true ∧
  ctrl_ioctl (demo_env 1) PISCES_CMD_ADD_CPU 3 [] e' = Some (-1, e').
Proof.
  apply (ctrl_cpu_accounting (demo_env 1) 3 [] demo_enclave); try done. intros s. by right.
Defined.
