(* ===== verification/Lcall.v ===== *)
(** * Calls from the enclave ([src/pisces_lcall.c], [src/pisces_lcall.h])

    The kernel thread that serves an enclave's calls: which handler a call gets,
    and the protocol between the thread, the interrupt that wakes it and the
    teardown that stops it, as a step relation.  The handlers are those of [Fs]
    and [Pci]. *)
From S2P Require Import Prelude Store Hashtable FileIo Fs Pci Xbuf.

(** ** The code: numbers *)

Definition KERN_LCALL_START : Z := 10000.
Definition USER_LCALL_START : Z := 20000.
Definition PISCES_LCALL_VFS_READ : Z := KERN_LCALL_START + 0.
Definition PISCES_LCALL_VFS_WRITE : Z := KERN_LCALL_START + 1.
Definition PISCES_LCALL_VFS_OPEN : Z := KERN_LCALL_START + 2.
Definition PISCES_LCALL_VFS_CLOSE : Z := KERN_LCALL_START + 3.
Definition PISCES_LCALL_VFS_SIZE : Z := KERN_LCALL_START + 4.
Definition PISCES_LCALL_PCI_ACK_IRQ : Z := KERN_LCALL_START + 100.
Definition PISCES_LCALL_PCI_CMD : Z := KERN_LCALL_START + 101.
Definition PISCES_LCALL_PCI_ATTACH : Z := KERN_LCALL_START + 102.
Definition PISCES_LCALL_PCI_DETACH : Z := KERN_LCALL_START + 103.
Definition PISCES_LCALL_IOMMU_MAP : Z := KERN_LCALL_START + 104.
Definition PISCES_LCALL_IOMMU_UNMAP : Z := KERN_LCALL_START + 105.

(** ** The code: dispatch

    What a handler reads of the message: the enclave fills the fields its call
    has, the others are not looked at. *)
Record lcall_msg := {
  lcall : Z;
  io_args : vfs_io_lcall;                (* read, write *)
  path : list Z; mode : Z;               (* open *)
  handle : Z;                            (* close, size *)
  dev_name : list Z;                     (* every PCI call *)
  region_start : Z; region_end : Z; gpa : Z;
  ipi_vector : Z; pci_cmd : host_pci_cmd_t
}.

Section dispatch.
Context {T E : Type} `{StoreOps T E}.

Record served := { fs_state : enclave_fs T; pci_state : enclave_pci_state }.

(** The kernel's answers, and the bound on the mapping loops. *)
Record answers := {
  filp_open : list Z → Z → Z; file_env : E; iter_ok : bool;
  vfs_getattr : Z → Z * Z;
  vfs_read : list io → Z → Z → Z → Z; vfs_write : list io → Z → Z → Z → Z;
  iommu_map : list pci_event → Z → Z → Z → Z; iommu_unmap : list pci_event → Z → Z → Z;
  attach_ret : Z; fuel : nat
}.
Context (k : answers).

Definition fs_result (r : pisces_lcall_resp) (s : served) (fs : enclave_fs T) : served * list Z :=
  ({| fs_state := fs; pci_state := pci_state s |}, [status r]).

(** The statuses sent back among a PCI handler's events. *)
Definition responses (ev : list pci_event) : list Z :=
  omap (λ e, match e with Resp st => Some (u64 st) | _ => None end) ev.
Definition pci_result (s : served) (p : enclave_pci_state) (ev : list pci_event) : served * list Z :=
  ({| fs_state := fs_state s; pci_state := p |}, responses ev).

(** The [switch]: the state after the call and the responses sent. *)
Definition dispatch (s : served) (m : lcall_msg) : option (served * list Z) :=
  let fs := fs_state s in let p := pci_state s in
  if lcall m =? PISCES_LCALL_VFS_READ then
    '(r, _) ← enclave_vfs_read_lcall (vfs_read k) fs (io_args m); Some (fs_result r s fs)
  else if lcall m =? PISCES_LCALL_VFS_WRITE then
    '(r, _) ← enclave_vfs_write_lcall (vfs_write k) fs (io_args m); Some (fs_result r s fs)
  else if lcall m =? PISCES_LCALL_VFS_OPEN then
    '(fs, r) ← enclave_vfs_open_lcall (filp_open k) fs (path m) (mode m) (file_env k) (iter_ok k);
    Some (fs_result r s fs)
  else if lcall m =? PISCES_LCALL_VFS_CLOSE then
    '(fs, r, _) ← enclave_vfs_close_lcall fs (handle m); Some (fs_result r s fs)
  else if lcall m =? PISCES_LCALL_VFS_SIZE then
    r ← enclave_vfs_size_lcall (vfs_getattr k) fs (handle m); Some (fs_result r s fs)
  else if lcall m =? PISCES_LCALL_IOMMU_MAP then
    ev ← enclave_pci_iommu_map (iommu_map k) (fuel k) p (dev_name m)
           (region_start m) (region_end m) (gpa m); Some (pci_result s p ev)
  else if lcall m =? PISCES_LCALL_IOMMU_UNMAP then
    ev ← enclave_pci_iommu_unmap (iommu_unmap k) (fuel k) p (dev_name m)
           (region_start m) (region_end m) (gpa m); Some (pci_result s p ev)
  else if lcall m =? PISCES_LCALL_PCI_ATTACH then
    let '(_, p, ev) := enclave_pci_attach p (dev_name m) (ipi_vector m) (attach_ret k) in
    Some (pci_result s p ev)
  else if lcall m =? PISCES_LCALL_PCI_DETACH then
    let '(_, p, ev) := enclave_pci_detach p (dev_name m) in Some (pci_result s p ev)
  else if lcall m =? PISCES_LCALL_PCI_ACK_IRQ then
    Some (pci_result s p (enclave_pci_ack_irq p (dev_name m)))
  else if lcall m =? PISCES_LCALL_PCI_CMD then
    let '(p, ev) := enclave_pci_cmd p (dev_name m) (pci_cmd m) in Some (pci_result s p ev)
  else Some (s, [u64 (-1)]).
End dispatch.

(** ** The code: starting, waking, stopping

    Where the kernel thread stands: at the top of its loop; in
    [wait_event_interruptible]; awake before and after the test of
    [kthread_should_stop]; with a message, before the last test; serving; or
    ended with a value. *)
Inductive thread_pc := Top | Waiting | Awake | Receiving | Received | Serving | Ended (ret : Z).

(** And [pisces_lcall_deinit]: before it, in [kthread_stop], and behind each of
    its next statements. *)
Inductive deinit_pc := NotCalled | Joining | Joined | Activated | Disabled | Released.

Record lcall_state := {
  pc : thread_pc;
  active_lcall : bool;
  should_stop : bool;
  dpc : deinit_pc;
  xb : xbuf
}.

Definition at_pc (s : lcall_state) (p : thread_pc) (a : bool) : lcall_state :=
  {| pc := p; active_lcall := a; should_stop := should_stop s; dpc := dpc s; xb := xb s |}.

(** One step of the thread; [recv] is what [pisces_xbuf_recv] returns.  [None]:
    it sleeps, or has ended. *)
Definition lcall_kern_thread (recv : Z) (s : lcall_state) : option lcall_state :=
  match pc s with
  | Top => Some (at_pc s (if should_stop s then Ended 0 else Waiting) (active_lcall s))
  | Waiting => if active_lcall s then Some (at_pc s Awake true) else None
  | Awake => Some (if should_stop s then at_pc s (Ended 0) (active_lcall s)
                   else at_pc s Receiving false)
  | Receiving => Some (at_pc s (if recv =? -1 then Ended (-1) else Received) (active_lcall s))
  | Received => Some (at_pc s (if should_stop s then Ended 0 else Serving) (active_lcall s))
  | Serving => Some (at_pc s Top (active_lcall s))
  | Ended _ => None
  end.

(** The interrupt of a new message. *)
Definition lcall_handler (s : lcall_state) : lcall_state :=
  if pisces_xbuf_pending (xb s) =? 1 then at_pc s (pc s) true else s.

(** The teardown; [kthread_stop] returns when the thread has ended. *)
Definition pisces_lcall_deinit (s : lcall_state) : option lcall_state :=
  let go d a st x := Some {| pc := pc s; active_lcall := a; should_stop := st; dpc := d; xb := x |} in
  match dpc s with
  | NotCalled => go Joining (active_lcall s) true (xb s)
  | Joining => match pc s with Ended _ => go Joined (active_lcall s) (should_stop s) (xb s) | _ => None end
  | Joined => go Activated true (should_stop s) (xb s)
  | Activated => go Disabled (active_lcall s) (should_stop s) (pisces_xbuf_disable (xb s)).2
  | Disabled => go Released (active_lcall s) (should_stop s) (xb s)
  | Released => None
  end.

(** [server]: what [pisces_xbuf_server_init] returns, with the xbuf it leaves. *)
Definition pisces_lcall_init (server : option pisces_xbuf_desc * xbuf) : Z * option lcall_state :=
  match server with
  | (None, _) => (-1, None)
  | (Some _, x) =>
      (0, Some {| pc := Top; active_lcall := false; should_stop := false; dpc := NotCalled;
                  xb := (pisces_xbuf_enable x).2 |})
  end.

(** The three parties; an interrupt comes when the enclave sends: [Interrupt x]
    with the xbuf as the enclave has left it. *)
Inductive party := Thread (recv : Z) | Interrupt (x : xbuf) | Teardown.
Definition step (w : party) (s : lcall_state) : option lcall_state :=
  match w with
  | Thread recv => lcall_kern_thread recv s
  | Interrupt x =>
      Some (lcall_handler {| pc := pc s; active_lcall := active_lcall s; should_stop := should_stop s;
                             dpc := dpc s; xb := x |})
  | Teardown => pisces_lcall_deinit s
  end.

Inductive steps : lcall_state → list party → lcall_state → Prop :=
  | steps_nil s : steps s [] s
  | steps_cons w s s' ws s'' : step w s = Some s' → steps s' ws s'' → steps s (w :: ws) s''.

(** ** Lemmas *)

Lemma steps_app s ws s' ws' s'' : steps s ws s' → steps s' ws' s'' → steps s (ws ++ ws') s''.
Proof. induction 1; simpl; [done|]. intros. econstructor; [done|auto]. Qed.

(** *** Responses *)

Lemma responses_app e1 e2 : responses (e1 ++ e2) = responses e1 ++ responses e2.
Proof. apply omap_app. Qed.

Lemma map_loop_responses f fuel a size ps gpa hpa tr ret tr' :
  map_loop f fuel a size ps gpa hpa tr = Some (ret, tr') → responses tr' = responses tr.
Proof.
  revert size ps gpa hpa tr. induction fuel as [|fuel IH]; intros size ps gpa hpa tr; [done|]. simpl.
  destruct (negb _); [intros [= _ <-]; by rewrite responses_app, app_nil_r|].
  destruct (_ >? 0); [|intros [= _ <-]; by rewrite responses_app, app_nil_r].
  intros Hm. rewrite (IH _ _ _ _ _ Hm). by rewrite responses_app, app_nil_r.
Qed.

Lemma unmap_loop_responses f fuel a size ps gpa tr ret tr' :
  unmap_loop f fuel a size ps gpa tr = Some (ret, tr') → responses tr' = responses tr.
Proof.
  revert size ps gpa tr. induction fuel as [|fuel IH]; intros size ps gpa tr; [done|]. simpl.
  destruct (negb _); [intros [= _ <-]; by rewrite responses_app, app_nil_r|].
  destruct (_ >? 0); [|intros [= _ <-]; by rewrite responses_app, app_nil_r].
  intros Hm. rewrite (IH _ _ _ _ Hm). by rewrite responses_app, app_nil_r.
Qed.

(** *** The thread and the teardown *)

(** Steps of the thread alone until it has ended, at most [n]. *)
Fixpoint run_thread (n : nat) (recv : Z) (s : lcall_state) : lcall_state :=
  match n with
  | O => s
  | S n => match lcall_kern_thread recv s with Some s => run_thread n recv s | None => s end
  end.

Lemma run_thread_steps n recv s :
  ∃ j, (j ≤ n)%nat ∧ steps s (replicate j (Thread recv)) (run_thread n recv s).
Proof.
  revert s. induction n as [|n IH]; intros s; [exists 0%nat; split; [lia|constructor]|]. simpl.
  destruct (lcall_kern_thread recv s) as [s'|] eqn:E; [|exists 0%nat; split; [lia|constructor]].
  destruct (IH s') as (j&Hj&Hs). exists (S j). split; [lia|]. by econstructor.
Qed.

(** The thread ends within six steps of the stop flag, unless it sleeps. *)
Lemma run_thread_ends recv s :
  should_stop s = true → ¬ (pc s = Waiting ∧ active_lcall s = false) →
  let s' := run_thread 6 recv s in
  (∃ r, pc s' = Ended r) ∧ dpc s' = dpc s ∧ should_stop s' = true ∧ xb s' = xb s.
Proof.
  destruct s as [p a st d x]. simpl. intros -> Hw. cbn [pc active_lcall] in Hw.
  destruct p as [| | | | | |r]; [..|by eauto].
  all: try by (simpl; eauto).
  - destruct a; [simpl; eauto|]. by destruct Hw.
  - simpl. destruct (recv =? -1); simpl; eauto.
Qed.

Lemma teardown_rest s r :
  pc s = Ended r → dpc s = Joining →
  ∃ s', steps s (replicate 4 Teardown) s' ∧ dpc s' = Released ∧ Xbuf.ready (xb s') = false.
Proof.
  destruct s as [p a st d x]. simpl. intros -> ->. eexists. split.
  { repeat (econstructor; [reflexivity|]). constructor. }
  split; [done|]. simpl. unfold pisces_xbuf_disable.
  destruct (Xbuf.ready x) eqn:E; cbn [negb snd]; [|done].
  unfold Xbuf.ready. cbn [flags lower_flag with_flags]. rewrite Z.land_spec. apply andb_false_r.
Qed.

(** While nobody interrupts, a sleeping thread stays asleep. *)
Lemma asleep_stays s ws s' :
  steps s ws s' → Forall (λ w, ∀ x, w ≠ Interrupt x) ws →
  pc s = Waiting → active_lcall s = false → dpc s = NotCalled ∨ dpc s = Joining →
  pc s' = Waiting ∧ active_lcall s' = false ∧ (dpc s' = NotCalled ∨ dpc s' = Joining).
Proof.
  induction 1 as [|w s s1 ws s2 Hstep Hsteps IH]; [done|]. intros Hw Hp Ha Hd.
  apply Forall_cons_1 in Hw as [Hw Hws]. destruct w as [recv|x|]; simpl in Hstep.
  - unfold lcall_kern_thread in Hstep. by rewrite Hp, Ha in Hstep.
  - by destruct (Hw x).
  - unfold pisces_lcall_deinit in Hstep.
    destruct Hd as [Hd|Hd]; rewrite Hd, ?Hp in Hstep; [|done]. injection Hstep as <-.
    apply IH; simpl; auto.
Qed.

(** ** Properties *)


Definition pending_xbuf : xbuf :=
  {| flags := 3; host_apic := 0; host_vector := 0; enclave_cpu := 0; enclave_vector := 0;
     total_size := 8; Xbuf.data_len := 0; data := [] |}.


(** Every call from the enclave that is served gets exactly one response,
    whatever its number and the state, except an attachment that the IOMMU
    refuses, which gets none; and a VFS call changes no device, a PCI call no
    file. *)
Theorem dispatch_responds {T E : Type} `{StoreOps T E} (k : answers (E := E))
    (s s' : served (T := T)) (m : lcall_msg) (rs : list Z)
    (Hd : dispatch k s m = Some (s', rs)) :
  (length rs = 1%nat ∨ (lcall m = PISCES_LCALL_PCI_ATTACH ∧ attach_ret k ≠ 0 ∧ rs = [])) ∧
  (fs_state s' = fs_state s ∨ pci_state s' = pci_state s).
Proof.
  revert Hd. unfold dispatch.
  repeat match goal with |- context [if lcall m =? ?n then _ else _] => destruct (Z.eqb_spec (lcall m) n) end.
  - intros ([r ?]&_&[= <- <-])%bind_Some. split; [by left|by right].
  - intros ([r ?]&_&[= <- <-])%bind_Some. split; [by left|by right].
  - intros ([fs r]&_&[= <- <-])%bind_Some. split; [by left|by right].
  - intros ([[fs r] ?]&_&[= <- <-])%bind_Some. split; [by left|by right].
  - intros (r&_&[= <- <-])%bind_Some. split; [by left|by right].
  - intros (ev&Hev&[= <- <-])%bind_Some. split; [left|by left]. revert Hev.
    unfold enclave_pci_iommu_map. destruct (find_assigned _ _); [|by intros [= <-]].
    intros ([ret tr]&Hm&[= <-])%bind_Some.
    by rewrite responses_app, (map_loop_responses _ _ _ _ _ _ _ _ _ _ Hm).
  - intros (ev&Hev&[= <- <-])%bind_Some. split; [left|by left]. revert Hev.
    unfold enclave_pci_iommu_unmap. destruct (find_assigned _ _); [|by intros [= <-]].
    intros ([ret tr]&Hm&[= <-])%bind_Some.
    by rewrite responses_app, (unmap_loop_responses _ _ _ _ _ _ _ _ _ Hm).
  - unfold enclave_pci_attach. destruct (find_dev_by_name _ _) as [d|]; [|intros [= <- <-]; split; by left].
    destruct (_ && _); [|intros [= <- <-]; split; by left].
    destruct (Z.eqb_spec (attach_ret k) 0); intros [= <- <-]; split; try (by left). by right.
  - unfold enclave_pci_detach. destruct (find_assigned _ _); intros [= <- <-]; split; by left.
  - unfold enclave_pci_ack_irq. destruct (find_dev_by_name _ _); intros [= <- <-]; split; by left.
  - unfold enclave_pci_cmd. destruct (find_dev_by_name _ _) as [d|]; [|intros [= <- <-]; split; by left].
    destruct (pci_cmd m); try case_test; intros [= <- <-]; split; by left.
  - intros [= <- <-]. split; by left.
Qed.

Definition demo_answers (ret : Z) : answers (E := store_env) :=
  {| filp_open := λ _ _, 4096; file_env := Fs.demo_env; iter_ok := true; vfs_getattr := λ _, (0, 10);
     vfs_read := λ _ _ _ _, 0; vfs_write := λ _ _ _ _, 0; iommu_map := λ _ _ _ _, 0;
     iommu_unmap := λ _ _ p, p; attach_ret := ret; fuel := 9 |}.
Definition demo_msg (n : Z) : lcall_msg :=
  {| lcall := n; io_args := Fs.demo_read; path := []; mode := 0; handle := 4096;
     dev_name := [110]; region_start := 0; region_end := 4096; gpa := 0; ipi_vector := 9;
     pci_cmd := HOST_PCI_CMD_INTX_ENABLE |}.

Lemma dispatch_responds_witness :
  let s := {| fs_state := Fs.empty_fs; pci_state := Pci.init_enclave_pci |} in
  (length [u64 (-1)] = 1%nat ∨
   (lcall (demo_msg PISCES_LCALL_PCI_ATTACH) = PISCES_LCALL_PCI_ATTACH ∧
    attach_ret (demo_answers 0) ≠ 0 ∧ [u64 (-1)] = [])) ∧
  (fs_state s = fs_state s ∨ pci_state s = pci_state s).
Proof.
  intros s.
  apply (dispatch_responds (demo_answers 0) s s (demo_msg PISCES_LCALL_PCI_ATTACH) [u64 (-1)]).
  reflexivity.
Defined.
