(* ===== verification/Messages.v ===== *)
(** * The messages of an enclave's calls, in bytes ([src/pisces_lcall.h],
    [src/enclave_fs.h], [src/enclave_pci.c])

    The packed structures that come through the message buffer ([Xbuf]), and what
    the thread does with one: it reads the fields of the structure that the number in
    the header stands for, runs the handler ([Lcall]), and sends the response's
    bytes.  [None] is a read behind the message, among other undefined
    behaviour; descriptors that the transfer does not get to count as read. *)
From S2P Require Import Prelude Store Hashtable FileIo Fs Pci Xbuf Ctrl Lcall.
#[local] Open Scope Z_scope.

(** ** The code: reading a message *)

Definition sizeof_pisces_lcall : Z := 8 + 4.
Definition field (m : list byte) (off n : Z) : option Z := unle <$> slice m off n.
Definition name_at (m : list byte) (off : Z) : option (list Z) := cstr <$> slice m off 128.

(** A string up to its NUL. *)
Fixpoint string_at (l : list byte) : option (list Z) :=
  match l with
  | [] => None
  | b :: l => if Z_of_byte b =? 0 then Some [] else s ← string_at l; Some (Z_of_byte b :: s)
  end.

Fixpoint vfs_buf_descs (m : list byte) (off : Z) (n : nat) : option (list vfs_buf_desc) :=
  match n with
  | O => Some []
  | S n =>
      size ← field m off 4; phys_addr ← field m (off + 4) 8;
      l ← vfs_buf_descs m (off + 12) n; Some ({| size := size; phys_addr := phys_addr |} :: l)
  end.

Definition vfs_read_lcall (m : list byte) : option vfs_io_lcall :=
  file_handle ← field m 12 8; offset ← field m 20 8; length ← field m 28 8; num_descs ← field m 36 4;
  descs ← vfs_buf_descs m 40 (Z.to_nat num_descs);
  Some {| file_handle := file_handle; offset := offset; length_ := length; descs := descs |}.

Definition no_io : vfs_io_lcall := {| file_handle := 0; offset := 0; length_ := 0; descs := [] |}.
Definition blank (n : Z) : lcall_msg :=
  {| lcall := n; io_args := no_io; path := []; mode := 0; handle := 0; dev_name := []; region_start := 0;
     region_end := 0; gpa := 0; ipi_vector := 0; pci_cmd := HOST_PCI_CMD_DMA_DISABLE |}.

Definition vfs_open_lcall (n : Z) (m : list byte) : option lcall_msg :=
  mode ← field m 12 4; path ← string_at (drop 16 m);
  Some {| lcall := n; io_args := no_io; path := path; mode := mode; handle := 0; dev_name := []; region_start := 0;
          region_end := 0; gpa := 0; ipi_vector := 0; pci_cmd := HOST_PCI_CMD_DMA_DISABLE |}.
Definition vfs_close_lcall (n : Z) (m : list byte) : option lcall_msg :=
  h ← field m 12 8;
  Some {| lcall := n; io_args := no_io; path := []; mode := 0; handle := h; dev_name := []; region_start := 0;
          region_end := 0; gpa := 0; ipi_vector := 0; pci_cmd := HOST_PCI_CMD_DMA_DISABLE |}.
Definition pci_iommu_map_lcall (n : Z) (m : list byte) : option lcall_msg :=
  name ← name_at m 12; a ← field m 140 8; b ← field m 148 8; g ← field m 156 8;
  Some {| lcall := n; io_args := no_io; path := []; mode := 0; handle := 0; dev_name := name; region_start := a;
          region_end := b; gpa := g; ipi_vector := 0; pci_cmd := HOST_PCI_CMD_DMA_DISABLE |}.
Definition pci_attach_lcall (n : Z) (m : list byte) : option lcall_msg :=
  name ← name_at m 12; vec ← field m 140 4;
  Some {| lcall := n; io_args := no_io; path := []; mode := 0; handle := 0; dev_name := name; region_start := 0;
          region_end := 0; gpa := 0; ipi_vector := vec; pci_cmd := HOST_PCI_CMD_DMA_DISABLE |}.
(** Also [pci_ack_irq_lcall], whose vector is not read. *)
Definition pci_detach_lcall (n : Z) (m : list byte) : option lcall_msg :=
  name ← name_at m 12;
  Some {| lcall := n; io_args := no_io; path := []; mode := 0; handle := 0; dev_name := name; region_start := 0;
          region_end := 0; gpa := 0; ipi_vector := 0; pci_cmd := HOST_PCI_CMD_DMA_DISABLE |}.
(** A number that is none of the five is invalid to the handler, as the first one is. *)
Definition host_pci_cmd (c : Z) : host_pci_cmd_t :=
  if c =? 2 then HOST_PCI_CMD_DMA_ENABLE else if c =? 3 then HOST_PCI_CMD_MEM_ENABLE
  else if c =? 4 then HOST_PCI_CMD_INTX_DISABLE else if c =? 5 then HOST_PCI_CMD_INTX_ENABLE
  else HOST_PCI_CMD_DMA_DISABLE.
Definition pci_cmd_lcall (n : Z) (m : list byte) : option lcall_msg :=
  name ← name_at m 12; c ← field m 140 4;
  Some {| lcall := n; io_args := no_io; path := []; mode := 0; handle := 0; dev_name := name; region_start := 0;
          region_end := 0; gpa := 0; ipi_vector := 0; pci_cmd := host_pci_cmd c |}.

(** The structure by the number. *)
Definition decode (m : list byte) : option lcall_msg :=
  n ← field m 0 8;
  if (n =? PISCES_LCALL_VFS_READ) || (n =? PISCES_LCALL_VFS_WRITE) then
    io ← vfs_read_lcall m;
    Some {| lcall := n; io_args := io; path := []; mode := 0; handle := 0; dev_name := []; region_start := 0;
            region_end := 0; gpa := 0; ipi_vector := 0; pci_cmd := HOST_PCI_CMD_DMA_DISABLE |}
  else if n =? PISCES_LCALL_VFS_OPEN then vfs_open_lcall n m
  else if (n =? PISCES_LCALL_VFS_CLOSE) || (n =? PISCES_LCALL_VFS_SIZE) then vfs_close_lcall n m
  else if (n =? PISCES_LCALL_IOMMU_MAP) || (n =? PISCES_LCALL_IOMMU_UNMAP) then pci_iommu_map_lcall n m
  else if n =? PISCES_LCALL_PCI_ATTACH then pci_attach_lcall n m
  else if (n =? PISCES_LCALL_PCI_DETACH) || (n =? PISCES_LCALL_PCI_ACK_IRQ) then pci_detach_lcall n m
  else if n =? PISCES_LCALL_PCI_CMD then pci_cmd_lcall n m
  else Some (blank n).

(** ** The code: one message

    The bytes of the responses: [struct pisces_lcall_resp] with no data. *)
Definition resp_bytes (status : Z) : list byte := le 8 status ++ le 4 0.

Section serve.
Context {T E : Type} `{StoreOps T E}.
Context (k : @answers E).

Definition serve (s : @served T) (m : list byte) : option (@served T * list (list byte)) :=
  match decode m with
  | None => None
  | Some msg => match dispatch k s msg with None => None | Some (s, rs) => Some (s, resp_bytes <$> rs) end
  end.
End serve.

(** ** Specification: the enclave's side *)

Definition name_field (n : list Z) : list byte := (byte_of_Z <$> n) ++ replicate (128 - length n) Byte.x00.
Definition desc_bytes (d : vfs_buf_desc) : list byte := le 4 (size d) ++ le 8 (phys_addr d).
Definition cmd_number (c : host_pci_cmd_t) : Z :=
  match c with
  | HOST_PCI_CMD_DMA_DISABLE => 1 | HOST_PCI_CMD_DMA_ENABLE => 2 | HOST_PCI_CMD_MEM_ENABLE => 3
  | HOST_PCI_CMD_INTX_DISABLE => 4 | HOST_PCI_CMD_INTX_ENABLE => 5
  end.

(** What follows the header. *)
Definition body (m : lcall_msg) : list byte :=
  let n := lcall m in
  if (n =? PISCES_LCALL_VFS_READ) || (n =? PISCES_LCALL_VFS_WRITE) then
    let io := io_args m in
    le 8 (file_handle io) ++ le 8 (offset io) ++ le 8 (length_ io) ++ le 4 (zlen (descs io)) ++ (descs io ≫= desc_bytes)
  else if n =? PISCES_LCALL_VFS_OPEN then le 4 (mode m) ++ (byte_of_Z <$> path m) ++ [Byte.x00]
  else if (n =? PISCES_LCALL_VFS_CLOSE) || (n =? PISCES_LCALL_VFS_SIZE) then le 8 (handle m)
  else if (n =? PISCES_LCALL_IOMMU_MAP) || (n =? PISCES_LCALL_IOMMU_UNMAP) then
    name_field (dev_name m) ++ le 8 (region_start m) ++ le 8 (region_end m) ++ le 8 (gpa m)
  else if n =? PISCES_LCALL_PCI_ATTACH then name_field (dev_name m) ++ le 4 (ipi_vector m)
  else if (n =? PISCES_LCALL_PCI_DETACH) || (n =? PISCES_LCALL_PCI_ACK_IRQ) then name_field (dev_name m)
  else if n =? PISCES_LCALL_PCI_CMD then name_field (dev_name m) ++ le 4 (cmd_number (pci_cmd m)) ++ le 8 0
  else [].
Definition encode (m : lcall_msg) : list byte := le 8 (lcall m) ++ le 4 (zlen (body m)) ++ body m.

Definition is_text (s : list Z) : Prop := Forall (λ c, 0 < c < 256) s.
Definition desc_fits (d : vfs_buf_desc) : Prop := fits 32 (size d) ∧ fits 64 (phys_addr d).

(** The fields fit their places. *)
Record msg_ok (m : lcall_msg) : Prop := {
  mo_lcall : fits 64 (lcall m);
  mo_io : fits 64 (file_handle (io_args m)) ∧ fits 64 (offset (io_args m)) ∧ fits 64 (length_ (io_args m));
  mo_descs : fits 32 (zlen (descs (io_args m))) ∧ Forall desc_fits (descs (io_args m));
  mo_path : is_text (path m);
  mo_open : fits 32 (mode m) ∧ fits 64 (handle m);
  mo_name : (length (dev_name m) ≤ 128)%nat ∧ is_text (dev_name m);
  mo_region : fits 64 (region_start m) ∧ fits 64 (region_end m) ∧ fits 64 (gpa m);
  mo_vec : fits 32 (ipi_vector m) }.

(** ** Lemmas *)

Lemma slice_part {A} (parts : list (list A)) i x off n :
  parts !! i = Some x → off = zlen (concat (take i parts)) → n = zlen x → slice (concat parts) off n = Some x.
Proof.
  intros Hi -> ->. pose proof (part_at parts i x _ _ Hi eq_refl eq_refl) as Hp.
  assert (zlen (concat (take i parts)) + zlen x ≤ zlen (concat parts)).
  { rewrite <-(take_drop_middle parts i x Hi) at 2. rewrite concat_app, length_app. cbn [concat]. rewrite length_app. lia. }
  rewrite slice_Some by lia. by rewrite !Nat2Z.id, Hp.
Qed.

Lemma field_part parts i n v off :
  parts !! i = Some (le n v) → off = zlen (concat (take i parts)) → fits (8 * Z.of_nat n) v →
  field (concat parts) off (Z.of_nat n) = Some v.
Proof.
  intros Hi Ho Hv. unfold field. rewrite (slice_part parts i (le n v)) by (done || by rewrite le_length). cbn.
  by rewrite unle_le, Z.mod_small.
Qed.

Lemma cstr_text n k : is_text n → cstr ((byte_of_Z <$> n) ++ replicate k Byte.x00) = n.
Proof.
  induction 1 as [|c n Hc _ IH]; [by destruct k|]. cbn [fmap list_fmap app cstr].
  rewrite Z_of_byte_of_Z, Z.mod_small by lia. destruct (Z.eqb_spec c 0); [lia|]. f_equal. exact IH.
Qed.

Lemma name_field_length n : (length n ≤ 128)%nat → length (name_field n) = 128%nat.
Proof. intros H. unfold name_field. rewrite length_app, length_fmap, length_replicate. lia. Qed.

Lemma name_part parts i n off :
  parts !! i = Some (name_field n) → off = zlen (concat (take i parts)) → (length n ≤ 128)%nat → is_text n →
  name_at (concat parts) off = Some n.
Proof.
  intros Hi Ho Hn Ht. unfold name_at. rewrite (slice_part parts i (name_field n)); [|done|done|by rewrite name_field_length].
  cbn. f_equal. by apply cstr_text.
Qed.

Lemma string_at_text s rest : is_text s → string_at ((byte_of_Z <$> s) ++ Byte.x00 :: rest) = Some s.
Proof.
  induction 1 as [|c s Hc _ IH]; [done|]. rewrite fmap_cons. cbn [app string_at].
  rewrite Z_of_byte_of_Z, Z.mod_small by lia. destruct (Z.eqb_spec c 0); [lia|].
  by rewrite IH.
Qed.

Lemma descs_part l parts i off :
  parts !! i = Some (l ≫= desc_bytes) → off = zlen (concat (take i parts)) → Forall desc_fits l →
  vfs_buf_descs (concat parts) off (length l) = Some l.
Proof.
  revert parts i off. induction l as [|d l IH]; intros parts i off Hi Ho Hf; [done|]. cbn [length vfs_buf_descs].
  apply Forall_cons_1 in Hf as [[Hs Hp] Hf]. pose proof (lookup_lt_Some _ _ _ Hi) as Hlt.
  set (parts' := take i parts ++ [le 4 (size d); le 8 (phys_addr d); l ≫= desc_bytes] ++ drop (S i) parts).
  assert (length (take i parts) = i) as Hti by (rewrite length_take; lia).
  assert (concat parts = concat parts') as Ec.
  { rewrite <-(take_drop_middle parts i _ Hi) at 1. unfold parts'. rewrite !concat_app. cbn [concat].
    rewrite bind_cons. unfold desc_bytes. cbn [app concat]. by rewrite <-!app_assoc. }
  assert (∀ j, parts' !! (i + j)%nat = ([le 4 (size d); le 8 (phys_addr d); l ≫= desc_bytes] ++ drop (S i) parts) !! j) as Hl.
  { intros j. unfold parts'. rewrite lookup_app_r by lia. f_equal. lia. }
  assert (∀ j, concat (take (i + j) parts') = concat (take i parts) ++
    concat (take j ([le 4 (size d); le 8 (phys_addr d); l ≫= desc_bytes] ++ drop (S i) parts))) as Ht.
  { intros j. unfold parts'. rewrite take_app_ge by lia. rewrite Hti, concat_app. do 3 f_equal. lia. }
  rewrite Ec. change 4 with (Z.of_nat 4) at 1. rewrite (field_part parts' (i + 0) 4 (size d)).
  - cbn [mbind option_bind]. change 8 with (Z.of_nat 8) at 1. rewrite (field_part parts' (i + 1) 8 (phys_addr d)).
    + cbn [mbind option_bind]. rewrite (IH parts' (i + 2)%nat); [by destruct d| | |done].
      * by rewrite Hl.
      * rewrite Ht, length_app. cbn. rewrite Ho. lia.
    + by rewrite Hl.
    + rewrite Ht, length_app. cbn. rewrite Ho. lia.
    + done.
  - by rewrite Hl.
  - by rewrite Ht, length_app, Ho, Nat.add_0_r.
  - done.
Qed.

Lemma field4 parts i v off :
  parts !! i = Some (le 4 v) → off = zlen (concat (take i parts)) → fits 32 v → field (concat parts) off 4 = Some v.
Proof. apply (field_part parts i 4). Qed.
Lemma field8 parts i v off :
  parts !! i = Some (le 8 v) → off = zlen (concat (take i parts)) → fits 64 v → field (concat parts) off 8 = Some v.
Proof. apply (field_part parts i 8). Qed.

(** The message with the fields that its call does not have blank. *)
Definition relevant (m : lcall_msg) : lcall_msg :=
  let n := lcall m in
  let mk io p md h nm a b g vec c :=
    {| lcall := n; io_args := io; path := p; mode := md; handle := h; dev_name := nm; region_start := a;
       region_end := b; gpa := g; ipi_vector := vec; pci_cmd := c |} in
  let none := HOST_PCI_CMD_DMA_DISABLE in
  if (n =? PISCES_LCALL_VFS_READ) || (n =? PISCES_LCALL_VFS_WRITE) then mk (io_args m) [] 0 0 [] 0 0 0 0 none
  else if n =? PISCES_LCALL_VFS_OPEN then mk no_io (path m) (mode m) 0 [] 0 0 0 0 none
  else if (n =? PISCES_LCALL_VFS_CLOSE) || (n =? PISCES_LCALL_VFS_SIZE) then mk no_io [] 0 (handle m) [] 0 0 0 0 none
  else if (n =? PISCES_LCALL_IOMMU_MAP) || (n =? PISCES_LCALL_IOMMU_UNMAP) then
    mk no_io [] 0 0 (dev_name m) (region_start m) (region_end m) (gpa m) 0 none
  else if n =? PISCES_LCALL_PCI_ATTACH then mk no_io [] 0 0 (dev_name m) 0 0 0 (ipi_vector m) none
  else if (n =? PISCES_LCALL_PCI_DETACH) || (n =? PISCES_LCALL_PCI_ACK_IRQ) then mk no_io [] 0 0 (dev_name m) 0 0 0 0 none
  else if n =? PISCES_LCALL_PCI_CMD then mk no_io [] 0 0 (dev_name m) 0 0 0 0 (pci_cmd m)
  else blank n.

(** A sum of lists as the concatenation of its parts. *)
Ltac parts_of t := match t with ?a ++ ?b => let r := parts_of b in constr:(a :: r) | ?a => constr:([a]) end.
Ltac as_parts :=
  match goal with |- context [le 8 ?n ++ ?r] =>
    let l := parts_of (le 8 n ++ r) in replace (le 8 n ++ r) with (concat l) by (cbn [concat]; by rewrite app_nil_r) end.
Ltac lengths :=
  cbn [take concat app]; rewrite ?length_app, ?le_length, ?name_field_length by done; cbn [length]; try reflexivity; try lia.
Ltac read4 i o := erewrite (field4 _ i _ o); [|reflexivity|lengths|done]; cbn [mbind option_bind].
Ltac read8 i o := erewrite (field8 _ i _ o); [|reflexivity|lengths|done]; cbn [mbind option_bind].
Ltac read_name := erewrite (name_part _ 2); [|reflexivity|lengths|done|done]; cbn [mbind option_bind].

Lemma decode_message m : msg_ok m → decode (encode m) = Some (relevant m).
Proof.
  intros [H1 (H2&H3&H4) (H5&H6) H7 (H8&H9) (H10&H11) (H12&H13&H14) H15]. unfold decode.
  assert (field (encode m) 0 8 = Some (lcall m)) as ->.
  { unfold encode. as_parts. by apply (field8 _ 0). }
  cbn [mbind option_bind]. unfold encode, body, relevant. cbv zeta. set (n := lcall m) in *.
  destruct (_ || _).
  { as_parts. unfold vfs_read_lcall. read8 2%nat 12. read8 3%nat 20. read8 4%nat 28. read4 5%nat 36. rewrite Nat2Z.id.
    erewrite (descs_part _ _ 6); [|reflexivity|lengths|done]. cbn [mbind option_bind]. by destruct (io_args m). }
  destruct (n =? PISCES_LCALL_VFS_OPEN).
  { unfold vfs_open_lcall. replace (string_at _) with (Some (path m)).
    - as_parts. by read4 2%nat 12.
    - assert (∀ a b c d : list byte, a ++ b ++ c ++ d = (a ++ b ++ c) ++ d) as -> by (intros; by rewrite !app_assoc).
      rewrite drop_app_length' by (rewrite !length_app, !le_length; lia). symmetry. by apply (string_at_text (path m) []). }
  destruct (_ || _).
  { unfold vfs_close_lcall. as_parts. by read8 2%nat 12. }
  destruct (_ || _).
  { unfold pci_iommu_map_lcall. as_parts. read_name. read8 3%nat 140. read8 4%nat 148. by read8 5%nat 156. }
  destruct (n =? PISCES_LCALL_PCI_ATTACH).
  { unfold pci_attach_lcall. as_parts. read_name. by read4 3%nat 140. }
  destruct (_ || _).
  { unfold pci_detach_lcall. as_parts. by read_name. }
  destruct (n =? PISCES_LCALL_PCI_CMD); [|done].
  unfold pci_cmd_lcall. as_parts. read_name. erewrite (field4 _ 3 _ 140); [|reflexivity|lengths|by destruct (pci_cmd m)].
  cbn [mbind option_bind]. by destruct (pci_cmd m).
Qed.

(** *** Messages that are too short *)

(** How much of its structure a call reads for certain. *)
Definition least (n : Z) : Z :=
  if (n =? PISCES_LCALL_VFS_READ) || (n =? PISCES_LCALL_VFS_WRITE) then 40
  else if n =? PISCES_LCALL_VFS_OPEN then 17
  else if (n =? PISCES_LCALL_VFS_CLOSE) || (n =? PISCES_LCALL_VFS_SIZE) then 20
  else if (n =? PISCES_LCALL_IOMMU_MAP) || (n =? PISCES_LCALL_IOMMU_UNMAP) then 164
  else if n =? PISCES_LCALL_PCI_ATTACH then 144
  else if (n =? PISCES_LCALL_PCI_DETACH) || (n =? PISCES_LCALL_PCI_ACK_IRQ) then 140
  else if n =? PISCES_LCALL_PCI_CMD then 144
  else 8.

Lemma field_inv m off n v : field m off n = Some v → off + n ≤ zlen m.
Proof. unfold field, slice. case_bool_decide as Hb; [lia|done]. Qed.
Lemma name_inv m off v : name_at m off = Some v → off + 128 ≤ zlen m.
Proof. unfold name_at, slice. case_bool_decide as Hb; [lia|done]. Qed.

(** A successful decoding has read that much. *)
Lemma decode_least m n msg : field m 0 8 = Some n → decode m = Some msg → least n ≤ zlen m.
Proof.
  intros Hn. unfold decode. rewrite Hn. cbn [mbind option_bind]. unfold least.
  destruct (_ || _).
  { unfold vfs_read_lcall. intros (io&(h&_&(o&_&(l&_&(d&Hd%field_inv&_)%bind_Some)%bind_Some)%bind_Some)%bind_Some&_)%bind_Some. lia. }
  destruct (n =? _).
  { unfold vfs_open_lcall. intros (md&Hmd%field_inv&(p&Hp&_)%bind_Some)%bind_Some.
    destruct (drop 16 m) as [|b l] eqn:E; [done|]. assert (length (drop 16 m) ≠ 0)%nat as Hl by by rewrite E.
    rewrite length_drop in Hl. lia. }
  destruct (_ || _); [unfold vfs_close_lcall; intros (h&Hh%field_inv&_)%bind_Some; lia|].
  destruct (_ || _).
  { unfold pci_iommu_map_lcall. intros (nm&_&(a&_&(b&_&(g&Hg%field_inv&_)%bind_Some)%bind_Some)%bind_Some)%bind_Some. lia. }
  destruct (n =? _); [unfold pci_attach_lcall; intros (nm&_&(a&Ha%field_inv&_)%bind_Some)%bind_Some; lia|].
  destruct (_ || _); [unfold pci_detach_lcall; intros (nm&Hnm%name_inv&_)%bind_Some; lia|].
  destruct (n =? _); [unfold pci_cmd_lcall; intros (nm&_&(a&Ha%field_inv&_)%bind_Some)%bind_Some; lia|].
  intros _. by apply field_inv in Hn.
Qed.

Lemma decode_number m msg : decode m = Some msg → field m 0 8 = Some (lcall msg).
Proof.
  unfold decode. destruct (field m 0 8) as [n|]; [|done]. cbn [mbind option_bind]. intros H. f_equal. revert H.
  destruct (_ || _); [by intros (io&_&[= <-])%bind_Some|].
  destruct (n =? _); [by unfold vfs_open_lcall; intros (md&_&(p&_&[= <-])%bind_Some)%bind_Some|].
  destruct (_ || _); [by unfold vfs_close_lcall; intros (h&_&[= <-])%bind_Some|].
  destruct (_ || _).
  { by unfold pci_iommu_map_lcall; intros (nm&_&(a&_&(b&_&(g&_&[= <-])%bind_Some)%bind_Some)%bind_Some)%bind_Some. }
  destruct (n =? _); [by unfold pci_attach_lcall; intros (nm&_&(a&_&[= <-])%bind_Some)%bind_Some|].
  destruct (_ || _); [by unfold pci_detach_lcall; intros (nm&_&[= <-])%bind_Some|].
  destruct (n =? _); [by unfold pci_cmd_lcall; intros (nm&_&(a&_&[= <-])%bind_Some)%bind_Some|by intros [= <-]].
Qed.

(** ** Properties *)

Section properties.
Context {T E : Type} `{StoreOps T E}.
Context (k : @answers E).

Lemma dispatch_relevant (s : @served T) m : dispatch k s (relevant m) = dispatch k s m.
Proof.
  unfold relevant. destruct (_ || _) eqn:E1.
  { unfold dispatch. cbn [lcall io_args]. destruct (lcall m =? PISCES_LCALL_VFS_READ); [done|]. cbn [orb] in E1. by rewrite E1. }
  apply orb_false_elim in E1 as [N1 N2]. destruct (lcall m =? PISCES_LCALL_VFS_OPEN) eqn:E2.
  { unfold dispatch. cbn [lcall path mode]. by rewrite N1, N2, E2. }
  destruct (_ || _) eqn:E3.
  { unfold dispatch. cbn [lcall handle]. rewrite N1, N2, E2. destruct (lcall m =? PISCES_LCALL_VFS_CLOSE); [done|].
    cbn [orb] in E3. by rewrite E3. }
  apply orb_false_elim in E3 as [N3 N4]. destruct (_ || _) eqn:E4.
  { unfold dispatch. cbn [lcall dev_name region_start region_end gpa]. rewrite N1, N2, E2, N3, N4.
    destruct (lcall m =? PISCES_LCALL_IOMMU_MAP); [done|]. cbn [orb] in E4. by rewrite E4. }
  apply orb_false_elim in E4 as [N5 N6]. destruct (lcall m =? PISCES_LCALL_PCI_ATTACH) eqn:E5.
  { unfold dispatch. cbn [lcall dev_name ipi_vector]. by rewrite N1, N2, E2, N3, N4, N5, N6, E5. }
  destruct (_ || _) eqn:E6.
  { unfold dispatch. cbn [lcall dev_name]. rewrite N1, N2, E2, N3, N4, N5, N6, E5.
    destruct (lcall m =? PISCES_LCALL_PCI_DETACH); [done|]. cbn [orb] in E6. by rewrite E6. }
  apply orb_false_elim in E6 as [N7 N8]. destruct (lcall m =? PISCES_LCALL_PCI_CMD) eqn:E7; unfold dispatch, blank;
    cbn [lcall dev_name pci_cmd]; by rewrite N1, N2, E2, N3, N4, N5, N6, E5, N7, N8, E7.
Qed.

End properties.

(** The request to ready a device, and one that ends before its vector. *)
Definition demo_attach : lcall_msg := demo_msg PISCES_LCALL_PCI_ATTACH.

