(* ===== verification/Enclave.v ===== *)
(** * The life of an enclave ([src/enclave.c], [src/main.c])

    Creation, references and release of an enclave structure, launching it and
    putting its resources back after a reset, from the calls of the modelled
    components.  Structures are identified by their addresses (0 is NULL).  The
    answers of the rest of the kernel are arguments. *)
From S2P Require Import Prelude Resources Pci Pgtables Trampoline Boot FileIo BootParams Cons Ctrl.
#[local] Open Scope Z_scope.

(** ** The code: the table of enclaves and the calls on [/dev/pisces] *)

(** Why a call does not return: memory not allocated is used, or a wait that
    nothing ends. *)
Inductive outcome (A : Type) := Done (a : A) | Crash.
Arguments Done {A}. Arguments Crash {A}.

(** [enclave_map], the enclave structures that are allocated, and those of them
    that were launched (their calls have a kernel thread). *)
Record table := { enclave_map : list Z; allocated : list Z; launched : list Z }.

(** The answers to one creation. *)
Record create_env := {
  kmalloc_ptr : Z;             (* NULL, or the address of a new structure *)
  cdev_add_ret : Z;
  device_ptr : Z               (* device_create: NULL, a pointer or an error pointer *)
}.

(** The value returned and the table. *)
Definition pisces_enclave_create (a : create_env) (t : table) : outcome (Z * table) :=
  let p := kmalloc_ptr a in
  if IS_ERR p then Done (-1, t) else
  if p =? 0 then Crash else                                     (* memset through NULL *)
  let t := {| enclave_map := enclave_map t; allocated := p :: allocated t; launched := launched t |} in
  let '(idx, m) := alloc_enclave_index p (enclave_map t) in
  let kfree := {| enclave_map := m; allocated := filter (λ q, q ≠ p) (allocated t);
                  launched := launched t |} in
  if idx =? -1 then Done (-1, kfree) else
  if negb (cdev_add_ret a =? 0) then Done (-1, kfree) else
  if device_ptr a =? 0 then Done (-1, kfree) else
  Done (idx, {| enclave_map := m; allocated := allocated t; launched := launched t |}).

(** [pisces_enclave_free] of the structure [p], whose index is [idx], when its
    calls' thread lets itself be stopped; [others]: it is still open elsewhere. *)
Definition pisces_enclave_free (p idx : Z) (others : bool) (t : table) : outcome table :=
  if negb (bool_decide (p ∈ allocated t)) then Crash else
  if negb (bool_decide (p ∈ launched t)) then Crash else        (* kthread_stop(NULL) *)
  Done {| enclave_map := free_enclave_index idx (enclave_map t);
          allocated := if others then allocated t else filter (λ q, q ≠ p) (allocated t);
          launched := filter (λ q, q ≠ p) (launched t) |}.

Definition PISCES_LOAD_IMAGE : Z := 1001.
Definition PISCES_FREE_ENCLAVE : Z := 1003.

(** [img_ok]: the image was copied from user space. *)
Definition device_ioctl (ioctl arg : Z) (img_ok : bool) (a : create_env) (others : bool) (t : table)
  : outcome (Z * table) :=
  if ioctl =? PISCES_LOAD_IMAGE then
    if negb img_ok then Done (- EFAULT, t) else
    match pisces_enclave_create a t with
    | Crash => Crash
    | Done (idx, t) => if idx =? -1 then Done (- EFAULT, t) else Done (idx, t)
    end
  else if ioctl =? PISCES_FREE_ENCLAVE then
    let enclave_idx := s32 arg in
    if (enclave_idx <? 0) || (enclave_idx >=? Z.of_nat MAX_ENCLAVES) then Done (- EINVAL, t) else
    match enclave_map t !! Z.to_nat enclave_idx with
    | None => Done (- EINVAL, t)
    | Some p => if p =? 0 then Done (- EINVAL, t) else
                match pisces_enclave_free p enclave_idx others t with
                | Crash => Crash
                | Done t => Done (0, t)
                end
    end
  else Done (- EINVAL, t).

(** ** The code: references *)

(** The counter, and whether the structure was freed ([enclave_last_put]). *)
Record kref := { refcount : Z; freed : bool }.
Definition kref_init : kref := {| refcount := 1; freed := false |}.
Definition enclave_get (k : kref) : kref := {| refcount := refcount k + 1; freed := freed k |}.
Definition enclave_put (k : kref) : kref :=
  {| refcount := refcount k - 1; freed := freed k || (refcount k =? 1) |}.

(** What takes and drops them: the device file, the control descriptor ([fd] is
    what [anon_inode_getfd] returns) and the proc files ([ret]: [single_open]). *)
Definition enclave_open (k : kref) : Z * kref := (0, enclave_get k).
Definition enclave_release (k : kref) : Z * kref := (0, enclave_put k).
Definition pisces_ctrl_connect (fd : Z) (k : kref) : Z * kref :=
  let k := enclave_get k in if fd <? 0 then (fd, enclave_put k) else (fd, k).
Definition ctrl_release (k : kref) : Z * kref := (0, enclave_put k).
Definition proc_open (ret : Z) (k : kref) : Z * kref := (ret, enclave_get k).
Definition proc_release (k : kref) : Z * kref := (0, enclave_put k).

(** ** The code: launching *)

Inductive enclave_state := ENCLAVE_LOADED | ENCLAVE_RUNNING | ENCLAVE_DEAD.

Record launch_env := { base : Z; block_size : Z; num_blocks : Z; boot_cpu_id : Z }.

(** The registrations of the LAUNCH call: [for (i = 0; i < num_blocks; i++)]. *)
Fixpoint add_blocks (n : nat) (i : Z) (b : launch_env) (r : resources) : option resources :=
  match n with
  | O => Some r
  | S n =>
      '(_, r) ← pisces_enclave_add_mem true (u64 (base b + u64 (i * block_size b)))
                  (block_size b / 4096) r;
      add_blocks n (i + 1) b r
  end.

(** [bootmem_addr_pa], [bootmem_size] and the resources at the launch. *)
Definition launch_prepare (NR_CPUS : Z) (b : launch_env) (r : resources) : option (Z * Z * resources) :=
  let num_pages := u64 (num_blocks b * block_size b) / 4096 in
  '(_, r) ← pisces_enclave_add_cpu NR_CPUS (boot_cpu_id b) r;
  r ← add_blocks (Z.to_nat (num_blocks b)) 0 b r;
  Some (base b, u64 (num_pages * 4096), r).

(** [pisces_enclave_launch], from what its two calls return. *)
Definition pisces_enclave_launch (setup_ret boot_ret : Z) (st : enclave_state) : Z * enclave_state :=
  if setup_ret =? -1 then (-1, st) else
  if boot_ret =? -1 then (-1, st) else (0, ENCLAVE_RUNNING).

(** ** The code: after a reset *)

Section reset.
Context {S : Type} `{TrampolineOps S}.
Context (v : env) (bootmem_addr_pa bootmem_size boot_cpu : Z).

(** Boot memory is not added. *)
Definition is_boot_block (b : enclave_mem_block) : bool :=
  (base_addr b >=? bootmem_addr_pa) && (base_addr b <? u64 (bootmem_addr_pa + bootmem_size)).

Fixpoint readd_mem (l : list enclave_mem_block) (e : enclave S) : option (enclave S) :=
  match l with
  | [] => Some e
  | b :: l => if is_boot_block b then readd_mem l e
              else '(_, e) ← ctrl_add_mem v (base_addr b) (pages b) e; readd_mem l e
  end.

Fixpoint readd_cpus (l : list Z) (e : enclave S) : option (enclave S) :=
  match l with
  | [] => Some e
  | c :: l => if c =? boot_cpu then readd_cpus l e
              else '(_, e) ← ctrl_add_cpu v c e; readd_cpus l e
  end.

(** The specification rebuilt for a device: name, bus, slot and function. *)
Definition spec_bytes (d : pisces_pci_dev) : list byte :=
  take 128 ((byte_of_Z <$> name d) ++ replicate 128 Byte.x00) ++
  le 4 (bus d) ++ le 4 (Z.land (Z.shiftr (devfn d) 3) 0x1f) ++ le 4 (Z.land (devfn d) 0x07).

(** The loop does not expect the device it stands at to be freed, which is what
    a refused device is. *)
Fixpoint readd_pci (l : list pisces_pci_dev) (e : enclave S) : option (enclave S) :=
  match l with
  | [] => Some e
  | d :: l =>
      '(_, e) ← ctrl_add_pci v (spec_bytes d) e;
      if bool_decide (addr d ∈ addr <$> dev_list (pci e)) then readd_pci l e else None
  end.

Definition readd (e : enclave S) : option (enclave S) :=
  e ← readd_mem (memdesc_list (res e)) e;
  e ← readd_cpus (for_each_cpu (NR_CPUS v) (assigned_cpus (res e))) e;
  readd_pci (dev_list (pci e)) e.
End reset.

(** ** Specification: references *)

(** Uses of an enclave.  A console descriptor takes no reference. *)
Inductive ref_op :=
  | Open | Release
  | CtrlConnect (fd : Z) | CtrlRelease
  | ProcOpen (ret : Z) | ProcRelease
  | ConsConnect | ConsClose
  | Free.

(** The counter, with what it should count: descriptors of each kind, proc
    files whose opening failed, console descriptors, and whether the enclave was
    given up. *)
Record users := {
  kr : kref;
  files : nat; ctrls : nat; procs : nat; lost : nat;
  consoles : nat;
  given_up : bool
}.
Definition new_enclave : users :=
  {| kr := kref_init; files := 0; ctrls := 0; procs := 0; lost := 0; consoles := 0; given_up := false |}.

(** Only what is open is closed, and a given-up enclave is not found again. *)
Definition ref_ok (u : users) (o : ref_op) : Prop :=
  match o with
  | Open | ProcOpen _ | Free => given_up u = false
  | Release => files u ≠ 0%nat
  | CtrlConnect _ | ConsConnect => files u ≠ 0%nat
  | CtrlRelease => ctrls u ≠ 0%nat
  | ProcRelease => procs u ≠ 0%nat
  | ConsClose => consoles u ≠ 0%nat
  end.

Definition ref_do (u : users) (o : ref_op) : users :=
  let mk k f c p l n g := {| kr := k; files := f; ctrls := c; procs := p; lost := l; consoles := n; given_up := g |} in
  match o with
  | Open => mk (enclave_open (kr u)).2 (S (files u)) (ctrls u) (procs u) (lost u) (consoles u) (given_up u)
  | Release => mk (enclave_release (kr u)).2 (pred (files u)) (ctrls u) (procs u) (lost u) (consoles u) (given_up u)
  | CtrlConnect fd => mk (pisces_ctrl_connect fd (kr u)).2 (files u)
      (if fd <? 0 then ctrls u else S (ctrls u)) (procs u) (lost u) (consoles u) (given_up u)
  | CtrlRelease => mk (ctrl_release (kr u)).2 (files u) (pred (ctrls u)) (procs u) (lost u) (consoles u) (given_up u)
  | ProcOpen ret => mk (proc_open ret (kr u)).2 (files u) (ctrls u)
      (if ret =? 0 then S (procs u) else procs u) (if ret =? 0 then lost u else S (lost u))
      (consoles u) (given_up u)
  | ProcRelease => mk (proc_release (kr u)).2 (files u) (ctrls u) (pred (procs u)) (lost u) (consoles u) (given_up u)
  | ConsConnect => mk (kr u) (files u) (ctrls u) (procs u) (lost u) (S (consoles u)) (given_up u)
  | ConsClose => mk (kr u) (files u) (ctrls u) (procs u) (lost u) (pred (consoles u)) (given_up u)
  | Free => mk (enclave_put (kr u)) (files u) (ctrls u) (procs u) (lost u) (consoles u) true
  end.

Inductive ref_run : users → list ref_op → users → Prop :=
  | ref_run_nil u : ref_run u [] u
  | ref_run_cons u o os u' : ref_ok u o → ref_run (ref_do u o) os u' → ref_run u (o :: os) u'.

Definition held (u : users) : Z :=
  (if given_up u then 0 else 1) + Z.of_nat (files u + ctrls u + procs u + lost u).

(** The counter counts, and the structure is freed at zero. *)
Definition counted (u : users) : Prop :=
  refcount (kr u) = held u ∧ (freed (kr u) = true ↔ held u = 0).

Lemma ref_do_counted u o : ref_ok u o → counted u → counted (ref_do u o).
Proof.
  destruct u as [[rc fr] f c p l n g]. unfold counted, held. simpl. intros Hok [-> Hfr].
  destruct o as [| |fd| |ret| | | |]; simpl in *; unfold pisces_ctrl_connect;
    try case_test; simpl; rewrite ?orb_true_iff, ?Hfr, ?Z.eqb_eq;
    destruct g; simpl in *; try done; split; lia.
Qed.

Lemma ref_do_alive u o :
  ref_ok u o → counted u → o ≠ ConsClose → freed (kr u) = false.
Proof.
  destruct u as [[rc fr] f c p l n g]. unfold counted, held. simpl. intros Hok [_ Hfr] Hne.
  destruct fr; [|done]. pose proof (proj1 Hfr eq_refl) as Hz.
  destruct o, g; simpl in *; try done; lia.
Qed.

(** ** Properties *)

(** For every sequence of opens, control connections, proc reads, releases
    and at most one release of the enclave, failures of descriptors and proc
    opens included: the reference count is the number of users (plus one until
    the enclave is given up), no operation on a counted descriptor happens after
    the structure is freed, and the structure is freed exactly when the enclave
    was given up and no user is left; a proc open that fails is a user for ever.
    Console descriptors are not counted: the structure can be freed while one is
    open. *)
Theorem enclave_references (u : users) (ops : list ref_op) (Hrun : ref_run new_enclave ops u) :
  refcount (kr u) = held u ∧
  (freed (kr u) = true ↔
     given_up u = true ∧ files u = 0%nat ∧ ctrls u = 0%nat ∧ procs u = 0%nat ∧ lost u = 0%nat) ∧
  (∀ o, ref_ok u o → o ≠ ConsClose → freed (kr u) = false) ∧
  (∃ ops' u', ref_run new_enclave ops' u' ∧ freed (kr u') = true ∧ consoles u' = 1%nat).
Proof.
  assert (counted u) as Hc.
  { assert (counted new_enclave) as H0 by (split; [done|split; done]).
    revert H0. induction Hrun as [|x o os x' Hok _ IH]; [done|]. intros. apply IH. by apply ref_do_counted. }
  split; [apply Hc|]. split; [|split].
  - destruct Hc as [_ ->]. unfold held. destruct (given_up u).
    + split; [intros; split_and!; done || lia|intros (_&->&->&->&->); done].
    + split; [lia|by intros (?&_)].
  - intros o Hok Hne. by eapply ref_do_alive.
  - exists [Open; ConsConnect; Release; Free]. eexists. split; [|split].
    + repeat (econstructor; [done|]). constructor.
    + reflexivity.
    + reflexivity.
Qed.

Lemma enclave_references_witness :
  let u := ref_do (ref_do (ref_do new_enclave Open) (CtrlConnect 5)) Free in
  refcount (kr u) = 2 ∧ held u = 2.
Proof.
  intros u.
  destruct (enclave_references u [Open; CtrlConnect 5; Free]) as (H1&_).
  - repeat (econstructor; [done|]). constructor.
  - split; [exact H1|reflexivity].
Defined.

(** *** The table *)

(** Every entry of the table is an allocated structure, and none is there twice. *)
Record table_ok (t : table) : Prop := {
  ok_len : length (enclave_map t) = MAX_ENCLAVES;
  ok_live : ∀ (i : nat) p, enclave_map t !! i = Some p → p ≠ 0 → p ∈ allocated t;
  ok_inj : ∀ (i j : nat) p, enclave_map t !! i = Some p → enclave_map t !! j = Some p → p ≠ 0 → i = j
}.

Lemma table_ok_insert t (i : nat) p al ln :
  table_ok t → enclave_map t !! i = Some 0 → p ∉ allocated t →
  (∀ q, q ∈ allocated t → q ∈ al) → p ∈ al →
  table_ok {| enclave_map := <[i := p]> (enclave_map t); allocated := al; launched := ln |}.
Proof.
  intros [Hl Hv Hj] Hi Hp Hal Hpal. split; simpl.
  - by rewrite length_insert.
  - intros j q Hq Hq0. apply list_lookup_insert_Some in Hq as [(<-&<-&_)|(Hne&Hq)]; [done|].
    apply Hal. by apply (Hv j).
  - assert (∀ j, enclave_map t !! j = Some p → p = 0) as Hno.
    { intros j Hj'. destruct (decide (p = 0)); [done|]. by destruct Hp; apply (Hv j). }
    intros j1 j2 q H1 H2 Hq0.
    apply list_lookup_insert_Some in H1 as [(<-&<-&_)|(Hne1&H1)];
      apply list_lookup_insert_Some in H2 as [(?&?&_)|(Hne2&H2)]; subst; try done.
    + by apply Hno in H2.
    + by apply Hno in H1.
    + by apply (Hj j1 j2 q).
Qed.

Lemma table_ok_delete t (i : nat) p (others : bool) ln :
  table_ok t → enclave_map t !! i = Some p → p ≠ 0 →
  table_ok {| enclave_map := <[i := 0]> (enclave_map t);
              allocated := if others then allocated t else filter (λ q, q ≠ p) (allocated t); launched := ln |}.
Proof.
  intros [Hl Hv Hj] Hi Hp. split; cbn [enclave_map allocated].
  - by rewrite length_insert.
  - intros j r Hr Hr0. apply list_lookup_insert_Some in Hr as [(_&<-&_)|(Hne&Hr)]; [done|].
    destruct others; [by apply (Hv j)|]. apply list_elem_of_filter. split; [|by apply (Hv j)].
    intros ->. by apply Hne, (Hj i j p).
  - intros j1 j2 r Hr1 Hr2 Hr0.
    apply list_lookup_insert_Some in Hr1 as [(_&<-&_)|(_&Hr1)]; [done|].
    apply list_lookup_insert_Some in Hr2 as [(_&<-&_)|(_&Hr2)]; [done|]. by apply (Hj j1 j2 r).
Qed.

(** An index of the table, as the argument of the call and as a result; a pointer. *)
Lemma index_arg (i : nat) :
  (i < MAX_ENCLAVES)%nat → s32 (Z.of_nat i) = Z.of_nat i ∧
  (Z.of_nat i <? 0) || (Z.of_nat i >=? Z.of_nat MAX_ENCLAVES) = false.
Proof.
  intros Hi. unfold MAX_ENCLAVES in *. split; [apply swrap_small; lia|].
  rewrite Z.geb_leb. destruct (Z.ltb_spec (Z.of_nat i) 0), (Z.leb_spec (Z.of_nat 128) (Z.of_nat i)); try lia; done.
Qed.
Lemma index_result (i : nat) : (Z.of_nat i =? -1) = false.
Proof. apply Z.eqb_neq. lia. Qed.
Lemma pointer_valid p : 0 < p < 2 ^ 64 - 4095 → IS_ERR p = false ∧ (p =? 0) = false.
Proof.
  intros Hp. unfold IS_ERR. rewrite Z.geb_leb. destruct (Z.leb_spec (2 ^ 64 - 4095) p), (Z.eqb_spec p 0); lia || done.
Qed.
Lemma filtered_out (p : Z) (l : list Z) : p ∉ filter (λ q, q ≠ p) l.
Proof. intros Hin. by apply list_elem_of_filter in Hin as [? _]. Qed.



(** *** Launching *)

(** The blocks of a boot environment. *)
Definition boot_blocks (b : launch_env) : list enclave_mem_block :=
  (λ i, {| base_addr := base b + i * block_size b; pages := block_size b / 4096 |}) <$>
    seqZ 0 (num_blocks b).

Record launch_ok (b : launch_env) : Prop := {
  lk_base : 0 ≤ base b;
  lk_size : 0 < block_size b ∧ block_size b mod 4096 = 0 ∧ block_size b / 4096 < 2 ^ 32;
  lk_num : 0 < num_blocks b < 2 ^ 31;
  lk_end : base b + num_blocks b * block_size b < 2 ^ 64
}.

Lemma add_blocks_spec NRC b n i r :
  0 ≤ NRC < 2 ^ 32 → launch_ok b → 0 ≤ i → i + Z.of_nat n = num_blocks b → Resources.wf NRC r →
  zlen (memdesc_list r) + Z.of_nat n < 2 ^ 32 - 1 →
  ∃ r', add_blocks n i b r = Some r' ∧ Resources.wf NRC r' ∧
    memdesc_list r' ≡ₚ ((λ i, {| base_addr := base b + i * block_size b; pages := block_size b / 4096 |})
                         <$> seqZ i (Z.of_nat n)) ++ memdesc_list r ∧
    (∀ c, c ∈ for_each_cpu NRC (assigned_cpus r') ↔ c ∈ for_each_cpu NRC (assigned_cpus r)).
Proof.
  intros Hnrc [Hb (Hs&Hsm&Hsp) Hn He] Hi Hin Hwf Hlen. revert i r Hi Hin Hwf Hlen.
  induction n as [|n IH]; intros i r Hi Hin Hwf Hlen; [by exists r|]. cbn [add_blocks].
  assert (0 ≤ i * block_size b ∧ (i + 1) * block_size b ≤ num_blocks b * block_size b) as [Hlo Hhi] by nia.
  rewrite (wrap_small 64 (i * _)) by (unfold fits; lia).
  rewrite (wrap_small 64 (base b + _)) by (unfold fits; lia).
  pose proof (Z.div_pos (block_size b) 4096 ltac:(lia) ltac:(lia)).
  destruct (serve_spec NRC Hnrc (AddMem (base b + i * block_size b) (block_size b / 4096)) r)
    as (ret&r1&Hs1&Hwf1&_&Hc1&Hm1); [simpl; unfold fits; lia|done|lia|].
  cbn [serve] in Hs1. rewrite Hs1. cbn [mbind option_bind].
  destruct (IH (i + 1) r1) as (r2&->&Hwf2&Hm2&Hc2); [lia|lia|done| |].
  { rewrite Hm1. simpl. lia. }
  exists r2. split; [done|]. split; [done|]. split.
  - rewrite Hm2, Hm1. rewrite (seqZ_cons i) by lia. simpl.
    replace (Z.succ i) with (i + 1) by lia. replace (Z.pred (Z.of_nat (S n))) with (Z.of_nat n) by lia.
    by rewrite Permutation_middle.
  - intros c. rewrite Hc2, Hc1. split; [by intros [?|?]|by left].
Qed.

Lemma launch_prepare_spec (NRC : Z) (b : launch_env) (r : resources) :
  0 ≤ NRC < 2 ^ 32 → launch_ok b → 0 ≤ boot_cpu_id b < NRC → Resources.wf NRC r →
  zlen (memdesc_list r) + num_blocks b < 2 ^ 32 - 1 →
  ∃ r', launch_prepare NRC b r = Some (base b, num_blocks b * block_size b, r') ∧ Resources.wf NRC r' ∧
  memdesc_list r' ≡ₚ boot_blocks b ++ memdesc_list r ∧
  (∀ c, c ∈ for_each_cpu NRC (assigned_cpus r') ↔
        c ∈ for_each_cpu NRC (assigned_cpus r) ∨ c = boot_cpu_id b).
Proof.
  intros Hn Hb Hc Hr Hlen.
  pose proof Hb as [Hb0 (Hs&Hsm&Hsp) Hnum He]. unfold launch_prepare.
  destruct (serve_spec NRC Hn (AddCpu (boot_cpu_id b)) r Hc Hr ltac:(lia)) as (ret&r1&Hs1&Hwf1&_&Hc1&Hm1).
  cbn [serve] in Hs1. rewrite Hs1. cbn [mbind option_bind].
  destruct (add_blocks_spec NRC b (Z.to_nat (num_blocks b)) 0 r1) as (r2&->&Hwf2&Hm2&Hc2);
    [done|done|lia|lia|done|rewrite Hm1; simpl; lia|].
  cbn [mbind option_bind]. exists r2.
  assert (0 < num_blocks b * block_size b) by nia.
  rewrite (wrap_small 64 (num_blocks b * _)) by (unfold fits; lia).
  assert (num_blocks b * block_size b / 4096 * 4096 = num_blocks b * block_size b) as ->.
  { pose proof (Z.div_mod (block_size b) 4096 ltac:(lia)) as Hd. rewrite Hsm in Hd.
    rewrite Hd at 1. replace (num_blocks b * (4096 * (block_size b / 4096) + 0))
      with (num_blocks b * (block_size b / 4096) * 4096) by lia. rewrite Z.div_mul by lia. lia. }
  rewrite (wrap_small 64) by (unfold fits; lia).
  split; [done|]. split; [done|]. split.
  - rewrite Hm2, Hm1. unfold boot_blocks. rewrite Z2Nat.id by lia. done.
  - intros c. rewrite Hc2, Hc1. split; (intros [?|Hx]; [by left|right]); congruence.
Qed.

(** Launching with a boot environment of whole pages that fits the address
    space makes the boot memory exactly the blocks' union, registers the boot
    processor and every block once more (so launching again registers them again),
    keeps the counts right, and every block lies in the boot memory, so that a
    reset does not add it. *)
Theorem launch_registers (NRC : Z) (b : launch_env) (r : resources)
    (Hn : 0 ≤ NRC < 2 ^ 32) (Hb : launch_ok b) (Hc : 0 ≤ boot_cpu_id b < NRC) (Hr : Resources.wf NRC r)
    (Hlen : zlen (memdesc_list r) + num_blocks b < 2 ^ 32 - 1) :
  ∃ r', launch_prepare NRC b r = Some (base b, num_blocks b * block_size b, r') ∧ Resources.wf NRC r' ∧
  memdesc_list r' ≡ₚ boot_blocks b ++ memdesc_list r ∧
  (∀ c, c ∈ for_each_cpu NRC (assigned_cpus r') ↔
        c ∈ for_each_cpu NRC (assigned_cpus r) ∨ c = boot_cpu_id b) ∧
  Forall (λ k, is_boot_block (base b) (num_blocks b * block_size b) k = true) (boot_blocks b).
Proof.
  pose proof Hb as [Hb0 (Hs&Hsm&Hsp) Hnum He].
  destruct (launch_prepare_spec NRC b r) as (r'&H1&H2&H3&H4); [done..|].
  exists r'. split_and!; [done..|].
  apply Forall_fmap, list.Forall_forall. intros i Hi. apply elem_of_seqZ in Hi. unfold compose, is_boot_block.
  cbn [base_addr]. rewrite (wrap_small 64) by (unfold fits; lia). rewrite Z.geb_leb.
  apply andb_true_intro. split; [apply Z.leb_le|apply Z.ltb_lt]; nia.
Qed.

Lemma launch_registers_witness :
  let b := {| base := 0x8000000; block_size := 0x8000000; num_blocks := 2; boot_cpu_id := 1 |} in
  ∃ r', launch_prepare 8 b no_resources = Some (0x8000000, 0x10000000, r') ∧ Resources.wf 8 r' ∧
  memdesc_list r' ≡ₚ boot_blocks b ++ [].
Proof.
  intros b.
  destruct (launch_registers 8 b no_resources) as (r'&H1&H2&H3&_).
  - lia.
  - split; simpl; [lia| |lia|lia]. by split_and!.
  - simpl. lia.
  - split; [reflexivity|done|constructor|reflexivity].
  - simpl. lia.
  - exists r'. split; [exact H1|]. split; [exact H2|exact H3].
Defined.

(** *** Relaunching *)

Definition name_ok (d : pisces_pci_dev) : Prop :=
  (length (name d) ≤ 127)%nat ∧ Forall (λ c, 0 < c < 256) (name d).

Lemma spec_bytes_spec d :
  name_ok d → zlen (spec_bytes d) = sizeof_pisces_pci_spec ∧ sp_name (pci_spec_of (spec_bytes d)) = name d.
Proof.
  intros [Hl Hn]. unfold spec_bytes.
  assert (length (take 128 ((byte_of_Z <$> name d) ++ replicate 128 Byte.x00)) = 128%nat) as H128.
  { rewrite length_take, length_app, length_replicate. lia. }
  split.
  - rewrite !length_app, !le_length, H128. done.
  - unfold pci_spec_of. cbn [sp_name]. rewrite take_app_le by lia. rewrite take_ge by lia.
    rewrite take_app_ge by (rewrite length_fmap; lia).
    rewrite length_fmap, take_replicate, Nat.min_l by lia.
    destruct (128 - length (name d))%nat eqn:E; [lia|]. simpl. by apply cstr_name.
Qed.

Section readd.
Context {S : Type} `{TrampolineLaws S}.
Context (v : env) (pa sz boot_cpu : Z).
Implicit Types e : enclave S.

(** The enclave takes every command. *)
Definition accepts : Prop := ∀ s, sync v s = (0, 0).

(** [e'] is [e] after the commands [cs]. *)
Definition commanded (cs : list (list byte)) e e' : Prop :=
  sent e' = sent e ++ cs ∧ res e' = res e ∧ pci e' = pci e ∧ trampoline_lock (boot e') = false.

Lemma commanded_trans cs1 cs2 e1 e2 e3 :
  commanded cs1 e1 e2 → commanded cs2 e2 e3 → commanded (cs1 ++ cs2) e1 e3.
Proof. intros (H1&H2&H3&H4) (H5&H6&H7&H8). unfold commanded. rewrite H5, H1, app_assoc. split_and!; congruence. Qed.

Lemma ctrl_add_mem_sends b p e :
  trampoline_lock (boot e) = false →
  ∃ r e', ctrl_add_mem v b p e = Some (r, e') ∧ commanded [cmd_mem_add b (u64 (p * 4096))] e e'.
Proof.
  intros Hl. unfold ctrl_add_mem.
  assert (zlen (cmd_mem_add b (u64 (p * 4096))) = sizeof_cmd_mem_add) as Hlen by done.
  rewrite <-Hlen, xbuf_sync_send_whole. cbn [mbind option_bind].
  eexists _, _. split; [reflexivity|]. by split_and!.
Qed.

Lemma ctrl_add_cpu_sends c e :
  trampoline_lock (boot e) = false →
  ∃ r e', ctrl_add_cpu v c e = Some (r, e') ∧
    commanded [cmd_cpu_add PISCES_CMD_ADD_CPU c (apicid v c)] e e'.
Proof.
  intros Hl. unfold ctrl_add_cpu.
  assert (∃ r b, pisces_setup_trampoline (ts v) (pml_bytes v) (bootmem_pa v) (bootmem_sz v) (boot e) = Some (r, b))
    as (r&b&->).
  { unfold pisces_setup_trampoline. case_test; [by eexists _, _|]. rewrite Hl.
    destruct (tr_setup _ _ _). by eexists _, _. }
  cbn [mbind option_bind].
  destruct (cpu_command_framed PISCES_CMD_ADD_CPU c (apicid v c)) as [_ Hlen]; [done|].
  destruct (sync_status_whole v _ _ (with_boot e b) Hlen) as [st ->]. cbn [mbind option_bind].
  unfold pisces_restore_trampoline. destruct (tr_restore _) as [? t].
  eexists _, _. split; [reflexivity|]. by split_and!.
Qed.

Lemma ctrl_add_pci_sends spec e :
  accepts → zlen spec = sizeof_pisces_pci_spec → trampoline_lock (boot e) = false →
  ∃ e', ctrl_add_pci v spec e = Some (0, e') ∧ commanded [cmd_add_pci_dev spec] e e'.
Proof.
  intros Hacc Hs Hl. unfold ctrl_add_pci, sync_status.
  assert (zlen (cmd_add_pci_dev spec) = sizeof_cmd_add_pci_dev) as Hlen.
  { apply command_framed; [done|..]; rewrite length_app, le_length, Nat2Z.inj_add, Hs; done. }
  rewrite <-Hlen, xbuf_sync_send_whole, Hacc. cbn [mbind option_bind fst snd].
  eexists. split; [reflexivity|]. by split_and!.
Qed.

(** What is sent for each kind of resource. *)
Definition mem_commands (l : list enclave_mem_block) : list (list byte) :=
  (λ b, cmd_mem_add (base_addr b) (u64 (pages b * 4096))) <$>
    filter (λ b, is_boot_block pa sz b = false) l.
Definition cpu_commands (l : list Z) : list (list byte) :=
  (λ c, cmd_cpu_add PISCES_CMD_ADD_CPU c (apicid v c)) <$> filter (λ c, c ≠ boot_cpu) l.
Definition pci_commands (l : list pisces_pci_dev) : list (list byte) :=
  (λ d, cmd_add_pci_dev (spec_bytes d)) <$> l.

Lemma readd_mem_sends l e :
  trampoline_lock (boot e) = false → ∃ e', readd_mem v pa sz l e = Some e' ∧ commanded (mem_commands l) e e'.
Proof.
  revert e. induction l as [|b l IH]; intros e Hl; simpl.
  - exists e. split; [done|]. unfold commanded. by rewrite app_nil_r.
  - unfold mem_commands. rewrite filter_cons. destruct (is_boot_block pa sz b) eqn:Hb.
    + rewrite decide_False by done. by apply IH.
    + rewrite decide_True by done. rewrite fmap_cons.
      destruct (ctrl_add_mem_sends (base_addr b) (pages b) e Hl) as (r&e1&->&H1). cbn [mbind option_bind].
      destruct (IH e1) as (e2&->&H2); [apply H1|]. exists e2. split; [done|].
      exact (commanded_trans [_] _ _ _ _ H1 H2).
Qed.

Lemma readd_cpus_sends l e :
  trampoline_lock (boot e) = false →
  ∃ e', readd_cpus v boot_cpu l e = Some e' ∧ commanded (cpu_commands l) e e'.
Proof.
  revert e. induction l as [|c l IH]; intros e Hl; simpl.
  - exists e. split; [done|]. unfold commanded. by rewrite app_nil_r.
  - unfold cpu_commands. rewrite filter_cons. destruct (Z.eqb_spec c boot_cpu) as [Hb|Hb].
    + rewrite decide_False by (intros Hn; by apply Hn). by apply IH.
    + rewrite decide_True by done. rewrite fmap_cons.
      destruct (ctrl_add_cpu_sends c e Hl) as (r&e1&->&H1). cbn [mbind option_bind].
      destruct (IH e1) as (e2&->&H2); [apply H1|]. exists e2. split; [done|].
      exact (commanded_trans [_] _ _ _ _ H1 H2).
Qed.

Lemma readd_pci_sends l e :
  accepts → Forall name_ok l → l ⊆ dev_list (pci e) → trampoline_lock (boot e) = false →
  ∃ e', readd_pci v l e = Some e' ∧ commanded (pci_commands l) e e'.
Proof.
  intros Hacc. revert e. induction l as [|d l IH]; intros e Hn Hsub Hl; cbn [readd_pci].
  - exists e. split; [done|]. unfold commanded. by rewrite app_nil_r.
  - apply Forall_cons_1 in Hn as [Hd Hn]. destruct (spec_bytes_spec d Hd) as [Hsp _].
    destruct (ctrl_add_pci_sends (spec_bytes d) e Hacc Hsp Hl) as (e1&->&H1). cbn [mbind option_bind].
    pose proof H1 as (_&_&Hp&Hl1). rewrite bool_decide_true.
    2: { rewrite Hp. apply list_elem_of_fmap_2. apply Hsub. by left. }
    destruct (IH e1) as (e2&->&H2); [done| |done|].
    { rewrite Hp. intros x Hx. apply Hsub. by right. }
    exists e2. split; [done|]. exact (commanded_trans [_] _ _ _ _ H1 H2).
Qed.

Lemma readd_sends (e : enclave S) :
  trampoline_lock (boot e) = false → Forall name_ok (dev_list (pci e)) → accepts →
  ∃ e', readd v pa sz boot_cpu e = Some e' ∧
    commanded (mem_commands (memdesc_list (res e)) ++
               cpu_commands (for_each_cpu (NR_CPUS v) (assigned_cpus (res e))) ++
               pci_commands (dev_list (pci e))) e e'.
Proof.
  intros Hl Hn Hacc. unfold readd.
  destruct (readd_mem_sends (memdesc_list (res e)) e Hl) as (e1&->&H1). cbn [mbind option_bind].
  pose proof H1 as (_&Hr1&Hp1&Hl1). rewrite Hr1.
  destruct (readd_cpus_sends (for_each_cpu (NR_CPUS v) (assigned_cpus (res e))) e1 Hl1) as (e2&->&H2).
  cbn [mbind option_bind]. pose proof H2 as (_&_&Hp2&Hl2). rewrite Hp2, Hp1.
  destruct (readd_pci_sends (dev_list (pci e)) e2 Hacc Hn) as (e3&->&H3); [by rewrite Hp2, Hp1|done|].
  exists e3. split; [done|]. eapply commanded_trans; [exact H1|]. by eapply commanded_trans.
Qed.

(** After a reset, if the enclave takes every command, it is sent again
    exactly its resources: an ADD_MEM for every memory block outside of the boot
    memory, an ADD_CPU for every processor but the boot processor and an
    ADD_V3_PCI for every device, in this order, and the host's records stay as
    they were.  If the enclave refuses its first device, the host frees the
    structure in the middle of the walk of the list of devices and goes on from
    freed memory. *)
Theorem reset_readds (e : enclave S)
    (Hl : trampoline_lock (boot e) = false) (Hn : Forall name_ok (dev_list (pci e))) :
  (accepts → ∃ e', readd v pa sz boot_cpu e = Some e' ∧
     commanded (mem_commands (memdesc_list (res e)) ++
                cpu_commands (for_each_cpu (NR_CPUS v) (assigned_cpus (res e))) ++
                pci_commands (dev_list (pci e))) e e') ∧
  (∀ d l, dev_list (pci e) = d :: l → Pci.ready d = true → assigned d = false →
     (∀ s, (sync v s).1 ≠ 0) → readd v pa sz boot_cpu e = None).
Proof.
  split; [by apply readd_sends|]. unfold readd.
  destruct (readd_mem_sends (memdesc_list (res e)) e Hl) as (e1&->&H1). cbn [mbind option_bind].
  pose proof H1 as (_&Hr1&Hp1&Hl1). rewrite Hr1.
  destruct (readd_cpus_sends (for_each_cpu (NR_CPUS v) (assigned_cpus (res e))) e1 Hl1) as (e2&->&H2).
  cbn [mbind option_bind]. pose proof H2 as (_&_&Hp2&Hl2). rewrite Hp2, Hp1.
  intros d l Hd Hrdy Hasg Hno. rewrite Hd. cbn [readd_pci].
    rewrite Hd in Hn. apply Forall_cons_1 in Hn as [Hdn _]. destruct (spec_bytes_spec d Hdn) as [Hsp Hnm].
    unfold ctrl_add_pci, sync_status.
    assert (zlen (cmd_add_pci_dev (spec_bytes d)) = sizeof_cmd_add_pci_dev) as Hlen.
    { apply command_framed; [done|..]; rewrite length_app, le_length, Nat2Z.inj_add, Hsp; done. }
    rewrite <-Hlen, xbuf_sync_send_whole. cbn [mbind option_bind].
    rewrite (proj2 (Z.eqb_neq _ _) (Hno _)). cbn [Z.eqb negb pci].
    unfold enclave_pci_remove_dev. rewrite Hnm, Hp2, Hp1, Hd. cbn [find_dev_by_name].
    rewrite bool_decide_true by done. cbn [__unregister_device]. rewrite Hasg, Hrdy. cbn [negb andb].
    cbn [Z.eqb __deinit_pci_dev mbind option_bind pci with_pci dev_list]. rewrite bool_decide_false; [done|].
    intros Hin. apply list_elem_of_fmap in Hin as (x&Hx&Hin). unfold list_del in Hin. rewrite Hd in Hin.
    apply list_elem_of_filter in Hin as [Hne _]. congruence.
Qed.
End readd.

(** The enclave of the control calls, with a block outside of its boot memory. *)
Definition reset_enclave : enclave V3.state :=
  {| running := true;
     res := {| num_cpus := 2; assigned_cpus := 6; memdesc_num := 2;
               memdesc_list := [{| base_addr := 0x200000; pages := 512 |}; {| base_addr := 0x900000; pages := 1 |}] |};
     pci := init_enclave_pci; boot := boot demo_enclave; sent := [] |}.

Lemma reset_readds_witness :
  ∃ e', readd (demo_env 0) 0x200000 0x200000 1 reset_enclave = Some e' ∧
  commanded (mem_commands 0x200000 0x200000 (memdesc_list (res reset_enclave)) ++
     cpu_commands (demo_env 0) 1 (for_each_cpu 8 6) ++ pci_commands []) reset_enclave e'.
Proof.
  destruct (reset_readds (demo_env 0) 0x200000 0x200000 1 reset_enclave) as [Hr _].
  - done.
  - constructor.
  - apply Hr. intros s. done.
Defined.
