(* ===== verification/Device.v ===== *)
(** * The calls on an enclave's device ([enclave_ioctl] of [src/enclave.c])

    What [PISCES_ENCLAVE_LAUNCH], [PISCES_ENCLAVE_RESET] and the two connect calls
    do, composed of the modelled components: the resources, the boot parameters,
    the boot, the console, the references, the PCI devices and the commands.  The
    calls run one at a time, under the enclave's [op_lock].  [None] is undefined
    behaviour, or a wait that nothing ends. *)
From S2P Require Import Prelude Resources Pci Pgtables Trampoline Boot FileIo BootParams Cons Ctrl Enclave.
#[local] Open Scope Z_scope.
#[local] Open Scope list_scope.

Definition PISCES_ENCLAVE_LAUNCH : Z := 2000.
Definition PISCES_ENCLAVE_RESET : Z := 2001.
Definition PISCES_ENCLAVE_CONS_CONNECT : Z := 2004.
Definition PISCES_ENCLAVE_CTRL_CONNECT : Z := 2005.

Section device.
Context {S : Type} `{TrampolineOps S}.

(** ** The code *)

(** The enclave: what the control calls use of it, its boot memory and boot
    processor, its state, whether the thread that serves its calls exists, the
    console, the references, and the interrupts sent so far. *)
Record device := {
  encl : enclave S;
  bootmem_addr : Z; bootmem_bytes : Z; dev_boot_cpu : Z;
  dev_state : enclave_state; thread : bool;
  dev_cons : pisces_cons; dev_refs : kref;
  apic_log : list apic_event
}.

(** What the rest of the system answers to a call. *)
Record kernel := {
  user_boot : option launch_env;                (* copy_from_user *)
  lcall_ret : Z;                                (* pisces_lcall_init *)
  initialized : list apic_event → bool;         (* the enclave's flag *)
  lcall_stops : bool;                           (* pisces_lcall_deinit returns *)
  hw : pisces_pci_dev → pci_hw;
  new_fd : Z                                    (* anon_inode_getfd *)
}.

(** The interrupt controller, the fuel of the loops that read files, the control
    calls' environment, and the enclave's files and command line. *)
Context (maxlvt : Z) (integrated : bool) (esr icr_idle : list apic_event → Z).
Context (fuel : nat) (v : Ctrl.env) (files : BootParams.boot_env).

Definition params (d : device) : BootParams.boot_env :=
  {| BootParams.bootmem_addr_pa := bootmem_addr d; BootParams.bootmem_size := bootmem_bytes d;
     BootParams.boot_cpu := dev_boot_cpu d; boot_apicid := apicid v (dev_boot_cpu d);
     khz := khz files; rip := cpu_init_rip (ts v); launch_code_image := launch_code_image files;
     kern_cmdline := kern_cmdline files;
     kern_file := kern_file files; kern_file_size := kern_file_size files; kern_reader := kern_reader files;
     init_file := init_file files; init_file_size := init_file_size files; init_reader := init_reader files |}.

(** The environment of the control calls, with the enclave's own boot memory. *)
Definition ctrl_env (d : device) : Ctrl.env :=
  {| NR_CPUS := NR_CPUS v; apicid := apicid v; sync := sync v; kmalloc_ok := kmalloc_ok v;
     pci_env := pci_env v; ts := ts v; pml_bytes := pml_bytes v;
     bootmem_pa := bootmem_addr d; bootmem_sz := bootmem_bytes d;
     cons_irq := cons_irq v; cons_vec := cons_vec v; cons_fd := cons_fd v; ring_at := ring_at v |}.

(** [pisces_enclave_launch]: the parts of the enclave it changes. *)
Definition relaunched (d : device) (b : boot_state S) (st : enclave_state) (th : bool) (c : pisces_cons)
    (log : list apic_event) : device :=
  let e := encl d in
  {| encl := {| running := match st with ENCLAVE_RUNNING => true | _ => false end;
                res := res e; pci := pci e; boot := b; sent := sent e |};
     bootmem_addr := bootmem_addr d; bootmem_bytes := bootmem_bytes d; dev_boot_cpu := dev_boot_cpu d;
     dev_state := st; thread := th; dev_cons := c; dev_refs := dev_refs d; apic_log := log |}.
Definition launch (k : kernel) (d : device) : option (Z * device) :=
  let '(cons_ret, c) := pisces_cons_init (dev_cons d) in
  match setup_boot_params fuel (params d)
          {| cons_init := cons_ret; ctrl_init := 0; lcall_init := lcall_ret k |} with
  | OutOfBounds | NoFuel => None
  | Ok (Failed step _ _) =>
      let '(ret, st) := pisces_enclave_launch (-1) 0 (dev_state d) in
      Some (ret, relaunched d (boot (encl d)) st (thread d || (4 <=? step)%nat)
                   (if (step =? 0)%nat then dev_cons d else c) (apic_log d))
  | Ok (SetUp bp _ _) =>
      r ← boot_enclave maxlvt integrated esr icr_idle (ts v) (pml_bytes v) (bootmem_addr d) (bootmem_bytes d)
            (kernel_addr bp) (apicid v (dev_boot_cpu d)) (initialized k) (boot (encl d));
      let '(ret, st) := pisces_enclave_launch 0 (Boot.ret r) (dev_state d) in
      Some (ret, relaunched d (after r) st true c (apic_log d ++ events r))
  end.

Definition ioctl_launch (k : kernel) (d : device) : option (Z * device) :=
  match user_boot k with
  | None => Some (- EFAULT, d)
  | Some b =>
      '(addr, size, r) ← launch_prepare (NR_CPUS v) b (res (encl d));
      launch k {| encl := with_res (encl d) r; bootmem_addr := addr; bootmem_bytes := size;
                  dev_boot_cpu := boot_cpu_id b; dev_state := dev_state d; thread := thread d;
                  dev_cons := dev_cons d; dev_refs := dev_refs d; apic_log := apic_log d |}
  end.

(** [kthread_stop] of a thread that does not exist, or that does not stop. *)
Definition ioctl_reset (k : kernel) (d : device) : option (Z * device) :=
  if negb (thread d) || negb (lcall_stops k) then None else
  let e := encl d in
  let apicids := apicid v <$> for_each_cpu (NR_CPUS v) (assigned_cpus (res e)) in
  let '(_, log) := stop_enclave maxlvt integrated icr_idle apicids (apic_log d) in
  let '(p, _) := reset_enclave_pci (hw k) (pci e) in
  '(ret, d) ← launch k
    {| encl := with_pci e p; bootmem_addr := bootmem_addr d; bootmem_bytes := bootmem_bytes d;
       dev_boot_cpu := dev_boot_cpu d; dev_state := dev_state d; thread := false;
       dev_cons := dev_cons d; dev_refs := dev_refs d; apic_log := log |};
  if negb (ret =? 0) then Some (ret, d) else
  e ← readd (ctrl_env d) (bootmem_addr d) (bootmem_bytes d) (dev_boot_cpu d) (encl d);
  Some (ret, {| encl := e; bootmem_addr := bootmem_addr d; bootmem_bytes := bootmem_bytes d;
                dev_boot_cpu := dev_boot_cpu d; dev_state := dev_state d; thread := thread d;
                dev_cons := dev_cons d; dev_refs := dev_refs d; apic_log := apic_log d |}).

Definition connected_to (d : device) (c : pisces_cons) (r : kref) : device :=
  {| encl := encl d; bootmem_addr := bootmem_addr d; bootmem_bytes := bootmem_bytes d;
     dev_boot_cpu := dev_boot_cpu d; dev_state := dev_state d; thread := thread d;
     dev_cons := c; dev_refs := r; apic_log := apic_log d |}.

Definition enclave_ioctl (ioctl : Z) (k : kernel) (d : device) : option (Z * device) :=
  if ioctl =? PISCES_ENCLAVE_LAUNCH then ioctl_launch k d
  else if ioctl =? PISCES_ENCLAVE_RESET then ioctl_reset k d
  else if ioctl =? PISCES_ENCLAVE_CONS_CONNECT then
    let '(fd, c) := pisces_cons_connect (new_fd k) (dev_cons d) in Some (fd, connected_to d c (dev_refs d))
  else if ioctl =? PISCES_ENCLAVE_CTRL_CONNECT then
    let '(fd, r) := pisces_ctrl_connect (new_fd k) (dev_refs d) in Some (fd, connected_to d (dev_cons d) r)
  else Some (0, d).
End device.
Arguments device : clear implicits.

(** ** Properties *)

(** The enclave's files are there, behave as regular files, and fit. *)
Record loadable (fuel : nat) (files : BootParams.boot_env) (size : Z) (kernel initrd : list byte) : Prop := {
  ld_code : zlen (launch_code_image files) = 64;
  ld_kern : kern_file files ≠ 0 ∧ regular kernel (kern_reader files) ∧ kern_file_size files = zlen kernel;
  ld_init : init_file files ≠ 0 ∧ regular initrd (init_reader files) ∧ init_file_size files = zlen initrd;
  ld_fit : initrd_offset (zlen kernel) + zlen initrd ≤ size < 2 ^ 63;
  ld_fuel : size < Z.of_nat fuel;
  ld_pages : size mod Pgtables.PAGE_SIZE_2MB = 0
}.

Section properties.
Context {S : Type} `{TrampolineLaws S}.
Context (maxlvt : Z) (integrated : bool) (esr icr_idle : list apic_event → Z).
Context (fuel : nat) (v : Ctrl.env) (files : BootParams.boot_env).
Implicit Types d : device S.

(** What a launch leaves as it was. *)
Definition same_enclave d d' : Prop :=
  res (encl d') = res (encl d) ∧ pci (encl d') = pci (encl d) ∧ sent (encl d') = sent (encl d) ∧
  bootmem_addr d' = bootmem_addr d ∧ bootmem_bytes d' = bootmem_bytes d ∧
  dev_boot_cpu d' = dev_boot_cpu d ∧ dev_refs d' = dev_refs d.

(** The interrupts that start the processor with the APIC id [a]. *)
Definition started (a : Z) (l l' : list (Z * Z)) : Prop :=
  ∃ n, l' = l ++ init_pair a ++
    replicate n (Z.lor APIC_DM_STARTUP (Z.shiftr (cpu_init_rip (ts v)) 12), a).

(** The enclave runs, Linux has its trampoline back, and the console is free. *)
Definition up d d' : Prop :=
  dev_state d' = ENCLAVE_RUNNING ∧ running (encl d') = true ∧ thread d' = true ∧
  trampoline_lock (boot (encl d')) = false ∧
  tr_linux (tramp (boot (encl d'))) = tr_linux (tramp (boot (encl d))) ∧ connected (dev_cons d') = false.

Lemma launch_up k d kernel initrd :
  loadable fuel files (bootmem_bytes d) kernel initrd → lcall_ret k ≠ -1 →
  (∀ tr, initialized k tr = true) → trampoline_lock (boot (encl d)) = false →
  ∃ d', launch maxlvt integrated esr icr_idle fuel v files k d = Some (0, d') ∧ up d d' ∧ same_enclave d d' ∧
    started (apicid v (dev_boot_cpu d)) (icrs (apic_log d)) (icrs (apic_log d')).
Proof.
  intros [Hc (Hk&Hkr&Hks) (Hi&Hir&His) [Hf Hm] Hfu Hp] Hlc Hup Hl. unfold launch. cbn [pisces_cons_init].
  pose proof (initrd_offset_bounds (zlen kernel) ltac:(lia)) as [Hob _].
  destruct (setup_boot_params_loads fuel (params v files d)
    {| cons_init := 0; ctrl_init := 0; lcall_init := lcall_ret k |} kernel initrd)
    as (m1&m2&_&_&_&->); [|done..|].
  { split; [done..|]. cbn. change PAGE_SIZE_2MB with 2097152 in *. change sizeof_boot_params with 1288. lia. }
  destruct (boot_enclave_boots maxlvt integrated esr icr_idle (ts v) (pml_bytes v) (bootmem_addr d)
    (bootmem_bytes d) (kernel_addr (layout_of (params v files d) kernel initrd)) (apicid v (dev_boot_cpu d))
    (initialized k) (boot (encl d)) Hl Hp) as (r&Hr&_&Hlk&_&Hlx&_&(tr&_&Hret)&_&n&Hn&_).
  rewrite Hr. cbn [mbind option_bind]. rewrite Hret, Hup.
  eexists. split; [reflexivity|]. split; [|split]; [done..|].
  exists n. cbn [relaunched apic_log]. by rewrite icrs_app, Hn.
Qed.

(** A kernel file that was never opened ends the launch. *)
Lemma launch_no_kernel k d :
  zlen (launch_code_image files) = 64 → sizeof_boot_params ≤ bootmem_bytes d → lcall_ret k ≠ -1 →
  kern_file files = 0 →
  ∃ d', launch maxlvt integrated esr icr_idle fuel v files k d = Some (-1, d') ∧ same_enclave d d' ∧
    dev_state d' = dev_state d ∧ boot (encl d') = boot (encl d) ∧ apic_log d' = apic_log d.
Proof.
  intros Hc Hm Hlc Hk. unfold launch, setup_boot_params, load_images, load_kernel. cbn [pisces_cons_init cons_init ctrl_init lcall_init].
  change (launch_code_image (params v files d)) with (launch_code_image files).
  change (BootParams.bootmem_size (params v files d)) with (bootmem_bytes d). rewrite Hc.
  destruct (Z.ltb_spec (bootmem_bytes d) sizeof_boot_params); [lia|].
  destruct (Z.eqb_spec (lcall_ret k) (-1)); [done|].
  unfold load_file. cbn [kern_file params]. rewrite Hk.
  eexists. by split.
Qed.

Lemma reset_dev_name f x : name (reset_dev f x).1 = name x.
Proof.
  unfold reset_dev, __deinit_pci_dev, __init_pci_dev. generalize (f (set_state x false (assigned x)
    (iommu_enabled x) (device_ipi_vector x) (intx_disabled x))) as h. intros h.
  by destruct (enable_fails h), (regions_ret h =? 0), (domain_ok h).
Qed.

Lemma reset_names f p : Forall name_ok (dev_list p) → Forall name_ok (dev_list (reset_enclave_pci f p).1).
Proof.
  intros Hn. cbn. apply Forall_fmap. eapply list.Forall_impl; [exact Hn|]. intros x [Hx1 Hx2].
  unfold name_ok, compose. by rewrite reset_dev_name.
Qed.

(** The launch call on a device whose trampoline is free. *)
Lemma ioctl_launch_up k d b kern initrd :
  user_boot k = Some b → launch_ok b → 0 ≤ NR_CPUS v < 2 ^ 32 → 0 ≤ boot_cpu_id b < NR_CPUS v →
  Resources.wf (NR_CPUS v) (res (encl d)) → zlen (memdesc_list (res (encl d))) + num_blocks b < 2 ^ 32 - 1 →
  loadable fuel files (num_blocks b * block_size b) kern initrd → lcall_ret k ≠ -1 →
  (∀ tr, initialized k tr = true) → trampoline_lock (boot (encl d)) = false →
  ∃ d', enclave_ioctl maxlvt integrated esr icr_idle fuel v files PISCES_ENCLAVE_LAUNCH k d = Some (0, d') ∧
  up d d' ∧ bootmem_addr d' = base b ∧ bootmem_bytes d' = num_blocks b * block_size b ∧
  dev_boot_cpu d' = boot_cpu_id b ∧
  Resources.wf (NR_CPUS v) (res (encl d')) ∧
  memdesc_list (res (encl d')) ≡ₚ boot_blocks b ++ memdesc_list (res (encl d)) ∧
  (∀ c, c ∈ for_each_cpu (NR_CPUS v) (assigned_cpus (res (encl d'))) ↔
        c ∈ for_each_cpu (NR_CPUS v) (assigned_cpus (res (encl d))) ∨ c = boot_cpu_id b) ∧
  sent (encl d') = sent (encl d) ∧ pci (encl d') = pci (encl d) ∧
  started (apicid v (boot_cpu_id b)) (icrs (apic_log d)) (icrs (apic_log d')).
Proof.
  intros Hu Hb Hn Hc Hr Hlen Hld Hlc Hup Hl. unfold enclave_ioctl, ioctl_launch. rewrite Z.eqb_refl, Hu.
  destruct (launch_prepare_spec (NR_CPUS v) b (res (encl d))) as (r'&->&Hwf&Hm&Hcpu); [done..|].
  cbn [mbind option_bind].
  match goal with |- context [launch _ _ _ _ _ _ _ k ?x] => destruct (launch_up k x kern initrd) as (d'&->&Hu'&Hs&Hi) end;
    [done..|].
  destruct Hs as (Hres&Hpci&Hsent&Ha&Hby&Hcp&_). cbn [encl with_res res pci sent bootmem_addr bootmem_bytes dev_boot_cpu] in *.
  exists d'. rewrite Hres. by split_and!.
Qed.


(** C40: The reset call.  When the thread that serves the enclave's calls stops,
    and the relaunched enclave comes up and takes every command, the call returns
    0: every processor was stopped by an INIT, the boot processor was started
    again, and the enclave was sent its memory outside of the boot memory, its
    other processors and its devices, once each; what the host has recorded is
    unchanged.  When the kernel file is missing, the relaunch fails after the
    processors were stopped, but the state stays what it was, RUNNING, so that
    control calls are still let through to an enclave that is dead. *)
Theorem device_reset (k : kernel) (d : device S) (kern initrd : list byte)
    (Ht : thread d = true) (Hst : lcall_stops k = true) (Hlc : lcall_ret k ≠ -1)
    (Hl : trampoline_lock (boot (encl d)) = false) (Hn : Forall name_ok (dev_list (pci (encl d)))) :
  let cpus := for_each_cpu (NR_CPUS v) (assigned_cpus (res (encl d))) in
  let stopped := icrs (apic_log d) ++ concat (init_pair <$> (apicid v <$> cpus)) in
  let ioctl := enclave_ioctl maxlvt integrated esr icr_idle fuel v files PISCES_ENCLAVE_RESET k d in
  (loadable fuel files (bootmem_bytes d) kern initrd → (∀ tr, initialized k tr = true) → accepts v →
   ∃ d', ioctl = Some (0, d') ∧ dev_state d' = ENCLAVE_RUNNING ∧ res (encl d') = res (encl d) ∧
     sent (encl d') = sent (encl d) ++
       mem_commands (bootmem_addr d) (bootmem_bytes d) (memdesc_list (res (encl d))) ++
       cpu_commands v (dev_boot_cpu d) cpus ++
       pci_commands (dev_list (reset_enclave_pci (hw k) (pci (encl d))).1) ∧
     started (apicid v (dev_boot_cpu d)) stopped (icrs (apic_log d'))) ∧
  (zlen (launch_code_image files) = 64 → sizeof_boot_params ≤ bootmem_bytes d → kern_file files = 0 →
   ∃ d', ioctl = Some (-1, d') ∧ icrs (apic_log d') = stopped ∧ dev_state d' = dev_state d ∧
     sent (encl d') = sent (encl d)).
Proof.
  intros cpus stopped ioctl. unfold ioctl, enclave_ioctl, ioctl_reset. clear ioctl.
  cbn [Z.eqb PISCES_ENCLAVE_RESET PISCES_ENCLAVE_LAUNCH]. rewrite Ht, Hst. cbn [negb orb].
  pose proof (stop_enclave_resets maxlvt integrated icr_idle (apicid v <$> cpus) (apic_log d)) as Hstop.
  fold cpus. destruct (stop_enclave _ _ _ _ _) as [ret log]. destruct Hstop as [_ Hlog].
  destruct (reset_enclave_pci (hw k) (pci (encl d))) as [p ev] eqn:Hp.
  assert (Forall name_ok (dev_list p)) as Hnp by (pose proof (reset_names (hw k) _ Hn) as Hx; by rewrite Hp in Hx).
  match goal with |- context [launch _ _ _ _ _ _ _ k ?x] => set (d0 := x) end.
  cbn [fst]. split.
  - intros Hld Hup Hacc. destruct (launch_up k d0 kern initrd) as (d1&->&Hu&Hs&n&Hi); [done..|].
    cbn [mbind option_bind negb Z.eqb]. destruct Hu as (Hrun&_&_&Hlk&_). destruct Hs as (Hres&Hpci&Hsent&Ha&Hby&Hcp&_).
    destruct (readd_sends (ctrl_env v d1) (bootmem_addr d1) (bootmem_bytes d1) (dev_boot_cpu d1) (encl d1))
      as (e'&->&Hcs&Hr'&_&_); [done|by rewrite Hpci|done|].
    cbn [mbind option_bind]. eexists. split; [reflexivity|]. cbn [dev_state encl apic_log].
    rewrite Hcs, Hr', Hsent, Hpci, Ha, Hby, Hcp, Hres. split_and!; [done..|].
    exists n. rewrite Hi. cbn [d0 apic_log]. by rewrite Hlog.
  - intros Hc Hm Hk. destruct (launch_no_kernel k d0) as (d1&->&Hs&Hds&_&Hal); [done..|].
    cbn [mbind option_bind negb Z.eqb]. exists d1. rewrite Hal, Hds. cbn [d0 apic_log dev_state].
    destruct Hs as (_&_&Hsent&_). by split_and!.
Qed.
End properties.

(** ** Witnesses *)

(** Seven blocks of 2MB, the 3-byte kernel and the 2-byte ramdisk of the boot
    parameters; an enclave that comes up at once. *)
Definition demo_boot : launch_env :=
  {| base := 0x8000000; block_size := 0x200000; num_blocks := 7; boot_cpu_id := 1 |}.
Definition demo_kernel : kernel :=
  {| user_boot := Some demo_boot; lcall_ret := 0; initialized := λ _, true; lcall_stops := true;
     hw := λ _, init_hw demo_add; new_fd := 5 |}.
Definition demo_device (e : enclave V3.state) (th : bool) : device V3.state :=
  {| encl := e; bootmem_addr := 0x8000000; bootmem_bytes := 0xe00000; dev_boot_cpu := 1;
     dev_state := if th then ENCLAVE_RUNNING else ENCLAVE_LOADED; thread := th;
     dev_cons := {| connected := false; open_fds := [] |}; dev_refs := kref_init; apic_log := [] |}.

Lemma demo_loadable :
  loadable (Z.to_nat 0xe00001) BootParams.demo_env 0xe00000 [Byte.x01; Byte.x02; Byte.x03] [Byte.x04; Byte.x05].
Proof.
  split.
  - done.
  - split_and!; [done|by apply chunked_regular|done].
  - split_and!; [done|by apply chunked_regular|done].
  - vm_compute. split; congruence.
  - rewrite Z2Nat.id; done.
  - done.
Qed.


Lemma device_reset_witness :
  ∃ d', enclave_ioctl 5 true (λ _, 0) (λ _, 0) (Z.to_nat 0xe00001) (Ctrl.demo_env 0) BootParams.demo_env
          PISCES_ENCLAVE_RESET demo_kernel (demo_device reset_enclave true) = Some (0, d') ∧
    sent (encl d') = mem_commands 0x8000000 0xe00000 (memdesc_list (res reset_enclave)) ++
      cpu_commands (Ctrl.demo_env 0) 1 (for_each_cpu 8 6).
Proof.
  destruct (device_reset 5 true (λ _, 0) (λ _, 0) (Z.to_nat 0xe00001) (Ctrl.demo_env 0) BootParams.demo_env
    demo_kernel (demo_device reset_enclave true) [Byte.x01; Byte.x02; Byte.x03] [Byte.x04; Byte.x05]) as [H _].
  - reflexivity.
  - reflexivity.
  - done.
  - reflexivity.
  - constructor.
  - destruct H as (d'&H1&_&_&H2&_).
    + exact demo_loadable.
    + reflexivity.
    + intros s. reflexivity.
    + exists d'. split; [exact H1|]. rewrite H2. cbn [demo_device encl sent reset_enclave app].
      change (dev_list (reset_enclave_pci (hw demo_kernel) (pci reset_enclave)).1) with (@nil pisces_pci_dev).
      unfold pci_commands. by rewrite app_nil_r.
Defined.
