(* ===== verification/Text.v ===== *)
(** * Text in C

    The functions of the C library that the tools and the kernel module use on
    strings, on lists of character codes: numbers printed by [printf]'s
    conversions and read back by [atoi], [strtol] and [sscanf], lines, prefixes,
    tokens.  Nothing here is code of the repository. *)
From S2P Require Import Prelude.
From Stdlib Require Import Ascii.
From Stdlib Require String.
Export String (string(..)).
Export (notations) String.
From stdpp Require Import list.
#[local] Open Scope Z_scope.

(** ** Strings *)

Fixpoint chars (s : string) : list Z :=
  match s with
  | EmptyString => []
  | String c s => Z.of_N (N_of_ascii c) :: chars s
  end.

Definition newline : Z := 10.
Definition isdigit (c : Z) : bool := (48 <=? c) && (c <=? 57).
Definition isspace (c : Z) : bool := (c =? 32) || ((9 <=? c) && (c <=? 13)).

(** The value of a digit in bases up to 16. *)
Definition digit_of (c : Z) : option Z :=
  if isdigit c then Some (c - 48)
  else if (97 <=? c) && (c <=? 102) then Some (c - 87)
  else if (65 <=? c) && (c <=? 70) then Some (c - 55) else None.
Definition digit_char (d : Z) : Z := if d <? 10 then 48 + d else 87 + d.
Definition isxdigit (c : Z) : bool := if digit_of c then true else false.

(** The longest prefix whose elements satisfy [p], and the rest. *)
Fixpoint span {A} (p : A → bool) (l : list A) : list A * list A :=
  match l with
  | [] => ([], [])
  | x :: l' => if p x then let '(a, b) := span p l' in (x :: a, b) else ([], l)
  end.

(** [strncmp(s, p, strlen(p)) == 0], with what follows the prefix. *)
Fixpoint strip_prefix (p s : list Z) : option (list Z) :=
  match p, s with
  | [], _ => Some s
  | c :: p, d :: s => if c =? d then strip_prefix p s else None
  | _ :: _, [] => None
  end.

(** ** Numbers *)

(** The digits of [n ≥ 0] in base [b], most significant first. *)
Fixpoint digits (fuel : nat) (b n : Z) : list Z :=
  match fuel with
  | O => []
  | S fuel => (if n <? b then [] else digits fuel b (n / b)) ++ [n mod b]
  end.

(** 64 digits are enough for the integers of C in any base. *)
Definition print_base (b n : Z) : list Z := digit_char <$> digits 64 b n.
(** [%d] of an [int], [%x], and [%.<w>x]: at least [w] digits. *)
Definition pct_d (n : Z) : list Z := if n <? 0 then 45 :: print_base 10 (- n) else print_base 10 n.
Definition pct_x (n : Z) : list Z := print_base 16 n.
Definition pct_wx (w : nat) (n : Z) : list Z :=
  let s := print_base 16 n in replicate (w - length s) 48 ++ s.

Definition digit_in (b : Z) (c : Z) : bool :=
  match digit_of c with Some d => d <? b | None => false end.
Definition value (b : Z) (s : list Z) : Z :=
  foldl (λ a c, a * b + default 0 (digit_of c)) 0 s.

(** An optional sign, and an optional [0x] before a hexadecimal digit. *)
Definition sign (s : list Z) : bool * list Z :=
  match s with
  | c :: s' => if c =? 45 then (true, s') else if c =? 43 then (false, s') else (false, s)
  | [] => (false, [])
  end.
Definition skip_0x (b : Z) (s : list Z) : list Z :=
  match s with
  | z :: x :: c :: s' =>
      if (b =? 16) && (z =? 48) && ((x =? 120) || (x =? 88)) && isxdigit c then c :: s' else s
  | _ => s
  end.

(** [strtol] in base 10 or 16: the number and what follows it.  Out of range, it
    is the nearest [long]. *)
Definition strtol (b : Z) (s : list Z) : Z * list Z :=
  let '(neg, s) := sign (span isspace s).2 in
  let '(ds, rest) := span (digit_in b) (skip_0x b s) in
  let n := value b ds in
  (Z.max (- 2 ^ 63) (Z.min (2 ^ 63 - 1) (if (neg : bool) then - n else n)), rest).

(** glibc's [atoi]: the [int] in the [long]. *)
Definition atoi (s : list Z) : Z := s32 (strtol 10 s).1.

(** [sscanf(s, "<prefix>%d", &n)]: the number converted, if one is. *)
Definition sscanf_d (prefix s : list Z) : option Z :=
  s ← strip_prefix prefix s;
  match (sign (span isspace s).2).2 with
  | c :: _ => if isdigit c then Some (atoi s) else None
  | [] => None
  end.

(** ** Lines and tokens *)

(** [fgets(buf, n, f)]: at most [n] - 1 characters, up to a newline. *)
Fixpoint fgets_loop (n : nat) (f : list Z) : list Z * list Z :=
  match n, f with
  | O, _ | _, [] => ([], f)
  | S n, c :: f => if c =? newline then ([c], f) else let '(l, f) := fgets_loop n f in (c :: l, f)
  end.
Definition fgets (n : nat) (f : list Z) : option (list Z * list Z) :=
  match f with [] => None | _ => Some (fgets_loop (n - 1) f) end.

(** [strsep(&s, d)] for one delimiter, of a string that is not NULL: the token,
    and the string left, which is NULL after the last. *)
Fixpoint strsep (d : Z) (s : list Z) : list Z * option (list Z) :=
  match s with
  | [] => ([], None)
  | c :: s => if c =? d then ([], Some s) else let '(t, r) := strsep d s in (c :: t, r)
  end.

(** [strrchr(s, d)]: the string from the last [d] on. *)
Fixpoint strrchr (d : Z) (s : list Z) : option (list Z) :=
  match s with
  | [] => None
  | c :: s' => match strrchr d s' with Some r => Some r | None => if c =? d then Some s else None end
  end.

Arguments chars s%_string_scope.

(** ** Lemmas *)

Lemma strip_prefix_app p s : strip_prefix p (p ++ s) = Some s.
Proof. induction p as [|c p IH]; [done|]. simpl. by rewrite Z.eqb_refl. Qed.

Lemma strip_prefix_Some p s r : strip_prefix p s = Some r → s = p ++ r.
Proof.
  revert s. induction p as [|c p IH]; intros [|d s]; simpl; try congruence.
  case_test; [|done]. subst. intros Hs. by rewrite (IH s Hs).
Qed.

Lemma span_app {A} (p : A → bool) l r :
  Forall (λ x, p x = true) l → head r ≫= (λ x, if p x then Some x else None) = None →
  span p (l ++ r) = (l, r).
Proof.
  intros Hl Hr. induction Hl as [|x l Hx _ IH]; simpl.
  - destruct r as [|y r]; [done|]. simpl in *. by destruct (p y).
  - by rewrite Hx, IH.
Qed.

Lemma digit_of_char d : 0 ≤ d < 16 → digit_of (digit_char d) = Some d.
Proof.
  intros ?. unfold digit_char. case_test.
  - unfold digit_of, isdigit. rewrite !(proj2 (Z.leb_le _ _)) by lia. simpl. f_equal. lia.
  - unfold digit_of, isdigit. rewrite (proj2 (Z.leb_gt (87 + d) 57)) by lia.
    rewrite andb_false_r, !(proj2 (Z.leb_le _ _)) by lia. simpl. f_equal. lia.
Qed.

Lemma digits_spec fuel b n :
  2 ≤ b ≤ 16 → 0 ≤ n < b ^ Z.of_nat fuel →
  Forall (λ d, 0 ≤ d < b) (digits fuel b n) ∧ foldl (λ a d, a * b + d) 0 (digits fuel b n) = n ∧
  ((0 < fuel)%nat → digits fuel b n ≠ []).
Proof.
  intros Hb. revert n. induction fuel as [|fuel IH]; intros n Hn.
  - split; [constructor|]. split; [simpl in *; lia|lia].
  - cbn [digits]. pose proof (Z.mod_pos_bound n b ltac:(lia)). case_test.
    + simpl. rewrite Z.mod_small by lia. split; [repeat constructor; lia|]. split; [lia|done].
    + rewrite Nat2Z.inj_succ, Z.pow_succ_r in Hn by lia.
      destruct (IH (n / b)) as (H1&H2&_).
      { split; [apply Z.div_pos; lia|]. apply Z.div_lt_upper_bound; lia. }
      split; [apply Forall_app; split; [done|repeat constructor; lia]|].
      split; [|by destruct (digits _ _ _)].
      rewrite foldl_app, H2. simpl. pose proof (Z.div_mod n b). lia.
Qed.

Lemma value_chars b ds a :
  b ≤ 16 → Forall (λ d, 0 ≤ d < b) ds →
  foldl (λ a c, a * b + default 0 (digit_of c)) a (digit_char <$> ds) = foldl (λ a d, a * b + d) a ds.
Proof.
  intros Hb Hd. revert a. induction Hd as [|d ds Hd _ IH]; intros a; [done|]. cbn [fmap list_fmap foldl].
  rewrite digit_of_char by lia. cbn [default from_option id]. apply IH.
Qed.

Lemma pow_digits b n : 2 ≤ b → 0 ≤ n < 2 ^ 64 → 0 ≤ n < b ^ Z.of_nat 64.
Proof. intros Hb Hn. split; [lia|]. eapply Z.lt_le_trans; [apply Hn|]. apply Z.pow_le_mono_l. lia. Qed.

(** A printed number is digits of its base, at least one, and has its value. *)
Lemma print_base_spec b n :
  2 ≤ b ≤ 16 → 0 ≤ n < 2 ^ 64 →
  Forall (λ c, digit_in b c = true) (print_base b n) ∧ value b (print_base b n) = n ∧ print_base b n ≠ [].
Proof.
  intros Hb Hn. destruct (digits_spec 64 b n Hb (pow_digits b n ltac:(lia) Hn)) as (H1&H2&H3).
  unfold print_base. split; [|split].
  - apply Forall_fmap. eapply Forall_impl; [exact H1|]. intros d Hd. unfold compose, digit_in. cbn beta in *.
    rewrite digit_of_char by lia. apply Z.ltb_lt. lia.
  - unfold value. by rewrite value_chars by (lia || done).
  - intros Hn'. apply fmap_nil_inv in Hn'. apply H3; [lia|done].
Qed.

Lemma digit_of_Some c d :
  digit_of c = Some d → (48 ≤ c ≤ 57 ∧ d = c - 48) ∨ (97 ≤ c ≤ 102 ∧ d = c - 87) ∨ (65 ≤ c ≤ 70 ∧ d = c - 55).
Proof.
  unfold digit_of, isdigit. repeat case_test; intros [= <-];
    repeat match goal with H : _ && _ = true |- _ => apply andb_true_iff in H as [?%Z.leb_le ?%Z.leb_le] end; lia.
Qed.

Lemma isspace_spec c : isspace c = true ↔ c = 32 ∨ 9 ≤ c ≤ 13.
Proof. unfold isspace. rewrite orb_true_iff, andb_true_iff, Z.eqb_eq, !Z.leb_le. done. Qed.

Lemma digit_in_Some b c : digit_in b c = true → ∃ d, digit_of c = Some d ∧ d < b.
Proof. unfold digit_in. destruct (digit_of c) as [d|]; [|done]. intros ?%Z.ltb_lt. eauto. Qed.

Lemma digit_in_not_space b c : digit_in b c = true → isspace c = false ∧ c ≠ 45 ∧ c ≠ 43 ∧ c ≠ 10.
Proof.
  intros (d&Hd&_)%digit_in_Some. apply digit_of_Some in Hd. split; [|lia].
  apply not_true_iff_false. rewrite isspace_spec. lia.
Qed.

Lemma digit_in_10 c : digit_in 10 c = isdigit c.
Proof.
  apply eq_true_iff_eq. unfold isdigit. rewrite andb_true_iff, !Z.leb_le. split.
  - intros (d&Hd&?)%digit_in_Some. apply digit_of_Some in Hd. lia.
  - intros ?. unfold digit_in, digit_of, isdigit. rewrite !(proj2 (Z.leb_le _ _)) by lia. apply Z.ltb_lt. lia.
Qed.

(** What follows a number does not go on with it. *)
Definition ends_number (b : Z) (r : list Z) : Prop :=
  match r with [] => True | c :: _ => digit_in b c = false ∧ c ≠ 120 ∧ c ≠ 88 end.

Lemma skip_0x_digits b ds r :
  ds ≠ [] → Forall (λ c, digit_in b c = true) ds → ends_number b r → skip_0x b (ds ++ r) = ds ++ r.
Proof.
  intros Hne Hds Hr. destruct ds as [|z ds]; [done|]. apply Forall_cons_1 in Hds as [_ Hds].
  destruct ds as [|x ds]; cbn [app skip_0x].
  - destruct r as [|x [|c r]]; try done. destruct Hr as (_&H1&H2).
    by rewrite (proj2 (Z.eqb_neq x _) H1), (proj2 (Z.eqb_neq x _) H2), andb_false_r.
  - apply Forall_inv in Hds. apply digit_in_Some in Hds as (d&Hd&_). apply digit_of_Some in Hd.
    rewrite (proj2 (Z.eqb_neq x 120)), (proj2 (Z.eqb_neq x 88)), andb_false_r by lia.
    by destruct (ds ++ r).
Qed.

(** [strtol] reads the number at the start of a string of its digits. *)
Lemma strtol_digits b ds r :
  ds ≠ [] → Forall (λ c, digit_in b c = true) ds → ends_number b r →
  0 ≤ value b ds < 2 ^ 63 → strtol b (ds ++ r) = (value b ds, r).
Proof.
  intros Hne Hds Hr Hv. destruct ds as [|c ds]; [done|].
  destruct (digit_in_not_space b c (Forall_inv Hds)) as (Hs&H45&H43&_). unfold strtol.
  assert (span isspace ((c :: ds) ++ r) = ([], (c :: ds) ++ r)) as -> by (simpl; by rewrite Hs).
  assert (sign ((c :: ds) ++ r) = (false, (c :: ds) ++ r)) as E.
  { cbn [app sign]. by rewrite (proj2 (Z.eqb_neq c _) H45), (proj2 (Z.eqb_neq c _) H43). }
  cbn [snd]. rewrite E, skip_0x_digits by done. rewrite span_app; [|done|].
  - cbn beta iota. f_equal. lia.
  - destruct r as [|x r]; [done|]. simpl. by rewrite (proj1 Hr).
Qed.

(** A number printed and read back, in the bases of [%d] and [%x]. *)
Lemma strtol_print b n r :
  2 ≤ b ≤ 16 → 0 ≤ n < 2 ^ 63 → ends_number b r → strtol b (print_base b n ++ r) = (n, r).
Proof.
  intros Hb Hn Hr. destruct (print_base_spec b n Hb) as (H1&H2&H3); [lia|].
  rewrite strtol_digits by (done || lia). by rewrite H2.
Qed.

Lemma atoi_pct_d n r : 0 ≤ n < 2 ^ 31 → ends_number 10 r → atoi (pct_d n ++ r) = n.
Proof.
  intros Hn Hr. unfold atoi, pct_d. rewrite (proj2 (Z.ltb_ge n 0)) by lia.
  rewrite strtol_print by (done || lia). apply swrap_small; lia.
Qed.

Lemma sscanf_pct_d p n : 0 ≤ n < 2 ^ 31 → sscanf_d p (p ++ pct_d n) = Some n.
Proof.
  intros Hn. unfold sscanf_d. rewrite strip_prefix_app. cbn [mbind option_bind].
  pose proof (atoi_pct_d n [] Hn I) as Ha. rewrite app_nil_r in Ha. rewrite Ha. unfold pct_d.
  rewrite (proj2 (Z.ltb_ge n 0)) by lia.
  destruct (print_base_spec 10 n) as (H1&_&H3); [lia..|].
  destruct (print_base 10 n) as [|c ds]; [done|]. pose proof (Forall_inv H1) as Hc.
  destruct (digit_in_not_space 10 c Hc) as (Hs&H45&H43&_).
  cbn [span]. rewrite Hs. cbn [snd sign].
  rewrite (proj2 (Z.eqb_neq c _) H45), (proj2 (Z.eqb_neq c _) H43). cbn [snd].
  by rewrite <-digit_in_10, Hc.
Qed.

(** A line that fits the buffer is read whole. *)
Lemma fgets_line n l f :
  Forall (λ c, c ≠ newline) l → (length l + 1 < n)%nat →
  fgets n (l ++ [newline] ++ f) = Some (l ++ [newline], f).
Proof.
  intros Hl Hn. cbn [app]. unfold fgets. destruct (l ++ newline :: f) as [|x y] eqn:E; [by destruct l|].
  rewrite <-E. clear E x y. f_equal. assert (length l < n - 1)%nat as Hm by lia. clear Hn.
  revert Hm. generalize (n - 1)%nat as m. induction Hl as [|c l Hc _ IH]; intros [|m] Hm; simpl in *; try lia.
  - done.
  - rewrite (proj2 (Z.eqb_neq c _) Hc). rewrite IH by lia. done.
Qed.

Lemma strsep_app d t s :
  Forall (λ c, c ≠ d) t → strsep d (t ++ d :: s) = (t, Some s).
Proof.
  induction 1 as [|c t Hc _ IH]; simpl; [by rewrite Z.eqb_refl|].
  by rewrite (proj2 (Z.eqb_neq c _) Hc), IH.
Qed.

Lemma strsep_last d t : Forall (λ c, c ≠ d) t → strsep d t = (t, None).
Proof. induction 1 as [|c t Hc _ IH]; [done|]. simpl. by rewrite (proj2 (Z.eqb_neq c _) Hc), IH. Qed.

(** Printed numbers hold no newline. *)
Lemma print_base_chars b n :
  2 ≤ b ≤ 16 → 0 ≤ n < 2 ^ 64 → Forall (λ c, c ≠ newline ∧ isspace c = false) (print_base b n).
Proof.
  intros Hb Hn. destruct (print_base_spec b n Hb Hn) as (H&_). eapply Forall_impl; [exact H|].
  intros c Hc. by destruct (digit_in_not_space b c Hc) as (?&_&_&?).
Qed.

(** A number below [b ^ k] has at most [k] digits. *)
Lemma digits_length fuel b n (k : nat) :
  2 ≤ b → 0 ≤ n < b ^ Z.of_nat k → (0 < k)%nat → (length (digits fuel b n) ≤ k)%nat.
Proof.
  intros Hb. revert n k. induction fuel as [|fuel IH]; intros n k Hn Hk; [simpl; lia|].
  cbn [digits]. rewrite length_app. cbn [length]. case_test; [simpl; lia|].
  destruct k as [|[|k]]; [lia|simpl in *; lia|].
  assert (length (digits fuel b (n / b)) ≤ S k)%nat; [|lia]. apply IH; [|lia].
  split; [apply Z.div_pos; lia|]. apply Z.div_lt_upper_bound; [lia|].
  rewrite <-Z.pow_succ_r by lia. rewrite <-Nat2Z.inj_succ. lia.
Qed.

Lemma digit_in_isxdigit c : digit_in 16 c = true → isxdigit c = true.
Proof. unfold digit_in, isxdigit. by destruct (digit_of c). Qed.

Lemma value_zeros b k s : value b (replicate k 48 ++ s) = value b s.
Proof. unfold value. rewrite foldl_app. f_equal. induction k as [|k IH]; [done|]. simpl. by rewrite Z.mul_comm, Z.mul_0_r. Qed.

(** A zero-padded hexadecimal number: its width, its digits and its value. *)
Lemma pct_wx_spec (w : nat) n :
  (0 < w ≤ 16)%nat → 0 ≤ n < 16 ^ Z.of_nat w →
  length (pct_wx w n) = w ∧ Forall (λ c, digit_in 16 c = true) (pct_wx w n) ∧ value 16 (pct_wx w n) = n.
Proof.
  intros Hw Hn. assert (0 ≤ n < 2 ^ 64) as Hn64.
  { split; [lia|]. eapply Z.lt_le_trans; [apply Hn|]. change (2 ^ 64) with (16 ^ 16). apply Z.pow_le_mono_r; lia. }
  destruct (print_base_spec 16 n) as (H1&H2&_); [lia..|].
  assert (length (print_base 16 n) ≤ w)%nat.
  { unfold print_base. rewrite length_fmap. apply digits_length; lia. }
  unfold pct_wx. split; [|split].
  - rewrite length_app, length_replicate. lia.
  - apply Forall_app. split; [|done]. by apply Forall_replicate.
  - by rewrite value_zeros.
Qed.
