(* ===== verification/System.v ===== *)
(** * The module as a whole ([src/main.c], [src/enclave.c], [src/enclave_ctrl.c])

    The files processes have open on the module - the devices of the enclaves, their
    control channels, consoles and proc files - over the enclaves there are, the
    table of enclaves and what they share: the processors' boot code and
    the interrupts sent.  Each call runs to its end before the next one.  [Crash] is
    undefined behaviour, the use of an enclave that was freed among it, or a
    wait that nothing ends. *)
From stdpp Require Import gmap.
From S2P Require Import Prelude Text Resources Pci Pgtables Trampoline Boot FileIo BootParams Cons Ctrl Enclave Device.
From stdpp Require Import list.
#[local] Open Scope Z_scope.

Section system.
Context {S : Type} `{TrampolineOps S}.

(** ** The code *)

(** An open file: its operations, and the enclave it is on ([private_data]); there is
    none for [/dev/pisces]. *)
Inductive proc_file := MemoryFile | CpusFile | PciFile.
Inductive file_kind := MainFile | DevFile | CtrlFile | ConsFile | ProcFile (w : proc_file).

(** [leaked] is no part of the program's memory: the enclaves with a reference that
    no file stands for, once for each. *)
Record sys := {
  emap : list Z;
  devs : gmap Z (device S);
  fds : gmap Z (file_kind * Z);
  shared : boot_state S; log : list apic_event;
  leaked : list Z
}.

Context (maxlvt : Z) (integrated : bool) (esr icr_idle : list apic_event → Z).
Context (fuel : nat) (v : Ctrl.env) (files : Z → BootParams.boot_env).

(** The table as the calls on [/dev/pisces] see it. *)
Definition table_of (s : sys) : table :=
  {| enclave_map := emap s; allocated := elements (dom (devs s));
     launched := elements (dom (filter (λ x, thread x.2 = true) (devs s))) |}.

(** An enclave with what it shares, and back. *)
Definition attach (s : sys) (d : device S) : device S :=
  {| encl := with_boot (encl d) (shared s); bootmem_addr := bootmem_addr d; bootmem_bytes := bootmem_bytes d;
     dev_boot_cpu := dev_boot_cpu d; dev_state := dev_state d; thread := thread d;
     dev_cons := dev_cons d; dev_refs := dev_refs d; apic_log := log s |}.
Definition put_dev (p : Z) (d : device S) (s : sys) : sys :=
  {| emap := emap s; devs := <[p := d]> (devs s); fds := fds s;
     shared := boot (encl d); log := apic_log d; leaked := leaked s |}.
Definition with_refs (d : device S) (r : kref) : device S := connected_to d (dev_cons d) r.
Definition with_fds (f : gmap Z (file_kind * Z)) (s : sys) : sys :=
  {| emap := emap s; devs := devs s; fds := f; shared := shared s; log := log s; leaked := leaked s |}.
Definition with_devs (ds : gmap Z (device S)) (s : sys) : sys :=
  {| emap := emap s; devs := ds; fds := fds s; shared := shared s; log := log s; leaked := leaked s |}.

(** *** [/dev/pisces] *)

Definition device_open : Z := 0.
Definition device_release : Z := 0.
Definition device_read : Z := - EINVAL.
Definition device_write : Z := - EINVAL.

(** The structure after [memset] and the initialisations of [pisces_enclave_create]. *)
Definition new_device (s : sys) : device S :=
  {| encl := {| running := false; res := no_resources; pci := init_enclave_pci; boot := shared s; sent := [] |};
     bootmem_addr := 0; bootmem_bytes := 0; dev_boot_cpu := 0; dev_state := ENCLAVE_LOADED; thread := false;
     dev_cons := {| connected := false; open_fds := [] |}; dev_refs := kref_init; apic_log := log s |}.

Definition load_image (img_ok : bool) (a : create_env) (s : sys) : outcome (Z * sys) :=
  match device_ioctl PISCES_LOAD_IMAGE 0 img_ok a false (table_of s) with
  | Crash => Crash
  | Done (ret, t) =>
      Done (ret, {| emap := enclave_map t;
                    devs := if ret <? 0 then devs s else <[kmalloc_ptr a := new_device s]> (devs s);
                    fds := fds s; shared := shared s; log := log s; leaked := leaked s |})
  end.

(** The enclave is dead, its calls' thread is gone, and a reference was dropped. *)
Definition dead (d : device S) : device S :=
  let e := encl d in
  {| encl := {| running := false; res := res e; pci := pci e; boot := boot e; sent := sent e |};
     bootmem_addr := bootmem_addr d; bootmem_bytes := bootmem_bytes d; dev_boot_cpu := dev_boot_cpu d;
     dev_state := ENCLAVE_DEAD; thread := false; dev_cons := dev_cons d;
     dev_refs := enclave_put (dev_refs d); apic_log := apic_log d |}.

(** The structure goes with its last reference ([enclave_last_put]). *)
Definition settle (p : Z) (d : device S) (ds : gmap Z (device S)) : gmap Z (device S) :=
  if freed (dev_refs d) then delete p ds else <[p := d]> ds.

Definition free_enclave (arg : Z) (a : create_env) (s : sys) : outcome (Z * sys) :=
  let p := default 0 (emap s !! Z.to_nat (s32 arg)) in
  let d := devs s !! p in
  let others := match d with Some d => negb (freed (dev_refs (dead d))) | None => false end in
  match device_ioctl PISCES_FREE_ENCLAVE arg true a others (table_of s), d with
  | Crash, _ => Crash
  | Done (ret, t), Some d =>
      if ret =? 0 then Done (0, {| emap := enclave_map t; devs := settle p (dead d) (devs s); fds := fds s;
                                   shared := shared s; log := log s; leaked := leaked s |})
      else Done (ret, s)
  | Done (ret, _), None => Done (ret, s)
  end.

Definition EBADF : Z := 9.
Definition ENXIO : Z := 6.

(** The calls on an open [/dev/pisces]. *)
Definition main_ioctl (fd ioctl arg : Z) (img_ok : bool) (a : create_env) (s : sys) : outcome (Z * sys) :=
  match fds s !! fd with
  | Some (MainFile, _) =>
      if ioctl =? PISCES_LOAD_IMAGE then load_image img_ok a s
      else if ioctl =? PISCES_FREE_ENCLAVE then free_enclave arg a s
      else Done (- EINVAL, s)
  | _ => Done (- EBADF, s)
  end.

(** *** The files of an enclave *)

(** The device and the proc files are there while the enclave is in the table. *)
Definition live (idx : Z) (s : sys) : option (Z * device S) :=
  p ← emap s !! Z.to_nat idx; d ← devs s !! p; if p =? 0 then None else Some (p, d).

Definition open_device (idx fd : Z) (s : sys) : outcome (Z * sys) :=
  match live idx s with
  | None => Done (- ENXIO, s)
  | Some (p, d) =>
      let '(_, r) := enclave_open (dev_refs d) in
      Done (fd, with_fds (<[fd := (DevFile, p)]> (fds s)) (with_devs (<[p := with_refs d r]> (devs s)) s))
  end.

(** [ret]: what [single_open] returns. *)
Definition proc_cpu_open (ret : Z) (k : kref) : Z * kref := (ret, enclave_get k).
Definition proc_pci_open (ret : Z) (k : kref) : Z * kref := (ret, enclave_get k).
Definition open_proc (w : proc_file) (idx fd ret : Z) (s : sys) : outcome (Z * sys) :=
  match live idx s with
  | None => Done (- ENXIO, s)
  | Some (p, d) =>
      let '(ret, r) := match w with MemoryFile => proc_open ret (dev_refs d) | CpusFile => proc_cpu_open ret (dev_refs d)
                       | PciFile => proc_pci_open ret (dev_refs d) end in
      let s := with_devs (<[p := with_refs d r]> (devs s)) s in
      if ret =? 0 then Done (fd, with_fds (<[fd := (ProcFile w, p)]> (fds s)) s)
      else Done (ret, {| emap := emap s; devs := devs s; fds := fds s; shared := shared s; log := log s;
                         leaked := p :: leaked s |})
  end.

Definition enclave_read : Z := 0.
Definition enclave_write : Z := 0.
Definition ctrl_read : Z := 0.
Definition ctrl_write : Z := 0.

(** The descriptor that a connect call returns is installed. *)
Definition new_file (ioctl ret p : Z) (f : gmap Z (file_kind * Z)) : gmap Z (file_kind * Z) :=
  if ret <? 0 then f
  else if ioctl =? PISCES_ENCLAVE_CONS_CONNECT then <[ret := (ConsFile, p)]> f
  else if ioctl =? PISCES_ENCLAVE_CTRL_CONNECT then <[ret := (CtrlFile, p)]> f
  else f.

Definition file_ioctl (fd ioctl arg : Z) (user : list byte) (k : kernel) (s : sys) : outcome (Z * sys) :=
  match fds s !! fd with
  | Some (DevFile, p) =>
      match d ← devs s !! p; enclave_ioctl maxlvt integrated esr icr_idle fuel v (files p) ioctl k (attach s d) with
      | None => Crash
      | Some (ret, d) => Done (ret, with_fds (new_file ioctl ret p (fds s)) (put_dev p d s))
      end
  | Some (CtrlFile, p) =>
      match d ← devs s !! p; '(ret, e) ← ctrl_ioctl (ctrl_env v d) ioctl arg user (encl (attach s d)); Some (ret, d, e) with
      | None => Crash
      | Some (ret, d, e) =>
          let d := attach s d in
          Done (ret, put_dev p {| encl := e; bootmem_addr := bootmem_addr d; bootmem_bytes := bootmem_bytes d;
                                  dev_boot_cpu := dev_boot_cpu d; dev_state := dev_state d; thread := thread d;
                                  dev_cons := dev_cons d; dev_refs := dev_refs d; apic_log := apic_log d |} s)
      end
  | _ => Done (- EBADF, s)
  end.

(** Reading, or writing; the control channel takes its lock to read. *)
Definition file_read_write (fd : Z) (write : bool) (s : sys) : outcome (Z * sys) :=
  match fds s !! fd with
  | Some (MainFile, _) => Done (if write then device_write else device_read, s)
  | Some (DevFile, p) => Done (if write then enclave_write else enclave_read, s)
  | Some (CtrlFile, p) => if write then Done (ctrl_write, s) else if devs s !! p is Some _ then Done (ctrl_read, s) else Crash
  | _ => Done (- EBADF, s)
  end.

Definition close (fd : Z) (s : sys) : outcome (Z * sys) :=
  match fds s !! fd with
  | None => Done (- EBADF, s)
  | Some (MainFile, _) => Done (device_release, with_fds (delete fd (fds s)) s)
  | Some (k, p) =>
      match devs s !! p with
      | None => Crash
      | Some d =>
          let s := with_fds (delete fd (fds s)) s in
          match k with
          | ConsFile => let '(ret, c) := console_release fd (dev_cons d) in
                        Done (ret, with_devs (<[p := connected_to d c (dev_refs d)]> (devs s)) s)
          | _ =>
              let '(ret, r) := match k with DevFile => enclave_release (dev_refs d) | CtrlFile => ctrl_release (dev_refs d)
                                       | _ => proc_release (dev_refs d) end in
              Done (ret, with_devs (settle p (with_refs d r) (devs s)) s)
          end
      end
  end.

(** *** The debug proc file

    [boot_params]: the memory from the boot parameters of the first enclave on. *)
Definition dbg_mem_show (pct_p : Z → list Z) (boot_params : list byte) : list Z :=
  let init_dbg_buf := drop 64 boot_params in
  (cstr init_dbg_buf ++ chars ": " ++ pct_p (unle (take 8 (drop 8 init_dbg_buf))) ++ [newline] ++
   chars "tramp_status: " ++ pct_p (unle (take 8 boot_params)) ++ [newline])%list.
Definition dbg_read (pct_p : Z → list Z) (memory : Z → list byte) (s : sys) : outcome (list Z) :=
  match p ← emap s !! 0%nat; devs s !! p with
  | None => Crash
  | Some d => Done (dbg_mem_show pct_p (memory (bootmem_addr d)))
  end.

(** *** The calls *)

Inductive call :=
  | OpenMain (fd : Z)
  | MainIoctl (fd ioctl arg : Z) (img_ok : bool) (a : create_env)
  | OpenDevice (idx fd : Z)
  | OpenProc (w : proc_file) (idx fd ret : Z)
  | Ioctl (fd ioctl arg : Z) (user : list byte) (k : kernel)
  | ReadWrite (fd : Z) (write : bool)
  | Close (fd : Z).

Definition syscall (c : call) (s : sys) : outcome (Z * sys) :=
  match c with
  | OpenMain fd => Done (if device_open =? 0 then fd else device_open, with_fds (<[fd := (MainFile, 0)]> (fds s)) s)
  | MainIoctl fd ioctl arg ok a => main_ioctl fd ioctl arg ok a s
  | OpenDevice idx fd => open_device idx fd s
  | OpenProc w idx fd ret => open_proc w idx fd ret s
  | Ioctl fd ioctl arg user k => file_ioctl fd ioctl arg user k s
  | ReadWrite fd write => file_read_write fd write s
  | Close fd => close fd s
  end.
End system.
Arguments sys : clear implicits.

(** ** The boot code that is shared

    An operation that finds the lock free leaves it free, and Linux its own trampoline. *)

Section shared.
Context {S : Type} `{TrampolineLaws S}.

Definition keeps_linux (b b' : boot_state S) : Prop :=
  trampoline_lock b = false → trampoline_lock b' = false ∧ tr_linux (tramp b') = tr_linux (tramp b).

#[global] Instance keeps_linux_refl : Reflexive keeps_linux.
Proof. by intros b Hb. Qed.
#[global] Instance keeps_linux_trans : Transitive keeps_linux.
Proof. intros b1 b2 b3 H1 H2 Hb. destruct (H1 Hb) as [Hb2 E]. destruct (H2 Hb2) as [Hb3 E']. by rewrite E', E. Qed.

Lemma keeps_eq b b' : b' = b → keeps_linux b b'.
Proof. by intros ->. Qed.

Implicit Types (e : Ctrl.enclave S).

Lemma sync_send_boot v cmd len e ret st e' : xbuf_sync_send v cmd len e = Some (ret, st, e') → boot e' = boot e.
Proof. unfold xbuf_sync_send. destruct (slice _ _ _); [|done]. cbn. destruct (sync _ _). by intros [= _ _ <-]. Qed.

Lemma sync_status_boot v cmd len e st e' : sync_status v cmd len e = Some (st, e') → boot e' = boot e.
Proof.
  unfold sync_status. destruct (xbuf_sync_send _ _ _ _) as [[[??]?]|] eqn:E; [|done]. cbn. intros [= _ <-].
  by apply sync_send_boot in E.
Qed.

Lemma plain_boot v len bytes e ret e' : plain v len bytes e = Some (ret, e') → boot e' = boot e.
Proof.
  unfold plain. destruct (xbuf_sync_send _ _ _ _) as [[[??]?]|] eqn:E; [|done]. cbn. intros [= _ <-].
  by apply sync_send_boot in E.
Qed.

Lemma send_vm_cmd_boot v cmd vm e ret e' : send_vm_cmd v cmd vm e = Some (ret, e') → boot e' = boot e.
Proof.
  unfold send_vm_cmd. destruct (xbuf_sync_send _ _ _ _) as [[[??]?]|] eqn:E; [|done]. cbn. apply sync_send_boot in E.
  case_match; by intros [= _ <-].
Qed.

Lemma forward_boot v cmd n user e ret e' : forward v cmd n user e = Some (ret, e') → boot e' = boot e.
Proof.
  unfold forward. destruct (copy_from_user _ _); [|by intros [= _ <-]].
  destruct (sync_status _ _ _ _) as [[??]|] eqn:E; [|done]. cbn. apply sync_status_boot in E.
  case_match; by intros [= _ <-].
Qed.

Lemma add_mem_boot v base pages e ret e' : ctrl_add_mem v base pages e = Some (ret, e') → boot e' = boot e.
Proof. apply plain_boot. Qed.

Lemma add_pci_boot v spec e ret e' : ctrl_add_pci v spec e = Some (ret, e') → boot e' = boot e.
Proof.
  unfold ctrl_add_pci. destruct (sync_status _ _ _ _) as [[??]|] eqn:E; [|done]. cbn. apply sync_status_boot in E.
  repeat case_match; by intros [= _ <-].
Qed.

Lemma add_cpu_keeps v cpu e ret e' :
  bootmem_sz v mod Pgtables.PAGE_SIZE_2MB = 0 → ctrl_add_cpu v cpu e = Some (ret, e') → keeps_linux (boot e) (boot e').
Proof.
  intros Hs. unfold ctrl_add_cpu, pisces_setup_trampoline. rewrite Hs. cbn [negb Z.eqb].
  destruct (trampoline_lock (boot e)) eqn:Hl; [done|]. intros He _. revert He.
  pose proof (tr_round_trip (pml_bytes v (setup_pgts (ts v) (bootmem_pa v) (bootmem_sz v) (bmem (boot e)))) (bootmem_pa v)
    (tramp (boot e))) as Hrt.
  destruct (tr_setup _ _ _) as [r t]. cbn [mbind option_bind snd] in *.
  destruct (sync_status _ _ _ _) as [[st e1]|] eqn:E; [|done]. apply sync_status_boot in E. cbn [mbind option_bind].
  unfold pisces_restore_trampoline. rewrite E. cbn [with_boot boot tramp bmem].
  destruct (tr_restore t) as [? t']. by intros [= _ <-].
Qed.

(** The control calls. *)
Lemma ctrl_ioctl_keeps v ioctl arg user e ret e' :
  bootmem_sz v mod Pgtables.PAGE_SIZE_2MB = 0 → ctrl_ioctl v ioctl arg user e = Some (ret, e') → keeps_linux (boot e) (boot e').
Proof.
  intros Hs. unfold ctrl_ioctl. unfold_cases. destruct (negb (running e)); [by intros [= _ <-]|].
  case_match.
  { destruct (pisces_enclave_add_cpu _ _ _) as [[r res']|]; [|done]. cbn [mbind option_bind].
    destruct (negb _); [by intros [= _ <-]|]. intros He. exact (add_cpu_keeps v arg (with_res e res') _ _ Hs He). }
  intros He. apply keeps_eq. revert He. case_match.
  { destruct (sync_status _ _ _ _) as [[??]|] eqn:E; [|done]. cbn. intros [= _ <-]. by apply sync_status_boot in E. }
  case_match.
  { destruct (copy_from_user _ _); [|by intros [= _ <-]]. destruct (pisces_enclave_add_mem _ _ _ _) as [[r res']|]; [|done].
    cbn [mbind option_bind]. destruct (negb _); [by intros [= _ <-]|]. by intros E%add_mem_boot. }
  case_match; [by intros [= _ <-]|]. case_match.
  { destruct (copy_from_user _ _); [|by intros [= _ <-]]. destruct (enclave_pci_add_dev _ _ _) as [[[r p] ?]|]; [|done].
    cbn [mbind option_bind]. destruct (negb _); [by intros [= _ <-]|]. by intros E%add_pci_boot. }
  case_match.
  { destruct (copy_from_user _ _); [|by intros [= _ <-]]. destruct (sync_status _ _ _ _) as [[??]|] eqn:E; [|done].
    apply sync_status_boot in E. cbn [mbind option_bind]. repeat case_match; by intros [= _ <-]. }
  do 4 (case_match; [by apply forward_boot|]). case_match.
  { destruct (send_vm_cmd _ _ _ _) as [[??]|] eqn:E; [|done]. cbn. intros [= _ <-]. by apply send_vm_cmd_boot in E. }
  case_match.
  { destruct (send_vm_cmd _ _ _ _) as [[??]|] eqn:E; [|done]. apply send_vm_cmd_boot in E. cbn [mbind option_bind].
    repeat case_match; by intros [= _ <-]. }
  case_match; [|case_match; [by apply plain_boot|by intros [= _ <-]]].
  destruct (copy_from_user _ _); [by apply plain_boot|by intros [= _ <-]].
Qed.

(** A boot, and a launch, however it ends. *)
Section boots.
Context (maxlvt : Z) (integrated : bool) (esr icr_idle : list apic_event → Z).

Lemma boot_enclave_keeps ts pml pa size ka apicid init (b : boot_state S) r :
  boot_enclave maxlvt integrated esr icr_idle ts pml pa size ka apicid init b = Some r → keeps_linux b (after r).
Proof.
  intros Hr Hl. destruct (decide (size mod Pgtables.PAGE_SIZE_2MB = 0)) as [Hs|Hs].
  - destruct (boot_enclave_boots maxlvt integrated esr icr_idle ts pml pa size ka apicid init b Hl Hs)
      as (r'&Hr'&_&H1&_&H2&_). rewrite Hr in Hr'. by injection Hr' as <-.
  - revert Hr. unfold boot_enclave, pisces_setup_trampoline. rewrite (proj2 (Z.eqb_neq _ _) Hs). by intros [= <-].
Qed.

Context (fuel : nat) (v : Ctrl.env) (files : BootParams.boot_env).

Lemma launch_keeps k (d : device S) ret d' :
  launch maxlvt integrated esr icr_idle fuel v files k d = Some (ret, d') →
  keeps_linux (boot (encl d)) (boot (encl d')) ∧ dev_refs d' = dev_refs d ∧ bootmem_bytes d' = bootmem_bytes d.
Proof.
  unfold launch. destruct (pisces_cons_init _) as [cr c]. destruct (setup_boot_params _ _ _) as [[]| |]; [..|done|done].
  - destruct (pisces_enclave_launch _ _ _). by intros [= _ <-].
  - destruct (boot_enclave _ _ _ _ _ _ _ _ _ _ _ _) as [r|] eqn:E; [|done]. cbn [mbind option_bind].
    apply boot_enclave_keeps in E. destruct (pisces_enclave_launch _ _ _). by intros [= _ <-].
Qed.

Lemma readd_keeps w a size cpu e e' :
  bootmem_sz w mod Pgtables.PAGE_SIZE_2MB = 0 → readd w a size cpu e = Some e' → keeps_linux (boot e) (boot e').
Proof.
  intros Hs. unfold readd.
  assert (∀ l e e', readd_mem w a size l e = Some e' → boot e' = boot e) as Hm.
  { intros l. induction l as [|b l IH]; intros x x'; cbn [readd_mem]; [by intros [= <-]|]. case_match; [by apply IH|].
    destruct (ctrl_add_mem _ _ _ _) as [[??]|] eqn:E; [|done]. cbn [mbind option_bind]. apply add_mem_boot in E as <-. apply IH. }
  assert (∀ l e e', readd_cpus w cpu l e = Some e' → keeps_linux (boot e) (boot e')) as Hc.
  { intros l. induction l as [|c l IH]; intros x x'; cbn [readd_cpus]; [by intros [= <-]|]. case_match; [by apply IH|].
    destruct (ctrl_add_cpu _ _ _) as [[??]|] eqn:E; [|done]. cbn [mbind option_bind]. apply add_cpu_keeps in E; [|done].
    intros Hx%IH. by etrans. }
  assert (∀ l e e', readd_pci w l e = Some e' → boot e' = boot e) as Hp.
  { intros l. induction l as [|b l IH]; intros x x'; cbn [readd_pci]; [by intros [= <-]|].
    destruct (ctrl_add_pci _ _ _) as [[??]|] eqn:E; [|done]. cbn [mbind option_bind]. apply add_pci_boot in E as <-.
    case_match; [apply IH|done]. }
  destruct (readd_mem _ _ _ _ _) as [e1|] eqn:E1; [|done]. cbn [mbind option_bind].
  destruct (readd_cpus _ _ _ _) as [e2|] eqn:E2; [|done]. cbn [mbind option_bind]. intros E3.
  rewrite (Hp _ _ _ E3), <-(Hm _ _ _ E1). by eapply Hc.
Qed.

(** *** The calls on a device *)

Definition whole_pages (k : kernel) : Prop :=
  ∀ b, user_boot k = Some b → (num_blocks b * block_size b) mod Pgtables.PAGE_SIZE_2MB = 0.

Lemma launch_prepare_size NRC b r a size r' :
  (num_blocks b * block_size b) mod Pgtables.PAGE_SIZE_2MB = 0 → launch_prepare NRC b r = Some (a, size, r') →
  size mod Pgtables.PAGE_SIZE_2MB = 0.
Proof.
  unfold launch_prepare. change Pgtables.PAGE_SIZE_2MB with 2097152. intros Hm.
  destruct (pisces_enclave_add_cpu _ _ _) as [[??]|]; [|done]. cbn [mbind option_bind].
  destruct (add_blocks _ _ _ _) as [?|]; [|done]. cbn [mbind option_bind]. intros [= _ <- _]. unfold wrap.
  apply Z.mod_divide in Hm as [q ->]; [|done]. replace (2 ^ 64) with (8796093022208 * 2097152) by done.
  rewrite Z.mul_mod_distr_r by done. replace (q mod 8796093022208 * 2097152) with (q mod 8796093022208 * 512 * 4096) by lia.
  rewrite Z.div_mul by done. replace (q mod 8796093022208 * 512 * 4096) with (q mod 8796093022208 * 2097152) by lia.
  rewrite Z.mul_mod_distr_r by done. apply Z.mod_mul. done.
Qed.

Lemma enclave_ioctl_keeps ioctl k (d : device S) ret d' :
  whole_pages k → bootmem_bytes d mod Pgtables.PAGE_SIZE_2MB = 0 →
  enclave_ioctl maxlvt integrated esr icr_idle fuel v files ioctl k d = Some (ret, d') →
  keeps_linux (boot (encl d)) (boot (encl d')) ∧ bootmem_bytes d' mod Pgtables.PAGE_SIZE_2MB = 0 ∧
  if ioctl =? PISCES_ENCLAVE_CTRL_CONNECT then pisces_ctrl_connect (new_fd k) (dev_refs d) = (ret, dev_refs d')
  else dev_refs d' = dev_refs d ∧ (ioctl = PISCES_ENCLAVE_CONS_CONNECT → ret = new_fd k ∨ ret = -1).
Proof.
  intros Hk Hs. unfold enclave_ioctl. destruct (Z.eqb_spec ioctl PISCES_ENCLAVE_LAUNCH) as [->|].
  { unfold ioctl_launch. destruct (user_boot k) as [b|] eqn:Hb; [|by intros [= _ <-]].
    destruct (launch_prepare _ _ _) as [[[a size] r]|] eqn:Hp; [|done]. cbn [mbind option_bind].
    apply launch_prepare_size in Hp; [|by apply Hk]. intros (Hl&Hr&Hy)%launch_keeps. cbn in *. rewrite Hy. by split_and!. }
  destruct (Z.eqb_spec ioctl PISCES_ENCLAVE_RESET) as [->|].
  { unfold ioctl_reset. destruct (_ || _); [done|]. destruct (stop_enclave _ _ _ _ _) as [? log].
    destruct (reset_enclave_pci _ _) as [p ?]. destruct (launch _ _ _ _ _ _ _ _ _) as [[r d1]|] eqn:El; [|done].
    apply launch_keeps in El as (Hl&Hr&Hy). cbn [mbind option_bind encl with_pci boot dev_refs bootmem_bytes] in *.
    destruct (negb _); [intros [= _ <-]; rewrite Hy; by split_and!|].
    destruct (readd _ _ _ _ _) as [e|] eqn:Ee; [|done]. cbn [mbind option_bind]. intros [= _ <-].
    apply readd_keeps in Ee; [|cbn; by rewrite Hy]. cbn. rewrite Hy. split; [by etrans|]. by split. }
  destruct (Z.eqb_spec ioctl PISCES_ENCLAVE_CONS_CONNECT) as [->|].
  { destruct (pisces_cons_connect _ _) as [fd c] eqn:Ec. intros [= <- <-]. cbn. split_and!; try done.
    intros _. revert Ec. unfold pisces_cons_connect. repeat case_match; intros [= <- _]; auto. }
  destruct (Z.eqb_spec ioctl PISCES_ENCLAVE_CTRL_CONNECT) as [->|].
  { destruct (pisces_ctrl_connect _ _) as [fd r]. intros [= <- <-]. by split_and!. }
  intros [= _ <-]. by split_and!.
Qed.
End boots.
End shared.

(** ** References

    What an enclave's counter should be: one for its place in the table, one for each
    open file but consoles, and one for each reference that was lost. *)

Section references.
Context {S : Type} `{TrampolineLaws S}.
Implicit Types (s : sys S) (d : device S).

Definition counted (k : file_kind) : bool := match k with MainFile | ConsFile => false | _ => true end.
Definition on (p : Z) (x : Z * (file_kind * Z)) : Prop := counted x.2.1 = true ∧ x.2.2 = p.
#[global] Instance on_dec p x : Decision (on p x).
Proof. unfold on. apply _. Defined.
Definition users (f : gmap Z (file_kind * Z)) (p : Z) : Z := Z.of_nat (size (filter (on p) f)).
Definition listed (m : list Z) (p : Z) : Z := if decide (p ≠ 0 ∧ p ∈ m) then 1 else 0.
Definition leaks (l : list Z) (p : Z) : Z := zlen (filter (λ q, q = p) l).
Definition owed (m : list Z) (f : gmap Z (file_kind * Z)) (l : list Z) (p : Z) : Z := listed m p + users f p + leaks l p.

Definition entry_ok (o : Z) (d : option (device S)) : Prop :=
  match d with
  | Some d => refcount (dev_refs d) = o ∧ 0 < o ∧ freed (dev_refs d) = false ∧
              bootmem_bytes d mod Pgtables.PAGE_SIZE_2MB = 0
  | None => o = 0
  end.

Definition distinct (m : list Z) : Prop := ∀ (i j : nat) p, m !! i = Some p → m !! j = Some p → p ≠ 0 → i = j.
Record inv s : Prop := {
  i_len : length (emap s) = MAX_ENCLAVES;
  i_inj : distinct (emap s);
  i_null : devs s !! 0 = None;
  i_entry p : entry_ok (owed (emap s) (fds s) (leaked s) p) (devs s !! p);
  i_lock : trampoline_lock (shared s) = false }.

(** *** Counting *)

Lemma users_insert f fd k p q :
  f !! fd = None → users (<[fd := (k, p)]> f) q = users f q + (if counted k && (p =? q) then 1 else 0).
Proof.
  intros Hf. unfold users. assert (on q (fd, (k, p)) ↔ counted k && (p =? q) = true) as Hon.
  { unfold on. cbn. rewrite andb_true_iff, Z.eqb_eq. done. }
  destruct (counted k && (p =? q)) eqn:E.
  - rewrite map_filter_insert_True by by apply Hon. rewrite map_size_insert_None; [lia|].
    apply map_lookup_filter_None. by left.
  - rewrite map_filter_insert_False by (rewrite Hon; congruence). rewrite delete_id by done. lia.
Qed.

Lemma users_delete f fd k p q :
  f !! fd = Some (k, p) → users (delete fd f) q = users f q - (if counted k && (p =? q) then 1 else 0).
Proof.
  intros Hf. rewrite <-(insert_delete_id f fd (k, p) Hf) at 2. rewrite users_insert by apply lookup_delete_eq. lia.
Qed.

Lemma listed_0 m : listed m 0 = 0.
Proof. unfold listed. by rewrite decide_False by tauto. Qed.

Lemma listed_insert (m : list Z) (i : nat) p q r :
  m !! i = Some r → (r ≠ 0 → ∀ j, m !! j = Some r → j = i) → (p ≠ 0 → p ∉ m) →
  listed (<[i := p]> m) q =
    if decide (q = 0) then 0 else if decide (q = p) then 1 else if decide (q = r) then 0 else listed m q.
Proof.
  intros Hi Hr Hp. pose proof (lookup_lt_Some _ _ _ Hi) as Hlt.
  assert (∀ P P' : Prop, ∀ d : Decision P, ∀ d' : Decision P', P ↔ P' → (if decide P then 1 else 0) = (if decide P' then 1 else 0)) as Hd.
  { intros P P' d d' HP. destruct (decide P), (decide P'); tauto. }
  unfold listed. destruct (decide (q = 0)) as [->|Hq]; [by rewrite decide_False by tauto|].
  destruct (decide (q = p)) as [->|Hqp].
  { rewrite decide_True; [done|]. split; [done|]. by apply list_elem_of_insert. }
  destruct (decide (q = r)) as [->|Hqr].
  { rewrite decide_False; [done|]. intros [_ [j Hj]%list_elem_of_lookup_1].
    apply list_lookup_insert_Some in Hj as [(_&?&_)|(Hne&Hj)]; [done|]. by apply Hne; rewrite (Hr Hq j Hj). }
  apply Hd. split; intros [_ [j Hj]%list_elem_of_lookup_1]; (split; [done|]).
  - apply list_lookup_insert_Some in Hj as [(_&?&_)|(Hne&Hj)]; [done|]. by apply list_elem_of_lookup_2 with j.
  - apply list_elem_of_lookup_2 with j. rewrite list_lookup_insert_ne; [done|]. intros ->. congruence.
Qed.

Lemma distinct_insert m (i : nat) p : distinct m → (p ≠ 0 → p ∉ m) → distinct (<[i := p]> m).
Proof.
  intros Hm Hp j1 j2 q H1 H2 Hq. apply list_lookup_insert_Some in H1 as [(E1&Ep&_)|(Hn1&H1)];
    apply list_lookup_insert_Some in H2 as [(E2&Ep2&_)|(Hn2&H2)].
  - congruence.
  - subst q. destruct (Hp Hq). by apply list_elem_of_lookup_2 with j2.
  - subst q. destruct (Hp Hq). by apply list_elem_of_lookup_2 with j1.
  - by apply (Hm j1 j2 q).
Qed.

(** *** Taking and dropping a reference *)

Lemma entry_get o d : entry_ok o (Some d) → entry_ok (o + 1) (Some (with_refs d (enclave_get (dev_refs d)))).
Proof. intros (Hr&Ho&Hf&Hs). cbn. split; [lia|]. split; [lia|]. by split. Qed.

Lemma entry_put o d d' p ds :
  entry_ok o (Some d) → dev_refs d' = enclave_put (dev_refs d) → bootmem_bytes d' = bootmem_bytes d →
  entry_ok (o - 1) (settle p d' ds !! p).
Proof.
  intros (Hr&Ho&Hf&Hs) Hd Hb. unfold settle. rewrite Hd. cbn [freed enclave_put]. rewrite Hf, Hr. cbn [orb].
  destruct (Z.eqb_spec o 1) as [->|].
  - by rewrite lookup_delete_eq.
  - rewrite lookup_insert_eq. cbn. rewrite Hd, Hb. cbn. rewrite Hf, Hr, (proj2 (Z.eqb_neq o 1)) by done. split_and!; try done; lia.
Qed.

Lemma settle_ne p d ds q : q ≠ p → settle p d ds !! q = ds !! q.
Proof. intros Hne. unfold settle. case_match; [by rewrite lookup_delete_ne|by rewrite lookup_insert_ne]. Qed.
Lemma settle_null p d ds : p ≠ 0 → ds !! 0 = None → settle p d ds !! 0 = None.
Proof. intros Hp Hz. by rewrite settle_ne. Qed.

(** One entry changes. *)
Lemma inv_one s s' p :
  inv s → length (emap s') = MAX_ENCLAVES →
  distinct (emap s') → p ≠ 0 →
  (∀ q, q ≠ p → devs s' !! q = devs s !! q) →
  (∀ q, q ≠ p → owed (emap s') (fds s') (leaked s') q = owed (emap s) (fds s) (leaked s) q) →
  entry_ok (owed (emap s') (fds s') (leaked s') p) (devs s' !! p) → trampoline_lock (shared s') = false → inv s'.
Proof.
  intros [_ _ Hn He _] Hlen Hinj Hp Hd Ho Hent Hl. split; [done|done|by rewrite Hd| |done].
  intros q. destruct (decide (q = p)) as [->|Hne]; [done|]. rewrite Hd, Ho by done. apply He.
Qed.

(** *** The calls *)

Context (maxlvt : Z) (integrated : bool) (esr icr_idle : list apic_event → Z).
Context (fuel : nat) (v : Ctrl.env) (files : Z → BootParams.boot_env).
#[local] Abbreviation syscall := (syscall maxlvt integrated esr icr_idle fuel v files).

(** What the rest of the kernel promises: new structures and descriptors are new,
    devices can be created; and launches ask for memory in pages of 2MB, as the tools do. *)
Definition creates (a : create_env) s : Prop :=
  cdev_add_ret a = 0 ∧ device_ptr a ≠ 0 ∧ 0 < kmalloc_ptr a < 2 ^ 64 - 4095 ∧ devs s !! kmalloc_ptr a = None.
Definition allowed (c : call) s : Prop :=
  match c with
  | MainIoctl _ _ _ _ a => creates a s
  | OpenMain fd | OpenDevice _ fd | OpenProc _ _ fd _ => fds s !! fd = None
  | Ioctl _ _ _ _ k => fds s !! new_fd k = None ∧ whole_pages k
  | _ => True
  end.

Inductive run : sys S → list call → sys S → Prop :=
  | run_nil s : run s [] s
  | run_cons s c ret s' cs s'' : allowed c s → syscall c s = Done (ret, s') → run s' cs s'' → run s (c :: cs) s''.

Lemma owed_alive s p o : inv s → owed (emap s) (fds s) (leaked s) p = o → 0 < o → ∃ d, devs s !! p = Some d.
Proof. intros Hi Ho Hp. pose proof (i_entry s Hi p) as He. rewrite Ho in He. destruct (devs s !! p) as [d|]; [by exists d|cbn in He; lia]. Qed.

Lemma users_nonneg f p : 0 ≤ users f p.
Proof. unfold users. lia. Qed.
Lemma leaks_nonneg l p : 0 ≤ leaks l p.
Proof. unfold leaks. lia. Qed.
Lemma listed_range m p : 0 ≤ listed m p ≤ 1.
Proof. unfold listed. case_decide; lia. Qed.

Lemma open_alive s fd k p : inv s → fds s !! fd = Some (k, p) → counted k = true → ∃ d, devs s !! p = Some d.
Proof.
  intros Hi Hf Hk. eapply owed_alive; [done|done|]. unfold owed.
  pose proof (users_delete (fds s) fd k p p Hf) as E. rewrite Hk, Z.eqb_refl in E. cbn in E.
  pose proof (users_nonneg (delete fd (fds s)) p). pose proof (leaks_nonneg (leaked s) p). pose proof (listed_range (emap s) p). lia.
Qed.

Lemma table_alive s (i : nat) p : inv s → emap s !! i = Some p → p ≠ 0 → ∃ d, devs s !! p = Some d.
Proof.
  intros Hi Hm Hp. eapply owed_alive; [done|done|]. unfold owed, listed.
  rewrite decide_True by (split; [done|by apply list_elem_of_lookup_2 with i]).
  pose proof (users_nonneg (fds s) p). pose proof (leaks_nonneg (leaked s) p). lia.
Qed.

Lemma dev_nonzero s p d : inv s → devs s !! p = Some d → p ≠ 0.
Proof. intros Hi Hd ->. by rewrite (i_null s Hi) in Hd. Qed.

Lemma load_inv ok a s ret s' : inv s → creates a s → load_image ok a s = Done (ret, s') → inv s' ∧ shared s' = shared s.
Proof.
  intros Hi (Hc&Hv&Hp&Hfresh). unfold load_image, device_ioctl. rewrite Z.eqb_refl.
  destruct ok; cbn [negb]; [|intros [= _ <-]; by destruct s]. unfold pisces_enclave_create, IS_ERR. set (p := kmalloc_ptr a) in *.
  rewrite Z.geb_leb, (proj2 (Z.leb_gt _ _)), (proj2 (Z.eqb_neq p 0)) by lia. cbn [enclave_map table_of].
  pose proof (enclave_index_spec p (emap s)) as Hidx. destruct (alloc_enclave_index p (emap s)) as [idx m'].
  destruct Hidx as [(->&->&_)|(i&->&Hfree&_&->&_)]; [intros [= _ <-]; by destruct s|].
  rewrite (proj2 (Z.eqb_neq _ (-1))), Hc by lia. cbn [negb Z.eqb]. rewrite (proj2 (Z.eqb_neq _ 0) Hv).
  rewrite (proj2 (Z.eqb_neq _ (-1))), (proj2 (Z.ltb_ge _ _)) by lia. cbn [enclave_map]. intros [= _ <-]. split; [|done].
  pose proof (i_entry s Hi p) as Hent. rewrite Hfresh in Hent. cbn in Hent.
  assert (p ∉ emap s) as Hnot.
  { intros [j Hj]%list_elem_of_lookup_1. destruct (table_alive s j p Hi Hj) as [d Hd]; [lia|congruence]. }
  pose proof (listed_insert (emap s) i p) as Hl. specialize (fun q => Hl q 0 Hfree ltac:(done) (fun _ => Hnot)).
  apply (inv_one s _ p Hi); cbn [emap devs fds leaked shared]; [by rewrite length_insert, i_len| |lia|..].
  - apply distinct_insert; [apply Hi|done].
  - intros q Hq. by rewrite lookup_insert_ne.
  - intros q Hq. unfold owed. rewrite Hl. destruct (decide (q = 0)) as [->|Hq0]; [by rewrite listed_0|].
    by rewrite decide_False.
  - rewrite lookup_insert_eq. unfold owed in *. rewrite Hl, decide_False, decide_True by (done || lia).
    pose proof (users_nonneg (fds s) p). pose proof (leaks_nonneg (leaked s) p). pose proof (listed_range (emap s) p).
    cbn. split_and!; try done; lia.
  - apply Hi.
Qed.

Lemma free_inv arg a s ret s' : inv s → free_enclave arg a s = Done (ret, s') → inv s' ∧ shared s' = shared s.
Proof.
  intros Hi. unfold free_enclave, device_ioctl. change (PISCES_FREE_ENCLAVE =? PISCES_LOAD_IMAGE) with false. rewrite Z.eqb_refl.
  cbn [enclave_map table_of]. set (idx := s32 arg).
  destruct (_ || _) eqn:Hr.
  { case_match; [|by intros [= _ <-]]. cbn. by intros [= _ <-]. }
  apply orb_false_elim in Hr as [Hr1%Z.ltb_ge _].
  destruct (emap s !! Z.to_nat idx) as [p|] eqn:Hm; cbn [default].
  2: { rewrite (i_null s Hi). by intros [= _ <-]. }
  destruct (Z.eqb_spec p 0) as [->|Hp].
  { cbn. rewrite (i_null s Hi). by intros [= _ <-]. }
  change (id p) with p. destruct (table_alive s _ p Hi Hm Hp) as [d Hd]. rewrite Hd. unfold pisces_enclave_free.
  destruct (negb _); [done|]. destruct (negb _); [done|]. cbn. intros [= _ <-]. split; [|done].
  unfold free_enclave_index. set (i := Z.to_nat idx) in *.
  pose proof (λ q, listed_insert (emap s) i 0 q p Hm (λ Hp j Hj, i_inj s Hi j i p Hj Hm Hp) ltac:(done)) as Hl.
  pose proof (i_entry s Hi p) as Hent. rewrite Hd in Hent.
  apply (inv_one s _ p Hi); cbn [emap devs fds leaked shared]; [by rewrite length_insert, i_len| |done|..].
  - apply distinct_insert; [apply Hi|done].
  - intros q Hq. by apply settle_ne.
  - intros q Hq. unfold owed. rewrite Hl. destruct (decide (q = 0)) as [->|Hq0]; [by rewrite listed_0|].
    by rewrite decide_False.
  - assert (listed (emap s) p = 1) as Hlp.
    { unfold listed. apply decide_True. split; [done|]. by apply list_elem_of_lookup_2 with i. }
    replace (owed _ _ _ p) with (owed (emap s) (fds s) (leaked s) p - 1).
    { by apply (entry_put _ d). }
    unfold owed. rewrite Hl, Hlp, decide_False, decide_False, decide_True by done. lia.
  - apply Hi.
Qed.

(** A file or a lost reference more, with the reference it stands for. *)
Lemma get_inv s s' p d d' :
  inv s → devs s !! p = Some d → emap s' = emap s → devs s' = <[p := d']> (devs s) →
  dev_refs d' = enclave_get (dev_refs d) → bootmem_bytes d' mod Pgtables.PAGE_SIZE_2MB = 0 → trampoline_lock (shared s') = false →
  (∀ q, users (fds s') q + leaks (leaked s') q = users (fds s) q + leaks (leaked s) q + (if p =? q then 1 else 0)) → inv s'.
Proof.
  intros Hi Hd Em Ed Er Hs Hl Hu.
  assert (∀ q, owed (emap s') (fds s') (leaked s') q = owed (emap s) (fds s) (leaked s) q + (if p =? q then 1 else 0)) as Ho.
  { intros q. unfold owed. rewrite Em. specialize (Hu q). lia. }
  pose proof (i_entry s Hi p) as Hent. rewrite Hd in Hent. destruct Hent as (H1&H2&H3&_).
  apply (inv_one s s' p Hi); [rewrite Em; apply Hi..|by eapply dev_nonzero| | | |done].
  - intros q Hq. by rewrite Ed, lookup_insert_ne.
  - intros q Hq. rewrite Ho. case_test; [congruence|lia].
  - rewrite Ho, Z.eqb_refl, Ed, lookup_insert_eq. cbn. rewrite Er. cbn. split_and!; try done; lia.
Qed.

Lemma dev_size s p d : inv s → devs s !! p = Some d → bootmem_bytes d mod Pgtables.PAGE_SIZE_2MB = 0.
Proof. intros Hi Hd. pose proof (i_entry s Hi p) as He. rewrite Hd in He. apply He. Qed.

Lemma live_dev idx s p d : live idx s = Some (p, d) → devs s !! p = Some d.
Proof.
  unfold live. destruct (emap s !! _) as [q|]; [|done]. cbn. destruct (devs s !! q) as [d'|] eqn:E; [|done]. cbn.
  case_test; [done|]. by intros [= <- <-].
Qed.

Lemma leaks_cons l p q : leaks (p :: l) q = leaks l q + (if p =? q then 1 else 0).
Proof. unfold leaks. rewrite filter_cons. case_decide; case_test; try congruence; cbn [length]; lia. Qed.

Lemma open_device_inv idx fd s ret s' :
  inv s → fds s !! fd = None → open_device idx fd s = Done (ret, s') → inv s' ∧ shared s' = shared s.
Proof.
  intros Hi Hf. unfold open_device. destruct (live idx s) as [[p d]|] eqn:Hl; [|by intros [= _ <-]].
  apply live_dev in Hl. cbn. intros [= _ <-]. split; [|done]. apply (get_inv s _ p d (with_refs d (enclave_get (dev_refs d))) Hi Hl); try done; [by eapply (dev_size s p d)|apply Hi|].
  intros q. cbn. rewrite users_insert by done. cbn. lia.
Qed.

Lemma open_proc_inv w idx fd r s ret s' :
  inv s → fds s !! fd = None → open_proc w idx fd r s = Done (ret, s') → inv s' ∧ shared s' = shared s.
Proof.
  intros Hi Hf. unfold open_proc. destruct (live idx s) as [[p d]|] eqn:Hl; [|by intros [= _ <-]].
  apply live_dev in Hl. assert (∀ k, match w with MemoryFile => proc_open r k | CpusFile => proc_cpu_open r k
    | PciFile => proc_pci_open r k end = (r, enclave_get k)) as -> by by destruct w.
  case_test; intros [= _ <-]; (split; [|done]); apply (get_inv s _ p d (with_refs d (enclave_get (dev_refs d))) Hi Hl); try done;
    try apply Hi; try (by eapply (dev_size s p d)); intros q; cbn.
  - rewrite users_insert by done. cbn. lia.
  - rewrite leaks_cons. lia.
Qed.

(** A call on an enclave's files: its entry is as it was, but for the references. *)
Lemma put_inv s s' p d d' :
  inv s → devs s !! p = Some d → emap s' = emap s → devs s' = <[p := d']> (devs s) → leaked s' = leaked s →
  dev_refs d' = dev_refs d → bootmem_bytes d' mod Pgtables.PAGE_SIZE_2MB = 0 → trampoline_lock (shared s') = false →
  (∀ q, users (fds s') q = users (fds s) q) → inv s'.
Proof.
  intros Hi Hd Em Ed El Er Hs Hl Hu.
  assert (∀ q, owed (emap s') (fds s') (leaked s') q = owed (emap s) (fds s) (leaked s) q) as Ho.
  { intros q. unfold owed. by rewrite Em, El, Hu. }
  pose proof (i_entry s Hi p) as Hent. rewrite Hd in Hent. destruct Hent as (H1&H2&H3&_).
  apply (inv_one s s' p Hi); [rewrite Em; apply Hi..|by eapply dev_nonzero| |done| |done].
  - intros q Hq. by rewrite Ed, lookup_insert_ne.
  - rewrite Ho, Ed, lookup_insert_eq. cbn. by rewrite Er.
Qed.

Lemma ctrl_connect_refs fd r ret r' :
  pisces_ctrl_connect fd r = (ret, r') → ret = fd ∧ r' = if fd <? 0 then enclave_put (enclave_get r) else enclave_get r.
Proof. unfold pisces_ctrl_connect. case_test; by intros [= <- <-]. Qed.

Lemma get_put r : freed r = false → 0 < refcount r → enclave_put (enclave_get r) = r.
Proof.
  destruct r as [c f]. unfold enclave_put, enclave_get. cbn. intros -> Hc. rewrite (proj2 (Z.eqb_neq _ 1)) by lia. f_equal. lia.
Qed.

Lemma put_dev_shared p d s : shared (put_dev p d s) = boot (encl d).
Proof. done. Qed.

Lemma file_ioctl_inv fd ioctl arg user k s ret s' :
  inv s → fds s !! new_fd k = None → whole_pages k →
  file_ioctl maxlvt integrated esr icr_idle fuel v files fd ioctl arg user k s = Done (ret, s') →
  inv s' ∧ keeps_linux (shared s) (shared s').
Proof.
  intros Hi Hnew Hk. unfold file_ioctl. destruct (fds s !! fd) as [[kd p]|] eqn:Hf; [|by intros [= _ <-]].
  destruct kd; try by intros [= _ <-].
  - destruct (devs s !! p) as [d|] eqn:Hd; [|done]. cbn [mbind option_bind].
    destruct (enclave_ioctl _ _ _ _ _ _ _ _ _ _) as [[r d']|] eqn:E; [|done]. intros [= <- <-].
    pose proof (dev_size s p d Hi Hd) as Hs. pose proof (i_entry s Hi p) as Hent. rewrite Hd in Hent. destruct Hent as (Hr&Hr0&Hfr&_).
    apply enclave_ioctl_keeps in E as (Hkeep&Hs'&Hrefs); [|done|done]. cbn [attach encl with_boot boot dev_refs] in Hkeep, Hrefs.
    split; [|done]. destruct (Hkeep (i_lock s Hi)) as [Hlk _]. unfold new_file.
    destruct (Z.eqb_spec ioctl PISCES_ENCLAVE_CTRL_CONNECT) as [->|Hne].
    + apply ctrl_connect_refs in Hrefs as [-> Er]. destruct (Z.ltb_spec (new_fd k) 0) as [Hneg|Hpos].
      * rewrite get_put in Er by (done || lia). by apply (put_inv s _ p d d' Hi Hd).
      * change (PISCES_ENCLAVE_CTRL_CONNECT =? PISCES_ENCLAVE_CONS_CONNECT) with false.
        apply (get_inv s _ p d d' Hi Hd); try done. intros q. cbn. rewrite users_insert by done. cbn. lia.
    + destruct Hrefs as [Er Hcons]. apply (put_inv s _ p d d' Hi Hd); try done. intros q. cbn.
      destruct (Z.ltb_spec r 0); [done|]. destruct (Z.eqb_spec ioctl PISCES_ENCLAVE_CONS_CONNECT) as [->|]; [|done].
      destruct (Hcons eq_refl) as [->| ->]; [|lia]. rewrite users_insert by done. cbn. lia.
  - destruct (devs s !! p) as [d|] eqn:Hd; [|done]. cbn [mbind option_bind].
    destruct (ctrl_ioctl _ _ _ _ _) as [[r e]|] eqn:E; [|done]. cbn [mbind option_bind]. intros [= _ <-].
    pose proof (dev_size s p d Hi Hd) as Hs. apply ctrl_ioctl_keeps in E; [|done]. cbn [attach encl with_boot boot] in E.
    split; [|done]. eapply (put_inv s _ p d _ Hi Hd); [done|reflexivity|done|done|done|by apply E, Hi|done].
Qed.

Lemma release_inv s s' fd k p d r :
  inv s → fds s !! fd = Some (k, p) → counted k = true → devs s !! p = Some d → r = enclave_put (dev_refs d) →
  s' = with_devs (settle p (with_refs d r) (devs s)) (with_fds (delete fd (fds s)) s) → inv s'.
Proof.
  intros Hi Hf Hk Hd -> ->. pose proof (i_entry s Hi p) as Hent. rewrite Hd in Hent.
  assert (∀ q, owed (emap s) (delete fd (fds s)) (leaked s) q = owed (emap s) (fds s) (leaked s) q - (if p =? q then 1 else 0)) as Ho.
  { intros q. unfold owed. rewrite (users_delete _ _ _ _ _ Hf), Hk. cbn. lia. }
  apply (inv_one s _ p Hi); try apply Hi; cbn [with_devs with_fds emap devs fds leaked shared].
  - by eapply dev_nonzero.
  - intros q Hq. by apply settle_ne.
  - intros q Hq. rewrite Ho. case_test; [congruence|lia].
  - rewrite Ho, Z.eqb_refl. by apply (entry_put _ d).
Qed.

Lemma close_inv fd s ret s' : inv s → close fd s = Done (ret, s') → inv s' ∧ shared s' = shared s.
Proof.
  intros Hi. unfold close. destruct (fds s !! fd) as [[k p]|] eqn:Hf; [|by intros [= _ <-]].
  destruct (match k with MainFile => true | _ => false end) eqn:Hmain.
  { destruct k; try done. intros [= _ <-]. split; [|done]. destruct Hi as [H1 H2 H3 H4 H5]. split; try done. intros q. cbn.
    unfold owed. rewrite (users_delete _ _ _ _ _ Hf). cbn. rewrite Z.sub_0_r. apply H4. }
  destruct (devs s !! p) as [d|] eqn:Hd; [|by destruct k].
  destruct k; [done|..]; cbn [enclave_release ctrl_release proc_release console_release]; intros [= _ <-]; (split; [|done]);
    try by eapply (release_inv s _ fd _ p d).
  eapply (put_inv s _ p d _ Hi Hd); [done|reflexivity|done|done|exact (dev_size s p d Hi Hd)|apply Hi|]. intros q. cbn.
  rewrite (users_delete _ _ _ _ _ Hf). cbn. lia.
Qed.

Lemma syscall_inv c s ret s' :
  inv s → allowed c s → syscall c s = Done (ret, s') → inv s' ∧ keeps_linux (shared s) (shared s').
Proof.
  intros Hi Ha. assert (∀ s', inv s' ∧ shared s' = shared s → inv s' ∧ keeps_linux (shared s) (shared s')) as Heq.
  { intros x [Hx E]. split; [done|]. by apply keeps_eq. }
  destruct c; cbn [System.syscall allowed] in *; intros E.
  - injection E as _ <-. apply Heq. split; [|done]. destruct Hi as [H1 H2 H3 H4 H5]. split; try done. intros q. cbn.
    unfold owed. rewrite users_insert by done. cbn. rewrite Z.add_0_r. apply H4.
  - revert E. unfold main_ioctl. destruct (fds s !! fd) as [[[] ?]|]; try by intros [= _ <-].
    repeat case_match; intros E; [by eapply Heq, load_inv|by eapply Heq, free_inv|by injection E as _ <-].
  - by eapply Heq, open_device_inv.
  - by eapply Heq, open_proc_inv.
  - destruct Ha. by eapply file_ioctl_inv.
  - revert E. unfold file_read_write. repeat case_match; by intros [= _ <-].
  - by eapply Heq, close_inv.
Qed.

Lemma run_inv cs s s' : run s cs s' → inv s → inv s' ∧ keeps_linux (shared s) (shared s').
Proof.
  induction 1 as [s|s c ret s1 cs s2 Ha Hc _ IH]; intros Hi; [done|].
  destruct (syscall_inv c s ret s1 Hi Ha Hc) as [Hi1 Hk1]. destruct (IH Hi1) as [Hi2 Hk2]. split; [done|]. by etrans.
Qed.

(** Reading the debug file before there is an enclave. *)
Lemma dbg_without_enclave pct_p memory s : inv s → emap s !! 0%nat = Some 0 → dbg_read pct_p memory s = Crash.
Proof. intros Hi Hz. unfold dbg_read. rewrite Hz. cbn. by rewrite (i_null s Hi). Qed.

(** The module as it is loaded. *)
Definition loaded (b : boot_state S) (l : list apic_event) : sys S :=
  {| emap := enclave_map_init; devs := ∅; fds := ∅; shared := b; log := l; leaked := [] |}.

Lemma loaded_inv b l : trampoline_lock b = false → inv (loaded b l).
Proof.
  intros Hb. assert (∀ (i : nat) p, enclave_map_init !! i = Some p → p = 0) as Hz.
  { intros i p Hp. unfold enclave_map_init in Hp. by apply lookup_replicate in Hp as [-> _]. }
  split; [done| |done| |done].
  - intros i j p Hp _ Hp0. destruct Hp0. by eapply Hz.
  - intros p. unfold entry_ok, owed, listed, users, leaks, loaded. cbn [emap fds leaked devs]. rewrite lookup_empty, decide_False; [done|].
    intros [Hp [i Hi]%list_elem_of_lookup_1]. by apply Hp, (Hz i).
Qed.

(** An enclave that was given up can be launched by a process that still has its device
    open; when that file is closed, the structure is freed with the thread that serves
    the enclave's calls running on it. *)
Lemma dead_enclave_relaunched s fd p d k b kern initrd :
  fds s !! fd = Some (DevFile, p) → devs s !! p = Some d → dev_refs d = {| refcount := 1; freed := false |} →
  trampoline_lock (shared s) = false →
  user_boot k = Some b → launch_ok b → 0 ≤ NR_CPUS v < 2 ^ 32 → 0 ≤ boot_cpu_id b < NR_CPUS v →
  Resources.wf (NR_CPUS v) (res (encl d)) → zlen (memdesc_list (res (encl d))) + num_blocks b < 2 ^ 32 - 1 →
  loadable fuel (files p) (num_blocks b * block_size b) kern initrd → lcall_ret k ≠ -1 → (∀ tr, initialized k tr = true) →
  ∃ s' d', syscall (Ioctl fd PISCES_ENCLAVE_LAUNCH 0 [] k) s = Done (0, s') ∧
    devs s' !! p = Some d' ∧ dev_state d' = ENCLAVE_RUNNING ∧ thread d' = true ∧
    ∃ s'', syscall (Close fd) s' = Done (0, s'') ∧ devs s'' !! p = None.
Proof.
  intros Hf Hd Hr Hlk Hu Hb Hn Hc Hw Hlen Hld Hlc Hup. cbn [System.syscall]. unfold file_ioctl. rewrite Hf, Hd.
  cbn [mbind option_bind]. unfold enclave_ioctl. rewrite Z.eqb_refl. unfold ioctl_launch. rewrite Hu.
  destruct (launch_prepare_spec (NR_CPUS v) b (res (encl d))) as (r'&Hp&_); [done..|].
  cbn [attach encl with_boot res]. rewrite Hp. cbn [mbind option_bind].
  match goal with |- context [launch _ _ _ _ _ _ _ k ?x] =>
    destruct (launch_up maxlvt integrated esr icr_idle fuel v (files p) k x kern initrd) as (d'&->&Hu'&Hs&_) end; [done..|].
  destruct Hu' as (Hst&_&Hth&_). destruct Hs as (_&_&_&_&_&_&Hrefs). cbn [dev_refs attach] in Hrefs.
  eexists _, d'. split; [reflexivity|]. cbn [with_fds put_dev devs]. rewrite lookup_insert_eq. split_and!; try done.
  unfold close, new_file. cbn [with_fds put_dev devs fds]. change (PISCES_ENCLAVE_LAUNCH =? _) with false. cbn [Z.ltb Z.compare].
  rewrite Hf, lookup_insert_eq. cbn [enclave_release]. eexists. split; [reflexivity|]. cbn [with_devs devs].
  unfold settle. cbn [with_refs connected_to dev_refs]. rewrite Hrefs, Hr. cbn. by rewrite lookup_delete_eq.
Qed.

End references.

(** ** Witnesses *)

Definition demo_load (p : Z) : call :=
  MainIoctl 2 PISCES_LOAD_IMAGE 0 true {| kmalloc_ptr := p; cdev_add_ret := 0; device_ptr := 8192 |}.
Definition demo_calls : list call :=
  [OpenMain 2; demo_load 4096; demo_load 8192; OpenDevice 0 3; OpenDevice 1 4;
   Ioctl 3 PISCES_ENCLAVE_CTRL_CONNECT 0 [] {| user_boot := None; lcall_ret := 0; initialized := λ _, true; lcall_stops := true;
     hw := λ _, init_hw demo_add; new_fd := 5 |};
   Ioctl 3 PISCES_ENCLAVE_LAUNCH 0 [] {| user_boot := None; lcall_ret := 0; initialized := λ _, true; lcall_stops := true;
     hw := λ _, init_hw demo_add; new_fd := 6 |};
   OpenProc CpusFile 0 6 0; OpenProc MemoryFile 0 7 (-12); Ioctl 5 PISCES_CMD_ADD_CPU 2 [] {| user_boot := None; lcall_ret := 0;
     initialized := λ _, true; lcall_stops := true; hw := λ _, init_hw demo_add; new_fd := 8 |};
   Close 3; ReadWrite 5 false; Close 4; Close 2].
#[local] Abbreviation demo_run :=
  (run 5 true (λ _, 0) (λ _, 0) 10 (Ctrl.demo_env 0) (λ _, BootParams.demo_env)).
Definition demo_boot_state : boot_state V3.state := boot demo_enclave.

