(* ===== verification/Proc.v ===== *)
(** * The proc files of an enclave ([src/enclave.c])

    What reading [/proc/pisces/enclave-<n>/cpus], [memory] and [pci] gives, as
    text.  [pct_p] is the kernel's [%p]. *)
From S2P Require Import Prelude Text FileIo Resources Pci.
#[local] Open Scope Z_scope.
#[local] Open Scope list_scope.

Section proc.
Context (pct_p : Z → list Z).

Definition null_enclave : list Z := (chars "NULL ENCLAVE" ++ [newline]).

(** The lines of the blocks from the [i]-th on.  [pages * 4096] is computed in
    32 bits. *)
Fixpoint mem_lines (i : Z) (l : list enclave_mem_block) : list Z :=
  match l with
  | [] => []
  | b :: l =>
      (pct_d i ++ chars ": " ++ pct_p (base_addr b) ++ chars " - " ++
       pct_p (u64 (base_addr b + u32 (pages b * 4096))) ++ [newline] ++ mem_lines (i + 1) l)
  end.
Definition proc_mem_show (enclave : Z) (r : resources) : list Z :=
  if IS_ERR enclave then null_enclave else
  (chars "Num Memory Blocks: " ++ pct_d (s32 (memdesc_num r)) ++ [newline] ++
   mem_lines 0 (memdesc_list r)).

Definition cpu_line (c : Z) : list Z := (chars "CPU " ++ pct_d c ++ [newline]).
Definition proc_cpu_show (NR_CPUS enclave : Z) (r : resources) : list Z :=
  if IS_ERR enclave then null_enclave else
  (chars "Num CPUs: " ++ pct_d (s32 (num_cpus r)) ++ [newline] ++
   (for_each_cpu NR_CPUS (assigned_cpus r) ≫= cpu_line)).

Definition PCI_SLOT (devfn : Z) : Z := Z.land (Z.shiftr devfn 3) 0x1f.
Definition PCI_FUNC (devfn : Z) : Z := Z.land devfn 0x07.
Definition bdf (d : pisces_pci_dev) : list Z :=
  (pct_wx 2 (bus d) ++ chars ":" ++ pct_wx 2 (PCI_SLOT (devfn d)) ++ chars "." ++
   pct_x (PCI_FUNC (devfn d))).
Definition pci_line (d : pisces_pci_dev) : list Z :=
  (name d ++ chars ": " ++ bdf d ++ [newline]).
Definition proc_pci_show (enclave : Z) (p : enclave_pci_state) : list Z :=
  if IS_ERR enclave then null_enclave else
  (chars "PCI Devices: " ++ pct_d (s32 (dev_cnt p)) ++ [newline] ++ (dev_list p ≫= pci_line)).
End proc.
