(* ===== verification/LinkedList.v ===== *)
(** * Linked lists ([linux_usr/list.h])

    The lists of Linux, as the tools use them ([Teardown]): nodes in memory that
    point to each other, in a ring through the head of the list, and the lists with
    a single pointer as their head.  [None] is an access to memory that is not
    there, or a loop that takes more steps than its fuel. *)
From stdpp Require Import gmap.
From S2P Require Import Prelude.
From stdpp Require Import list.
#[local] Open Scope Z_scope.

(** ** The code: rings *)

Abbreviation addr := Z (only parsing).
Definition container_of (ptr offset : Z) : addr := ptr - offset.
Definition LIST_POISON1 : addr := 0x00100100.
Definition LIST_POISON2 : addr := 0x00200200.

Record list_head := ListHead { next : addr; prev : addr }.
Abbreviation mem := (gmap Z list_head).

Definition get_next (x : addr) (m : mem) : option addr := next <$> m !! x.
Definition get_prev (x : addr) (m : mem) : option addr := prev <$> m !! x.
Definition set_next (x v : addr) (m : mem) : option mem :=
  n ← m !! x; Some (<[x := ListHead v (prev n)]> m).
Definition set_prev (x v : addr) (m : mem) : option mem :=
  n ← m !! x; Some (<[x := ListHead (next n) v]> m).

Definition INIT_LIST_HEAD (list : addr) (m : mem) : option mem :=
  m ← set_next list list m; set_prev list list m.

Definition __list_add (new prev next : addr) (m : mem) : option mem :=
  m ← set_prev next new m;
  m ← set_next new next m;
  m ← set_prev new prev m;
  set_next prev new m.

Definition list_add (new head : addr) (m : mem) : option mem :=
  n ← get_next head m; __list_add new head n m.
Definition list_add_tail (new head : addr) (m : mem) : option mem :=
  p ← get_prev head m; __list_add new p head m.

Definition __list_del (prev next : addr) (m : mem) : option mem :=
  m ← set_prev next prev m; set_next prev next m.

Definition list_del (entry : addr) (m : mem) : option mem :=
  p ← get_prev entry m; n ← get_next entry m;
  m ← __list_del p n m;
  m ← set_next entry LIST_POISON1 m;
  set_prev entry LIST_POISON2 m.

Definition list_del_init (entry : addr) (m : mem) : option mem :=
  p ← get_prev entry m; n ← get_next entry m;
  m ← __list_del p n m; INIT_LIST_HEAD entry m.

Definition list_move (list head : addr) (m : mem) : option mem :=
  p ← get_prev list m; n ← get_next list m;
  m ← __list_del p n m; list_add list head m.
Definition list_move_tail (list head : addr) (m : mem) : option mem :=
  p ← get_prev list m; n ← get_next list m;
  m ← __list_del p n m; list_add_tail list head m.

Definition list_empty (head : addr) (m : mem) : option bool :=
  n ← get_next head m; Some (n =? head).
Definition list_empty_careful (head : addr) (m : mem) : option bool :=
  n ← get_next head m; p ← get_prev head m; Some ((n =? head) && (n =? p)).

Definition __list_splice (list head : addr) (m : mem) : option mem :=
  first ← get_next list m; last ← get_prev list m; at_ ← get_next head m;
  m ← set_prev first head m;
  m ← set_next head first m;
  m ← set_next last at_ m;
  set_prev at_ last m.
Definition list_splice (list head : addr) (m : mem) : option mem :=
  e ← list_empty list m; if (e : bool) then Some m else __list_splice list head m.
Definition list_splice_init (list head : addr) (m : mem) : option mem :=
  e ← list_empty list m;
  if (e : bool) then Some m else m ← __list_splice list head m; INIT_LIST_HEAD list m.

(** The structures the nodes are in; the inner [None] is NULL. *)
Definition list_entry := container_of.
Definition list_tail_entry (head offset : addr) (m : mem) : option (option addr) :=
  p ← get_prev head m; Some (if p =? head then None else Some (list_entry p offset)).
Definition list_first_entry (head offset : addr) (m : mem) : option (option addr) :=
  n ← get_next head m; Some (if n =? head then None else Some (list_entry n offset)).
Definition list_next_entry (node offset : addr) (m : mem) : option (option addr) :=
  n ← get_next node m; Some (if n =? node then None else Some (list_entry n offset)).

(** *** Loops

    The nodes that a loop visits from [pos] on; the prefetch reads the node that
    ends the loop as well. *)
Fixpoint walk (step : addr → mem → option addr) (fuel : nat) (head pos : addr) (m : mem) : option (list addr) :=
  match fuel with
  | O => None
  | S fuel =>
      q ← step pos m;
      if pos =? head then Some [] else l ← walk step fuel head q m; Some (pos :: l)
  end.

Definition list_for_each (fuel : nat) (head : addr) (m : mem) : option (list addr) :=
  n ← get_next head m; walk get_next fuel head n m.
Definition list_for_each_prev (fuel : nat) (head : addr) (m : mem) : option (list addr) :=
  p ← get_prev head m; walk get_prev fuel head p m.
Definition entries (offset : addr) (l : list addr) : list addr := (λ p, list_entry p offset) <$> l.
Definition list_for_each_entry (fuel : nat) (head offset : addr) (m : mem) : option (list addr) :=
  l ← list_for_each fuel head m; Some (entries offset l).
Definition list_for_each_entry_reverse (fuel : nat) (head offset : addr) (m : mem) : option (list addr) :=
  l ← list_for_each_prev fuel head m; Some (entries offset l).
(** Behind [pos], and from [pos] on. *)
Definition list_for_each_entry_continue (fuel : nat) (pos head offset : addr) (m : mem) : option (list addr) :=
  n ← get_next pos m; l ← walk get_next fuel head n m; Some (entries offset l).
Definition list_for_each_entry_from (fuel : nat) (pos head offset : addr) (m : mem) : option (list addr) :=
  l ← walk get_next fuel head pos m; Some (entries offset l).

(** The next node is read before the body, which may change the list. *)
Fixpoint safe_loop (step : addr → mem → option addr) (body : addr → mem → option mem)
    (fuel : nat) (head pos n : addr) (m : mem) : option mem :=
  match fuel with
  | O => None
  | S fuel =>
      if pos =? head then Some m
      else m ← body pos m; n' ← step n m; safe_loop step body fuel head n n' m
  end.
Definition list_for_each_safe (body : addr → mem → option mem) (fuel : nat) (head : addr) (m : mem) : option mem :=
  pos ← get_next head m; n ← get_next pos m; safe_loop get_next body fuel head pos n m.
Definition list_for_each_entry_safe_reverse (body : addr → mem → option mem) (fuel : nat) (head : addr) (m : mem)
    : option mem :=
  pos ← get_prev head m; n ← get_prev pos m; safe_loop get_prev body fuel head pos n m.
Definition list_for_each_entry_safe_from (body : addr → mem → option mem) (fuel : nat) (pos head : addr) (m : mem)
    : option mem :=
  n ← get_next pos m; safe_loop get_next body fuel head pos n m.
Definition list_for_each_entry_safe_continue (body : addr → mem → option mem) (fuel : nat) (pos head : addr) (m : mem)
    : option mem :=
  pos ← get_next pos m; list_for_each_entry_safe_from body fuel pos head m.

(** ** Chains of one direction *)

Definition nexts (m : mem) : gmap addr addr := next <$> m.
Definition prevs (m : mem) : gmap addr addr := prev <$> m.

(** Each node leads to the one behind it. *)
Fixpoint chain (f : gmap addr addr) (l : list addr) : Prop :=
  match l with
  | [] => True
  | a :: l => match l with [] => True | b :: _ => f !! a = Some b end ∧ chain f l
  end.

Lemma chain_app f l1 a l2 : chain f (l1 ++ a :: l2) ↔ chain f (l1 ++ [a]) ∧ chain f (a :: l2).
Proof.
  induction l1 as [|b l1 IH]; [cbn; tauto|]. destruct l1 as [|c l1]; cbn [app chain] in *; tauto.
Qed.

Lemma chain_app_r f l1 l2 : chain f (l1 ++ l2) → chain f l2.
Proof. induction l1 as [|a l1 IH]; [done|]. intros [_ H]. by apply IH. Qed.

Lemma chain_app_l f l1 l2 : chain f (l1 ++ l2) → chain f l1.
Proof.
  induction l1 as [|a l1 IH]; [done|]. intros [H1 H2]. split; [by destruct l1|by apply IH].
Qed.

(** The nodes between the two ends. *)
Lemma chain_inner f a l b : chain f (a :: l ++ [b]) → chain f l.
Proof. intros [_ H]. by apply chain_app_l in H. Qed.

Lemma links_agree f g l z :
  (∀ a, a ∈ l → g !! a = f !! a) → chain f (l ++ [z]) → chain g (l ++ [z]).
Proof.
  induction l as [|a l IH]; intros Hg; [done|]. cbn [app chain]. intros [H1 H2]. split.
  - destruct (l ++ [z]); [done|]. rewrite Hg; [done|by left].
  - apply IH; [|done]. intros b Hb. apply Hg. by right.
Qed.

Lemma links_insert f a v l z : a ∉ l → chain f (l ++ [z]) → chain (<[a := v]> f) (l ++ [z]).
Proof. intros Ha. apply links_agree. intros b Hb. rewrite lookup_insert_ne; [done|]. by intros ->. Qed.

(** The end [a] of a chain is led to another chain. *)
Lemma links_relink f A a B z :
  chain f (A ++ [a]) → chain f (B ++ [z]) → a ∉ A → a ∉ B →
  chain (<[a := default z (head B)]> f) ((A ++ [a]) ++ B ++ [z]).
Proof.
  intros HA HB Ha1 Ha2. rewrite <-app_assoc. cbn [app]. apply chain_app. split; [by apply links_insert|].
  pose proof (links_insert f a (default z (head B)) B z Ha2 HB) as HB'.
  cbn [chain]. split; [|done]. destruct B as [|b B]; cbn; by rewrite lookup_insert_eq.
Qed.

Lemma chain_next f l1 a l2 z : chain f (l1 ++ a :: l2 ++ [z]) → f !! a = Some (default z (head l2)).
Proof. intros [_ [H _]]%chain_app. by destruct l2. Qed.

(** ** Rings *)

Record ring (m : mem) (hd : addr) (l : list addr) : Prop := {
  rg_nodup : NoDup (hd :: l);
  rg_next : chain (nexts m) (hd :: l ++ [hd]);
  rg_prev : chain (prevs m) (hd :: reverse l ++ [hd]) }.

Lemma set_next_spec x v m :
  x ∈ dom m → ∃ m', set_next x v m = Some m' ∧ nexts m' = <[x := v]> (nexts m) ∧ prevs m' = prevs m ∧
    dom m' = dom m ∧ ∀ a, a ≠ x → m' !! a = m !! a.
Proof.
  intros Hx. pose proof Hx as [n Hn]%elem_of_dom. unfold set_next. rewrite Hn. cbn [mbind option_bind]. eexists.
  split; [reflexivity|]. unfold nexts, prevs. rewrite !fmap_insert. cbn [next prev]. split; [done|]. split; [|split].
  - rewrite insert_id; [done|]. by rewrite lookup_fmap, Hn.
  - rewrite dom_insert_L. set_solver.
  - intros a Ha. by rewrite lookup_insert_ne.
Qed.

Lemma set_prev_spec x v m :
  x ∈ dom m → ∃ m', set_prev x v m = Some m' ∧ prevs m' = <[x := v]> (prevs m) ∧ nexts m' = nexts m ∧
    dom m' = dom m ∧ ∀ a, a ≠ x → m' !! a = m !! a.
Proof.
  intros Hx. pose proof Hx as [n Hn]%elem_of_dom. unfold set_prev. rewrite Hn. cbn [mbind option_bind]. eexists.
  split; [reflexivity|]. unfold nexts, prevs. rewrite !fmap_insert. cbn [next prev]. split; [done|]. split; [|split].
  - rewrite insert_id; [done|]. by rewrite lookup_fmap, Hn.
  - rewrite dom_insert_L. set_solver.
  - intros a Ha. by rewrite lookup_insert_ne.
Qed.

Lemma get_next_eq x m : get_next x m = nexts m !! x.
Proof. unfold get_next, nexts. by rewrite lookup_fmap. Qed.
Lemma get_prev_eq x m : get_prev x m = prevs m !! x.
Proof. unfold get_prev, prevs. by rewrite lookup_fmap. Qed.

Lemma nexts_dom m x v : nexts m !! x = Some v → x ∈ dom m.
Proof. unfold nexts. rewrite lookup_fmap. intros H. apply elem_of_dom. by destruct (m !! x). Qed.

Lemma ring_dom m hd l x : ring m hd l → x ∈ hd :: l → x ∈ dom m.
Proof.
  intros H (l1&l2&E)%list_elem_of_split. pose proof (rg_next _ _ _ H) as Hn.
  change (hd :: l ++ [hd]) with ((hd :: l) ++ [hd]) in Hn. rewrite E, <-app_assoc in Hn. cbn [app] in Hn.
  by apply chain_next, nexts_dom in Hn.
Qed.

Lemma ring_frame m m' hd l : (∀ a, a ∈ hd :: l → m' !! a = m !! a) → ring m hd l → ring m' hd l.
Proof.
  intros H [Hnd Hn Hp]. split; [done| |].
  - apply (links_agree (nexts m) _ (hd :: l)); [|done]. intros a Ha. unfold nexts. by rewrite !lookup_fmap, H.
  - apply (links_agree (prevs m) _ (hd :: reverse l)); [|done]. intros a Ha. unfold prevs. rewrite !lookup_fmap, H; [done|].
    rewrite elem_of_cons, elem_of_reverse in Ha. by rewrite elem_of_cons.
Qed.

(** The neighbours of a place between two parts of a list. *)
Definition before (hd : addr) (l1 : list addr) : addr := default hd (last l1).
Definition behind (hd : addr) (l2 : list addr) : addr := default hd (head l2).

Lemma ends_before hd l1 : ∃ A, hd :: l1 = A ++ [before hd l1].
Proof.
  destruct l1 as [|x l1 _] using rev_ind; [by exists []|]. exists (hd :: l1). unfold before. by rewrite last_snoc.
Qed.

Lemma before_reverse hd l : before hd (reverse l) = behind hd l.
Proof. unfold before, behind. by rewrite last_reverse. Qed.

Lemma before_in hd l1 : before hd l1 ∈ hd :: l1.
Proof. destruct (ends_before hd l1) as [A ->]. apply elem_of_app. right. by left. Qed.
Lemma behind_in hd l2 : behind hd l2 ∈ hd :: l2.
Proof. destruct l2; [by left|right; by left]. Qed.

Lemma ring_get_next m hd l1 x l2 : ring m hd (l1 ++ x :: l2) → get_next x m = Some (behind hd l2).
Proof.
  intros H. pose proof (rg_next _ _ _ H) as Hn. rewrite get_next_eq. rewrite <-app_assoc in Hn.
  change (hd :: l1 ++ (x :: l2) ++ [hd]) with ((hd :: l1) ++ x :: l2 ++ [hd]) in Hn. by apply chain_next in Hn.
Qed.

Lemma ring_get_prev m hd l1 x l2 : ring m hd (l1 ++ x :: l2) → get_prev x m = Some (before hd l1).
Proof.
  intros H. pose proof (rg_prev _ _ _ H) as Hp. rewrite get_prev_eq. rewrite reverse_app, reverse_cons, <-!app_assoc in Hp.
  change (hd :: reverse l2 ++ [x] ++ reverse l1 ++ [hd]) with ((hd :: reverse l2) ++ x :: reverse l1 ++ [hd]) in Hp.
  apply chain_next in Hp. unfold before. by rewrite Hp, <-last_reverse, reverse_involutive.
Qed.

Lemma ring_head_next m hd l : ring m hd l → get_next hd m = Some (behind hd l).
Proof. intros H. rewrite get_next_eq. exact (chain_next _ [] hd l hd (rg_next _ _ _ H)). Qed.

Lemma ring_head_prev m hd l : ring m hd l → get_prev hd m = Some (before hd l).
Proof.
  intros H. rewrite get_prev_eq. rewrite (chain_next _ [] hd _ hd (rg_prev _ _ _ H)).
  unfold before. by rewrite <-last_reverse, reverse_involutive.
Qed.

Lemma behind_reverse hd l : behind hd (reverse l) = before hd l.
Proof. unfold before, behind. by rewrite <-last_reverse, reverse_involutive. Qed.

(** ** Putting a node between two, and taking one out *)

Section Between.
Context (hd : addr) (l1 l2 : list addr).

(** Both sides of the place, and its ends in them. *)
Lemma place_split f :
  NoDup (hd :: l1 ++ l2) → chain f (hd :: (l1 ++ l2) ++ [hd]) →
  ∃ A, hd :: l1 = A ++ [before hd l1] ∧ chain f (A ++ [before hd l1]) ∧ chain f (l2 ++ [hd]) ∧
    before hd l1 ∉ A ∧ before hd l1 ∉ l2.
Proof using.
  intros Hnd Hf. destruct (ends_before hd l1) as [A E]. exists A. split; [done|].
  change (hd :: (l1 ++ l2) ++ [hd]) with ((hd :: l1 ++ l2) ++ [hd]) in Hf.
  change (hd :: l1 ++ l2) with ((hd :: l1) ++ l2) in Hnd, Hf. rewrite E in Hnd, Hf. rewrite <-!app_assoc in Hf.
  apply NoDup_app in Hnd as (Hnd&Hdis&_). apply NoDup_app in Hnd as (_&HA&_).
  pose proof Hf as [H1 H2]%chain_app. split; [done|]. split; [by destruct H2 as [_ H2]|]. split.
  - intros Hin. apply (HA _ Hin). by left.
  - apply Hdis, elem_of_app. right. by left.
Qed.

Lemma chain_between f new :
  NoDup (hd :: l1 ++ l2) → new ∉ hd :: l1 ++ l2 → chain f (hd :: (l1 ++ l2) ++ [hd]) →
  chain (<[before hd l1 := new]> (<[new := behind hd l2]> f)) (hd :: (l1 ++ new :: l2) ++ [hd]).
Proof using.
  intros Hnd Hnew Hf. destruct (place_split f Hnd Hf) as (A&E&H1&H2&HA&Hl2).
  change (hd :: (l1 ++ new :: l2) ++ [hd]) with ((hd :: l1 ++ new :: l2) ++ [hd]).
  change (hd :: l1 ++ ?r) with ((hd :: l1) ++ r) in *. rewrite E in *. rewrite elem_of_app in Hnew.
  rewrite <-(app_assoc _ (new :: l2)). apply (links_relink _ A _ (new :: l2) hd).
  - apply links_insert; [|done]. intros ?. apply Hnew. left. apply elem_of_app. by left.
  - change ((new :: l2) ++ [hd]) with (new :: l2 ++ [hd]). cbn [chain]. split.
    + destruct l2; cbn; by rewrite lookup_insert_eq.
    + apply links_insert; [tauto|done].
  - done.
  - rewrite elem_of_cons. intros [Eb|?]; [|done]. apply Hnew. left. rewrite Eb. apply elem_of_app. right. by left.
Qed.

Lemma chain_without f x :
  NoDup (hd :: l1 ++ x :: l2) → chain f (hd :: (l1 ++ x :: l2) ++ [hd]) →
  chain (<[before hd l1 := behind hd l2]> f) (hd :: (l1 ++ l2) ++ [hd]).
Proof using.
  intros Hnd Hf. destruct (ends_before hd l1) as [A E].
  change (hd :: (l1 ++ ?r) ++ [hd]) with ((hd :: l1 ++ r) ++ [hd]) in *.
  change (hd :: l1 ++ ?r) with ((hd :: l1) ++ r) in *. rewrite E in *. rewrite <-!app_assoc in Hf.
  apply NoDup_app in Hnd as (HndA&Hdis&_). apply NoDup_app in HndA as (_&HA&_).
  pose proof Hf as [H1 [_ [_ H2]]]%chain_app. rewrite <-(app_assoc _ l2). apply (links_relink _ A _ l2 hd); [done|done| |].
  - intros Hin. apply (HA _ Hin). by left.
  - intros Hin. eapply Hdis; [apply elem_of_app; right; by left|by right].
Qed.
(** A whole chain between them. *)
Lemma chain_splice f K e :
  NoDup (hd :: l1 ++ l2) → (∀ a, a ∈ K ++ [e] → a ∉ hd :: l1 ++ l2) → NoDup (K ++ [e]) →
  chain f (hd :: (l1 ++ l2) ++ [hd]) → chain f (K ++ [e]) →
  chain (<[before hd l1 := default hd (head (K ++ [e]))]> (<[e := behind hd l2]> f)) (hd :: (l1 ++ (K ++ [e]) ++ l2) ++ [hd]).
Proof using.
  intros Hnd Hout HK Hf Hk. destruct (place_split f Hnd Hf) as (A&E&H1&H2&HA&Hl2).
  change (hd :: (l1 ++ ?r) ++ [hd]) with ((hd :: l1 ++ r) ++ [hd]) in *.
  change (hd :: l1 ++ ?r) with ((hd :: l1) ++ r) in *. rewrite E in *.
  assert (∀ a, a ∈ K ++ [e] → (a ∉ A ∧ a ≠ before hd l1) ∧ a ∉ l2) as Hout'.
  { intros a Ha. specialize (Hout a Ha). rewrite !elem_of_app, list_elem_of_singleton in Hout. tauto. }
  destruct (Hout' e) as [[HeA Hep] Hel]; [apply elem_of_app; right; by left|].
  assert (head ((K ++ [e]) ++ l2) = head (K ++ [e])) as Eh by (by destruct K). rewrite <-Eh, <-(app_assoc _ _ [hd]).
  apply (links_relink _ A _ ((K ++ [e]) ++ l2) hd).
  - apply links_insert; done.
  - rewrite <-(app_assoc (K ++ [e])). apply links_relink; [done|done| |done].
    apply NoDup_app in HK as (_&HK&_). intros Hin. apply (HK _ Hin). by left.
  - done.
  - rewrite elem_of_app. intros [Hin|Hin]; [|done]. by destruct (Hout' _ Hin) as [[_ []] _].
Qed.
End Between.

Lemma NoDup_reverse (l : list addr) : NoDup l → NoDup (reverse l).
Proof. by rewrite reverse_Permutation. Qed.

Lemma reverse_middle {A} (l1 : list A) x l2 : reverse (l1 ++ x :: l2) = reverse l2 ++ x :: reverse l1.
Proof. by rewrite reverse_app, reverse_cons, <-app_assoc. Qed.

(** [m'] differs from [m] in the nodes [l] only. *)
Definition touches (m m' : mem) (l : list addr) : Prop :=
  dom m' = dom m ∧ ∀ a, a ∉ l → m' !! a = m !! a.

Lemma touches_trans m1 m2 m3 l l1 l2 :
  touches m1 m2 l1 → touches m2 m3 l2 → (∀ a, a ∈ l1 → a ∈ l) → (∀ a, a ∈ l2 → a ∈ l) → touches m1 m3 l.
Proof.
  intros [D1 H1] [D2 H2] S1 S2. split; [congruence|]. intros a Ha. rewrite H2, H1; [done| |]; intros ?; by apply Ha; auto.
Qed.

Lemma touches_ring m m' l hd k : touches m m' l → (∀ a, a ∈ hd :: k → a ∉ l) → ring m hd k → ring m' hd k.
Proof. intros [_ H] Hd. apply ring_frame. intros a Ha. by apply H, Hd. Qed.

Lemma list_add_between m hd l1 l2 new :
  ring m hd (l1 ++ l2) → new ∉ hd :: l1 ++ l2 → new ∈ dom m →
  ∃ m', __list_add new (before hd l1) (behind hd l2) m = Some m' ∧ ring m' hd (l1 ++ new :: l2) ∧
    touches m m' (new :: hd :: l1 ++ l2).
Proof.
  intros H Hnew Hd. set (p := before hd l1). set (n := behind hd l2).
  assert (p ∈ hd :: l1 ++ l2) as Hp.
  { pose proof (before_in hd l1) as Hb. fold p in Hb. rewrite !elem_of_cons, elem_of_app in *. tauto. }
  assert (n ∈ hd :: l1 ++ l2) as Hn.
  { pose proof (behind_in hd l2) as Hb. fold n in Hb. rewrite !elem_of_cons, elem_of_app in *. tauto. }
  assert (new ≠ n) as Hnn by (by intros ->). unfold __list_add.
  destruct (set_prev_spec n new m) as (m1&->&P1&N1&D1&F1); [by eapply ring_dom|]. cbn [mbind option_bind].
  destruct (set_next_spec new n m1) as (m2&->&N2&P2&D2&F2); [by rewrite D1|]. cbn [mbind option_bind].
  destruct (set_prev_spec new p m2) as (m3&->&P3&N3&D3&F3); [by rewrite D2, D1|]. cbn [mbind option_bind].
  destruct (set_next_spec p new m3) as (m4&->&N4&P4&D4&F4); [rewrite D3, D2, D1; by eapply ring_dom|].
  exists m4. split; [done|]. destruct H as [Hnd Hnx Hpv]. split; [split|].
  - change (hd :: l1 ++ new :: l2) with ((hd :: l1) ++ new :: l2). rewrite <-Permutation_middle. by constructor.
  - rewrite N4, N3, N2, N1. by apply chain_between.
  - rewrite P4, P3, P2, P1, insert_insert_ne, reverse_middle by done.
    unfold n, p. rewrite <-(before_reverse hd l2), <-(behind_reverse hd l1). apply chain_between.
    + rewrite <-reverse_app. apply NoDup_cons in Hnd as [Hh Hl]. constructor; [by rewrite elem_of_reverse|].
      by apply NoDup_reverse.
    + rewrite <-reverse_app. rewrite elem_of_cons, elem_of_reverse. by rewrite elem_of_cons in Hnew.
    + by rewrite <-reverse_app.
  - split; [congruence|]. intros a Ha. rewrite not_elem_of_cons in Ha. destruct Ha as [Ha1 Ha2].
    rewrite F4, F3, F2, F1; try done; intros ->; done.
Qed.

Lemma list_del_between m hd l1 x l2 :
  ring m hd (l1 ++ x :: l2) →
  ∃ m', __list_del (before hd l1) (behind hd l2) m = Some m' ∧ ring m' hd (l1 ++ l2) ∧ touches m m' (hd :: l1 ++ l2).
Proof.
  intros H. set (p := before hd l1). set (n := behind hd l2). pose proof H as [Hnd Hnx Hpv].
  assert (p ∈ hd :: l1 ++ l2) as Hp.
  { pose proof (before_in hd l1) as Hb. fold p in Hb. rewrite !elem_of_cons, elem_of_app in *. tauto. }
  assert (n ∈ hd :: l1 ++ l2) as Hn.
  { pose proof (behind_in hd l2) as Hb. fold n in Hb. rewrite !elem_of_cons, elem_of_app in *. tauto. }
  assert (∀ a, a ∈ hd :: l1 ++ l2 → a ∈ dom m) as Hdom.
  { intros a Ha. apply (ring_dom m hd (l1 ++ x :: l2)); [done|]. rewrite !elem_of_cons, !elem_of_app, !elem_of_cons in *. tauto. }
  unfold __list_del. destruct (set_prev_spec n p m) as (m1&->&P1&N1&D1&F1); [by apply Hdom|]. cbn [mbind option_bind].
  destruct (set_next_spec p n m1) as (m2&->&N2&P2&D2&F2); [rewrite D1; by apply Hdom|].
  exists m2. split; [done|]. split; [split|].
  - change (hd :: l1 ++ x :: l2) with ((hd :: l1) ++ x :: l2) in Hnd. rewrite <-Permutation_middle in Hnd.
    by apply NoDup_cons in Hnd as [_ Hnd].
  - rewrite N2, N1. by eapply chain_without.
  - rewrite P2, P1, reverse_app. unfold n, p. rewrite <-(before_reverse hd l2), <-(behind_reverse hd l1).
    rewrite reverse_middle in Hpv. apply (chain_without _ _ _ _ x); [|done].
    apply NoDup_cons in Hnd as [Hh Hl]. rewrite <-reverse_middle. constructor; [by rewrite elem_of_reverse|by apply NoDup_reverse].
  - split; [congruence|]. intros a Ha. rewrite F2, F1; try done; intros ->; done.
Qed.

(** ** Many lists

    The heads in memory with their lists; no node is in two. *)
Record rings (m : mem) (σ : gmap addr (list addr)) : Prop := {
  rs_ring hd l : σ !! hd = Some l → ring m hd l;
  rs_apart h1 l1 h2 l2 : h1 ≠ h2 → σ !! h1 = Some l1 → σ !! h2 = Some l2 → ∀ a, a ∈ h1 :: l1 → a ∉ h2 :: l2 }.

(** A node that is in no list. *)
Definition free (σ : gmap addr (list addr)) (x : addr) : Prop := ∀ hd l, σ !! hd = Some l → x ∉ hd :: l.

(** Nodes in no list may change. *)
Lemma rings_touch m m' σ T : rings m σ → touches m m' T → (∀ a, a ∈ T → free σ a) → rings m' σ.
Proof.
  intros [Hr Ha] Ht Hf. split; [|done]. intros hd l Hl. apply (touches_ring m m' T); [done| |by apply Hr].
  intros a Hin HT. by apply (Hf a HT hd l Hl).
Qed.

(** One list changes, with its nodes [T]; the others stay. *)
Lemma rings_put m m' σ hd l T :
  rings m σ → ring m' hd l → touches m m' T →
  (∀ h k, h ≠ hd → σ !! h = Some k → ∀ a, a ∈ h :: k → a ∉ T ∧ a ∉ hd :: l) → rings m' (<[hd := l]> σ).
Proof.
  intros [Hr Ha] Hl Ht Hd. split.
  - intros h k Hk. destruct (decide (h = hd)) as [->|Hne].
    + rewrite lookup_insert_eq in Hk. by injection Hk as <-.
    + rewrite lookup_insert_ne in Hk by done. apply (touches_ring m m' T); [done| |by apply Hr].
      intros a Hin. by eapply (Hd h k).
  - intros h1 l1 h2 l2 Hne Hl1 Hl2 a Hin.
    destruct (decide (h1 = hd)) as [->|H1], (decide (h2 = hd)) as [->|H2]; try done.
    + rewrite lookup_insert_eq in Hl1. injection Hl1 as <-. rewrite lookup_insert_ne in Hl2 by done.
      intros Hin2. by destruct (Hd h2 l2 H2 Hl2 a Hin2) as [_ []].
    + rewrite lookup_insert_eq in Hl2. injection Hl2 as <-. rewrite lookup_insert_ne in Hl1 by done.
      by destruct (Hd h1 l1 H1 Hl1 a Hin).
    + rewrite lookup_insert_ne in Hl1, Hl2 by done. by eapply Ha.
Qed.

(** A node put into a list. *)
Lemma rings_between m σ hd l1 l2 new :
  rings m σ → σ !! hd = Some (l1 ++ l2) → free σ new → new ∈ dom m →
  ∃ m', __list_add new (before hd l1) (behind hd l2) m = Some m' ∧ rings m' (<[hd := l1 ++ new :: l2]> σ) ∧ dom m' = dom m.
Proof.
  intros H Hl Hf Hd. destruct (list_add_between m hd l1 l2 new) as (m'&E&Hr&Ht); [by eapply rs_ring|by apply Hf|done|].
  exists m'. split; [done|]. split; [|apply Ht]. apply (rings_put m m' σ hd _ _ H Hr Ht). intros h k Hne Hk a Hin.
  assert (a ≠ new) as Hn by (intros ->; by apply (Hf h k Hk)).
  assert (a ∉ hd :: l1 ++ l2) as Ha by (by eapply (rs_apart m σ H h k)).
  rewrite !elem_of_cons, !elem_of_app, !elem_of_cons in *. tauto.
Qed.

Lemma rings_add m σ hd l new :
  rings m σ → σ !! hd = Some l → free σ new → new ∈ dom m →
  ∃ m', list_add new hd m = Some m' ∧ rings m' (<[hd := new :: l]> σ) ∧ dom m' = dom m.
Proof.
  intros H Hl Hf Hd. unfold list_add. rewrite (ring_head_next m hd l) by (by eapply rs_ring).
  exact (rings_between m σ hd [] l new H Hl Hf Hd).
Qed.

Lemma rings_add_tail m σ hd l new :
  rings m σ → σ !! hd = Some l → free σ new → new ∈ dom m →
  ∃ m', list_add_tail new hd m = Some m' ∧ rings m' (<[hd := l ++ [new]]> σ) ∧ dom m' = dom m.
Proof.
  intros H Hl Hf Hd. unfold list_add_tail. rewrite (ring_head_prev m hd l) by (by eapply rs_ring).
  rewrite <-(app_nil_r l) in Hl. exact (rings_between m σ hd l [] new H Hl Hf Hd).
Qed.

Lemma filter_middle (l1 : list addr) x l2 : NoDup (l1 ++ x :: l2) → filter (λ a, a ≠ x) (l1 ++ x :: l2) = l1 ++ l2.
Proof.
  intros Hnd. rewrite filter_app, filter_cons, decide_False by (intros ?; done).
  apply NoDup_app in Hnd as (_&H1&[H2 _]%NoDup_cons).
  rewrite !filter_every; [done| |]; apply Forall_forall; intros a Ha ->; [done|]. apply (H1 _ Ha). by left.
Qed.

(** A node taken out of its list. *)
Lemma rings_unlink m σ hd l x :
  rings m σ → σ !! hd = Some l → x ∈ l →
  ∃ p n m', get_prev x m = Some p ∧ get_next x m = Some n ∧ __list_del p n m = Some m' ∧ dom m' = dom m ∧
    rings m' (<[hd := filter (λ a, a ≠ x) l]> σ) ∧ free (<[hd := filter (λ a, a ≠ x) l]> σ) x.
Proof.
  intros H Hl Hx. pose proof (rs_ring m σ H hd l Hl) as Hr. pose proof Hx as (l1&l2&E)%list_elem_of_split. subst l.
  destruct (list_del_between m hd l1 x l2 Hr) as (m'&E&Hr'&Ht). pose proof (rg_nodup _ _ _ Hr) as [Hh Hnd]%NoDup_cons.
  rewrite filter_middle by done.
  exists (before hd l1), (behind hd l2), m'. split; [by eapply ring_get_prev|]. split; [by eapply ring_get_next|].
  split; [done|]. split; [apply Ht|]. split.
  - apply (rings_put m m' σ hd _ _ H Hr' Ht). intros h k Hne Hk a Hin.
    assert (a ∉ hd :: l1 ++ x :: l2) as Ha by (by eapply (rs_apart m σ H h k)).
    rewrite !elem_of_cons, !elem_of_app, !elem_of_cons in *. tauto.
  - intros h k Hk. destruct (decide (h = hd)) as [->|Hne].
    + rewrite lookup_insert_eq in Hk. injection Hk as <-. rewrite elem_of_cons.
      intros [->|Hin]; [by apply Hh, elem_of_app; right; left|].
      rewrite <-Permutation_middle in Hnd. by apply NoDup_cons in Hnd as [? _].
    + rewrite lookup_insert_ne in Hk by done. intros Hin. eapply (rs_apart m σ H h k hd); [done..| |]; [exact Hin|].
      right. apply elem_of_app. right. by left.
Qed.

(** A free node made a head. *)
Lemma init_ring x m : x ∈ dom m → ∃ m', INIT_LIST_HEAD x m = Some m' ∧ ring m' x [] ∧ touches m m' [x].
Proof.
  intros Hx. unfold INIT_LIST_HEAD. destruct (set_next_spec x x m Hx) as (m1&->&N1&P1&D1&F1). cbn [mbind option_bind].
  destruct (set_prev_spec x x m1) as (m2&->&P2&N2&D2&F2); [by rewrite D1|]. exists m2. split; [done|]. split; [split|].
  - apply NoDup_singleton.
  - cbn. by rewrite N2, N1, lookup_insert_eq.
  - cbn. by rewrite P2, lookup_insert_eq.
  - split; [congruence|]. intros a Ha. rewrite F2, F1; [done| |]; intros ->; apply Ha; by left.
Qed.

Lemma rings_init m σ x :
  rings m σ → x ∈ dom m → free σ x → ∃ m', INIT_LIST_HEAD x m = Some m' ∧ rings m' (<[x := []]> σ) ∧ dom m' = dom m.
Proof.
  intros H Hx Hf. destruct (init_ring x m Hx) as (m'&E&Hr&Ht). exists m'. split; [done|]. split; [|apply Ht].
  apply (rings_put m m' σ x [] [x] H Hr Ht). intros h k _ Hk a Hin.
  assert (a ≠ x) by (intros ->; by apply (Hf h k Hk)). by rewrite list_elem_of_singleton.
Qed.

(** *** Two lists joined *)

Lemma behind_cons hd k : k ≠ [] → behind hd k ∈ k.
Proof. destruct k; [done|]. intros _. by left. Qed.
Lemma before_snoc hd K e : before hd (K ++ [e]) = e.
Proof. unfold before. by rewrite last_snoc. Qed.

Lemma splice_ring m lst k hd l :
  ring m lst k → ring m hd l → k ≠ [] → (∀ a, a ∈ lst :: k → a ∉ hd :: l) →
  ∃ m', __list_splice lst hd m = Some m' ∧ ring m' hd (k ++ l) ∧ touches m m' (hd :: k ++ l).
Proof.
  intros Hk H Hne Hout. destruct k as [|e K _] using rev_ind; [done|].
  pose proof (behind_cons lst (K ++ [e]) Hne) as Hfirst. set (first := behind lst (K ++ [e])) in *.
  assert (e ∈ K ++ [e]) as Hlast by (apply elem_of_app; right; by left).
  pose proof (behind_in hd l) as Hat. set (at_ := behind hd l) in *.
  assert (∀ a, a ∈ K ++ [e] → a ∈ dom m) as Dk by (intros a Ha; eapply (ring_dom m lst (K ++ [e])); [done|by right]).
  assert (∀ a, a ∈ K ++ [e] → a ∉ hd :: l) as Ho by (intros a Ha; apply Hout; by right).
  assert (∀ a, a ∈ hd :: l → a ∈ dom m) as Dl by (intros a Ha; by eapply ring_dom).
  assert (hd ∈ hd :: l) as Hhd by by left.
  unfold __list_splice. rewrite (ring_head_next _ _ _ Hk), (ring_head_prev _ _ _ Hk), (ring_head_next _ _ _ H), before_snoc.
  cbn [mbind option_bind]. fold first at_.
  destruct (set_prev_spec first hd m) as (m1&->&P1&N1&D1&F1); [by apply Dk|]. cbn [mbind option_bind].
  destruct (set_next_spec hd first m1) as (m2&->&N2&P2&D2&F2); [rewrite D1; by apply Dl|]. cbn [mbind option_bind].
  destruct (set_next_spec e at_ m2) as (m3&->&N3&P3&D3&F3); [rewrite D2, D1; by apply Dk|]. cbn [mbind option_bind].
  destruct (set_prev_spec at_ e m3) as (m4&->&P4&N4&D4&F4); [rewrite D3, D2, D1; by apply Dl|].
  exists m4. split; [done|]. destruct H as [Hnd Hnx Hpv], Hk as [Knd Knx%chain_inner Kpv%chain_inner].
  apply NoDup_cons in Knd as [_ Knd].
  split; [split|].
  - rewrite (Permutation_middle (K ++ [e])). apply NoDup_app. by split_and!.
  - rewrite N4, N3, N2, N1, insert_insert_ne by (intros ->; by apply (Ho _ Hlast)).
    assert (first = default hd (head (K ++ [e]))) as -> by (subst first; unfold behind; by destruct K).
    exact (chain_splice hd [] l _ K e Hnd Ho Knd Hnx Knx).
  - rewrite P4, P3, P2, P1. assert (∃ K', reverse (K ++ [e]) = K' ++ [first]) as [K' EK].
    { subst first. unfold behind. destruct K as [|k K]; [by exists []|]. exists (reverse (K ++ [e])). cbn [app head default].
      by rewrite reverse_cons. }
    pose proof (chain_splice hd (reverse l) [] (prevs m) K' first) as HS. rewrite app_nil_r in HS.
    rewrite <-EK, app_nil_r, before_reverse, reverse_snoc in HS. rewrite reverse_app, reverse_snoc. apply HS.
    + apply NoDup_cons in Hnd as [Hh Hl]. constructor; [by rewrite elem_of_reverse|by apply NoDup_reverse].
    + intros a. rewrite <-reverse_snoc, elem_of_reverse, elem_of_cons, elem_of_reverse, <-elem_of_cons. apply Ho.
    + rewrite <-reverse_snoc. by apply NoDup_reverse.
    + done.
    + by rewrite <-reverse_snoc.
  - split; [congruence|]. intros a Ha. rewrite app_comm_cons, elem_of_app, elem_of_cons in Ha.
    rewrite elem_of_cons in Hat. rewrite F4, F3, F2, F1; try done; intros ->; tauto.
Qed.

Lemma rings_delete m σ hd : rings m σ → rings m (delete hd σ).
Proof.
  intros [Hr Ha]. split; [intros h l [_ Hl]%lookup_delete_Some; by apply Hr|].
  intros h1 l1 h2 l2 Hne [_ H1]%lookup_delete_Some [_ H2]%lookup_delete_Some. by eapply Ha.
Qed.

Lemma rings_splice m σ lst k hd l :
  rings m σ → σ !! lst = Some k → σ !! hd = Some l → lst ≠ hd → k ≠ [] →
  ∃ m', __list_splice lst hd m = Some m' ∧ rings m' (<[hd := k ++ l]> (delete lst σ)) ∧ dom m' = dom m ∧
    free (<[hd := k ++ l]> (delete lst σ)) lst.
Proof.
  intros H Hk Hl Hne Hn. pose proof (rs_apart _ _ H _ _ _ _ Hne Hk Hl) as Hout.
  destruct (splice_ring m lst k hd l) as (m'&E&Hr&Ht); [by eapply rs_ring|by eapply rs_ring|done|done|].
  exists m'. split; [done|]. split; [|split; [apply Ht|]].
  - apply (rings_put m m' (delete lst σ) hd _ _ (rings_delete _ _ _ H) Hr Ht).
    intros h q Hh [Hh2 Hq]%lookup_delete_Some a Ha.
    assert (a ∉ lst :: k) as Hak by (by eapply (rs_apart _ _ H h q)).
    assert (a ∉ hd :: l) as Hal by (by eapply (rs_apart _ _ H h q)).
    rewrite !elem_of_cons, !elem_of_app in *. tauto.
  - intros h q Hq. destruct (decide (h = hd)) as [->|Hh].
    + rewrite lookup_insert_eq in Hq. injection Hq as <-. pose proof (Hout lst ltac:(by left)) as Ho.
      pose proof (rg_nodup _ _ _ (rs_ring _ _ H _ _ Hk)) as [Hnk _]%NoDup_cons.
      rewrite !elem_of_cons, elem_of_app in *. tauto.
    + rewrite lookup_insert_ne in Hq by done. apply lookup_delete_Some in Hq as [Hh2 Hq].
      eapply (rs_apart _ _ H lst k h q); [done..|]. by left.
Qed.

(** ** The lists as lists

    What each operation means for the heads and their lists: [D] are the nodes there
    are.  After [list_splice] alone the emptied head is no list any more. *)
Inductive list_op :=
  | InitHead (x : addr)
  | Add (x hd : addr) | AddTail (x hd : addr)
  | Del (x : addr) | DelInit (x : addr)
  | Move (x hd : addr) | MoveTail (x hd : addr)
  | Splice (lst hd : addr) | SpliceInit (lst hd : addr).

Definition exec (o : list_op) : mem → option mem :=
  match o with
  | InitHead x => INIT_LIST_HEAD x
  | Add x hd => list_add x hd | AddTail x hd => list_add_tail x hd
  | Del x => list_del x | DelInit x => list_del_init x
  | Move x hd => list_move x hd | MoveTail x hd => list_move_tail x hd
  | Splice lst hd => list_splice lst hd | SpliceInit lst hd => list_splice_init lst hd
  end.
Fixpoint exec_all (ops : list list_op) (m : mem) : option mem :=
  match ops with [] => Some m | o :: ops => m ← exec o m; exec_all ops m end.

Abbreviation lists := (gmap addr (list addr)).
Definition list_of (σ : lists) (hd : addr) : list addr := default [] (σ !! hd).
Definition without (x : addr) (σ : lists) : lists := (filter (λ a, a ≠ x) : list addr → list addr) <$> σ.
Definition push (x hd : addr) (σ : lists) : lists := <[hd := x :: list_of σ hd]> σ.
Definition push_tail (x hd : addr) (σ : lists) : lists := <[hd := list_of σ hd ++ [x]]> σ.
Definition joined (lst hd : addr) (σ : lists) : lists := <[hd := list_of σ lst ++ list_of σ hd]> σ.

Definition meaning (o : list_op) (σ : lists) : lists :=
  match o with
  | InitHead x => <[x := []]> σ
  | Add x hd => push x hd σ | AddTail x hd => push_tail x hd σ
  | Del x => without x σ | DelInit x => <[x := []]> (without x σ)
  | Move x hd => push x hd (without x σ) | MoveTail x hd => push_tail x hd (without x σ)
  | Splice lst hd => if decide (list_of σ lst = []) then σ else delete lst (joined lst hd σ)
  | SpliceInit lst hd => <[lst := []]> (joined lst hd σ)
  end.

Definition linked (x : addr) (σ : lists) : Prop := map_Exists (λ _ l, x ∈ l) σ.
Definition allowed (D : gset addr) (o : list_op) (σ : lists) : Prop :=
  match o with
  | InitHead x => x ∈ D ∧ map_Forall (λ hd l, x ∉ hd :: l) σ
  | Add x hd | AddTail x hd => (x ∈ D ∧ map_Forall (λ hd l, x ∉ hd :: l) σ) ∧ hd ∈ dom σ
  | Del x | DelInit x => linked x σ
  | Move x hd | MoveTail x hd => linked x σ ∧ hd ∈ dom σ
  | Splice lst hd | SpliceInit lst hd => lst ∈ dom σ ∧ hd ∈ dom σ ∧ lst ≠ hd
  end.
#[global] Instance allowed_dec D o σ : Decision (allowed D o σ).
Proof. destruct o; cbn [allowed]; unfold linked; apply _. Defined.
Fixpoint all_allowed (D : gset addr) (ops : list list_op) (σ : lists) : Prop :=
  match ops with [] => True | o :: ops => allowed D o σ ∧ all_allowed D ops (meaning o σ) end.
#[global] Instance all_allowed_dec D ops : ∀ σ, Decision (all_allowed D ops σ).
Proof. induction ops; cbn [all_allowed]; apply _. Defined.

(** *** Each operation *)

Lemma list_of_dom (σ : lists) hd : hd ∈ dom σ → σ !! hd = Some (list_of σ hd).
Proof. intros [l Hl]%elem_of_dom. unfold list_of. by rewrite Hl. Qed.

Lemma dom_without x σ : dom (without x σ) = dom σ.
Proof. apply dom_fmap_L. Qed.

Lemma rings_without m σ x :
  rings m σ → linked x σ →
  ∃ p n m', get_prev x m = Some p ∧ get_next x m = Some n ∧ __list_del p n m = Some m' ∧ dom m' = dom m ∧
    rings m' (without x σ) ∧ free (without x σ) x ∧ x ∈ dom m.
Proof.
  intros H (hd&l&Hl&Hx). destruct (rings_unlink m σ hd l x H Hl Hx) as (p&n&m'&Ep&En&E&Hd&Hr&Hf).
  assert (without x σ = <[hd := filter (λ a, a ≠ x) l]> σ) as ->.
  { apply map_eq. intros h. unfold without. rewrite lookup_fmap. destruct (decide (h = hd)) as [->|Hne].
    { by rewrite Hl, lookup_insert_eq. }
    rewrite lookup_insert_ne by done. destruct (σ !! h) as [k|] eqn:Hk; [|done]. cbn. f_equal. apply filter_every, Forall_forall.
    intros a Ha ->. eapply (rs_apart _ _ H hd l h k); [done..| |]; by right. }
  exists p, n, m'. split_and!; try done. apply (ring_dom m hd l); [by eapply rs_ring|by right].
Qed.

Lemma refine_splice m σ lst hd :
  rings m σ → lst ∈ dom σ → hd ∈ dom σ → lst ≠ hd →
  ∃ m', list_splice lst hd m = Some m' ∧ rings m' (meaning (Splice lst hd) σ) ∧ dom m' = dom m ∧
    ∃ m'', list_splice_init lst hd m = Some m'' ∧ rings m'' (meaning (SpliceInit lst hd) σ) ∧ dom m'' = dom m.
Proof.
  intros H Hk%list_of_dom Hl%list_of_dom Hne. pose proof (rs_ring _ _ H _ _ Hk) as Hrk.
  unfold list_splice, list_splice_init, list_empty. rewrite (ring_head_next _ _ _ Hrk). cbn [mbind option_bind meaning].
  unfold joined. destruct (decide (list_of σ lst = [])) as [E|E].
  - rewrite E. unfold behind. cbn. rewrite Z.eqb_refl. exists m. split_and!; try done. exists m. split_and!; try done.
    rewrite (insert_id σ hd) by done. by rewrite insert_id by by rewrite Hk, E.
  - rewrite (proj2 (Z.eqb_neq _ _)); cycle 1.
    { intros Eb. pose proof (rg_nodup _ _ _ Hrk) as [Hn _]%NoDup_cons. apply Hn. rewrite <-Eb at 1. by apply behind_cons. }
    destruct (rings_splice m σ lst _ hd _ H Hk Hl Hne E) as (m'&->&Hr&Hd&Hf). cbn [mbind option_bind].
    exists m'. split; [done|]. rewrite delete_insert_ne by done. split; [done|]. split; [done|].
    destruct (rings_init m' _ lst Hr) as (m''&->&Hr'&Hd'); [|done|].
    { rewrite Hd. eapply ring_dom; [exact Hrk|by left]. }
    exists m''. split; [done|]. split; [|congruence]. by rewrite <-delete_insert_ne, insert_delete_eq in Hr'.
Qed.

Lemma rings_poison m σ x :
  rings m σ → free σ x → x ∈ dom m →
  ∃ m', (m1 ← set_next x LIST_POISON1 m; set_prev x LIST_POISON2 m1) = Some m' ∧ rings m' σ ∧ dom m' = dom m.
Proof.
  intros H Hf Hx. destruct (set_next_spec x LIST_POISON1 m Hx) as (m1&->&_&_&D1&F1). cbn [mbind option_bind].
  destruct (set_prev_spec x LIST_POISON2 m1) as (m2&->&_&_&D2&F2); [by rewrite D1|]. exists m2. split; [done|].
  split; [|congruence]. apply (rings_touch m m2 σ [x] H).
  - split; [congruence|]. intros a Ha. rewrite list_elem_of_singleton in Ha. by rewrite F2, F1.
  - intros a ->%list_elem_of_singleton. done.
Qed.

Lemma refine_op m σ o :
  rings m σ → allowed (dom m) o σ → ∃ m', exec o m = Some m' ∧ rings m' (meaning o σ) ∧ dom m' = dom m.
Proof.
  intros H. destruct o as [x|x hd|x hd|x|x|x hd|x hd|lst hd|lst hd]; cbn [allowed exec meaning].
  - intros [Hx Hf]. by apply rings_init.
  - intros [[Hx Hf] Hh%list_of_dom]. by apply rings_add.
  - intros [[Hx Hf] Hh%list_of_dom]. by apply rings_add_tail.
  - intros Hl. destruct (rings_without m σ x H Hl) as (p&n&m1&Ep&En&E&Hd&Hr&Hf&Hx). unfold list_del.
    rewrite Ep, En. cbn [mbind option_bind]. rewrite E. rewrite <-Hd in Hx |- *. by apply rings_poison.
  - intros Hl. destruct (rings_without m σ x H Hl) as (p&n&m1&Ep&En&E&Hd&Hr&Hf&Hx). unfold list_del_init.
    rewrite Ep, En. cbn [mbind option_bind]. rewrite E. rewrite <-Hd in Hx |- *. by apply rings_init.
  - intros [Hl Hh]. destruct (rings_without m σ x H Hl) as (p&n&m1&Ep&En&E&Hd&Hr&Hf&Hx). unfold list_move.
    rewrite Ep, En. cbn [mbind option_bind]. rewrite E. rewrite <-Hd in Hx |- *. apply rings_add; try done.
    apply list_of_dom. by rewrite dom_without.
  - intros [Hl Hh]. destruct (rings_without m σ x H Hl) as (p&n&m1&Ep&En&E&Hd&Hr&Hf&Hx). unfold list_move_tail.
    rewrite Ep, En. cbn [mbind option_bind]. rewrite E. rewrite <-Hd in Hx |- *. apply rings_add_tail; try done.
    apply list_of_dom. by rewrite dom_without.
  - intros (Hl&Hh&Hne). destruct (refine_splice m σ lst hd H Hl Hh Hne) as (m'&E&Hr&Hd&_). by exists m'.
  - intros (Hl&Hh&Hne). destruct (refine_splice m σ lst hd H Hl Hh Hne) as (_&_&_&_&m'&E&Hr&Hd). by exists m'.
Qed.

Lemma refine_all ops m σ :
  rings m σ → all_allowed (dom m) ops σ →
  ∃ m', exec_all ops m = Some m' ∧ rings m' (fold_left (λ σ o, meaning o σ) ops σ) ∧ dom m' = dom m.
Proof.
  revert m σ. induction ops as [|o ops IH]; intros m σ H; [by exists m|]. intros [Ho Hops].
  destruct (refine_op m σ o H Ho) as (m1&E&Hr&Hd). cbn [exec_all fold_left]. rewrite E. cbn [mbind option_bind].
  rewrite <-Hd in Hops |- *. by apply IH.
Qed.

(** *** Loops over a ring *)

Lemma walk_next m hd l1 l2 fuel :
  ring m hd (l1 ++ l2) → (length l2 < fuel)%nat → walk get_next fuel hd (behind hd l2) m = Some l2.
Proof.
  revert l1 fuel. induction l2 as [|x l2 IH]; intros l1 [|fuel] H Hf; cbn [length] in Hf; try lia; cbn [walk].
  - unfold behind. cbn. rewrite (ring_head_next _ _ _ H). cbn [mbind option_bind]. by rewrite Z.eqb_refl.
  - change (behind hd (x :: l2)) with x. rewrite (ring_get_next _ _ _ _ _ H). cbn [mbind option_bind].
    rewrite (proj2 (Z.eqb_neq _ _)); cycle 1.
    { intros ->. apply (NoDup_cons_1_1 _ _ (rg_nodup _ _ _ H)), elem_of_app. right. by left. }
    rewrite (IH (l1 ++ [x])); [done| |lia]. by rewrite <-app_assoc.
Qed.

Lemma walk_prev m hd l1 l2 fuel :
  ring m hd (l1 ++ l2) → (length l1 < fuel)%nat → walk get_prev fuel hd (before hd l1) m = Some (reverse l1).
Proof.
  revert l2 fuel. induction l1 as [|x l1 IH] using rev_ind; intros l2 [|fuel] H Hf; rewrite ?length_app in Hf; cbn [length] in Hf;
    try lia; cbn [walk].
  - unfold before. cbn. rewrite (ring_head_prev _ _ _ H). cbn [mbind option_bind]. by rewrite Z.eqb_refl.
  - rewrite before_snoc. rewrite <-app_assoc in H. cbn [app] in H. rewrite (ring_get_prev _ _ _ _ _ H). cbn [mbind option_bind].
    rewrite (proj2 (Z.eqb_neq _ _)); cycle 1.
    { intros ->. apply (NoDup_cons_1_1 _ _ (rg_nodup _ _ _ H)), elem_of_app. right. by left. }
    rewrite (IH (x :: l2)), reverse_snoc; [done|done|lia].
Qed.

(** A loop that unlinks nodes as it visits them. *)
Definition unlink_if (p : addr → bool) (x : addr) (m : mem) : option mem :=
  if p x then list_del x m else Some m.

Lemma rings_list_del m σ hd l1 x l2 :
  rings m σ → σ !! hd = Some (l1 ++ x :: l2) → ∃ m', list_del x m = Some m' ∧ rings m' (<[hd := l1 ++ l2]> σ).
Proof.
  intros H Hl. assert (x ∈ l1 ++ x :: l2) as Hx by (apply elem_of_app; right; by left).
  destruct (rings_unlink m σ hd _ x H Hl Hx) as (p&n&m1&Ep&En&E&Hd&Hr&Hf). pose proof (rs_ring _ _ H _ _ Hl) as Hring.
  rewrite filter_middle in Hr, Hf by exact (NoDup_cons_1_2 _ _ (rg_nodup _ _ _ Hring)). unfold list_del.
  rewrite Ep, En. cbn [mbind option_bind]. rewrite E. cbn [mbind option_bind].
  destruct (rings_poison m1 _ x Hr Hf) as (m'&E'&Hr'&_); [|by exists m']. rewrite Hd. eapply ring_dom; [done|by right].
Qed.

Lemma safe_loop_unlinks p fuel m σ hd l1 l2 n :
  rings m σ → σ !! hd = Some (l1 ++ l2) → get_next (behind hd l2) m = Some n → (length l2 < fuel)%nat →
  ∃ m', safe_loop get_next (unlink_if p) fuel hd (behind hd l2) n m = Some m' ∧
    rings m' (<[hd := l1 ++ filter (λ x, p x = false) l2]> σ).
Proof.
  revert m σ l1 l2 n. induction fuel as [|fuel IH]; intros m σ l1 l2 n H Hl Hn Hf; [lia|]. cbn [safe_loop].
  pose proof (rs_ring _ _ H _ _ Hl) as Hr. destruct l2 as [|x l2]; cbn [length] in Hf.
  { unfold behind. cbn. rewrite Z.eqb_refl. exists m. by rewrite insert_id. }
  change (behind hd (x :: l2)) with x in *. rewrite (proj2 (Z.eqb_neq _ _)); cycle 1.
  { intros ->. apply (NoDup_cons_1_1 _ _ (rg_nodup _ _ _ Hr)), elem_of_app. right. by left. }
  rewrite (ring_get_next _ _ _ _ _ Hr) in Hn. injection Hn as <-.
  assert (∀ m1 σ1 k, rings m1 σ1 → σ1 !! hd = Some (k ++ l2) → ∃ n1, get_next (behind hd l2) m1 = Some n1) as Hnext.
  { intros m1 σ1 k H1 Hk. pose proof (rs_ring _ _ H1 _ _ Hk) as Hr1. destruct l2 as [|y l2].
    - eexists. by apply (ring_head_next _ _ _ Hr1).
    - eexists. apply (ring_get_next _ _ _ _ _ Hr1). }
  change (unlink_if p x m) with (if p x then list_del x m else Some m). rewrite filter_cons. destruct (p x) eqn:Ep.
  - rewrite decide_False by done. destruct (rings_list_del m σ hd l1 x l2 H Hl) as (m1&->&H1). cbn [mbind option_bind].
    pose proof (lookup_insert_eq σ hd (l1 ++ l2)) as Hl1. destruct (Hnext _ _ _ H1 Hl1) as [n1 Hn1]. rewrite Hn1. cbn [mbind option_bind].
    destruct (IH m1 _ l1 l2 n1 H1 Hl1 Hn1) as (m'&->&H'); [lia|]. exists m'. split; [done|]. by rewrite insert_insert_eq in H'.
  - rewrite decide_True by done. cbn [mbind option_bind]. rewrite (cons_middle x l1 l2), app_assoc in Hl.
    destruct (Hnext _ _ _ H Hl) as [n1 Hn1]. rewrite Hn1. cbn [mbind option_bind].
    destruct (IH m σ (l1 ++ [x]) l2 n1 H Hl Hn1) as (m'&->&H'); [lia|]. exists m'. split; [done|].
    by rewrite <-app_assoc in H'.
Qed.

Lemma list_for_each_safe_unlinks p m σ hd l :
  rings m σ → σ !! hd = Some l →
  ∃ m', list_for_each_safe (unlink_if p) (S (length l)) hd m = Some m' ∧ rings m' (<[hd := filter (λ x, p x = false) l]> σ).
Proof.
  intros H Hl. pose proof (rs_ring _ _ H _ _ Hl) as Hr. unfold list_for_each_safe. rewrite (ring_head_next _ _ _ Hr).
  cbn [mbind option_bind]. assert (∃ n, get_next (behind hd l) m = Some n) as [n Hn].
  { destruct l as [|x l]; eexists; [by apply (ring_head_next _ _ _ Hr)|by apply (ring_get_next _ _ [] _ _ Hr)]. }
  rewrite Hn. apply (safe_loop_unlinks p _ m σ hd [] l n H Hl Hn). lia.
Qed.

(** What a list looks like through the code. *)
Definition shows (m : mem) (hd : addr) (l : list addr) : Prop :=
  list_for_each (S (length l)) hd m = Some l ∧ list_for_each_prev (S (length l)) hd m = Some (reverse l) ∧
  list_empty hd m = Some (bool_decide (l = [])) ∧ list_empty_careful hd m = Some (bool_decide (l = [])) ∧
  ∀ offset, list_first_entry hd offset m = Some ((λ x, list_entry x offset) <$> head l) ∧
    list_tail_entry hd offset m = Some ((λ x, list_entry x offset) <$> last l).

Lemma behind_head m hd l : ring m hd l → (behind hd l =? hd) = bool_decide (l = []).
Proof.
  intros [Hnd _ _]. destruct l as [|x l]; cbn; [apply Z.eqb_refl|]. apply Z.eqb_neq. intros ->.
  apply NoDup_cons in Hnd as [Hn _]. apply Hn. by left.
Qed.

Lemma ring_shows m hd l : ring m hd l → shows m hd l.
Proof.
  intros H. pose proof (behind_head _ _ _ H) as Eb. unfold shows, list_for_each, list_for_each_prev, list_empty, list_empty_careful.
  unfold list_first_entry, list_tail_entry. rewrite (ring_head_next _ _ _ H), (ring_head_prev _ _ _ H). cbn [mbind option_bind].
  rewrite Eb. split; [by apply (walk_next m hd [] l); [|lia]|].
  split; [apply (walk_prev m hd l []); [by rewrite app_nil_r|lia]|]. split; [done|].
  destruct l as [|x l _] using rev_ind.
  { unfold behind, before. cbn. by rewrite Z.eqb_refl. }
  rewrite before_snoc, last_snoc, (bool_decide_eq_false_2 (l ++ [x] = [])) by by destruct l. split; [done|]. intros offset.
  rewrite (proj2 (Z.eqb_neq x hd)); [by destruct l|]. intros ->.
  apply (NoDup_cons_1_1 _ _ (rg_nodup _ _ _ H)), elem_of_app. right. by left.
Qed.

(** Behind an entry is the next one - and behind the last one the head, taken for one. *)
Lemma next_entry m hd l1 x l2 offset :
  ring m hd (l1 ++ x :: l2) → list_next_entry x offset m = Some (Some (list_entry (behind hd l2) offset)).
Proof.
  intros H. unfold list_next_entry. rewrite (ring_get_next _ _ _ _ _ H). cbn [mbind option_bind].
  rewrite (proj2 (Z.eqb_neq _ _)); [done|]. intros E. pose proof (rg_nodup _ _ _ H) as Hnd.
  rewrite app_comm_cons in Hnd. apply NoDup_app in Hnd as (_&Hout&[Hx _]%NoDup_cons). destruct l2 as [|y l2].
  - unfold behind in E. cbn in E. subst x. apply (Hout hd); by left.
  - apply Hx. rewrite <-E. by left.
Qed.

(** C26: The list macros implement lists: operations that are allowed - nodes that exist, a node put into
    a list only when it is in none, two different lists joined - all succeed in memory, whatever else
    is linked there, and the pointers they leave are again rings that lie apart and hold, under each
    head, the list that the operations mean; the loops over a head visit that list forwards
    and backwards and stop after it, and the tests and first and last entries agree with it. *)
Theorem lists_refine ops m σ :
  rings m σ → all_allowed (dom m) ops σ →
  ∃ m', exec_all ops m = Some m' ∧ rings m' (fold_left (λ σ o, meaning o σ) ops σ) ∧
    ∀ hd l, fold_left (λ σ o, meaning o σ) ops σ !! hd = Some l → shows m' hd l.
Proof.
  intros H Ho. destruct (refine_all ops m σ H Ho) as (m'&E&Hr&_). exists m'. split; [done|]. split; [done|].
  intros hd l Hl. by eapply ring_shows, rs_ring.
Qed.

Definition some_nodes : mem := list_to_map ((λ x, (x, ListHead 0 0)) <$> [8; 16; 24; 32; 40; 48]).
Definition some_ops : list list_op :=
  [InitHead 8; InitHead 16; Add 24 8; Add 32 8; AddTail 40 8; AddTail 48 16; Move 32 16; Del 40; SpliceInit 16 8; DelInit 48].

Lemma lists_refine_witness :
  all_allowed (dom some_nodes) some_ops ∅ ∧
  ∃ m', exec_all some_ops some_nodes = Some m' ∧ list_for_each 3 8 m' = Some [32; 24] ∧ list_empty 16 m' = Some true.
Proof.
  assert (rings some_nodes ∅) as H0 by by split.
  assert (all_allowed (dom some_nodes) some_ops ∅) as H by (apply (bool_decide_unpack _); vm_compute; exact I).
  split; [exact H|]. destruct (lists_refine some_ops some_nodes ∅ H0 H) as (m'&E&_&Hs). exists m'. split; [exact E|].
  split; [apply (Hs 8 [32; 24]); vm_compute; reflexivity|apply (Hs 16 []); vm_compute; reflexivity].
Defined.
