(* ===== verification/Hlist.v ===== *)
(** * Lists with a single pointer as their head ([linux_usr/list.h])

    The pointers are places in memory, for each the pointer there: a head is at its
    own address, and so is the [next] of a node; the [pprev] of a node, which holds
    the place that points to it, is apart. *)
From stdpp Require Import gmap.
From S2P Require Import Prelude LinkedList.
From stdpp Require Import list.
#[local] Open Scope Z_scope.

(** ** The code *)

Definition NULL : Z := 0.
Record hlist_mem := HMem { places : gmap Z Z; pprevs : gmap Z Z }.

Definition load (a : Z) (m : hlist_mem) : option Z := places m !! a.
Definition load_pprev (n : Z) (m : hlist_mem) : option Z := pprevs m !! n.
Definition store (a v : Z) (m : hlist_mem) : option hlist_mem :=
  _ ← places m !! a; Some (HMem (<[a := v]> (places m)) (pprevs m)).
Definition store_pprev (n v : Z) (m : hlist_mem) : option hlist_mem :=
  _ ← pprevs m !! n; Some (HMem (places m) (<[n := v]> (pprevs m))).

Definition INIT_HLIST_HEAD (ptr : Z) (m : hlist_mem) : option hlist_mem := store ptr NULL m.
Definition INIT_HLIST_NODE (h : Z) (m : hlist_mem) : option hlist_mem :=
  m ← store h NULL m; store_pprev h NULL m.
Definition hlist_unhashed (h : Z) (m : hlist_mem) : option bool := p ← load_pprev h m; Some (p =? NULL).
Definition hlist_empty (h : Z) (m : hlist_mem) : option bool := f ← load h m; Some (f =? NULL).

Definition __hlist_del (n : Z) (m : hlist_mem) : option hlist_mem :=
  next ← load n m; pprev ← load_pprev n m;
  m ← store pprev next m;
  if next =? NULL then Some m else store_pprev next pprev m.
Definition hlist_del (n : Z) (m : hlist_mem) : option hlist_mem :=
  m ← __hlist_del n m; m ← store n LIST_POISON1 m; store_pprev n LIST_POISON2 m.
Definition hlist_del_init (n : Z) (m : hlist_mem) : option hlist_mem :=
  u ← hlist_unhashed n m;
  if (u : bool) then Some m else m ← __hlist_del n m; INIT_HLIST_NODE n m.

Definition hlist_add_head (n h : Z) (m : hlist_mem) : option hlist_mem :=
  first ← load h m;
  m ← store n first m;
  m ← (if first =? NULL then Some m else store_pprev first n m);
  m ← store h n m; store_pprev n h m.
Definition hlist_add_before (n next : Z) (m : hlist_mem) : option hlist_mem :=
  p ← load_pprev next m;
  m ← store_pprev n p m;
  m ← store n next m;
  m ← store_pprev next n m;
  p ← load_pprev n m; store p n m.
Definition hlist_add_after (n next : Z) (m : hlist_mem) : option hlist_mem :=
  nn ← load n m;
  m ← store next nn m;
  m ← store n next m;
  m ← store_pprev next n m;
  nn ← load next m;
  if nn =? NULL then Some m else store_pprev nn next m.

(** The nodes that a loop visits from [pos] on. *)
Fixpoint hwalk (fuel : nat) (pos : Z) (m : hlist_mem) : option (list Z) :=
  match fuel with
  | O => None
  | S fuel => if pos =? NULL then Some [] else q ← load pos m; l ← hwalk fuel q m; Some (pos :: l)
  end.
Definition hlist_entry := container_of.
Definition hentries (offset : Z) (l : list Z) : list Z := (λ p, hlist_entry p offset) <$> l.
Definition hlist_for_each (fuel : nat) (head : Z) (m : hlist_mem) : option (list Z) :=
  f ← load head m; hwalk fuel f m.
Definition hlist_for_each_entry (fuel : nat) (head offset : Z) (m : hlist_mem) : option (list Z) :=
  l ← hlist_for_each fuel head m; Some (hentries offset l).
Definition hlist_for_each_entry_continue (fuel : nat) (pos offset : Z) (m : hlist_mem) : option (list Z) :=
  q ← load pos m; l ← hwalk fuel q m; Some (hentries offset l).
Definition hlist_for_each_entry_from (fuel : nat) (pos offset : Z) (m : hlist_mem) : option (list Z) :=
  l ← hwalk fuel pos m; Some (hentries offset l).
Fixpoint hsafe_loop (body : Z → hlist_mem → option hlist_mem) (fuel : nat) (pos : Z) (m : hlist_mem) : option hlist_mem :=
  match fuel with
  | O => None
  | S fuel => if pos =? NULL then Some m else n ← load pos m; m ← body pos m; hsafe_loop body fuel n m
  end.
Definition hlist_for_each_safe (body : Z → hlist_mem → option hlist_mem) (fuel : nat) (head : Z) (m : hlist_mem)
    : option hlist_mem :=
  f ← load head m; hsafe_loop body fuel f m.

(** ** Lists in memory *)

Definition first_of (l : list Z) : Z := default NULL (head l).

(** The nodes [l] from the place [loc] on, each knowing the place that points to it. *)
Fixpoint hseg (m : hlist_mem) (loc : Z) (l : list Z) : Prop :=
  match l with
  | [] => True
  | x :: l => load loc m = Some x ∧ load_pprev x m = Some loc ∧ hseg m x l
  end.
Record hlist (m : hlist_mem) (h : Z) (l : list Z) : Prop := {
  hl_nodup : NoDup (h :: l);
  hl_null : NULL ∉ h :: l;
  hl_seg : hseg m h l;
  hl_end : load (before h l) m = Some NULL }.

Lemma before_cons h x l : before h (x :: l) = before x l.
Proof. unfold before. rewrite last_cons. by destruct (last l). Qed.

Lemma before_last h l x : before h (l ++ [x]) = x.
Proof. unfold before. by rewrite last_snoc. Qed.

Lemma before_app h l1 l2 : before h (l1 ++ l2) = before (before h l1) l2.
Proof. destruct l2 as [|x l2 _] using rev_ind; [by rewrite app_nil_r|]. by rewrite app_assoc, !before_last. Qed.

Lemma hseg_app m h l1 l2 : hseg m h (l1 ++ l2) ↔ hseg m h l1 ∧ hseg m (before h l1) l2.
Proof.
  revert h. induction l1 as [|x l1 IH]; intros h; cbn [app hseg]; [tauto|]. rewrite before_cons, IH. tauto.
Qed.

(** Only the places in front of the last node, and the nodes, are read. *)
Lemma hseg_frame m m' h l :
  NoDup (h :: l) →
  (∀ a, a ∈ h :: l → a ≠ before h l → load a m' = load a m) → (∀ x, x ∈ l → load_pprev x m' = load_pprev x m) →
  hseg m h l → hseg m' h l.
Proof.
  revert h. induction l as [|x l IH]; intros h Hnd H1 H2; [done|]. cbn [hseg]. intros (Ha&Hb&Hc).
  apply NoDup_cons in Hnd as [Hh Hnd]. split_and!.
  - rewrite H1; [done|by left|]. intros E. apply Hh. rewrite before_cons in E. rewrite E. apply before_in.
  - rewrite H2; [done|by left].
  - apply IH; [done| | |done].
    + intros a Ha' Hne. apply H1; [by right|by rewrite before_cons].
    + intros y Hy. apply H2. by right.
Qed.

(** *** A node put between two, and taken out *)

Lemma hlist_put m m' h l1 l2 new :
  hlist m h (l1 ++ l2) → new ∉ h :: l1 ++ l2 → new ≠ NULL →
  load (before h l1) m' = Some new → load new m' = Some (first_of l2) → load_pprev new m' = Some (before h l1) →
  (∀ y, head l2 = Some y → load_pprev y m' = Some new) →
  (∀ a, a ≠ before h l1 → a ≠ new → load a m' = load a m) →
  (∀ y, y ≠ new → head l2 ≠ Some y → load_pprev y m' = load_pprev y m) →
  hlist m' h (l1 ++ new :: l2).
Proof.
  intros [Hnd Hz Hs He] Hnew Hn0 E1 E2 E3 E4 F1 F2. apply hseg_app in Hs as [Hs1 Hs2].
  pose proof Hnd as (Hnd1&Hdis&Hnd2)%(NoDup_app (h :: l1) l2). rewrite app_comm_cons, not_elem_of_app in Hnew.
  destruct Hnew as [Hnew1 Hnew2].
  assert (∀ x, x ∈ l2 → x ≠ before h l1) as Hb by (intros x Hx ->; by apply (Hdis _ (before_in h l1))).
  split.
  - rewrite app_comm_cons, <-Permutation_middle. constructor; [rewrite elem_of_app; tauto|done].
  - intros Hin. rewrite elem_of_cons, elem_of_app, elem_of_cons in Hin. rewrite elem_of_cons, elem_of_app in Hz. naive_solver.
  - apply hseg_app. split.
    + apply (hseg_frame m); [done| | |done].
      * intros a Ha Hne. apply F1; [done|]. intros ->. tauto.
      * intros x Hx. apply F2; [intros ->; apply Hnew1; by right|]. intros Hh. apply (Hdis x); [by right|]. by apply head_Some_elem_of.
    + cbn [hseg]. split; [done|]. split; [done|]. destruct l2 as [|y l2]; [done|]. cbn [hseg] in Hs2 |- *.
      destruct Hs2 as (_&_&Hs2). split; [done|]. split; [by apply E4|]. apply (hseg_frame m); [done| | |done].
      * intros a Ha Hne. apply F1; [by apply Hb|]. intros ->. tauto.
      * intros x Hx. apply F2; [intros ->; apply Hnew2; by right|]. intros [= ->]. by apply NoDup_cons in Hnd2 as [? _].
  - rewrite before_app, before_cons. destruct l2 as [|y l2]; [done|]. rewrite before_cons. rewrite before_app, before_cons in He.
    rewrite F1; [done| |].
    + apply Hb. apply before_in.
    + intros <-. apply Hnew2, before_in.
Qed.

Lemma hlist_take m m' h l1 x l2 :
  hlist m h (l1 ++ x :: l2) →
  load (before h l1) m' = Some (first_of l2) → (∀ y, head l2 = Some y → load_pprev y m' = Some (before h l1)) →
  (∀ a, a ≠ before h l1 → a ≠ x → load a m' = load a m) →
  (∀ y, y ≠ x → head l2 ≠ Some y → load_pprev y m' = load_pprev y m) →
  hlist m' h (l1 ++ l2).
Proof.
  intros [Hnd Hz Hs He] E1 E2 F1 F2. apply hseg_app in Hs as [Hs1 (_&_&Hs2)].
  pose proof Hnd as (Hnd1&Hdis&Hnd2)%(NoDup_app (h :: l1) (x :: l2)). apply NoDup_cons in Hnd2 as [Hx Hnd2].
  assert (x ∉ h :: l1) as Hx1 by (intros Hin; apply (Hdis _ Hin); by left).
  assert (∀ y, y ∈ l2 → y ∉ h :: l1) as Hy by (intros y Hy Hin; apply (Hdis _ Hin); by right).
  split.
  - rewrite app_comm_cons, <-Permutation_middle in Hnd. by apply NoDup_cons in Hnd as [_ ?].
  - intros Hin. rewrite elem_of_cons, elem_of_app in Hin. rewrite elem_of_cons, elem_of_app, elem_of_cons in Hz. tauto.
  - apply hseg_app. split.
    + apply (hseg_frame m); [done| | |done].
      * intros a Ha Hne. apply F1; [done|]. by intros ->.
      * intros y Hy1. apply F2; [intros ->; apply Hx1; by right|]. intros Hh%head_Some_elem_of. apply (Hy _ Hh). by right.
    + destruct l2 as [|y l2]; [done|]. cbn [hseg] in Hs2 |- *. destruct Hs2 as (_&_&Hs2). split; [done|]. split; [by apply E2|].
      apply (hseg_frame m); [done| | |done].
      * intros a Ha Hne. apply F1; [|by intros ->]. intros ->. apply (Hy _ Ha), before_in.
      * intros z Hz2. apply F2; [intros ->; apply Hx; by right|]. intros [= ->]. by apply NoDup_cons in Hnd2 as [? _].
  - rewrite before_app. destruct l2 as [|y l2]; [done|]. rewrite before_app, before_cons, before_cons in He. rewrite before_cons.
    rewrite F1; [done| |].
    + intros E. apply (Hy (before y l2) (before_in _ _)). rewrite E. apply before_in.
    + intros E. apply Hx. rewrite <-E. apply before_in.
Qed.

Lemma hlist_load m h l1 l2 : hlist m h (l1 ++ l2) → load (before h l1) m = Some (first_of l2).
Proof.
  intros [_ _ [_ Hs]%hseg_app He]. destruct l2 as [|y l2]; [by rewrite app_nil_r in He|by destruct Hs].
Qed.
Lemma hlist_pprev m h l1 x l2 : hlist m h (l1 ++ x :: l2) → load_pprev x m = Some (before h l1).
Proof. intros [_ _ [_ (_&?&_)]%hseg_app _]. done. Qed.

Lemma first_null m h l1 l2 : hlist m h (l1 ++ l2) → (first_of l2 =? NULL) = bool_decide (l2 = []).
Proof.
  intros [_ Hz _ _]. destruct l2 as [|y l2]; [done|]. apply Z.eqb_neq. cbn. intros ->. apply Hz. right.
  apply elem_of_app. right. by left.
Qed.

Lemma store_ok a v w m : load a m = Some w → store a v m = Some (HMem (<[a := v]> (places m)) (pprevs m)).
Proof. unfold load, store. by intros ->. Qed.
Lemma store_pprev_ok n v w m :
  load_pprev n m = Some w → store_pprev n v m = Some (HMem (places m) (<[n := v]> (pprevs m))).
Proof. unfold load_pprev, store_pprev. by intros ->. Qed.

(** What is read after some stores. *)
Ltac loads :=
  unfold load, load_pprev in *; cbn [places pprevs] in *;
  repeat first [rewrite lookup_insert_eq | rewrite lookup_insert_ne by congruence]; try done.

Definition fresh (m : hlist_mem) (h : Z) (l : list Z) (new : Z) : Prop :=
  new ∉ h :: l ∧ new ≠ NULL ∧ is_Some (load new m) ∧ is_Some (load_pprev new m).

Lemma add_head_spec m h l new :
  hlist m h l → fresh m h l new → ∃ m', hlist_add_head new h m = Some m' ∧ hlist m' h (new :: l).
Proof.
  intros H (Hf&Hn&[v Hv]&[w Hw]). pose proof (hlist_load m h [] l H) as Hl. change (before h []) with h in Hl.
  unfold hlist_add_head. rewrite Hl. cbn [mbind option_bind]. rewrite (store_ok new _ v) by done. cbn [mbind option_bind].
  rewrite (first_null m h [] l) by done. assert (h ≠ new) as Hne by (intros ->; apply Hf; by left).
  destruct l as [|y l]; cbn [first_of head default bool_decide].
  - rewrite bool_decide_eq_true_2 by done. cbn [mbind option_bind].
    rewrite (store_ok h new NULL) by loads. cbn [mbind option_bind]. rewrite (store_pprev_ok new h w) by loads.
    eexists. split; [done|]. apply (hlist_put m _ h [] [] new); try done; change (before h []) with h; intros; loads.
  - rewrite bool_decide_eq_false_2 by done. pose proof (hlist_pprev m h [] y l H) as Hp.
    assert (y ≠ new) as Hny by (intros ->; apply Hf; right; by left).
    rewrite (store_pprev_ok y new h) by loads. cbn [mbind option_bind].
    rewrite (store_ok h new y) by loads. cbn [mbind option_bind]. rewrite (store_pprev_ok new h w) by loads.
    eexists. split; [done|]. apply (hlist_put m _ h [] (y :: l) new); try done; change (before h []) with h; intros; simplify_eq/=; loads.
Qed.

Lemma add_before_spec m h l1 next l2 new :
  hlist m h (l1 ++ next :: l2) → fresh m h (l1 ++ next :: l2) new →
  ∃ m', hlist_add_before new next m = Some m' ∧ hlist m' h (l1 ++ new :: next :: l2).
Proof.
  intros H (Hf&Hn&[v Hv]&[w Hw]). pose proof (hlist_pprev _ _ _ _ _ H) as Hp. pose proof (hlist_load _ _ _ _ H) as Hl.
  pose proof (before_in h l1) as Hb. set (p := before h l1) in *.
  assert (p ≠ new ∧ next ≠ new) as [Hp1 Hn1].
  { split; intros <-; apply Hf; rewrite app_comm_cons; apply elem_of_app; [by left|right; by left]. }
  unfold hlist_add_before. rewrite Hp. cbn [mbind option_bind].
  rewrite (store_pprev_ok new p w) by loads. cbn [mbind option_bind]. rewrite (store_ok new next v) by loads.
  cbn [mbind option_bind]. rewrite (store_pprev_ok next new p) by loads. cbn [mbind option_bind].
  unfold load_pprev at 1. cbn [mbind option_bind pprevs]. rewrite (lookup_insert_ne _ next new), lookup_insert_eq by done.
  cbn [mbind option_bind]. rewrite (store_ok p new (first_of (next :: l2))) by loads.
  eexists. split; [done|]. apply (hlist_put m _ h l1 (next :: l2) new); try done; fold p; intros; simplify_eq/=; loads.
Qed.

Lemma add_after_spec m h l1 n l2 new :
  hlist m h (l1 ++ n :: l2) → fresh m h (l1 ++ n :: l2) new →
  ∃ m', hlist_add_after n new m = Some m' ∧ hlist m' h (l1 ++ n :: new :: l2).
Proof.
  rewrite (cons_middle n l1 l2), (cons_middle n l1 (new :: l2)), !app_assoc. intros H (Hf&Hn&[v Hv]&[w Hw]).
  pose proof (hlist_load _ _ _ _ H) as Hl. rewrite before_last in Hl.
  assert (n ≠ new) as Hn1.
  { intros <-. apply Hf. right. rewrite !elem_of_app. left. right. by left. }
  unfold hlist_add_after. rewrite Hl. cbn [mbind option_bind].
  rewrite (store_ok new _ v) by loads. cbn [mbind option_bind]. rewrite (store_ok n new (first_of l2)) by loads.
  cbn [mbind option_bind]. rewrite (store_pprev_ok new n w) by loads. cbn [mbind option_bind].
  unfold load at 1. cbn [places]. rewrite (lookup_insert_ne _ n new), lookup_insert_eq by done. cbn [mbind option_bind].
  rewrite (first_null m h (l1 ++ [n]) l2) by done. destruct l2 as [|y l2].
  - rewrite bool_decide_eq_true_2 by done. eexists. split; [done|].
    apply (hlist_put m _ h (l1 ++ [n]) [] new); try done; rewrite ?before_last; intros; simplify_eq/=; loads.
  - rewrite bool_decide_eq_false_2 by done. pose proof (hlist_pprev _ _ _ _ _ H) as Hp. cbn [first_of head default id] in *.
    assert (y ≠ new) as Hny by (intros <-; apply Hf; right; apply elem_of_app; right; by left).
    rewrite (store_pprev_ok y new (before h (l1 ++ [n]))) by loads. eexists. split; [done|].
    apply (hlist_put m _ h (l1 ++ [n]) (y :: l2) new); try done; rewrite ?before_last; intros; simplify_eq/=; loads.
Qed.

Lemma hdel_spec m h l1 x l2 :
  hlist m h (l1 ++ x :: l2) →
  ∃ m', __hlist_del x m = Some m' ∧ load x m' = load x m ∧ load_pprev x m' = load_pprev x m ∧
    ∀ m'', (∀ a, a ≠ x → load a m'' = load a m') → (∀ y, y ≠ x → load_pprev y m'' = load_pprev y m') →
      hlist m'' h (l1 ++ l2).
Proof.
  intros H. pose proof (hlist_pprev _ _ _ _ _ H) as Hp. pose proof (hlist_load _ _ _ _ H) as Hl.
  pose proof (hl_nodup _ _ _ H) as Hnd. rewrite app_comm_cons in Hnd. apply NoDup_app in Hnd as (_&Hdis&[Hx _]%NoDup_cons).
  assert (before h l1 ≠ x) as Hbx by (intros E; apply (Hdis _ (before_in h l1)); rewrite E; by left).
  rewrite (cons_middle x l1 l2), app_assoc in H. pose proof (hlist_load _ _ _ _ H) as Hlx. rewrite before_last in Hlx.
  unfold __hlist_del. rewrite Hlx, Hp. cbn [mbind option_bind]. rewrite (store_ok _ _ _ _ Hl). cbn [mbind option_bind].
  rewrite (first_null m h (l1 ++ [x]) l2) by done. destruct l2 as [|y l2].
  - rewrite bool_decide_eq_true_2 by done. rewrite <-app_assoc in H.
    eexists. split; [done|]. split; [by loads|]. split; [done|]. intros m'' F1 F2.
    apply (hlist_take m _ h l1 x []); [done|rewrite F1; loads|done|intros a ? ?; rewrite F1; loads|intros y ? ?; rewrite F2; loads].
  - rewrite bool_decide_eq_false_2 by done. pose proof (hlist_pprev _ _ _ _ _ H) as Hpy. rewrite <-app_assoc in H.
    cbn [first_of head default id] in *. assert (y ≠ x) as Hyx by (intros ->; apply Hx; by left).
    rewrite (store_pprev_ok y _ (before h (l1 ++ [x]))) by loads. eexists. split; [done|]. split; [by loads|]. split; [by loads|]. intros m'' F1 F2.
    apply (hlist_take m _ h l1 x (y :: l2)); [done|rewrite F1; loads| | |].
    + intros ? [= <-]. rewrite F2; loads.
    + intros a ? ?. rewrite F1; loads.
    + intros z ? Hz. rewrite F2 by done. assert (z ≠ y) by (intros ->; by apply Hz). loads.
Qed.

Lemma hlist_del_spec m h l1 x l2 :
  hlist m h (l1 ++ x :: l2) →
  (∃ m', hlist_del x m = Some m' ∧ hlist m' h (l1 ++ l2)) ∧
  ∃ m', hlist_del_init x m = Some m' ∧ hlist m' h (l1 ++ l2) ∧ hlist_unhashed x m' = Some true.
Proof.
  intros H. destruct (hdel_spec m h l1 x l2 H) as (m1&E&E1&E2&Hm). pose proof (hlist_pprev _ _ _ _ _ H) as Hp.
  pose proof H as H'. rewrite (cons_middle x l1 l2), app_assoc in H'. pose proof (hlist_load _ _ _ _ H') as Hlx.
  rewrite before_last in Hlx. rewrite Hp in E2. rewrite Hlx in E1. split.
  - unfold hlist_del. rewrite E. cbn [mbind option_bind]. rewrite (store_ok _ _ _ _ E1). cbn [mbind option_bind].
    rewrite (store_pprev_ok x _ (before h l1)) by loads. eexists. split; [done|]. apply Hm; intros; loads.
  - unfold hlist_del_init, hlist_unhashed. rewrite Hp. cbn [mbind option_bind].
    rewrite (proj2 (Z.eqb_neq (before h l1) NULL)); cycle 1.
    { intros Ez. apply (hl_null _ _ _ H). rewrite app_comm_cons. apply elem_of_app. left. rewrite <-Ez. apply before_in. }
    rewrite E. cbn [mbind option_bind]. unfold INIT_HLIST_NODE. rewrite (store_ok _ _ _ _ E1). cbn [mbind option_bind].
    rewrite (store_pprev_ok x _ (before h l1)) by loads. eexists. split; [done|]. split; [apply Hm; intros; loads|].
    loads.
Qed.

(** The loop visits the list. *)
Lemma hwalk_spec m h l1 l2 fuel :
  hlist m h (l1 ++ l2) → (length l2 < fuel)%nat → hwalk fuel (first_of l2) m = Some l2.
Proof.
  revert l1 fuel. induction l2 as [|x l2 IH]; intros l1 [|fuel] H Hf; cbn [length] in Hf; try lia; cbn [hwalk]; [done|].
  rewrite (first_null m h l1 (x :: l2)) by done. rewrite bool_decide_eq_false_2 by done.
  change (first_of (x :: l2)) with x. rewrite (cons_middle x l1 l2), app_assoc in H.
  pose proof (hlist_load _ _ _ _ H) as Hl. rewrite before_last in Hl. rewrite Hl. cbn [mbind option_bind].
  by rewrite (IH (l1 ++ [x])) by (done || lia).
Qed.

Lemma for_each_spec m h l :
  hlist m h l → hlist_for_each (S (length l)) h m = Some l ∧ hlist_empty h m = Some (bool_decide (l = [])).
Proof.
  intros H. unfold hlist_for_each, hlist_empty. pose proof (hlist_load m h [] l H) as Hl. change (before h []) with h in Hl.
  rewrite Hl. cbn [mbind option_bind]. rewrite (first_null m h [] l H). split; [|done]. apply (hwalk_spec m h [] l); [done|lia].
Qed.
