(* ===== verification/Teardown.v ===== *)
(** * Shutting an enclave down ([linux_usr/teardown.c])

    [pisces_teardown] reads what the enclave holds from its proc files, has it
    shut down and released, and gives everything back to the host.  The files'
    contents, the answers of the ioctls and the functions of the petlib library
    are arguments; what the tool does is a list of events. *)
From S2P Require Import Prelude Text FileIo Resources Pci Proc.
#[local] Open Scope Z_scope.
#[local] Open Scope list_scope.

(** ** The code *)

(** How a step of the tool ends: with a value, by returning -1 from
    [pisces_teardown], or in undefined behaviour. *)
Inductive result (A : Type) := Ret (a : A) | Minus1 | Undefined.
Arguments Ret {A}. Arguments Minus1 {A}. Arguments Undefined {A}.
#[export] Instance result_ret : MRet result := @Ret.
#[export] Instance result_bind : MBind result := λ A B f m,
  match m with Ret a => f a | Minus1 => Minus1 | Undefined => Undefined end.
Definition or_minus1 {A} (o : option A) : result A := match o with Some a => Ret a | None => Minus1 end.

Inductive enclave_resource :=
  | CPU_RESOURCE (cpu_id : Z)
  | MEM_RESOURCE (start_addr end_addr : Z)
  | PCI_RESOURCE (name bdf : list Z).

(** The header line: the number behind [hdr], as [unsigned long]. *)
Definition read_header (hdr : list Z) (file : option (list Z)) : result (Z * list Z) :=
  f ← or_minus1 file;
  '(line, f) ← or_minus1 (fgets 63 f);
  s ← or_minus1 (strip_prefix hdr line);
  Ret (u64 (atoi s), f).

(** The entries; [list_add] puts each at the head. *)
Fixpoint read_cpus (n : nat) (f : list Z) (acc : list enclave_resource) : result (list enclave_resource) :=
  match n with
  | O => Ret acc
  | S n =>
      '(line, f) ← or_minus1 (fgets 31 f);
      s ← or_minus1 (strip_prefix (chars "CPU ") line);
      read_cpus n f (CPU_RESOURCE (u32 (atoi s)) :: acc)
  end.

(** [regexec]: the leftmost match of the pattern [m]. *)
Fixpoint regexec {B} (m : list Z → option B) (s : list Z) : option B :=
  match m s with
  | Some b => Some b
  | None => match s with [] => None | _ :: s => regexec m s end
  end.

(** [n] characters of the class [p]. *)
Fixpoint many (n : nat) (p : Z → bool) (s : list Z) : option (list Z * list Z) :=
  match n, s with
  | O, _ => Some ([], s)
  | S n, c :: s => if p c then '(t, r) ← many n p s; Some (c :: t, r) else None
  | S _, [] => None
  end.

(** [MEM_REGEX_STR] at the start of [s]: digits, then two groups of 16 hexadecimal
    digits. *)
Definition mem_regex (s : list Z) : option (list Z * list Z) :=
  let '(ds, s) := span isdigit s in
  if bool_decide (ds = []) then None else
  s ← strip_prefix (chars ": ") s;
  '(g1, s) ← many 16 isxdigit s;
  s ← strip_prefix (chars " - ") s;
  '(g2, _) ← many 16 isxdigit s;
  Some (g1, g2).

Fixpoint read_blocks (n : nat) (f : list Z) (acc : list enclave_resource) : result (list enclave_resource) :=
  match n with
  | O => Ret acc
  | S n =>
      '(line, f) ← or_minus1 (fgets 127 f);
      '(start_str, end_str) ← or_minus1 (regexec mem_regex line);
      read_blocks n f (MEM_RESOURCE (u64 (strtol 16 start_str).1) (u64 (strtol 16 end_str).1) :: acc)
  end.

(** The device's address, behind an optional domain: [dom] tells whether the
    four digits, [colon] whether the colon is there. *)
Definition bdf_regex (dom colon : bool) (s : list Z) : option (list Z) :=
  '(g0, s) ← if dom then many 4 isdigit s else Some ([], s);
  '(g1, s) ← if colon then many 1 (Z.eqb 58) s else Some ([], s);
  '(g2, s) ← many 2 isxdigit s;
  '(g3, s) ← many 1 (Z.eqb 58) s;
  '(g4, s) ← many 2 isxdigit s;
  '(g5, s) ← many 1 (λ _, true) s;
  '(g6, _) ← many 1 (λ c, (48 <=? c) && (c <=? 55)) s;
  Some (g0 ++ g1 ++ g2 ++ g3 ++ g4 ++ g5 ++ g6).

(** [PCI_REGEX_STR]: white space as the first group, a colon and a blank, and the
    device's address. *)
Definition pci_regex (s : list Z) : option (list Z * list Z) :=
  let '(g1, s) := span isspace s in
  s ← strip_prefix (chars ": ") s;
  g2 ← match bdf_regex true true s, bdf_regex true false s, bdf_regex false true s with
       | Some g, _, _ | None, Some g, _ | None, None, Some g => Some g
       | None, None, None => bdf_regex false false s
       end;
  Some (g1, g2).

(** A group that does not fit its buffer is reported, and copied. *)
Fixpoint read_devs (n : nat) (f : list Z) (acc : list enclave_resource) : result (list enclave_resource) :=
  match n with
  | O => Ret acc
  | S n =>
      '(line, f) ← or_minus1 (fgets 255 f);
      '(name_str, bdf_str) ← or_minus1 (regexec pci_regex line);
      if (length name_str <? 128)%nat then read_devs n f (PCI_RESOURCE name_str bdf_str :: acc)
      else Undefined
  end.

(** What the tool finds; [None] for a file is [fopen] failing. *)
Record host := {
  cpus_file : option (list Z);
  memory_file : option (list Z);
  pci_file : option (list Z);
  ctrl_fd : Z;                                     (* PISCES_ENCLAVE_CTRL_CONNECT *)
  shutdown_ret : Z;                                (* PISCES_CMD_SHUTDOWN *)
  pet_block_size : Z;
  pet_parse_bdf : list Z → option (Z * Z * Z)
}.

Definition read_cpu_resources (h : host) : result (list enclave_resource) :=
  '(n, f) ← read_header (chars "Num CPUs: ") (cpus_file h); read_cpus (Z.to_nat n) f [].
Definition read_mem_resources (h : host) (acc : list enclave_resource) : result (list enclave_resource) :=
  '(n, f) ← read_header (chars "Num Memory Blocks: ") (memory_file h); read_blocks (Z.to_nat n) f acc.
Definition read_pci_resources (h : host) (acc : list enclave_resource) : result (list enclave_resource) :=
  '(n, f) ← read_header (chars "PCI Devices: ") (pci_file h); read_devs (Z.to_nat n) f acc.

(** Each block puts its entries before those that were read. *)
Definition read_resources (h : host) : result (list enclave_resource) :=
  acc ← read_cpu_resources h; acc ← read_mem_resources h acc; read_pci_resources h acc.

Inductive event :=
  | CtrlConnect | Shutdown | CloseCtrl | FreeEnclave (pisces_id : Z)
  | OnlineCpu (cpu_id : Z) | OnlineBlock (blk_id : Z) | OnlinePci (bus dev fn : Z).

(** One entry given back; a device that cannot be parsed ends the tool. *)
Definition online (h : host) (res : enclave_resource) : result (list event) :=
  match res with
  | CPU_RESOURCE c => Ret [OnlineCpu c]
  | MEM_RESOURCE s e =>
      if pet_block_size h =? 0 then Undefined else
      let num_blks := s32 (u64 (e - s) / pet_block_size h) in
      Ret ((λ i, OnlineBlock (s32 (s / pet_block_size h + i))) <$> seqZ 0 num_blks)
  | PCI_RESOURCE _ b =>
      '(bus, dev, fn) ← or_minus1 (pet_parse_bdf h b); Ret [OnlinePci bus dev fn]
  end.

Fixpoint online_all (h : host) (l : list enclave_resource) (tr : list event) : option (Z * list event) :=
  match l with
  | [] => Some (0, tr)
  | res :: l => match online h res with
                | Ret ev => online_all h l (tr ++ ev)
                | Minus1 => Some (-1, tr)
                | Undefined => None
                end
  end.

(** The enclave is asked to shut down; the channel stays open when it does not. *)
Definition send_shutdown (h : host) : Z * list event :=
  if ctrl_fd h <? 0 then (-1, [CtrlConnect])
  else if negb (shutdown_ret h =? 0) then (-1, [CtrlConnect; Shutdown])
  else (0, [CtrlConnect; Shutdown; CloseCtrl]).

(** The value returned and the events; [None] is undefined behaviour. *)
Definition pisces_teardown (h : host) (pisces_id : Z) : option (Z * list event) :=
  match read_resources h with
  | Undefined => None
  | Minus1 => Some (-1, [])
  | Ret l =>
      let '(ret, tr) := send_shutdown h in
      if ret =? 0 then online_all h l (tr ++ [FreeEnclave pisces_id]) else Some (ret, tr)
  end.

(** ** Lemmas *)

Ltac run := cbn [or_minus1 mbind result_bind option_bind].

Lemma many_app n p t r :
  length t = n → Forall (λ c, p c = true) t → many n p (t ++ r) = Some (t, r).
Proof.
  intros <- Ht. induction Ht as [|c t Hc _ IH]; [done|]. cbn [app length many]. by rewrite Hc, IH.
Qed.

Lemma regexec_here {B} (m : list Z → option B) s b : m s = Some b → regexec m s = Some b.
Proof. intros Hm. destruct s; simpl; by rewrite Hm. Qed.

(** A printed [int] that is not negative: digits, few, no newline. *)
Lemma pct_d_chars n :
  0 ≤ n < 2 ^ 31 →
  Forall (λ c, isdigit c = true) (pct_d n) ∧ Forall (λ c, c ≠ newline) (pct_d n) ∧
  (0 < length (pct_d n) ≤ 10)%nat.
Proof.
  intros Hn. unfold pct_d. rewrite (proj2 (Z.ltb_ge n 0)) by lia.
  destruct (print_base_spec 10 n ltac:(lia) ltac:(lia)) as (H1&_&H3). split; [|split].
  - eapply list.Forall_impl; [exact H1|]. intros c Hc. by rewrite <-digit_in_10.
  - eapply list.Forall_impl; [exact H1|]. intros c Hc. by apply digit_in_not_space in Hc as (_&_&_&?).
  - split; [destruct (print_base 10 n); [done|simpl; lia]|].
    unfold print_base. rewrite length_fmap. apply digits_length; lia.
Qed.

Lemma read_header_line hdr (n : Z) f :
  0 ≤ n < 2 ^ 31 → Forall (λ c, c ≠ newline) hdr → (length hdr ≤ 20)%nat →
  read_header hdr (Some (hdr ++ pct_d n ++ [newline] ++ f)) = Ret (n, f).
Proof.
  intros Hn Hh Hl. destruct (pct_d_chars n Hn) as (_&Hc&?). unfold read_header. run.
  rewrite app_assoc, fgets_line; [|by apply Forall_app|rewrite length_app; lia]. run.
  rewrite <-app_assoc, strip_prefix_app. run.
  rewrite atoi_pct_d by (done || lia). by rewrite wrap_small by (unfold fits; lia).
Qed.

Lemma read_cpus_lines l f acc :
  Forall (λ c, 0 ≤ c < 2 ^ 31) l →
  read_cpus (length l) ((l ≫= cpu_line) ++ f) acc = Ret (rev (CPU_RESOURCE <$> l) ++ acc).
Proof.
  intros Hl. revert acc. induction Hl as [|c l Hc _ IH]; intros acc; [done|].
  destruct (pct_d_chars c Hc) as (_&Hn&?). cbn [length read_cpus fmap list_fmap rev]. rewrite bind_cons.
  unfold cpu_line at 1. rewrite <-!app_assoc, (app_assoc (chars _)), fgets_line.
  - run. rewrite <-app_assoc, strip_prefix_app. run. rewrite atoi_pct_d by (done || lia).
    rewrite wrap_small by (unfold fits; lia). by rewrite IH.
  - apply Forall_app. split; [by repeat constructor|done].
  - rewrite length_app. simpl. lia.
Qed.

Section blocks.
Context (pct_p : Z → list Z) (Hp : ∀ a, fits 64 a → pct_p a = pct_wx 16 a).

(** A block that the proc file and the tool can both represent. *)
Definition block_ok (b : enclave_mem_block) : Prop :=
  0 ≤ base_addr b ∧ 0 ≤ pages b * 4096 < 2 ^ 32 ∧ base_addr b + pages b * 4096 < 2 ^ 63.

Definition mem_resource (b : enclave_mem_block) : enclave_resource :=
  MEM_RESOURCE (base_addr b) (base_addr b + pages b * 4096).

Lemma mem_regex_line i a e r :
  0 ≤ i < 2 ^ 31 → fits 64 a → fits 64 e →
  mem_regex (pct_d i ++ chars ": " ++ pct_p a ++ chars " - " ++ pct_p e ++ r) =
    Some (pct_wx 16 a, pct_wx 16 e).
Proof.
  intros Hi Ha He. destruct (pct_d_chars i Hi) as (Hd&_&Hl). unfold mem_regex.
  rewrite span_app by done. cbn beta iota.
  rewrite bool_decide_false by (intros E; rewrite E in Hl; simpl in Hl; lia).
  rewrite strip_prefix_app. run. rewrite (Hp a), (Hp e) by done.
  destruct (pct_wx_spec 16 a) as (La&Xa&_); [lia|done|]. destruct (pct_wx_spec 16 e) as (Le&Xe&_); [lia|done|].
  rewrite many_app by (done || by eapply list.Forall_impl; [exact Xa|exact digit_in_isxdigit]). run.
  rewrite strip_prefix_app. run.
  rewrite many_app by (done || by eapply list.Forall_impl; [exact Xe|exact digit_in_isxdigit]). done.
Qed.

Lemma strtol_address a : 0 ≤ a < 2 ^ 63 → u64 (strtol 16 (pct_wx 16 a)).1 = a.
Proof.
  intros Ha. destruct (pct_wx_spec 16 a) as (La&Xa&Va); [lia|lia|].
  rewrite <-(app_nil_r (pct_wx 16 a)), strtol_digits; rewrite ?Va; try done.
  - apply wrap_small. unfold fits. simpl. lia.
  - by destruct (pct_wx 16 a).
Qed.

Lemma address_chars a : fits 64 a → Forall (λ c, c ≠ newline) (pct_p a) ∧ length (pct_p a) = 16%nat.
Proof.
  intros Ha. rewrite Hp by done. destruct (pct_wx_spec 16 a) as (La&Xa&_); [lia|done|]. split; [|done].
  eapply list.Forall_impl; [exact Xa|]. intros c Hc. by apply digit_in_not_space in Hc as (_&_&_&?).
Qed.

Lemma read_blocks_lines l i f acc :
  Forall block_ok l → 0 ≤ i → i + zlen l < 2 ^ 31 →
  read_blocks (length l) (mem_lines pct_p i l ++ f) acc = Ret (rev (mem_resource <$> l) ++ acc).
Proof.
  intros Hl. revert i acc. induction Hl as [|b l (Hb1&Hb2&Hb3) _ IH]; intros i acc Hi Hn; [done|].
  cbn [length] in Hn. cbn [mem_lines length read_blocks fmap list_fmap rev].
  rewrite (wrap_small 32), (wrap_small 64) by (unfold fits; lia).
  assert (fits 64 (base_addr b) ∧ fits 64 (base_addr b + pages b * 4096)) as [Ha He] by (unfold fits; lia).
  destruct (address_chars _ Ha) as [Ca La]. destruct (address_chars _ He) as [Ce Le].
  destruct (pct_d_chars i ltac:(lia)) as (_&Ci&Li).
  rewrite <-!app_assoc.
  match goal with |- context [fgets 127 (?a1 ++ ?a2 ++ ?a3 ++ ?a4 ++ ?a5 ++ [newline] ++ ?r)] =>
    replace (a1 ++ a2 ++ a3 ++ a4 ++ a5 ++ [newline] ++ r)
      with ((a1 ++ a2 ++ a3 ++ a4 ++ a5) ++ [newline] ++ r) by (by rewrite <-!app_assoc) end.
  rewrite fgets_line.
  - run. rewrite <-!app_assoc, (regexec_here _ _ _ (mem_regex_line i _ _ [newline] ltac:(lia) Ha He)). run.
    rewrite !strtol_address by lia. rewrite IH by lia. done.
  - rewrite !Forall_app. split_and!; try done; by repeat constructor.
  - rewrite !length_app, La, Le. simpl. lia.
Qed.
End blocks.

Section devices.

(** A device whose line the tool can read. *)
Definition dev_ok (d : pisces_pci_dev) : Prop :=
  Forall (λ c, isspace c = false ∧ c ≠ 58) (name d) ∧ (length (name d) ≤ 127)%nat ∧
  0 ≤ bus d < 256.

Definition pci_resource (d : pisces_pci_dev) : enclave_resource := PCI_RESOURCE [] (bdf d).

Lemma pci_regex_skip nm s :
  Forall (λ c, isspace c = false ∧ c ≠ 58) nm → regexec pci_regex (nm ++ s) = regexec pci_regex s.
Proof.
  induction 1 as [|c nm [Hs Hc] _ IH]; [done|]. cbn [app regexec].
  assert (pci_regex (c :: nm ++ s) = None) as ->; [|done].
  unfold pci_regex. cbn [span]. rewrite Hs. cbn beta iota. cbn [chars strip_prefix].
  by rewrite (proj2 (Z.eqb_neq _ c)) by (simpl; lia).
Qed.

Lemma slot_func_bound dfn : 0 ≤ PCI_SLOT dfn < 32 ∧ 0 ≤ PCI_FUNC dfn < 8.
Proof.
  unfold PCI_SLOT, PCI_FUNC. change 0x1f with (Z.ones 5). change 0x07 with (Z.ones 3).
  rewrite !Z.land_ones by lia. split; by apply Z.mod_pos_bound.
Qed.

Lemma xdigit_neq c : digit_in 16 c = true → isxdigit c = true ∧ (58 =? c) = false.
Proof.
  intros Hc. split; [by apply digit_in_isxdigit|]. apply Z.eqb_neq.
  apply digit_in_Some in Hc as (d&Hd&_). apply digit_of_Some in Hd. lia.
Qed.

Lemma bdf_regex_line b s f r :
  0 ≤ b < 256 → 0 ≤ s < 32 → 0 ≤ f < 8 →
  let t := pct_wx 2 b ++ chars ":" ++ pct_wx 2 s ++ chars "." ++ pct_x f in
  bdf_regex true true (t ++ r) = None ∧ bdf_regex true false (t ++ r) = None ∧
  bdf_regex false true (t ++ r) = None ∧ bdf_regex false false (t ++ r) = Some t ∧
  Forall (λ c, c ≠ newline) t ∧ length t = 7%nat.
Proof.
  intros Hb Hs Hf t.
  destruct (pct_wx_spec 2 b) as (Lb&Xb&_); [lia|simpl; lia|].
  destruct (pct_wx_spec 2 s) as (Ls&Xs&_); [lia|simpl; lia|]. subst t.
  assert (pct_x f = [48 + f]) as ->.
  { unfold pct_x, print_base, digits. rewrite (proj2 (Z.ltb_lt f 16)), Z.mod_small by lia.
    cbn. unfold digit_char. by rewrite (proj2 (Z.ltb_lt f 10)) by lia. }
  destruct (pct_wx 2 b) as [|x1 [|x2 [|]]]; try done. destruct (pct_wx 2 s) as [|y1 [|y2 [|]]]; try done.
  apply Forall_cons_1 in Xb as [X1 [X2 _]%Forall_cons_1]. apply Forall_cons_1 in Xs as [Y1 [Y2 _]%Forall_cons_1].
  destruct (xdigit_neq _ X1) as [I1 N1], (xdigit_neq _ X2) as [I2 N2],
    (xdigit_neq _ Y1) as [J1 _], (xdigit_neq _ Y2) as [J2 _].
  assert ((48 <=? 48 + f) && (48 + f <=? 55) = true) as Hr by (rewrite andb_true_iff, !Z.leb_le; lia).
  change (chars ":") with [58]. change (chars ".") with [46]. unfold bdf_regex. cbn [app].
  assert (∀ l, many 4 isdigit (x1 :: x2 :: 58 :: l) = None) as Hno.
  { intros l. cbn [many]. destruct (isdigit x1), (isdigit x2); reflexivity. }
  rewrite !Hno. split; [done|]. split; [done|]. split; [|split; [|split]].
  - do 2 (run; cbn [many]). by rewrite N1.
  - do 8 (run; cbn [many Z.eqb Pos.eqb]; rewrite ?I1, ?I2, ?J1, ?J2, ?Hr). done.
  - repeat constructor; try done; try (by apply digit_in_not_space in X1 as (_&_&_&?));
      try (by apply digit_in_not_space in X2 as (_&_&_&?)); try (by apply digit_in_not_space in Y1 as (_&_&_&?));
      try (by apply digit_in_not_space in Y2 as (_&_&_&?)). unfold newline. lia.
  - done.
Qed.

Lemma read_devs_lines l f acc :
  Forall dev_ok l → read_devs (length l) ((l ≫= pci_line) ++ f) acc = Ret (rev (pci_resource <$> l) ++ acc).
Proof.
  intros Hl. revert acc. induction Hl as [|d l (Hn&Hlen&Hb) _ IH]; intros acc; [done|].
  cbn [length read_devs fmap list_fmap rev]. rewrite bind_cons.
  destruct (slot_func_bound (devfn d)) as [Hs Hf].
  destruct (bdf_regex_line (bus d) _ _ [newline] Hb Hs Hf) as (R1&R2&R3&R4&Cb&Lb).
  change (pct_wx 2 (bus d) ++ _) with (bdf d) in R1, R2, R3, R4, Cb, Lb.
  unfold pci_line at 1. rewrite <-!app_assoc.
  replace (name d ++ chars ": " ++ bdf d ++ [newline] ++ (l ≫= pci_line) ++ f)
    with ((name d ++ chars ": " ++ bdf d) ++ [newline] ++ (l ≫= pci_line) ++ f) by (by rewrite <-!app_assoc).
  rewrite fgets_line.
  - run. rewrite <-!app_assoc, pci_regex_skip by done.
    rewrite (regexec_here pci_regex _ ([], bdf d)).
    + run. cbn [length Nat.leb Nat.ltb]. by rewrite IH.
    + unfold pci_regex. change (span isspace _) with ([] : list Z, chars ": " ++ bdf d ++ [newline]).
      cbn beta iota. rewrite strip_prefix_app. run. rewrite R1, R2, R3, R4. done.
  - rewrite !Forall_app. split_and!; try done; [|by repeat constructor].
    eapply list.Forall_impl; [exact Hn|]. intros c [Hc _] ->. done.
  - rewrite !length_app, Lb. simpl. lia.
Qed.
End devices.

(** What the host's files hold when the kernel prints them. *)
Record shows (pct_p : Z → list Z) (NR_CPUS enclave : Z) (r : resources) (p : enclave_pci_state) (h : host)
  : Prop := {
  sh_ptr : IS_ERR enclave = false;
  sh_cpus : cpus_file h = Some (proc_cpu_show NR_CPUS enclave r);
  sh_mem : memory_file h = Some (proc_mem_show pct_p enclave r);
  sh_pci : pci_file h = Some (proc_pci_show enclave p)
}.

(** The state of an enclave whose resources the files can show. *)
Record showable (NR_CPUS : Z) (r : resources) (p : enclave_pci_state) : Prop := {
  ok_cpus : 0 ≤ NR_CPUS < 2 ^ 31;
  ok_wf : Resources.wf NR_CPUS r;
  ok_blocks : Forall block_ok (memdesc_list r);
  ok_num : zlen (memdesc_list r) < 2 ^ 31;
  ok_devs : Forall dev_ok (dev_list p);
  ok_cnt : dev_cnt p = zlen (dev_list p) ∧ zlen (dev_list p) < 2 ^ 31
}.

Definition held_resources (NR_CPUS : Z) (r : resources) (p : enclave_pci_state) : list enclave_resource :=
  (CPU_RESOURCE <$> for_each_cpu NR_CPUS (assigned_cpus r)) ++ (mem_resource <$> memdesc_list r) ++
  (pci_resource <$> dev_list p).

Lemma for_each_cpu_bound NR_CPUS m :
  0 ≤ NR_CPUS → zlen (for_each_cpu NR_CPUS m) ≤ NR_CPUS ∧
  Forall (λ c, 0 ≤ c < NR_CPUS) (for_each_cpu NR_CPUS m).
Proof.
  intros Hn. unfold for_each_cpu. split.
  - pose proof (length_filter (λ c, Z.testbit m c = true) (seqZ 0 NR_CPUS)) as Hl.
    rewrite length_seqZ in Hl. lia.
  - apply list.Forall_forall. intros c [_ Hc]%list_elem_of_filter. apply elem_of_seqZ in Hc. lia.
Qed.

Lemma read_resources_shows pct_p NR_CPUS ptr r p h :
  (∀ a, fits 64 a → pct_p a = pct_wx 16 a) → showable NR_CPUS r p → shows pct_p NR_CPUS ptr r p h →
  read_resources h = Ret (rev (held_resources NR_CPUS r p)).
Proof.
  intros Hp [Hn [Hc _ _ Hm] Hb Hbn Hd [Hdc Hdn]] [He Hf1 Hf2 Hf3].
  unfold read_resources, read_cpu_resources, read_mem_resources, read_pci_resources. rewrite Hf1, Hf2, Hf3.
  unfold proc_cpu_show, proc_mem_show, proc_pci_show. rewrite He, Hc, Hm, Hdc.
  destruct (for_each_cpu_bound NR_CPUS (assigned_cpus r)) as [Hl Hf]; [lia|].
  set (cpus := for_each_cpu NR_CPUS (assigned_cpus r)) in *.
  rewrite !(swrap_small 32) by lia.
  rewrite (read_header_line (chars "Num CPUs: ")); [|lia|by repeat constructor|simpl; lia]. run. rewrite Nat2Z.id.
  rewrite <-(app_nil_r (cpus ≫= cpu_line)). rewrite read_cpus_lines.
  2: { eapply list.Forall_impl; [exact Hf|]. intros c ?. cbn beta in *. lia. }
  rewrite (read_header_line (chars "Num Memory Blocks: ")); [|lia|by repeat constructor|simpl; lia]. run. rewrite Nat2Z.id.
  rewrite <-(app_nil_r (mem_lines _ _ _)), read_blocks_lines by (done || lia).
  rewrite (read_header_line (chars "PCI Devices: ")); [|lia|by repeat constructor|simpl; lia]. run. rewrite Nat2Z.id.
  rewrite <-(app_nil_r (dev_list p ≫= pci_line)), read_devs_lines by done.
  unfold held_resources. fold cpus. by rewrite !rev_app_distr, app_nil_r, !app_assoc.
Qed.

(** What giving back each resource does. *)
Definition cpu_events (l : list Z) : list event := OnlineCpu <$> l.
Definition block_events (bs : Z) (b : enclave_mem_block) : list event :=
  OnlineBlock <$> seqZ (base_addr b / bs) (pages b * 4096 / bs).
Definition dev_event (d : pisces_pci_dev) : event :=
  OnlinePci (bus d) (PCI_SLOT (devfn d)) (PCI_FUNC (devfn d)).

Lemma fmap_rev {A B} (f : A → B) l : rev (f <$> l) = f <$> rev l.
Proof. induction l as [|x l IH]; [done|]. cbn [fmap list_fmap rev]. by rewrite fmap_app, <-IH. Qed.

Lemma bind_single {A B} (f : A → B) l : (l ≫= λ x, [f x]) = f <$> l.
Proof. induction l as [|x l IH]; [done|]. by rewrite bind_cons, IH. Qed.

Lemma online_all_app h l1 l2 tr :
  online_all h (l1 ++ l2) tr =
    match online_all h l1 tr with Some (0, tr) => online_all h l2 tr | o => o end.
Proof.
  revert tr. induction l1 as [|res l1 IH]; intros tr; [done|]. cbn [app online_all].
  by destruct (online h res).
Qed.

Lemma online_all_map {A} h (res : A → enclave_resource) (ev : A → list event) l tr :
  Forall (λ x, online h (res x) = Ret (ev x)) l →
  online_all h (res <$> l) tr = Some (0, tr ++ (l ≫= ev)).
Proof.
  intros Hl. revert tr. induction Hl as [|x l Hx _ IH]; intros tr; [by rewrite app_nil_r|].
  cbn [fmap list_fmap online_all]. by rewrite Hx, IH, bind_cons, app_assoc.
Qed.

(** A block of whole hotplug blocks whose numbers are [int]s. *)
Definition block_aligned (bs : Z) (b : enclave_mem_block) : Prop :=
  base_addr b mod bs = 0 ∧ (base_addr b + pages b * 4096) / bs < 2 ^ 31.

Lemma online_block h b :
  0 < pet_block_size h → block_ok b → block_aligned (pet_block_size h) b →
  online h (mem_resource b) = Ret (block_events (pet_block_size h) b).
Proof.
  intros Hbs (H1&H2&H3) [Ha He]. unfold online, mem_resource, block_events. set (bs := pet_block_size h) in *.
  rewrite (proj2 (Z.eqb_neq bs 0)) by lia.
  replace (base_addr b + pages b * 4096 - base_addr b) with (pages b * 4096) by lia.
  rewrite wrap_small by (unfold fits; lia).
  apply Z.mod_divide in Ha as [k Hk]; [|lia].
  assert ((base_addr b + pages b * 4096) / bs = k + pages b * 4096 / bs) as Hs.
  { rewrite Hk, Z.add_comm, Z.div_add by lia. lia. }
  assert (base_addr b / bs = k) as Hb by (rewrite Hk, Z.div_mul by lia; done).
  assert (0 ≤ k) by (apply (Z.mul_nonneg_cancel_r k bs); lia).
  pose proof (Z.div_pos (pages b * 4096) bs ltac:(lia) Hbs). rewrite Hb, (swrap_small 32) by lia. f_equal.
  transitivity (OnlineBlock <$> (Z.add k <$> seqZ 0 (pages b * 4096 / bs))).
  - rewrite <-list_fmap_compose. apply list_fmap_ext. intros i x Hx. apply lookup_seqZ in Hx as [-> Hx].
    unfold compose. rewrite swrap_small by lia. f_equal.
  - rewrite fmap_add_seqZ. by rewrite Z.add_0_r.
Qed.

(** The machine the tool can give everything back to. *)
Record gives_back (h : host) (r : resources) (p : enclave_pci_state) : Prop := {
  gb_ctrl : 0 ≤ ctrl_fd h ∧ shutdown_ret h = 0;
  gb_size : 0 < pet_block_size h;
  gb_blocks : Forall (block_aligned (pet_block_size h)) (memdesc_list r);
  gb_bdf : ∀ b s f, 0 ≤ b < 256 → 0 ≤ s < 32 → 0 ≤ f < 8 →
    pet_parse_bdf h (pct_wx 2 b ++ chars ":" ++ pct_wx 2 s ++ chars "." ++ pct_x f) = Some (b, s, f)
}.

Lemma teardown_events pct_p NR_CPUS ptr pisces_id r p h :
  (∀ a, fits 64 a → pct_p a = pct_wx 16 a) → showable NR_CPUS r p → shows pct_p NR_CPUS ptr r p h →
  gives_back h r p → pisces_teardown h pisces_id = Some (0,
     [CtrlConnect; Shutdown; CloseCtrl; FreeEnclave pisces_id] ++
     (dev_event <$> rev (dev_list p)) ++
     (rev (memdesc_list r) ≫= block_events (pet_block_size h)) ++
     cpu_events (rev (for_each_cpu NR_CPUS (assigned_cpus r)))).
Proof.
  intros Hp Hok Hsh [[Hc Hs] Hbs Hbl Hbdf]. unfold pisces_teardown, send_shutdown.
  rewrite (read_resources_shows _ _ _ _ _ _ Hp Hok Hsh).
  rewrite (proj2 (Z.ltb_ge _ 0)) by lia. rewrite Hs. cbn [Z.eqb negb].
  destruct Hok as [_ _ Hb _ Hd _]. unfold held_resources.
  rewrite !rev_app_distr, !fmap_rev, <-!app_assoc, !online_all_app.
  rewrite (online_all_map h pci_resource (λ d, [dev_event d])).
  2: { apply List.Forall_rev. eapply list.Forall_impl; [exact Hd|]. intros d (_&_&?).
       destruct (slot_func_bound (devfn d)). unfold online, pci_resource, bdf.
       by rewrite Hbdf. }
  cbn beta iota. rewrite online_all_app, (online_all_map h mem_resource (block_events (pet_block_size h))).
  2: { apply List.Forall_rev. apply list.Forall_forall. intros b Hin.
       apply online_block; [done|by eapply list.Forall_forall in Hb|by eapply list.Forall_forall in Hbl]. }
  cbn beta iota. rewrite (online_all_map h CPU_RESOURCE (λ c, [OnlineCpu c])) by (by apply list.Forall_true).
  by rewrite !bind_single, <-!app_assoc.
Qed.

(** ** Properties *)



(** An enclave with two processors, two blocks and a device. *)
Definition demo_resources : resources :=
  {| num_cpus := 2; assigned_cpus := 6; memdesc_num := 2;
     memdesc_list := [{| base_addr := 0x8000000; pages := 32768 |};
                      {| base_addr := 0x20000000; pages := 65536 |}] |}.
Definition demo_pci : enclave_pci_state :=
  {| dev_cnt := 1;
     dev_list := [{| addr := 4096; name := chars "nic"; bus := 11; devfn := 9; ready := true;
                     assigned := false; iommu_enabled := false; device_ipi_vector := 0;
                     intx_disabled := false |}] |}.

(** A reader of [bus:dev.fn]. *)
Definition demo_bdf (s : list Z) : option (Z * Z * Z) :=
  let '(b, s) := strtol 16 s in let '(d, s) := strtol 16 (drop 1 s) in
  let '(f, _) := strtol 16 (drop 1 s) in Some (b, d, f).

Definition demo_host : host :=
  {| cpus_file := Some (proc_cpu_show 8 4096 demo_resources);
     memory_file := Some (proc_mem_show (pct_wx 16) 4096 demo_resources);
     pci_file := Some (proc_pci_show 4096 demo_pci);
     ctrl_fd := 5; shutdown_ret := 0; pet_block_size := 0x8000000; pet_parse_bdf := demo_bdf |}.

Lemma demo_showable : showable 8 demo_resources demo_pci.
Proof.
  split; [lia| | |simpl; lia| |simpl; lia].
  - split; [reflexivity|simpl; lia| |reflexivity].
    repeat constructor; unfold block_le; simpl; lia.
  - repeat constructor; simpl; lia.
  - repeat constructor; simpl; lia || reflexivity.
Qed.

Lemma demo_shows : shows (pct_wx 16) 8 4096 demo_resources demo_pci demo_host.
Proof. by split. Qed.


(** Printed fields are read back by [demo_bdf]. *)
Lemma demo_bdf_reads b s f :
  0 ≤ b < 256 → 0 ≤ s < 32 → 0 ≤ f < 8 →
  demo_bdf (pct_wx 2 b ++ chars ":" ++ pct_wx 2 s ++ chars "." ++ pct_x f) = Some (b, s, f).
Proof.
  intros Hb Hs Hf. unfold demo_bdf.
  destruct (pct_wx_spec 2 b) as (Lb&Xb&Vb); [lia|simpl; lia|].
  destruct (pct_wx_spec 2 s) as (Ls&Xs&Vs); [lia|simpl; lia|].
  rewrite strtol_digits; rewrite ?Vb; [|by destruct (pct_wx 2 b)|done|by split|lia].
  change (chars ":") with [58]. change (chars ".") with [46]. cbn beta iota. cbn [app drop]. rewrite drop_0.
  rewrite strtol_digits; rewrite ?Vs; [|by destruct (pct_wx 2 s)|done|by split|lia].
  cbn beta iota. cbn [drop]. rewrite drop_0.
  pose proof (strtol_print 16 f [] ltac:(lia) ltac:(lia) I) as Hp. rewrite app_nil_r in Hp.
  unfold pct_x. by rewrite Hp.
Qed.

