(* ===== verification/Main.v ===== *)
(** * Loading and unloading the module ([src/main.c], [src/linux_syms.c])

    What [pisces_init] takes from the kernel, in which order, what it gives back
    when a step fails, and what [pisces_exit] gives back.  The kernel's answers
    are arguments; acquisitions and releases are events. *)
From S2P Require Import Prelude Resources Text.
#[local] Open Scope Z_scope.
#[local] Open Scope list_scope.

(** ** The code: kernel symbols *)

Definition KERNEL_VERSION (a b c : Z) : Z := a * 65536 + b * 256 + c.

(** The symbols looked up, in order, by the kernels that do not export them. *)
Definition looked_up (LINUX_VERSION_CODE : Z) : list (list Z) :=
  (if LINUX_VERSION_CODE <? KERNEL_VERSION 3 16 0 then [chars "create_irq"; chars "destroy_irq"] else []) ++
  (if LINUX_VERSION_CODE <? KERNEL_VERSION 3 4 0 then [chars "handle_edge_irq"; chars "irq_to_desc"] else []).

Fixpoint lookup_all (kallsyms : list Z → Z) (l : list (list Z)) : Z :=
  match l with
  | [] => 0
  | s :: l => if kallsyms s =? 0 then -1 else lookup_all kallsyms l
  end.
Definition pisces_linux_symbol_init (LINUX_VERSION_CODE : Z) (kallsyms_lookup_name : list Z → Z) : Z :=
  lookup_all kallsyms_lookup_name (looked_up LINUX_VERSION_CODE).

(** ** The code: the module *)

(** What the module takes and gives back.  A region of device numbers is its
    major number, first minor number and count. *)
Inductive module_event :=
  | ProcMkdir | RemoveProcDir | ProcDbg | RemoveProcDbg
  | AllocPgt | FreePgt                              (* the pages of the trampoline's tables *)
  | AllocCache | FreeCache                          (* [init_trampoline]'s page *)
  | AllocRegion (major first count : Z) | UnregisterRegion (major first count : Z)
  | ClassCreate | ClassDestroy
  | DeviceCreate (minor : Z) | DeviceDestroy (minor : Z)
  | CdevAdd (minor : Z) | CdevDel.

Record init_env := {
  LINUX_VERSION_CODE : Z;
  kallsyms_lookup_name : list Z → Z;
  pgt_pages : Z;                 (* alloc_pages: 0 when there are none *)
  arch_init : Z;                 (* init_trampoline *)
  alloc_chrdev_region : Z;       (* < 0 or 0 *)
  major : Z;
  class_ptr : Z;                 (* class_create: NULL, a pointer or an error pointer *)
  device_ptr : Z;                (* device_create *)
  cdev_add_ret : Z;
  dbg_entry : Z
}.

(** [pisces_init_trampoline] as the module sees it (its tables are in [Boot]);
    the page is allocated when [init_trampoline] succeeds. *)
Definition init_trampoline_events (e : init_env) : Z * list module_event :=
  if pgt_pages e =? 0 then (-1, []) else
  (arch_init e, AllocPgt :: if arch_init e =? 0 then [AllocCache] else []).

(** [pisces_deinit_trampoline], with [deinit_trampoline]. *)
Definition pisces_deinit_trampoline : list module_event := [FreeCache; FreePgt].

Definition MAX : Z := Z.of_nat MAX_ENCLAVES.

Definition pisces_init (e : init_env) : Z * list module_event :=
  let tr := [ProcMkdir] in
  if negb (pisces_linux_symbol_init (LINUX_VERSION_CODE e) (kallsyms_lookup_name e) =? 0) then (-1, tr) else
  let '(ret, t) := init_trampoline_events e in
  let tr := tr ++ t in
  if negb (ret =? 0) then (-1, tr) else
  if alloc_chrdev_region e <? 0 then (-1, tr ++ pisces_deinit_trampoline) else
  let tr := tr ++ [AllocRegion (major e) 0 (MAX + 1)] in
  let minor := MAX + 1 in                                        (* of dev_num *)
  if class_ptr e =? 0 then
    (-1, tr ++ [UnregisterRegion (major e) minor 1] ++ pisces_deinit_trampoline) else
  let tr := tr ++ [ClassCreate] in
  if device_ptr e =? 0 then
    (-1, tr ++ [ClassDestroy; UnregisterRegion (major e) minor (MAX + 1)] ++ pisces_deinit_trampoline) else
  let tr := tr ++ [DeviceCreate minor] in
  if cdev_add_ret e =? -1 then
    (-1, tr ++ [DeviceDestroy minor; ClassDestroy; UnregisterRegion (major e) minor (MAX + 1)] ++
         pisces_deinit_trampoline) else
  let tr := tr ++ [CdevAdd minor] in
  (0, tr ++ if dbg_entry e =? 0 then [] else [ProcDbg]).

Definition pisces_exit (pisces_major_num : Z) : list module_event :=
  let minor := MAX + 1 in
  [UnregisterRegion pisces_major_num 0 (MAX + 1); CdevDel; DeviceDestroy minor; ClassDestroy;
   RemoveProcDbg; RemoveProcDir] ++ pisces_deinit_trampoline.

(** ** Specification: what is held

    A release gives back what it names; a region of device numbers is given back
    by its own first number and count.  Giving back what is not held does
    nothing. *)
Inductive thing :=
  | ProcDir | DbgFile | PgtPages | CachePage | Region (major first count : Z) | Class_ | Device (minor : Z) | Cdev.
#[export] Instance thing_eq_dec : EqDecision thing.
Proof. solve_decision. Defined.

Definition acquires (e : module_event) : option thing :=
  match e with
  | ProcMkdir => Some ProcDir | ProcDbg => Some DbgFile | AllocPgt => Some PgtPages
  | AllocCache => Some CachePage | AllocRegion m f c => Some (Region m f c)
  | ClassCreate => Some Class_ | DeviceCreate m => Some (Device m) | CdevAdd _ => Some Cdev
  | _ => None
  end.
Definition releases (e : module_event) : option thing :=
  match e with
  | RemoveProcDir => Some ProcDir | RemoveProcDbg => Some DbgFile | FreePgt => Some PgtPages
  | FreeCache => Some CachePage | UnregisterRegion m f c => Some (Region m f c)
  | ClassDestroy => Some Class_ | DeviceDestroy m => Some (Device m) | CdevDel => Some Cdev
  | _ => None
  end.
Definition apply (h : list thing) (e : module_event) : list thing :=
  match acquires e, releases e with
  | Some t, _ => t :: h
  | None, Some t => filter (λ u, u ≠ t) h
  | None, None => h
  end.
Definition holds (tr : list module_event) : list thing := foldl apply [] tr.

(** ** Properties *)

Lemma lookup_all_spec f l : lookup_all f l = if bool_decide (Forall (λ s, f s ≠ 0) l) then 0 else -1.
Proof.
  induction l as [|s l IH]; [done|]. simpl. rewrite IH. destruct (Z.eqb_spec (f s) 0) as [E|E].
  - rewrite bool_decide_false; [done|]. by intros [? _]%Forall_cons_1.
  - case_bool_decide as H1; case_bool_decide as H2; try done.
    + destruct H2. by constructor.
    + by apply Forall_cons_1 in H2 as [_ ?].
Qed.

(** What is held after concrete events. *)
Ltac held :=
  unfold holds; cbn [foldl apply acquires releases app];
  repeat (rewrite filter_cons ||
          first [rewrite decide_True by (intros [=]; done) | rewrite decide_False by (intros Hne; by apply Hne)]);
  rewrite ?filter_nil.

(** Facts about one outcome of [pisces_init]. *)
Ltac refute := intros ?; destruct_and?; done || lia.
Ltac outcome :=
  cbn [app]; split; [assumption|]; split; [|split];
  [split; [intros ?; done || (split_and!; done || lia)|refute || done]
  |intros Hr; first [by destruct Hr|done|split; [held; cbn [app]; solve_Permutation|held; done]]
  |intros Hr; first [by destruct Hr|
     split; [done|];
     repeat match goal with |- context [bool_decide ?P] =>
       first [rewrite (bool_decide_true P) by (split_and!; done || lia)
             |rewrite (bool_decide_false P) by refute] end; cbn [app]; held; done]].

(** C39: Loading the module returns 0 exactly when every symbol the kernel does
    not export is found, the tables and the trampoline are initialised, and the
    region, the class, the device and the character device are created (as far as
    the code tests them); it then holds exactly these, and unloading gives
    everything back.  When loading fails it returns -1, the trampoline's pages
    and every device object are given back if they were complete, but the proc
    directory never is, nor the tables when [init_trampoline] fails, nor the
    region of device numbers once it was allocated. *)
Theorem module_init_exit (e : init_env) :
  let syms := pisces_linux_symbol_init (LINUX_VERSION_CODE e) (kallsyms_lookup_name e) = 0 in
  let tramp := pgt_pages e ≠ 0 ∧ arch_init e = 0 in
  let objects := class_ptr e ≠ 0 ∧ device_ptr e ≠ 0 ∧ cdev_add_ret e ≠ -1 in
  let '(ret, tr) := pisces_init e in
  (syms ↔ Forall (λ s, kallsyms_lookup_name e s ≠ 0) (looked_up (LINUX_VERSION_CODE e))) ∧
  (ret = 0 ↔ syms ∧ tramp ∧ 0 ≤ alloc_chrdev_region e ∧ objects) ∧
  (ret = 0 → holds tr ≡ₚ [ProcDir; PgtPages; CachePage; Region (major e) 0 (MAX + 1); Class_;
                          Device (MAX + 1); Cdev] ++ (if dbg_entry e =? 0 then [] else [DbgFile]) ∧
             holds (tr ++ pisces_exit (major e)) = []) ∧
  (ret ≠ 0 → ret = -1 ∧ holds tr =
     (if bool_decide (syms ∧ tramp ∧ 0 ≤ alloc_chrdev_region e) then [Region (major e) 0 (MAX + 1)] else []) ++
     (if bool_decide (syms ∧ pgt_pages e ≠ 0 ∧ arch_init e ≠ 0) then [PgtPages] else []) ++ [ProcDir]).
Proof.
  intros syms tramp objects.
  assert (syms ↔ Forall (λ s, kallsyms_lookup_name e s ≠ 0) (looked_up (LINUX_VERSION_CODE e))) as Hsyms.
  { unfold syms, pisces_linux_symbol_init. rewrite lookup_all_spec. case_bool_decide; naive_solver. }
  unfold syms, tramp, objects in *. clear syms tramp objects.
  unfold pisces_init, init_trampoline_events, pisces_deinit_trampoline, pisces_exit, MAX.
  change (Z.of_nat MAX_ENCLAVES + 1) with 129.
  destruct (Z.eqb_spec (pisces_linux_symbol_init (LINUX_VERSION_CODE e) (kallsyms_lookup_name e)) 0) as [E1|E1];
    cbn [negb]; [|outcome].
  destruct (Z.eqb_spec (pgt_pages e) 0) as [E2|E2]; [outcome|].
  destruct (Z.eqb_spec (arch_init e) 0) as [E3|E3]; cbn [negb]; [|outcome].
  destruct (Z.ltb_spec (alloc_chrdev_region e) 0) as [E4|E4]; [outcome|].
  destruct (Z.eqb_spec (class_ptr e) 0) as [E5|E5]; [outcome|].
  destruct (Z.eqb_spec (device_ptr e) 0) as [E6|E6]; [outcome|].
  destruct (Z.eqb_spec (cdev_add_ret e) (-1)) as [E7|E7]; [outcome|].
  destruct (Z.eqb_spec (dbg_entry e) 0) as [E8|E8]; outcome.
Qed.
