(* ===== verification/Irq.v ===== *)
(** * Interrupts for notifications between enclaves ([src/pisces_irq.c])

    Interrupt lines are requested from the host's kernel for the console and the
    message buffers; their vectors are what enclaves send.  The kernel's table of
    interrupts is a finite map; the answers of its allocators are arguments. *)
From S2P Require Import Prelude Text.
From stdpp Require Import gmap.
#[local] Open Scope Z_scope.

(** ** The code *)

(** An allocated interrupt: the vector in its chip data, its trigger and the
    callbacks registered for it. *)
Record irq_desc := { vector : Z; level : bool; handlers : list Z }.
Abbreviation irq_table := (gmap Z irq_desc).

Definition APIC_LVT_MASKED : Z := 65536.
(** The new value of [APIC_LVT0]. *)
Definition mask_lapic_irq (lvt0 : Z) : Z := Z.lor lvt0 APIC_LVT_MASKED.
Definition unmask_lapic_irq (lvt0 : Z) : Z := Z.ldiff lvt0 APIC_LVT_MASKED.

(** [linux_create_irq] or [irq_alloc_hwirq]: the number it returns, with the
    interrupt that then has it.  An interrupt is made edge triggered. *)
Definition pisces_alloc_irq (answer : Z * irq_desc) (t : irq_table) : Z * irq_table :=
  let '(irq, d) := answer in
  if irq >? 0 then (irq, <[irq := {| vector := vector d; level := false; handlers := handlers d |}]> t)
  else (irq, t).

Definition pisces_free_irq (irq : Z) (t : irq_table) : irq_table := delete irq t.

(** [request_irq], when the kernel accepts the callback. *)
Definition request_irq (irq priv : Z) (t : irq_table) : irq_table :=
  alter (λ d, {| vector := vector d; level := level d; handlers := priv :: handlers d |}) irq t.
Definition free_irq (irq priv : Z) (t : irq_table) : irq_table :=
  alter (λ d, {| vector := vector d; level := level d; handlers := filter (λ p, p ≠ priv) (handlers d) |}) irq t.

(** The interrupt's name: 15 characters of it are kept. *)
Definition irq_name (irq : Z) : list Z := take 15 (chars "pisces-" ++ pct_d irq).

(** [request_ret]: what [request_irq] answers for the interrupt and its name. *)
Definition pisces_request_irq (answer : Z * irq_desc) (request_ret : Z → list Z → Z) (priv : Z)
    (t : irq_table) : Z * irq_table :=
  let '(irq, t) := pisces_alloc_irq answer t in
  if irq <? 0 then (irq, t) else
  if negb (request_ret irq (irq_name irq) =? 0) then (-1, pisces_free_irq irq t) else
  (irq, request_irq irq priv t).

Definition pisces_release_irq (irq priv : Z) (t : irq_table) : Z * irq_table :=
  (0, pisces_free_irq irq (free_irq irq priv t)).

(** [irq_get_chip_data] is NULL for an interrupt that is not allocated. *)
Definition pisces_irq_to_vector (irq : Z) (t : irq_table) : Z :=
  match t !! irq with None => -1 | Some d => vector d end.

(** The interrupt sent: the destination's APIC id and the vector. *)
Section ipi.
Context (cpu_present_to_apicid : Z → Z).
Definition pisces_send_ipi_to_apic (apic_id vector : Z) : Z * Z := (apic_id, vector).
Definition pisces_send_ipi (cpu_id vector : Z) : Z * Z :=
  pisces_send_ipi_to_apic (cpu_present_to_apicid cpu_id) vector.
Definition pisces_send_enclave_ipi (boot_cpu vector : Z) : Z * Z := pisces_send_ipi boot_cpu vector.
End ipi.

(** ** Properties *)

(** Masking and unmasking change the mask bit only. *)
Lemma lapic_mask_bit lvt0 i :
  0 ≤ i → Z.testbit (mask_lapic_irq lvt0) i = Z.testbit lvt0 i || (i =? 16) ∧
  Z.testbit (unmask_lapic_irq lvt0) i = Z.testbit lvt0 i && negb (i =? 16).
Proof.
  intros Hi. unfold mask_lapic_irq, unmask_lapic_irq. change APIC_LVT_MASKED with (2 ^ 16).
  rewrite Z.lor_spec, Z.ldiff_spec, Z.pow2_bits_eqb by lia. by rewrite (Z.eqb_sym 16 i).
Qed.

(** An interrupt that is allocated and accepted is registered for the
    caller alone, edge triggered and with the vector the kernel gave it, which is
    what enclaves are told to send; releasing it leaves the kernel's table as it
    was.  A negative answer of the allocator is returned and a refused callback
    gives the interrupt back, with the table unchanged.  But the 0 by which newer
    allocators report failure is not an error here: the callback is then
    registered on interrupt 0 and 0 returned. *)
Theorem irq_request_release (irq priv : Z) (d : irq_desc) (request_ret : Z → list Z → Z) (t : irq_table)
    (Hd : handlers d = []) (Hfree : 0 < irq → t !! irq = None) :
  let '(ret, t') := pisces_request_irq (irq, d) request_ret priv t in
  let accepted := request_ret irq (irq_name irq) = 0 in
  (0 < irq → accepted →
     ret = irq ∧ t' !! irq = Some {| vector := vector d; level := false; handlers := [priv] |} ∧
     delete irq t' = t ∧ pisces_irq_to_vector ret t' = vector d ∧ pisces_release_irq irq priv t' = (0, t)) ∧
  (irq < 0 → ret = irq ∧ t' = t) ∧
  (0 < irq → ¬ accepted → ret = -1 ∧ t' = t ∧ pisces_irq_to_vector irq t' = -1) ∧
  (irq = 0 → accepted → ret = 0 ∧ ∀ d0, t !! 0 = Some d0 →
     t' = <[0 := {| vector := vector d0; level := level d0; handlers := priv :: handlers d0 |}]> t).
Proof.
  unfold pisces_request_irq, pisces_alloc_irq. rewrite Z.gtb_ltb.
  destruct (Z.ltb_spec 0 irq) as [Hp|Hp].
  - specialize (Hfree Hp). rewrite (proj2 (Z.ltb_ge irq 0)) by lia.
    destruct (Z.eqb_spec (request_ret irq (irq_name irq)) 0) as [E|E]; cbn [negb].
    + split; [|split; [lia|split; [done|lia]]]. intros _ _. unfold request_irq. rewrite alter_insert_eq.
      cbn [vector level handlers]. rewrite Hd. split; [done|]. rewrite lookup_insert_eq. split; [done|].
      rewrite delete_insert_id by done. split; [done|]. split.
      { unfold pisces_irq_to_vector. by rewrite lookup_insert_eq. }
      unfold pisces_release_irq, pisces_free_irq, free_irq. rewrite alter_insert_eq.
      by rewrite delete_insert_id.
    + split; [done|]. split; [lia|]. split; [|lia]. intros _ _. unfold pisces_free_irq.
      rewrite delete_insert_id by done. split; [done|]. split; [done|].
      unfold pisces_irq_to_vector. by rewrite Hfree.
  - destruct (Z.ltb_spec irq 0) as [Hn|Hn]; cbv beta iota zeta.
    + split; [intros; lia|]. split; [by intros _|]. split; intros; lia.
    + assert (irq = 0) as -> by lia. destruct (Z.eqb_spec (request_ret 0 (irq_name 0)) 0) as [E|E];
        cbn [negb]; (split; [intros; lia|]); (split; [intros; lia|]); (split; [intros; lia|]); [|done].
      intros _ _. split; [done|]. intros d0 H0. unfold request_irq.
      apply map_eq. intros i. destruct (decide (i = 0)) as [->|Hi].
      * by rewrite lookup_alter_eq, lookup_insert_eq, H0.
      * by rewrite lookup_alter_ne, lookup_insert_ne by done.
Qed.

Lemma irq_request_release_witness :
  let d := {| vector := 0x41; level := true; handlers := [] |} in
  let t := <[0 := {| vector := 0x30; level := false; handlers := [7] |}]> (∅ : irq_table) in
  let '(ret, t') := pisces_request_irq (25, d) (λ _ _, 0) 4096 t in
  ret = 25 ∧ pisces_irq_to_vector ret t' = 0x41 ∧ pisces_release_irq 25 4096 t' = (0, t).
Proof.
  intros d t. pose proof (irq_request_release 25 4096 d (λ _ _, 0) t eq_refl (λ _, eq_refl)) as H.
  destruct (pisces_request_irq (25, d) (λ _ _, 0) 4096 t) as [ret t'].
  destruct H as [H _]. destruct (H ltac:(lia) eq_refl) as (H1&_&_&H2&H3).
  split; [exact H1|]. split; [exact H2|exact H3].
Defined.
