(* ===== verification/Petlib.v ===== *)
(** * The interface to petlib

    The tools take memory blocks, processors and devices off line and put them
    back with functions of the petlib library, which is not part of the
    repository.  [Petlib] is these functions over a state of the host, [PetLaws]
    what the tools rely on: a call that fails changes nothing, one that succeeds
    takes or gives back what it names.  [PetBounds]: the numbers it takes are those of
    the machine.  A simple host satisfies both. *)
From S2P Require Import Prelude.
From stdpp Require Import gmap fin_sets.
#[local] Open Scope Z_scope.

Record mem_block := { mb_base : Z; mb_pages : Z }.

Class Petlib (H : Type) := {
  pet_block_size : Z;
  pet_num_blocks : Z → Z;
  pet_offline_contig_blocks : Z → Z → Z → H → Z * list mem_block * H;   (* number, zone, alignment *)
  pet_online_contig_blocks : Z → Z → H → H;                             (* number, first address *)
  pet_offline_blocks : Z → Z → H → Z * list mem_block * H;              (* number, zone *)
  pet_online_blocks : list mem_block → H → H;
  pet_offline_mem_node : Z → H → Z * list mem_block * H;
  pet_offline_block : Z → H → Z * H;
  pet_online_block : Z → H → H;
  pet_offline_cpus : Z → Z → H → Z * list Z * H;                        (* number, zone *)
  pet_online_cpus : list Z → H → H;
  pet_offline_cpu : Z → H → Z * H;
  pet_online_cpu : Z → H → H;
  (* what is off line: numbers of memory blocks and of processors *)
  blocks_off : H → gset Z;
  cpus_off : H → gset Z
}.

(** Block number [id] as a structure, and the numbers of consecutive blocks. *)
Definition block_of `{Petlib H} (id : Z) : mem_block :=
  {| mb_base := id * pet_block_size; mb_pages := pet_block_size / 4096 |}.
Definition ids (l : list Z) : gset Z := list_to_set l.

(** [h'] is [h] with the blocks [b] and the processors [c] off line as well. *)
Definition taken `{Petlib H} (b c : list Z) (h h' : H) : Prop :=
  NoDup b ∧ NoDup c ∧ ids b ## blocks_off h ∧ ids c ## cpus_off h ∧
  blocks_off h' = ids b ∪ blocks_off h ∧ cpus_off h' = ids c ∪ cpus_off h.

(** The same blocks and processors are off line. *)
Definition same `{Petlib H} (h h' : H) : Prop :=
  blocks_off h' = blocks_off h ∧ cpus_off h' = cpus_off h.

(** [h'] is [h] with them back on line. *)
Definition returned `{Petlib H} (b c : list Z) (h h' : H) : Prop :=
  blocks_off h' = blocks_off h ∖ ids b ∧ cpus_off h' = cpus_off h ∖ ids c.

Class PetLaws (H : Type) `{Petlib H} := {
  block_size_pos : 0 < pet_block_size;
  offline_contig n zone al h ret bl h' :
    pet_offline_contig_blocks n zone al h = (ret, bl, h') →
    (ret < 0 ∧ same h h') ∨
    (0 ≤ ret ∧ ∃ b0, 0 ≤ b0 ∧ bl = block_of <$> seqZ b0 n ∧ taken (seqZ b0 n) [] h h');
  online_contig n b0 h : returned (seqZ b0 n) [] h (pet_online_contig_blocks n (b0 * pet_block_size) h);
  offline_blocks n zone h ret bl h' :
    pet_offline_blocks n zone h = (ret, bl, h') → 0 ≤ n →
    ∃ l, 0 ≤ ret ≤ n ∧ zlen l = ret ∧ take (Z.to_nat ret) bl = block_of <$> l ∧ taken l [] h h';
  online_blocks l h : returned l [] h (pet_online_blocks (block_of <$> l) h);
  offline_mem_node zone h ret bl h' :
    pet_offline_mem_node zone h = (ret, bl, h') →
    ∃ l, 0 ≤ ret ≤ pet_num_blocks zone ∧ zlen l = ret ∧ zlen bl = pet_num_blocks zone ∧
      bl = (block_of <$> l) ++ replicate (length bl - length l) {| mb_base := 0; mb_pages := 0 |} ∧
      taken l [] h h';
  offline_block id h ret h' :
    pet_offline_block id h = (ret, h') → (ret = -1 ∧ same h h') ∨ (ret = 0 ∧ taken [id] [] h h');
  online_block id h : returned [id] [] h (pet_online_block id h);
  offline_cpus n zone h ret l h' :
    pet_offline_cpus n zone h = (ret, l, h') → 0 ≤ n →
    0 ≤ ret ≤ n ∧ taken [] (take (Z.to_nat ret) l) h h' ∧ ret ≤ zlen l ∧ Forall (fits 32) l;
  online_cpus l h : returned [] l h (pet_online_cpus l h);
  offline_cpu c h ret h' :
    pet_offline_cpu c h = (ret, h') → (ret = -1 ∧ same h h') ∨ (ret = 0 ∧ taken [] [c] h h');
  online_cpu c h : returned [] [c] h (pet_online_cpu c h)
}.

(** The numbers the host has: processors below [NR_CPUS], blocks of whole pages whose
    ends are addresses. *)
Definition block_number `{Petlib H} (id : Z) : Prop :=
  0 ≤ id ∧ (id + 1) * pet_block_size < 2 ^ 63 ∧ id + 1 < 2 ^ 31.

Class PetBounds (H : Type) `{Petlib H} (NR_CPUS : Z) := {
  block_size_pages : 0 < pet_block_size < 2 ^ 32 ∧ pet_block_size mod 4096 = 0;
  contig_bound n zone al h ret h' b0 :
    pet_offline_contig_blocks n zone al h = (ret, block_of <$> seqZ b0 n, h') → 0 ≤ ret →
    Forall block_number (seqZ b0 n);
  blocks_bound n zone h ret bl h' l :
    pet_offline_blocks n zone h = (ret, bl, h') → take (Z.to_nat ret) bl = block_of <$> l → Forall block_number l;
  node_bound zone h ret bl h' l k :
    pet_offline_mem_node zone h = (ret, bl, h') →
    bl = (block_of <$> l) ++ replicate k {| mb_base := 0; mb_pages := 0 |} → Forall block_number l;
  block_bound id h h' : pet_offline_block id h = (0, h') → block_number id;
  cpus_bound n zone h ret l h' :
    pet_offline_cpus n zone h = (ret, l, h') → Forall (λ c, 0 ≤ c < NR_CPUS) (take (Z.to_nat ret) l);
  cpu_bound c h h' : pet_offline_cpu c h = (0, h') → 0 ≤ c < NR_CPUS
}.

(** ** Lemmas *)

Lemma ids_cons x l : ids (x :: l) = {[x]} ∪ ids l.
Proof. done. Qed.
Lemma ids_app l1 l2 : ids (l1 ++ l2) = ids l1 ∪ ids l2.
Proof. apply list_to_set_app_L. Qed.
Lemma elem_of_ids x l : x ∈ ids l ↔ x ∈ l.
Proof. apply elem_of_list_to_set. Qed.

Section lemmas.
Context {H : Type} `{Petlib H}.

(** Taken and given back is as before. *)
Lemma taken_returned b c (h h' h'' : H) : taken b c h h' → returned b c h' h'' → same h h''.
Proof.
  intros (_&_&Hb&Hc&Eb&Ec) [Eb' Ec']. unfold same. rewrite Eb', Ec', Eb, Ec. set_solver.
Qed.

Lemma taken_trans b c (h1 h2 h3 : H) b' c' :
  taken b c h1 h2 → taken b' c' h2 h3 → taken (b ++ b') (c ++ c') h1 h3.
Proof.
  intros (N1&N2&D1&D2&E1&E2) (N3&N4&D3&D4&E3&E4). unfold taken. rewrite !ids_app.
  rewrite E1 in D3. rewrite E2 in D4.
  split; [|split; [|split; [set_solver|split; [set_solver|split]]]].
  - apply NoDup_app. split; [done|]. split; [|done]. intros x Hx Hx'.
    apply elem_of_ids in Hx, Hx'. set_solver.
  - apply NoDup_app. split; [done|]. split; [|done]. intros x Hx Hx'.
    apply elem_of_ids in Hx, Hx'. set_solver.
  - rewrite E3, E1. set_solver.
  - rewrite E4, E2. set_solver.
Qed.

Lemma same_refl (h : H) : same h h.
Proof. done. Qed.
Lemma same_trans (h1 h2 h3 : H) : same h1 h2 → same h2 h3 → same h1 h3.
Proof. unfold same. intros [<- <-] [<- <-]. done. Qed.

Lemma returned_trans b c (h1 h2 h3 : H) b' c' :
  returned b c h1 h2 → returned b' c' h2 h3 → returned (b ++ b') (c ++ c') h1 h3.
Proof. unfold returned. intros [-> ->] [-> ->]. rewrite !ids_app. set_solver. Qed.

(** What was taken in two parts, the second given back. *)
Lemma taken_same b c (h h' h'' : H) : taken b c h h' → same h' h'' → taken b c h h''.
Proof. unfold taken, same. intros (?&?&?&?&E1&E2) [E3 E4]. rewrite E3, E4. by split_and!. Qed.
End lemmas.

(** ** A host

    The two sets themselves, on a machine of [simple_cpus] processors and
    [simple_blocks] blocks of 128MB. *)

Definition simple_host := (gset Z * gset Z)%type.
Definition simple_cpus : Z := 64.
Definition simple_blocks : Z := 1024.

(** The first [n] numbers below [lim] that are not in [off]. *)
Definition free_below (lim n : Z) (off : gset Z) : list Z :=
  take (Z.to_nat n) (filter (λ i, i ∉ off) (seqZ 0 lim)).

Definition simple_block (id : Z) : mem_block := {| mb_base := id * 0x8000000; mb_pages := 0x8000000 / 4096 |}.

#[export] Instance simple_petlib : Petlib simple_host := {
  pet_block_size := 0x8000000;
  pet_num_blocks _ := simple_blocks;
  pet_offline_contig_blocks n _ _ h :=
    if bool_decide (0 < n ≤ simple_blocks - 8 ∧ ids (seqZ 8 n) ## h.1) then (0, simple_block <$> seqZ 8 n, (ids (seqZ 8 n) ∪ h.1, h.2))
    else (-1, [], h);
  pet_online_contig_blocks n base h := (h.1 ∖ ids (seqZ (base / 0x8000000) n), h.2);
  pet_offline_blocks n _ h := let l := free_below simple_blocks n h.1 in
    (zlen l, simple_block <$> l, (ids l ∪ h.1, h.2));
  pet_online_blocks bl h := (h.1 ∖ ids ((λ b, mb_base b / 0x8000000) <$> bl), h.2);
  pet_offline_mem_node _ h := let l := free_below simple_blocks simple_blocks h.1 in
    (zlen l, (simple_block <$> l) ++ replicate (Z.to_nat simple_blocks - length l) {| mb_base := 0; mb_pages := 0 |},
     (ids l ∪ h.1, h.2));
  pet_offline_block id h := if bool_decide (id ∈ h.1 ∨ ¬ 0 ≤ id < simple_blocks) then (-1, h) else (0, (ids [id] ∪ h.1, h.2));
  pet_online_block id h := (h.1 ∖ ids [id], h.2);
  pet_offline_cpus n _ h := let l := free_below simple_cpus n h.2 in (zlen l, l, (h.1, ids l ∪ h.2));
  pet_online_cpus l h := (h.1, h.2 ∖ ids l);
  pet_offline_cpu c h := if bool_decide (c ∈ h.2 ∨ ¬ 0 ≤ c < simple_cpus) then (-1, h) else (0, (h.1, ids [c] ∪ h.2));
  pet_online_cpu c h := (h.1, h.2 ∖ ids [c]);
  blocks_off := fst;
  cpus_off := snd
}.

Lemma free_below_spec lim n off :
  0 ≤ lim → NoDup (free_below lim n off) ∧ ids (free_below lim n off) ## off ∧
  (length (free_below lim n off) ≤ Z.to_nat n)%nat ∧ zlen (free_below lim n off) ≤ lim ∧
  Forall (λ i, 0 ≤ i < lim) (free_below lim n off).
Proof.
  intros Hl. unfold free_below. set (l := filter (λ i, i ∉ off) (seqZ 0 lim)).
  assert (∀ x, x ∈ take (Z.to_nat n) l → x ∉ off ∧ 0 ≤ x < lim) as Hin.
  { intros x Hx. apply elem_of_take in Hx as (i&Hx%list_elem_of_lookup_2&_).
    apply list_elem_of_filter in Hx as [? ?%elem_of_seqZ]. split; [done|lia]. }
  split; [|split; [|split; [|split]]].
  - apply (sublist_NoDup _ l); [apply NoDup_filter, NoDup_seqZ|apply sublist_take].
  - intros x Hx. apply elem_of_ids in Hx. apply Hin in Hx. set_solver.
  - rewrite length_take. lia.
  - pose proof (length_filter (λ i, i ∉ off) (seqZ 0 lim)) as Hf. rewrite length_seqZ in Hf.
    rewrite length_take. fold l in Hf. lia.
  - apply list.Forall_forall. intros x Hx. by apply Hin.
Qed.

Lemma simple_ids l : ids ((λ b, mb_base b / 0x8000000) <$> (simple_block <$> l)) = ids l.
Proof.
  f_equal. rewrite <-list_fmap_compose. rewrite <-(list_fmap_id l) at 2. apply list_fmap_ext.
  intros i x _. unfold compose, simple_block. cbn [mb_base]. by rewrite Z.div_mul.
Qed.

Lemma ids_nil_disjoint (X : gset Z) : ids [] ## X.
Proof. apply disjoint_empty_l. Qed.
Lemma ids_nil_union (X : gset Z) : X = ids [] ∪ X.
Proof. symmetry. apply (left_id_L ∅ (∪)). Qed.
Lemma ids_nil_difference (X : gset Z) : X ∖ ids [] = X.
Proof. apply difference_empty_L. Qed.
Lemma ids_one_disjoint x (X : gset Z) : x ∉ X → ids [x] ## X.
Proof. unfold ids. set_solver. Qed.
#[export] Hint Resolve ids_nil_disjoint ids_nil_union ids_one_disjoint : pisces.

(** The conditions of [taken], for sets written out. *)
Ltac takes := split_and!; auto using NoDup_seqZ, NoDup_singleton, NoDup_nil_2 with pisces.

Ltac petops :=
  cbn [pet_block_size pet_num_blocks pet_offline_contig_blocks pet_online_contig_blocks pet_offline_blocks
       pet_online_blocks pet_offline_mem_node pet_offline_block pet_online_block pet_offline_cpus
       pet_online_cpus pet_offline_cpu pet_online_cpu blocks_off cpus_off simple_petlib fst snd].

#[export] Instance simple_laws : PetLaws simple_host.
Proof.
  split.
  - done.
  - intros n zone al h ret bl h'. petops. case_bool_decide as E; intros [= <- <- <-]; [right|left; done].
    destruct E. split; [done|]. exists 8. split; [lia|]. split; [done|].
    takes.
  - intros n b0 h. unfold returned. petops. rewrite Z.div_mul by done. by rewrite ids_nil_difference.
  - intros n zone h ret bl h'. petops. intros [= <- <- <-] Hn.
    destruct (free_below_spec simple_blocks n h.1) as (?&?&Hl&_&_); [done|].
    exists (free_below simple_blocks n h.1). split; [lia|]. split; [done|].
    split; [by rewrite take_ge by (rewrite length_fmap; lia)|].
    takes.
  - intros l h. unfold returned. petops. change (block_of <$> l) with (simple_block <$> l).
    by rewrite simple_ids, ids_nil_difference.
  - intros zone h ret bl h'. petops. intros [= <- <- <-].
    destruct (free_below_spec simple_blocks simple_blocks h.1) as (?&?&Hl&?&_); [done|].
    exists (free_below simple_blocks simple_blocks h.1). split; [lia|]. split; [done|].
    rewrite length_app, length_fmap, length_replicate. split; [lia|]. split.
    + change (block_of <$> ?l) with (simple_block <$> l). do 2 f_equal. lia.
    + takes.
  - intros id h ret h'. petops. case_bool_decide as Hb; intros [= <- <-]; [by left|right]. split; [done|].
    apply Decidable.not_or in Hb as [Hb _]. takes.
  - intros id h. unfold returned. petops. by rewrite ids_nil_difference.
  - intros n zone h ret l h'. petops. intros [= <- <- <-] Hn.
    destruct (free_below_spec simple_cpus n h.2) as (?&?&Hl&_&Hr); [done|].
    rewrite Nat2Z.id, firstn_all. split; [lia|]. split; [|split; [lia|]].
    + takes.
    + eapply list.Forall_impl; [exact Hr|]. intros x ?. unfold fits, simple_cpus in *. cbn beta in *. lia.
  - intros l h. unfold returned. petops. by rewrite ids_nil_difference.
  - intros c h ret h'. petops. case_bool_decide as Hb; intros [= <- <-]; [by left|right]. split; [done|].
    apply Decidable.not_or in Hb as [Hb _]. takes.
  - intros c h. unfold returned. petops. by rewrite ids_nil_difference.
Qed.

(** *** Its numbers *)

Lemma simple_block_inj (l1 l2 : list Z) : simple_block <$> l1 = simple_block <$> l2 → l1 = l2.
Proof.
  intros E. assert (∀ l : list Z, (λ b, mb_base b / 0x8000000) <$> (simple_block <$> l) = l) as Hl.
  { intros l. rewrite <-list_fmap_compose. rewrite <-(list_fmap_id l) at 2. apply list_fmap_ext.
    intros i x _. unfold compose, simple_block. cbn [mb_base]. by rewrite Z.div_mul. }
  by rewrite <-(Hl l1), E, Hl.
Qed.

Lemma simple_number (l : list Z) : Forall (λ i, 0 ≤ i < simple_blocks) l → Forall block_number l.
Proof.
  intros Hl. eapply list.Forall_impl; [exact Hl|]. intros i Hi. cbn beta in Hi. unfold block_number, simple_blocks in *.
  petops. lia.
Qed.

#[export] Instance simple_bounds : PetBounds simple_host simple_cpus.
Proof.
  assert (∀ n off, Forall block_number (free_below simple_blocks n off)) as Hfree.
  { intros n off. apply simple_number. by destruct (free_below_spec simple_blocks n off) as (_&_&_&_&Hr). }
  split.
  - petops. done.
  - intros n zone al h ret h' b0. petops. case_bool_decide as E; [|intros [= <- _ _]; done].
    intros [= _ Hb _] _. change (simple_block <$> seqZ 8 n = simple_block <$> seqZ b0 n) in Hb.
    apply simple_block_inj in Hb as <-. apply simple_number, list.Forall_forall. intros x Hx%elem_of_seqZ. lia.
  - intros n zone h ret bl h' l. petops. intros [= <- <- _] Hb.
    change (take (Z.to_nat (zlen (free_below simple_blocks n h.1))) (simple_block <$> free_below simple_blocks n h.1) =
      simple_block <$> l) in Hb. rewrite take_ge in Hb by (rewrite length_fmap; lia).
    apply simple_block_inj in Hb as <-. apply Hfree.
  - intros zone h ret bl h' l k. petops. intros [= _ <- _] Hb.
    set (m := free_below simple_blocks simple_blocks h.1) in *.
    assert (Forall block_number m) as Hm by apply Hfree. clearbody m.
    revert Hb. generalize (Z.to_nat simple_blocks - length m)%nat as q. intros q Hb.
    revert l Hb. induction Hm as [|x m Hx _ IH]; intros [|y l] Hb; [constructor| |constructor|].
    + exfalso. apply (f_equal (λ l, mb_pages <$> head l)) in Hb. by destruct q.
    + cbn [app fmap list_fmap] in Hb. injection Hb as E Hb. constructor; [|by apply IH].
      assert (y = x) as -> by lia. done.
  - intros id h h'. petops. case_bool_decide as Hb; [done|]. intros _.
    assert (Forall block_number [id]) as Hn; [|by apply Forall_inv in Hn].
    apply simple_number. repeat constructor; lia.
  - intros n zone h ret l h'. petops. intros [= <- <- _]. rewrite take_ge by lia.
    by destruct (free_below_spec simple_cpus n h.2) as (_&_&_&_&Hr).
  - intros c h h'. petops. case_bool_decide as Hb; [done|]. intros _. lia.
Qed.
