(* ===== verification/Tools.v ===== *)
(** * The user-space library ([linux_usr/pisces.c], [linux_usr/pisces_ctrl.c], [linux_usr/pisces.h])

    Loading, launching and resetting an enclave, and giving it memory,
    processors, jobs and files, over a host with petlib ([Petlib]).  The answers
    of the ioctls are functions of the requests made before; every request is an
    event.  Allocations of the tools' own memory succeed unless said. *)
From stdpp Require Import gmap.
From S2P Require Import Prelude Text Resources BootParams Ctrl Petlib.
#[local] Open Scope Z_scope.
#[local] Open Scope list_scope.

(** ** The code: names of enclaves ([pisces.h]) *)

Definition PISCES_ANY_CPU : Z := -1.
Definition PISCES_ANY_MEMBLOCK : Z := -1.
Definition PISCES_ANY_NUMA_ZONE : Z := -1.

Definition enclave_dev : list Z := chars "/dev/pisces-enclave".
Definition get_pisces_dev_path (pisces_id : Z) : list Z := enclave_dev ++ pct_d pisces_id.
Definition get_pisces_id_from_path (dev_path : list Z) : Z :=
  match sscanf_d enclave_dev dev_path with Some id => id | None => -1 end.

(** ** The code: loading and resetting *)

(** [struct pisces_image]; the command line as the bytes written to it. *)
Record pisces_image := { kern_fd : Z; init_fd : Z; cmd_line : list Z }.

(** [open]: the descriptor or -1; [load]: what the driver answers. *)
Definition pisces_load (open : list Z → Z) (load : pisces_image → Z) (kern initrd cmdline : list Z) : Z :=
  let kern_fd := open kern in
  if kern_fd =? -1 then -1 else
  let init_fd := open initrd in
  if init_fd =? -1 then -1 else
  let enclave_id := load {| kern_fd := kern_fd; init_fd := init_fd; cmd_line := strncpy cmdline 1023 |} in
  if enclave_id <? 0 then -1 else enclave_id.

(** The descriptor of the console, and the reset, whose result is dropped; [ioctl]
    is what the driver answers for a path. *)
Definition pisces_get_cons_fd (cons_connect : list Z → Z) (pisces_id : Z) : Z :=
  cons_connect (get_pisces_dev_path pisces_id).
Definition pisces_reset (reset : list Z → Z) (pisces_id : Z) : Z :=
  let _ := reset (get_pisces_dev_path pisces_id) in 0.

(** ** The code: requests on the control channel *)

Inductive request_arg := Num (n : Z) | Range (base_addr pages : Z) | Bytes (b : list byte).
Inductive tool_event := Connect (pisces_id : Z) | Cmd (cmd : Z) (a : request_arg) | CloseFd.

Section tools.
Context {H : Type} `{Petlib H}.

(** The answer to the connection, and to a command. *)
Context (connect : list tool_event → Z) (ioctl : list tool_event → Z → request_arg → Z).

Definition pisces_send_ctrl_cmd (pisces_id cmd : Z) (argp : request_arg) (tr : list tool_event)
  : Z * list tool_event :=
  let ctrl_fd := connect tr in
  let tr := tr ++ [Connect pisces_id] in
  if ctrl_fd <? 0 then (-1, tr) else
  (ioctl tr cmd argp, tr ++ [Cmd cmd argp; CloseFd]).

(** *** Launching *)

Record boot_env := { be_base : Z; be_block_size : Z; be_num_blocks : Z; be_cpu : Z }.

(** The value returned, the host, and the launches asked for.  [malloc_ok]: the
    array of blocks was allocated.  [None]: the first block of an empty array. *)
Definition pisces_launch (malloc_ok : bool) (launch : boot_env → Z)
    (cpu_id block_id numa_zone num_blocks : Z) (h : H) : option (Z * H * list boot_env) :=
  let mem :=
    if block_id =? PISCES_ANY_MEMBLOCK then
      if negb malloc_ok then Some (None, h) else
      let '(ret, blocks, h) := pet_offline_contig_blocks num_blocks numa_zone (2 ^ 21) h in
      if ret <? 0 then Some (None, h) else
      b ← head blocks; Some (Some (mb_base b, u32 num_blocks), h)
    else
      let '(ret, h) := pet_offline_block block_id h in
      if ret =? -1 then Some (None, h)
      else Some (Some (u64 (u64 block_id * pet_block_size), 1), h) in
  '(m, h) ← mem;
  match m with
  | None => Some (-1, h, [])                                    (* mem_error *)
  | Some (base, num) =>
      let cpu_error h := Some (-1, pet_online_contig_blocks num base h, []) in
      let '(c, h) :=
        if cpu_id =? PISCES_ANY_CPU then
          let '(ret, cpus, h) := pet_offline_cpus 1 numa_zone h in
          (if negb (ret =? 1) then None else head cpus, h)
        else let '(ret, h) := pet_offline_cpu cpu_id h in
             (if ret =? -1 then None else Some cpu_id, h) in
      match c with
      | None => cpu_error h
      | Some c =>
          let e := {| be_base := base; be_block_size := pet_block_size; be_num_blocks := num; be_cpu := u32 c |} in
          if launch e <? 0 then                                  (* ioctl_error *)
            Some (-1, pet_online_contig_blocks num base (pet_online_cpu (u32 c) h), [e])
          else Some (0, h, [e])
      end
  end.

(** *** Memory *)

Fixpoint add_ranges (pisces_id : Z) (l : list mem_block) (tr : list tool_event) : list tool_event :=
  match l with
  | [] => tr
  | b :: l =>
      let '(_, tr) := pisces_send_ctrl_cmd pisces_id PISCES_CMD_ADD_MEM (Range (mb_base b) (mb_pages b)) tr in
      add_ranges pisces_id l tr
  end.

Definition pisces_add_mem_node (pisces_id numa_zone : Z) (h : H) (tr : list tool_event)
  : Z * H * list tool_event :=
  let '(ret, block_arr, h) := pet_offline_mem_node numa_zone h in
  (ret, h, add_ranges pisces_id (take (Z.to_nat (pet_num_blocks numa_zone)) block_arr) tr).

Definition pisces_add_mem (pisces_id num_blocks numa_zone : Z) (h : H) (tr : list tool_event)
  : Z * H * list tool_event :=
  let '(ret, block_arr, h) := pet_offline_blocks num_blocks numa_zone h in
  if negb (ret =? num_blocks) then (-1, pet_online_blocks (take (Z.to_nat ret) block_arr) h, tr) else
  (0, h, add_ranges pisces_id (take (Z.to_nat num_blocks) block_arr) tr).

Definition pisces_add_mem_explicit (pisces_id block_id : Z) (h : H) (tr : list tool_event)
  : Z * H * list tool_event :=
  let '(ret, h) := pet_offline_block block_id h in
  if ret =? -1 then (-1, h, tr) else
  let '(ret, tr) := pisces_send_ctrl_cmd pisces_id PISCES_CMD_ADD_MEM
                      (Range (u64 (pet_block_size * u64 block_id)) (pet_block_size / 4096)) tr in
  if ret =? -1 then (-1, pet_online_block block_id h, tr) else (0, h, tr).

(** *** Processors *)

Fixpoint add_cpu_loop (pisces_id : Z) (l : list Z) (h : H) (tr : list tool_event) : H * list tool_event :=
  match l with
  | [] => (h, tr)
  | c :: l =>
      let '(ret, tr) := pisces_send_ctrl_cmd pisces_id PISCES_CMD_ADD_CPU (Num c) tr in
      add_cpu_loop pisces_id l (if negb (ret =? 0) then pet_online_cpu c h else h) tr
  end.

Definition pisces_add_cpus (pisces_id num_cpus numa_zone : Z) (h : H) (tr : list tool_event)
  : Z * H * list tool_event :=
  let '(ret, cpu_arr, h) := pet_offline_cpus num_cpus numa_zone h in
  if negb (ret =? num_cpus) then (-1, pet_online_cpus (take (Z.to_nat ret) cpu_arr) h, tr) else
  let '(h, tr) := add_cpu_loop pisces_id (take (Z.to_nat num_cpus) cpu_arr) h tr in (0, h, tr).

Definition pisces_add_cpu (pisces_id cpu_id : Z) (h : H) (tr : list tool_event) : Z * H * list tool_event :=
  let '(ret, h) := pet_offline_cpu cpu_id h in
  if ret =? -1 then (-1, h, tr) else
  let '(ret, tr) := pisces_send_ctrl_cmd pisces_id PISCES_CMD_ADD_CPU (Num cpu_id) tr in
  if negb (ret =? 0) then (-1, pet_online_cpu cpu_id h, tr) else (0, h, tr).

Definition pisces_remove_cpu (pisces_id cpu_id : Z) (h : H) (tr : list tool_event) : Z * H * list tool_event :=
  let '(ret, tr) := pisces_send_ctrl_cmd pisces_id PISCES_CMD_REMOVE_CPU (Num cpu_id) tr in
  if negb (ret =? 0) then (-1, h, tr) else (0, pet_online_cpu cpu_id h, tr).

(** *** Jobs and files *)

(** A field of [n] bytes of a zeroed structure after [strncpy(field, s, n - 1)]. *)
Definition field (n : nat) (s : list Z) : list byte := byte_of_Z <$> (strncpy s (n - 1) ++ [0]).

Record job := {
  job_name : option (list Z); exe_path : option (list Z);        (* None is NULL *)
  exe_argv : option (list Z); job_envp : option (list Z);
  use_large_pages : Z; use_smartmap : Z; num_ranks : Z; cpu_mask : Z; heap_size : Z; stack_size : Z
}.

(** [struct pisces_job_spec]: the flags are one-bit fields. *)
Definition job_bytes (name exe argv envp : list Z) (j : job) : list byte :=
  field 64 name ++ field 256 exe ++ field 256 argv ++ field 256 envp ++
  le 8 (use_large_pages j mod 2 + 2 * (use_smartmap j mod 2)) ++ le 1 (num_ranks j) ++
  le 8 (cpu_mask j) ++ le 8 (heap_size j) ++ le 8 (stack_size j).

Definition too_long (o : option (list Z)) : bool :=
  match o with Some s => zlen s >? 255 | None => false end.

Definition pisces_run_job (pisces_id : Z) (j : job) (tr : list tool_event) : Z * list tool_event :=
  match job_name j, exe_path j with
  | Some name, Some exe =>
      if zlen name >? 63 then (-1, tr) else
      if zlen exe >? 255 then (-1, tr) else
      if too_long (exe_argv j) then (-1, tr) else
      if too_long (job_envp j) then (-1, tr) else
      pisces_send_ctrl_cmd pisces_id PISCES_CMD_LAUNCH_JOB
        (Bytes (job_bytes name exe (default [] (exe_argv j)) (default [] (job_envp j)) j)) tr
  | _, _ => (-1, tr)
  end.

Definition file_pair_bytes (local_file remote_file : list Z) : list byte :=
  field 128 local_file ++ field 128 remote_file.
Definition pisces_load_file (pisces_id : Z) (local_file remote_file : list Z) (tr : list tool_event)
  : Z * list tool_event :=
  if (zlen local_file >? 127) || (zlen remote_file >? 127) then (-1, tr) else
  pisces_send_ctrl_cmd pisces_id PISCES_CMD_LOAD_FILE (Bytes (file_pair_bytes local_file remote_file)) tr.
End tools.

(** ** Lemmas *)

Section laws.
Context {H : Type} `{PetLaws H}.
Context (connect : list tool_event → Z) (ioctl : list tool_event → Z → request_arg → Z).

(** The processor of a launch: one more is off line, or none. *)
Definition boot_cpu_of (cpu_id numa_zone : Z) (h : H) : option Z * H :=
  if cpu_id =? PISCES_ANY_CPU then
    let '(ret, cpus, h) := pet_offline_cpus 1 numa_zone h in
    (if negb (ret =? 1) then None else head cpus, h)
  else let '(ret, h) := pet_offline_cpu cpu_id h in (if ret =? -1 then None else Some cpu_id, h).

(** The call that took the processor, or the blocks. *)
Definition cpu_call (cpu_id numa_zone c : Z) (h h' : H) : Prop :=
  (cpu_id = -1 ∧ ∃ l, pet_offline_cpus 1 numa_zone h = (1, c :: l, h')) ∨
  (cpu_id ≠ -1 ∧ pet_offline_cpu cpu_id h = (0, h')).
Definition mem_call (block_id numa_zone b0 n : Z) (h h' : H) : Prop :=
  (block_id = -1 ∧ ∃ ret, 0 ≤ ret ∧
     pet_offline_contig_blocks n numa_zone (2 ^ 21) h = (ret, block_of <$> seqZ b0 n, h')) ∨
  (block_id ≠ -1 ∧ pet_offline_block block_id h = (0, h')).

Lemma boot_cpu_spec cpu_id numa_zone h c h' :
  cpu_id = -1 ∨ fits 32 cpu_id → boot_cpu_of cpu_id numa_zone h = (c, h') →
  match c with
  | Some c => fits 32 c ∧ (cpu_id ≠ -1 → c = cpu_id) ∧ taken [] [c] h h' ∧ cpu_call cpu_id numa_zone c h h'
  | None => same h h'
  end.
Proof.
  intros Hc. unfold boot_cpu_of, PISCES_ANY_CPU, cpu_call. case_test.
  - destruct (pet_offline_cpus 1 numa_zone h) as [[ret l] h1] eqn:E. intros [= <- <-].
    destruct (offline_cpus _ _ _ _ _ _ E) as (Hr&Ht&Hl&Hf); [lia|].
    destruct (Z.eqb_spec ret 1) as [->|]; cbn [negb].
    + destruct l as [|c l]; [simpl in Hl; lia|]. cbn [head]. split; [by apply Forall_inv in Hf|].
      split; [lia|]. split; [exact Ht|]. left. split; [done|]. by eexists.
    + assert (ret = 0) as -> by lia. destruct Ht as (_&_&_&_&E1&E2). split.
      * rewrite E1. symmetry. apply ids_nil_union.
      * rewrite E2. symmetry. apply ids_nil_union.
  - destruct (pet_offline_cpu cpu_id h) as [ret h1] eqn:E. intros [= <- <-].
    destruct (offline_cpu _ _ _ _ E) as [[-> Hs]|[-> Ht]]; [done|]. cbn [Z.eqb].
    split; [by destruct Hc|]. split; [done|]. split; [done|]. right. by split.
Qed.

(** The blocks of a launch: numbers from [b0] on. *)
Definition launch_blocks (block_id num_blocks b0 n : Z) : Prop :=
  0 ≤ b0 ∧ (if bool_decide (block_id = -1) then n = num_blocks else b0 = block_id ∧ n = 1).

Lemma seqZ_one b : seqZ b 1 = [b].
Proof. done. Qed.

(** *** Launching *)

Definition boot_mem_of (malloc_ok : bool) (block_id numa_zone num_blocks : Z) (h : H) : option (option (Z * Z) * H) :=
  if block_id =? PISCES_ANY_MEMBLOCK then
    if negb malloc_ok then Some (None, h) else
    let '(ret, blocks, h) := pet_offline_contig_blocks num_blocks numa_zone (2 ^ 21) h in
    if ret <? 0 then Some (None, h) else
    b ← head blocks; Some (Some (mb_base b, u32 num_blocks), h)
  else
    let '(ret, h) := pet_offline_block block_id h in
    if ret =? -1 then Some (None, h)
    else Some (Some (u64 (u64 block_id * pet_block_size), 1), h).

Lemma boot_mem_spec malloc_ok block_id numa_zone num_blocks h :
  0 < num_blocks < 2 ^ 31 → block_id = -1 ∨ 0 ≤ block_id ∧ block_id * pet_block_size < 2 ^ 64 →
  ∃ m h1, boot_mem_of malloc_ok block_id numa_zone num_blocks h = Some (m, h1) ∧ match m with
    | None => same h h1
    | Some (base, num) => ∃ b0, base = b0 * pet_block_size ∧ launch_blocks block_id num_blocks b0 num ∧
                                taken (seqZ b0 num) [] h h1 ∧ mem_call block_id numa_zone b0 num h h1
    end.
Proof.
  intros Hn Hb. unfold boot_mem_of, PISCES_ANY_MEMBLOCK, launch_blocks, mem_call. destruct (Z.eqb_spec block_id (-1)).
  - rewrite bool_decide_true by done. destruct malloc_ok; cbn [negb]; [|by exists None, h; split; [|apply same_refl]].
    destruct (pet_offline_contig_blocks num_blocks numa_zone (2 ^ 21) h) as [[ret bl] h1] eqn:E.
    destruct (offline_contig _ _ _ _ _ _ _ E) as [[Hr Hs]|(Hr&b0&Hb0&->&Ht)].
    + rewrite (proj2 (Z.ltb_lt ret 0)) by lia. exists None, h1; done.
    + rewrite (proj2 (Z.ltb_ge ret 0)) by lia. rewrite (seqZ_cons b0) by lia.
      cbn [fmap list_fmap head mbind option_bind]. rewrite wrap_small by (unfold fits; lia).
      eexists _, _. split; [reflexivity|]. exists b0. do 3 (split; [done|]). left. split; [done|]. by exists ret.
  - rewrite bool_decide_false by done. destruct (pet_offline_block block_id h) as [ret h1] eqn:E.
    pose proof block_size_pos. destruct Hb as [|[Hb0 Hb]]; [done|].
    destruct (offline_block _ _ _ _ E) as [[-> Hs]|[-> Ht]]; cbn [Z.eqb]; [by exists None, h1|].
    eexists _, _. split; [reflexivity|]. exists block_id. rewrite seqZ_one.
    rewrite (wrap_small 64 block_id) by (unfold fits; nia). rewrite wrap_small by (unfold fits; lia).
    do 3 (split; [done|]). by right.
Qed.

Lemma launch_spec malloc_ok (launch : boot_env → Z) cpu_id block_id numa_zone num_blocks h :
  0 < num_blocks < 2 ^ 31 → cpu_id = -1 ∨ fits 32 cpu_id →
  block_id = -1 ∨ 0 ≤ block_id ∧ block_id * pet_block_size < 2 ^ 64 →
  ∃ ret h' l, pisces_launch malloc_ok launch cpu_id block_id numa_zone num_blocks h = Some (ret, h', l) ∧
  ((ret = 0 ∧ ∃ b0 n c, launch_blocks block_id num_blocks b0 n ∧ (cpu_id ≠ -1 → c = cpu_id) ∧
      taken (seqZ b0 n) [c] h h' ∧
      (∃ h1 h2, mem_call block_id numa_zone b0 n h h1 ∧ cpu_call cpu_id numa_zone c h1 h2) ∧
      let e := {| be_base := b0 * pet_block_size; be_block_size := pet_block_size;
                  be_num_blocks := n; be_cpu := c |} in
      l = [e] ∧ 0 ≤ launch e) ∨
   (ret = -1 ∧ same h h' ∧ (l = [] ∨ ∃ b0 n c, launch_blocks block_id num_blocks b0 n ∧ (cpu_id ≠ -1 → c = cpu_id) ∧
      (∃ h1 h2, mem_call block_id numa_zone b0 n h h1 ∧ cpu_call cpu_id numa_zone c h1 h2) ∧
      let e := {| be_base := b0 * pet_block_size; be_block_size := pet_block_size;
                  be_num_blocks := n; be_cpu := c |} in
      l = [e] ∧ launch e < 0))).
Proof.
  intros Hn Hc Hb. unfold pisces_launch.
  change (if block_id =? PISCES_ANY_MEMBLOCK then _ else _) with (boot_mem_of malloc_ok block_id numa_zone num_blocks h).
  destruct (boot_mem_spec malloc_ok block_id numa_zone num_blocks h Hn Hb) as (m&h1&->&Hm).
  cbn [mbind option_bind].
  destruct m as [[base num]|]; [|by exists (-1), h1, []; eauto 7].
  destruct Hm as (b0&->&Hbl&Ht&Hmc).
  change (if cpu_id =? PISCES_ANY_CPU then _ else _) with (boot_cpu_of cpu_id numa_zone h1).
  destruct (boot_cpu_of cpu_id numa_zone h1) as [c h2] eqn:Ec.
  pose proof (boot_cpu_spec _ _ _ _ _ Hc Ec) as Hcpu.
  destruct c as [c|].
  - destruct Hcpu as (Hf&Heq&Htc&Hcc). rewrite (wrap_small 32 c) by done.
    pose proof (taken_trans _ _ _ _ _ _ _ Ht Htc) as Ht2. rewrite app_nil_r in Ht2. cbn [app] in Ht2.
    case_test.
    + eexists _, _, _. split; [reflexivity|]. right. split; [done|].
      split; [|right; exists b0, num, c; do 2 (split; [done|]); split; [by exists h1, h2|done]].
      eapply taken_returned; [exact Ht2|]. rewrite <-(app_nil_l (seqZ b0 num)), <-(app_nil_r [c]).
      eapply returned_trans; [apply online_cpu|apply online_contig].
    + eexists _, _, _. split; [reflexivity|]. left. split; [done|]. exists b0, num, c.
      do 3 (split; [done|]). split; [by exists h1, h2|]. done.
  - eexists _, _, _. split; [reflexivity|]. right. split; [done|]. split; [|by left].
    eapply taken_returned; [by eapply taken_same|]. apply online_contig.
Qed.

(** *** Sequences of requests *)

(** The requests [args] made one after the other, and those that were granted. *)
Definition attempt (pisces_id cmd : Z) (a : request_arg) (tr : list tool_event) : Z * list tool_event :=
  pisces_send_ctrl_cmd connect ioctl pisces_id cmd a tr.
Fixpoint attempts (pisces_id cmd : Z) (args : list request_arg) (tr : list tool_event) : list tool_event :=
  match args with [] => tr | a :: args => attempts pisces_id cmd args (attempt pisces_id cmd a tr).2 end.
Fixpoint granted (pisces_id : Z) (l : list Z) (tr : list tool_event) : list Z :=
  match l with
  | [] => []
  | c :: l => let '(ret, tr) := attempt pisces_id PISCES_CMD_ADD_CPU (Num c) tr in
              (if ret =? 0 then [c] else []) ++ granted pisces_id l tr
  end.
Definition range_of (b : mem_block) : request_arg := Range (mb_base b) (mb_pages b).

Lemma add_ranges_spec id l tr :
  add_ranges connect ioctl id l tr = attempts id PISCES_CMD_ADD_MEM (range_of <$> l) tr.
Proof.
  revert tr. induction l as [|b l IH]; intros tr; [done|]. cbn [add_ranges fmap list_fmap attempts].
  unfold attempt, range_of at 1. by destruct (pisces_send_ctrl_cmd _ _ _ _ _ _) as [r t].
Qed.

Lemma granted_sublist id l tr : granted id l tr `sublist_of` l.
Proof.
  revert tr. induction l as [|c l IH]; intros tr; cbn [granted]; [constructor|].
  destruct (attempt _ _ _ _) as [ret t]. case_test; cbn [app]; by constructor.
Qed.

(** The processors refused come back on line, the others stay. *)
Lemma add_cpu_loop_spec id l h tr h' tr' :
  NoDup l → add_cpu_loop connect ioctl id l h tr = (h', tr') →
  tr' = attempts id PISCES_CMD_ADD_CPU (Num <$> l) tr ∧ blocks_off h' = blocks_off h ∧
  (ids l ⊆ cpus_off h → cpus_off h' = cpus_off h ∖ (ids l ∖ ids (granted id l tr))).
Proof.
  intros Hnd. revert h tr. induction Hnd as [|c l Hc Hnd IH]; intros h tr; cbn [add_cpu_loop granted].
  - intros [= <- <-]. split; [done|]. split; [done|]. intros _. by rewrite !ids_nil_difference.
  - cbn [fmap list_fmap attempts]. unfold attempt at 1 2.
    destruct (pisces_send_ctrl_cmd connect ioctl id PISCES_CMD_ADD_CPU (Num c) tr) as [ret t].
    cbn [snd]. intros Hl. destruct (IH _ _ Hl) as (->&Hb&Hcp). split; [done|].
    pose proof (granted_sublist id l t) as Hsub.
    assert (ids (granted id l t) ⊆ ids l) as Hg.
    { intros x Hx. apply elem_of_ids in Hx. apply elem_of_ids. by eapply elem_of_sublist. }
    assert (c ∉ ids l) as Hcl by (by rewrite elem_of_ids).
    destruct (Z.eqb_spec ret 0); cbn [negb] in *.
    + split; [done|]. rewrite ids_cons. intros Hin. rewrite Hcp by set_solver. f_equal.
      rewrite ids_app. change (ids [c]) with (ids [] ∪ {[c]} : gset Z). clear -Hcl Hg.
      unfold ids in *. set_solver.
    + destruct (online_cpu c h) as [E1 E2]. rewrite E1, ids_nil_difference in Hb. split; [done|].
      rewrite ids_cons. intros Hin. cbn [app]. assert (ids [c] = {[c]}) as Hone by (unfold ids; set_solver).
      rewrite Hcp, E2, Hone by (rewrite ?E2, ?Hone; clear -Hin Hcl; set_solver).
      clear -Hcl Hg. set_solver.
Qed.
Lemma granted_ids id l tr : ids (granted id l tr) ⊆ ids l.
Proof.
  intros x Hx. apply elem_of_ids in Hx. apply elem_of_ids. eapply elem_of_sublist; [exact Hx|apply granted_sublist].
Qed.

(** *** Giving resources *)

Lemma add_cpus_spec id n zone h tr :
  0 ≤ n → let '(ret, h', tr') := pisces_add_cpus connect ioctl id n zone h tr in
  (ret = -1 ∧ same h h' ∧ tr' = tr) ∨
  (ret = 0 ∧ ∃ l h1 arr, pet_offline_cpus n zone h = (n, arr, h1) ∧ l = take (Z.to_nat n) arr ∧
     zlen l = n ∧ NoDup l ∧ tr' = attempts id PISCES_CMD_ADD_CPU (Num <$> l) tr ∧ ids l ## cpus_off h ∧
     taken [] (granted id l tr) h h').
Proof.
  intros Hn. unfold pisces_add_cpus. destruct (pet_offline_cpus n zone h) as [[ret arr] h1] eqn:E.
  destruct (offline_cpus _ _ _ _ _ _ E Hn) as (Hr&Ht&Hl&_).
  destruct (Z.eqb_spec ret n) as [->|Hne]; cbn [negb].
  - destruct (add_cpu_loop _ _ _ _ _ _) as [h2 tr2] eqn:El. right. split; [done|].
    destruct Ht as (_&Hnd&_&Hdis&Eb&Ec). set (l := take (Z.to_nat n) arr) in *.
    destruct (add_cpu_loop_spec _ _ _ _ _ _ Hnd El) as (->&Hb&Hcp).
    exists l, h1, arr. do 2 (split; [done|]). split; [unfold l; rewrite length_take; lia|]. do 3 (split; [done|]).
    pose proof (granted_ids id l tr) as Hg. pose proof (granted_sublist id l tr) as Hsub.
    rewrite Ec in Hcp. specialize (Hcp ltac:(set_solver)).
    split_and!; [constructor|by eapply sublist_NoDup|apply ids_nil_disjoint|set_solver|by rewrite Hb|].
    rewrite Hcp. clear -Hdis Hg. set (g := granted _ _ _) in *.
    apply set_eq. intros x. destruct (decide (x ∈ ids g)); set_solver.
  - left. split; [done|]. split; [|done]. eapply taken_returned; [exact Ht|apply online_cpus].
Qed.

Lemma add_mem_spec id n zone h tr :
  0 ≤ n → let '(ret, h', tr') := pisces_add_mem connect ioctl id n zone h tr in
  (ret = -1 ∧ same h h' ∧ tr' = tr) ∨
  (ret = 0 ∧ ∃ l bl, pet_offline_blocks n zone h = (n, bl, h') ∧ take (Z.to_nat n) bl = block_of <$> l ∧ zlen l = n ∧
     tr' = attempts id PISCES_CMD_ADD_MEM (range_of <$> (block_of <$> l)) tr ∧ taken l [] h h').
Proof.
  intros Hn. unfold pisces_add_mem. destruct (pet_offline_blocks n zone h) as [[ret arr] h1] eqn:E.
  destruct (offline_blocks _ _ _ _ _ _ E Hn) as (l&Hr&Hl&Ha&Ht).
  destruct (Z.eqb_spec ret n) as [->|Hne]; cbn [negb].
  - right. split; [done|]. exists l, arr. rewrite Ha, add_ranges_spec. by rewrite <-Hl.
  - left. split; [done|]. split; [|done]. rewrite Ha. eapply taken_returned; [exact Ht|apply online_blocks].
Qed.

Lemma add_node_spec id zone h tr :
  let '(ret, h', tr') := pisces_add_mem_node connect ioctl id zone h tr in
  ∃ l bl, pet_offline_mem_node zone h = (ret, bl, h') ∧ ret = zlen l ∧ ret ≤ pet_num_blocks zone ∧ taken l [] h h' ∧
    bl = (block_of <$> l) ++ replicate (Z.to_nat (pet_num_blocks zone - ret)) {| mb_base := 0; mb_pages := 0 |} ∧
    tr' = attempts id PISCES_CMD_ADD_MEM
            ((range_of <$> (block_of <$> l)) ++ replicate (Z.to_nat (pet_num_blocks zone - ret)) (Range 0 0)) tr.
Proof.
  unfold pisces_add_mem_node. destruct (pet_offline_mem_node zone h) as [[ret arr] h1] eqn:E.
  destruct (offline_mem_node _ _ _ _ _ E) as (l&Hr&Hl&Hla&Ha&Ht).
  exists l, arr. do 4 (split; [done || lia|]).
  replace (Z.to_nat (pet_num_blocks zone - ret)) with (length arr - length l)%nat by lia. split; [done|].
  rewrite take_ge by lia. rewrite add_ranges_spec. rewrite Ha at 1. by rewrite fmap_app, fmap_replicate.
Qed.
End laws.

(** ** Properties *)



Section given.
Context {H : Type} `{PetLaws H}.
Context (connect : list tool_event → Z) (ioctl : list tool_event → Z → request_arg → Z).

End given.


(** *** What a job's structure holds *)

(** A string and a number at an offset of a structure. *)
Definition str_at (n off : nat) (b : list byte) : list Z := cstr (take n (drop off b)).
Definition num_at (n off : nat) (b : list byte) : Z := unle (take n (drop off b)).

Definition printable (s : list Z) (n : nat) : Prop := Forall (λ c, 0 < c < 256) s ∧ (length s < n)%nat.

Lemma field_spec n s : printable s n → length (field n s) = n ∧ cstr (field n s) = s.
Proof.
  intros [Hs Hl]. unfold field. split.
  - rewrite length_fmap, length_app, strncpy_length. simpl. lia.
  - rewrite strncpy_fits; [|lia|].
    + rewrite <-app_assoc, fmap_app. replace (replicate (n - 1 - length s) 0 ++ [0]) with (0 :: replicate (n - 1 - length s) 0).
      * cbn [fmap list_fmap]. change (byte_of_Z 0) with Byte.x00. by apply cstr_name.
      * by rewrite <-replicate_cons_app.
    + intros Hin. rewrite list.Forall_forall in Hs. apply Hs in Hin. lia.
Qed.

(** The job a structure of type [struct pisces_job_spec] describes. *)
Definition job_of (b : list byte) : job :=
  {| job_name := Some (str_at 64 0 b); exe_path := Some (str_at 256 64 b);
     exe_argv := Some (str_at 256 320 b); job_envp := Some (str_at 256 576 b);
     use_large_pages := num_at 8 832 b mod 2; use_smartmap := num_at 8 832 b / 2 mod 2;
     num_ranks := num_at 1 840 b; cpu_mask := num_at 8 841 b; heap_size := num_at 8 849 b;
     stack_size := num_at 8 857 b |}.

Definition opt_printable (o : option (list Z)) : Prop := printable (default [] o) 256.

(** A job whose strings fit and whose numbers are of their C types. *)
Record job_ok (j : job) : Prop := {
  ok_name : ∃ s, job_name j = Some s ∧ printable s 64;
  ok_exe : ∃ s, exe_path j = Some s ∧ printable s 256;
  ok_argv : opt_printable (exe_argv j);
  ok_envp : opt_printable (job_envp j);
  ok_flags : 0 ≤ use_large_pages j < 2 ∧ 0 ≤ use_smartmap j < 2;
  ok_ranks : fits 8 (num_ranks j);
  ok_sizes : fits 64 (cpu_mask j) ∧ fits 64 (heap_size j) ∧ fits 64 (stack_size j)
}.

Lemma job_bytes_spec name exe argv envp j :
  printable name 64 → printable exe 256 → printable argv 256 → printable envp 256 →
  0 ≤ use_large_pages j < 2 ∧ 0 ≤ use_smartmap j < 2 → fits 8 (num_ranks j) →
  fits 64 (cpu_mask j) ∧ fits 64 (heap_size j) ∧ fits 64 (stack_size j) →
  let b := job_bytes name exe argv envp j in
  zlen b = sizeof_pisces_job_spec ∧
  job_of b = {| job_name := Some name; exe_path := Some exe; exe_argv := Some argv; job_envp := Some envp;
                use_large_pages := use_large_pages j; use_smartmap := use_smartmap j;
                num_ranks := num_ranks j; cpu_mask := cpu_mask j; heap_size := heap_size j;
                stack_size := stack_size j |}.
Proof.
  intros Hn He Ha Hv Hf Hr (Hc&Hh&Hs) b.
  destruct (field_spec 64 name Hn) as [Ln Sn], (field_spec 256 exe He) as [Le Se],
    (field_spec 256 argv Ha) as [La Sa], (field_spec 256 envp Hv) as [Lv Sv].
  set (fl := use_large_pages j mod 2 + 2 * (use_smartmap j mod 2)).
  assert (fl = use_large_pages j + 2 * use_smartmap j) as Hfl by (unfold fl; rewrite !(Z.mod_small _ 2); lia).
  assert (∀ n z, fits (8 * Z.of_nat n) z → unle (le n z) = z) as Ul.
  { intros n z Hz. rewrite unle_le. by apply Z.mod_small. }
  set (parts := [field 64 name; field 256 exe; field 256 argv; field 256 envp; le 8 fl; le 1 (num_ranks j);
                 le 8 (cpu_mask j); le 8 (heap_size j); le 8 (stack_size j)]).
  assert (b = concat parts) as ->.
  { subst b parts. unfold job_bytes. cbn [concat]. by rewrite app_nil_r. }
  split; [cbn [concat parts]; rewrite !length_app, Ln, Le, La, Lv, !le_length; reflexivity|].
  unfold job_of, str_at, num_at.
  rewrite (part_at parts 0 (field 64 name) 64 0), (part_at parts 1 (field 256 exe) 256 64),
    (part_at parts 2 (field 256 argv) 256 320), (part_at parts 3 (field 256 envp) 256 576),
    (part_at parts 4 (le 8 fl) 8 832), (part_at parts 5 (le 1 (num_ranks j)) 1 840),
    (part_at parts 6 (le 8 (cpu_mask j)) 8 841), (part_at parts 7 (le 8 (heap_size j)) 8 849),
    (part_at parts 8 (le 8 (stack_size j)) 8 857)
    by (try reflexivity; cbn [take concat parts]; rewrite ?length_app, ?Ln, ?Le, ?La, ?Lv, ?le_length; reflexivity).
  rewrite Sn, Se, Sa, Sv, !Ul by (done || (rewrite Hfl; unfold fits; simpl; lia)). rewrite Hfl. f_equal.
  - rewrite (Z.mul_comm 2), Z.mod_add by lia. apply Z.mod_small. lia.
  - rewrite (Z.mul_comm 2), Z.div_add by lia. rewrite Z.div_small by lia. simpl. apply Z.mod_small. lia.
Qed.

Section requests.
Context (connect : list tool_event → Z) (ioctl : list tool_event → Z → request_arg → Z).

(** C38: A job whose strings fit is sent as one structure of the size the driver
    copies, and reading that structure back gives the job: every string up to its
    terminator, the flags, the number of ranks, the processor mask and both sizes.
    A job without name or program, or with a string that does not fit, is refused
    with -1 before anything is sent. *)
Theorem job_roundtrip (pisces_id : Z) (j : job) (tr : list tool_event) :
  (job_ok j → 0 ≤ connect tr → ∃ b,
     pisces_run_job connect ioctl pisces_id j tr =
       (ioctl (tr ++ [Connect pisces_id]) PISCES_CMD_LAUNCH_JOB (Bytes b),
        (tr ++ [Connect pisces_id]) ++ [Cmd PISCES_CMD_LAUNCH_JOB (Bytes b); CloseFd]) ∧
     copy_from_user b sizeof_pisces_job_spec = Some b ∧
     job_of b = {| job_name := job_name j; exe_path := exe_path j;
                   exe_argv := Some (default [] (exe_argv j)); job_envp := Some (default [] (job_envp j));
                   use_large_pages := use_large_pages j; use_smartmap := use_smartmap j;
                   num_ranks := num_ranks j; cpu_mask := cpu_mask j; heap_size := heap_size j;
                   stack_size := stack_size j |}) ∧
  (job_name j = None ∨ exe_path j = None ∨
   (∃ s, job_name j = Some s ∧ 63 < zlen s) ∨ (∃ s, exe_path j = Some s ∧ 255 < zlen s) ∨
   (∃ s, exe_argv j = Some s ∧ 255 < zlen s) ∨ (∃ s, job_envp j = Some s ∧ 255 < zlen s) →
   pisces_run_job connect ioctl pisces_id j tr = (-1, tr)).
Proof.
  unfold pisces_run_job. split.
  - intros [(name&->&Hn) (exe&->&He) Ha Hv Hf Hr Hs] Hc.
    pose proof (job_bytes_spec name exe _ _ j Hn He Ha Hv Hf Hr Hs) as [Hl Hj].
    assert (∀ o, opt_printable o → too_long o = false) as Hshort.
    { intros [s|]; [|done]. intros [_ ?]. cbn in *. rewrite Z.gtb_ltb. apply Z.ltb_ge. lia. }
    destruct Hn as [_ Hn], He as [_ He]. rewrite !Z.gtb_ltb, !(proj2 (Z.ltb_ge _ _)) by lia.
    rewrite !Hshort by done. unfold pisces_send_ctrl_cmd. rewrite (proj2 (Z.ltb_ge (connect tr) 0)) by lia.
    eexists. split; [reflexivity|]. split; [|exact Hj]. unfold copy_from_user.
    by rewrite slice_Some, drop_0, take_ge by lia.
  - intros Hbad. destruct (job_name j) as [name|]; [|done]. destruct (exe_path j) as [exe|]; [|done].
    rewrite !Z.gtb_ltb. destruct (Z.ltb_spec 63 (zlen name)); [done|]. destruct (Z.ltb_spec 255 (zlen exe)); [done|].
    destruct (too_long (exe_argv j)) eqn:Ea; [done|]. destruct (too_long (job_envp j)) eqn:Ev; [done|].
    assert (∀ o s, too_long o = false → o = Some s → zlen s ≤ 255) as Hshort.
    { intros o s Ho ->. cbn in Ho. rewrite Z.gtb_ltb in Ho. by apply Z.ltb_ge in Ho. }
    destruct Hbad as [?|[?|[(s&[= ->]&?)|[(s&[= ->]&?)|[(s&E&?)|(s&E&?)]]]]]; try done; try lia.
    + specialize (Hshort _ _ Ea E). lia.
    + specialize (Hshort _ _ Ev E). lia.
Qed.
End requests.

(** The name of an enclave's device and its number. *)
Lemma dev_path_roundtrip pisces_id :
  0 ≤ pisces_id < 2 ^ 31 → get_pisces_id_from_path (get_pisces_dev_path pisces_id) = pisces_id.
Proof. intros Hi. unfold get_pisces_id_from_path, get_pisces_dev_path. by rewrite sscanf_pct_d. Qed.
