(* ===== verification/Lifecycle.v ===== *)
(** * An enclave from its launch to its release, between the host, the tools and the module

    The tools of [Tools] take processors and memory from the host ([Petlib]) and
    offer them to the enclave over the control channel; the module ([Device],
    [Ctrl], [Resources]) records what it was offered before the enclave has
    answered; the tool of [Teardown] reads the records and gives everything back.
    Here each one's answers are the others: the requests of the tools are
    the control calls of the module, and what the module records is printed in the
    files that the last tool reads. *)
From stdpp Require Import gmap fin_sets.
From S2P Require Import Prelude Text Resources Pci Pgtables Trampoline Boot FileIo BootParams Cons Ctrl Enclave.
From S2P Require Import Device Proc Teardown Petlib Tools.
From stdpp Require Import list.
#[local] Open Scope Z_scope.
#[local] Open Scope list_scope.

(** ** The requests of the tools as control calls *)

(** The argument of the ioctl and the memory it points to. *)
Definition user_arg (a : request_arg) : Z * list byte :=
  match a with Num n => (n, []) | Range b p => (0, Prelude.le 8 b ++ Prelude.le 8 p) | Bytes b => (0, b) end.

Section module.
Context {S : Type} `{TrampolineOps S}.
Context (v : Ctrl.env).

Definition request (cmd : Z) (a : request_arg) (e : enclave S) : option (Z * enclave S) :=
  ctrl_ioctl v cmd (user_arg a).1 (user_arg a).2 e.

(** The enclave after the tools' requests [tr]; the connections are references,
    which have no effect on what it holds. *)
Fixpoint replay (tr : list tool_event) (e : enclave S) : option (enclave S) :=
  match tr with
  | [] => Some e
  | Cmd cmd a :: tr => '(_, e) ← request cmd a e; replay tr e
  | _ :: tr => replay tr e
  end.

(** What the module answers to a request behind [tr]. *)
Definition answer (e : enclave S) (tr : list tool_event) (cmd : Z) (a : request_arg) : Z :=
  match e ← replay tr e; request cmd a e with Some (ret, _) => ret | None => -1 end.
End module.

(** ** The administrator *)

Inductive admin :=
  | AddCpus (num_cpus numa_zone : Z) | AddCpu (cpu_id : Z) | RemoveCpu (cpu_id : Z)
  | AddMem (num_blocks numa_zone : Z) | AddMemNode (numa_zone : Z) | AddMemBlock (block_id : Z).

Section admin.
Context {H : Type} `{Petlib H}.
Context (connect : list tool_event → Z) (ioctl : list tool_event → Z → request_arg → Z) (pisces_id : Z).

Definition administer (a : admin) (h : H) (tr : list tool_event) : Z * H * list tool_event :=
  match a with
  | AddCpus n zone => pisces_add_cpus connect ioctl pisces_id n zone h tr
  | AddCpu c => pisces_add_cpu connect ioctl pisces_id c h tr
  | RemoveCpu c => pisces_remove_cpu connect ioctl pisces_id c h tr
  | AddMem n zone => pisces_add_mem connect ioctl pisces_id n zone h tr
  | AddMemNode zone => pisces_add_mem_node connect ioctl pisces_id zone h tr
  | AddMemBlock id => pisces_add_mem_explicit connect ioctl pisces_id id h tr
  end.

Fixpoint administer_all (l : list admin) (h : H) (tr : list tool_event) : H * list tool_event :=
  match l with
  | [] => (h, tr)
  | a :: l => let '(_, h, tr) := administer a h tr in administer_all l h tr
  end.

(** What [pisces_teardown] does to the host; devices are not in its state. *)
Definition give_back (ev : event) (h : H) : H :=
  match ev with
  | OnlineCpu c => pet_online_cpu c h
  | OnlineBlock id => pet_online_block id h
  | _ => h
  end.
Definition give_back_all (evs : list event) (h : H) : H := foldl (λ h ev, give_back ev h) h evs.
End admin.

(** ** Specification *)

Section account.
Context {H : Type} `{Petlib H} (NRC : Z).

(** What the module has recorded, in the host's numbers. *)
Definition cpus_recorded (r : resources) : gset Z := ids (for_each_cpu NRC (assigned_cpus r)).
Definition blocks_in (b : enclave_mem_block) : list Z :=
  seqZ (base_addr b / Petlib.pet_block_size) (pages b * 4096 / Petlib.pet_block_size).
Definition blocks_recorded (r : resources) : gset Z := ids (memdesc_list r ≫= blocks_in).

(** What a tool offers: a block of the host, or the empty range of a block that a
    node could not part with. *)
Definition offered_block (b : enclave_mem_block) : Prop :=
  b = {| base_addr := 0; pages := 0 |} ∨
  ∃ id, block_number id ∧ b = {| base_addr := id * Petlib.pet_block_size; pages := Petlib.pet_block_size / 4096 |}.

(** Against the host [h0] from before the launch: what has gone off line since then is
    recorded, and nothing recorded had been off line before. *)
Record accounted (h0 h : H) (r : resources) : Prop := {
  ac_cpus : cpus_off h0 ⊆ cpus_off h ∧ cpus_off h ⊆ cpus_off h0 ∪ cpus_recorded r;
  ac_cpus_new : cpus_recorded r ## cpus_off h0;
  ac_blocks : blocks_off h0 ⊆ blocks_off h ∧ blocks_off h ⊆ blocks_off h0 ∪ blocks_recorded r;
  ac_blocks_new : blocks_recorded r ## blocks_off h0;
  ac_wf : Resources.wf NRC r;
  ac_offered : Forall offered_block (memdesc_list r)
}.
End account.

(** ** Lemmas: one request *)

Section requests.
Context {S : Type} `{TrampolineLaws S}.
Context (v : Ctrl.env) (Hnr : 0 ≤ NR_CPUS v < 2 ^ 32) (Hkm : kmalloc_ok v = true).
Context (devs : enclave_pci_state).
Implicit Types e : enclave S.

(** A running enclave with whole records, room for more of them, and the devices
    [devs]. *)
Record fine (room : Z) e : Prop := {
  fi_running : running e = true;
  fi_devs : pci e = devs;
  fi_lock : trampoline_lock (boot e) = false;
  fi_wf : Resources.wf (NR_CPUS v) (res e);
  fi_room : zlen (memdesc_list (res e)) + room < 2 ^ 31
}.

Lemma fine_room n m e : n ≤ m → fine m e → fine n e.
Proof. intros Hle []. split; try done. lia. Qed.

Lemma ctrl_add_cpu_accepted c e st e' :
  ctrl_add_cpu v c e = Some (st, e') → pci e' = pci e ∧ (accepts v → st = 0).
Proof using.
  unfold ctrl_add_cpu. destruct (pisces_setup_trampoline _ _ _ _ _) as [[? b]|]; [|done].
  cbn [mbind option_bind]. unfold sync_status.
  destruct (cpu_command_framed PISCES_CMD_ADD_CPU c (apicid v c)) as [_ Hlen]; [done|].
  rewrite <-Hlen, xbuf_sync_send_whole. cbn [mbind option_bind].
  destruct (pisces_restore_trampoline _) as [? ?]; intros [= <- <-]. split; [done|]. intros Ha. by rewrite Ha.
Qed.

Lemma request_cpu n c e :
  fine n e → 0 ≤ n → 0 ≤ c < NR_CPUS v →
  ∃ ret e', request v PISCES_CMD_ADD_CPU (Num c) e = Some (ret, e') ∧ fine n e' ∧
    cpus_recorded (NR_CPUS v) (res e') = {[c]} ∪ cpus_recorded (NR_CPUS v) (res e) ∧
    memdesc_list (res e') = memdesc_list (res e) ∧
    (accepts v → c ∉ cpus_recorded (NR_CPUS v) (res e) → ret = 0).
Proof using Hnr.
  intros [Hr Hp Hl Hw Hroom] Hn Hc. unfold request, ctrl_ioctl. rewrite Hr. cbn [negb]. rewrite Z.eqb_refl.
  unfold case_add_cpu. cbn [user_arg fst].
  destruct (serve_spec (NR_CPUS v) Hnr (Resources.AddCpu c) (res e) Hc Hw ltac:(lia)) as (ret&r'&Hs&Hw'&Hret&Hcp&_).
  cbn [serve] in Hs. rewrite Hs. cbn [mbind option_bind].
  assert (cpus_recorded (NR_CPUS v) r' = {[c]} ∪ cpus_recorded (NR_CPUS v) (res e)) as Hrec.
  { apply set_eq. intros x. unfold cpus_recorded. rewrite elem_of_union, elem_of_singleton, !elem_of_ids, Hcp.
    split; [intros [?|[= ->]]; auto|intros [->|?]; auto]. }
  assert (memdesc_list r' = memdesc_list (res e)) as Hm.
  { revert Hs. unfold pisces_enclave_add_cpu. destruct (_ >=? _); [done|]. by destruct (Z.testbit _ _); intros [= _ <-]. }
  assert (c ∉ cpus_recorded (NR_CPUS v) (res e) → ret = 0) as Hret0.
  { unfold cpus_recorded. rewrite elem_of_ids. intros Hni. cbn [answers] in Hret. rewrite decide_False in Hret by done.
    by injection Hret. }
  destruct (Z.eqb_spec ret 0) as [->|Hne]; cbn [negb].
  - destruct (ctrl_add_cpu_whole v c (with_res e r') Hl) as (st&e'&Hst&_&Hlk&Hres&Hrun&_).
    destruct (ctrl_add_cpu_accepted _ _ _ _ Hst) as [Hpe Hacc]. cbn [with_res pci] in Hpe.
    exists st, e'. cbn [with_res res running] in Hres, Hrun. rewrite Hres. split; [done|].
    split; [split; [congruence|by rewrite Hpe|done|by rewrite Hres|by rewrite Hres, Hm]|]. split; [done|]. split; [done|].
    intros Ha _. by apply Hacc.
  - exists (-1), (with_res e r'). split; [done|]. split; [split; cbn; try done; by rewrite Hm|].
    split; [done|]. split; [done|]. intros _ Hni. by specialize (Hret0 Hni).
Qed.

Lemma request_remove n c e :
  fine n e → ∃ ret e', request v PISCES_CMD_REMOVE_CPU (Num c) e = Some (ret, e') ∧ fine n e' ∧ res e' = res e.
Proof using.
  intros [Hr Hp Hl Hw Hroom]. unfold request, ctrl_ioctl. rewrite Hr. cbn [negb user_arg fst].
  change (PISCES_CMD_REMOVE_CPU =? PISCES_CMD_ADD_CPU) with false. rewrite Z.eqb_refl. unfold case_remove_cpu.
  destruct (cpu_command_framed PISCES_CMD_REMOVE_CPU c (apicid v c)) as [_ Hlen]; [done|].
  destruct (sync_status_whole v _ _ e Hlen) as [st ->]. cbn [mbind option_bind].
  eexists _, _. split; [reflexivity|]. split; [|done]. by split.
Qed.

Lemma request_mem n b p e :
  fine (n + 1) e → 0 ≤ n → fits 64 b → fits 32 p →
  ∃ ret e', request v PISCES_CMD_ADD_MEM (Range b p) e = Some (ret, e') ∧ fine n e' ∧
    memdesc_list (res e') ≡ₚ {| base_addr := b; pages := p |} :: memdesc_list (res e) ∧
    cpus_recorded (NR_CPUS v) (res e') = cpus_recorded (NR_CPUS v) (res e) ∧ (accepts v → ret = 0).
Proof using Hnr Hkm.
  intros [Hr Hpc Hl Hw Hroom] Hn Hb Hp. unfold request, ctrl_ioctl. rewrite Hr. cbn [negb user_arg fst snd].
  change (PISCES_CMD_ADD_MEM =? PISCES_CMD_ADD_CPU) with false.
  change (PISCES_CMD_ADD_MEM =? PISCES_CMD_REMOVE_CPU) with false. rewrite Z.eqb_refl. unfold case_add_mem, copy_from_user.
  assert (zlen (Prelude.le 8 b ++ Prelude.le 8 p) = sizeof_memory_range) as Hlen by (by rewrite length_app, !le_length).
  rewrite slice_Some by (change sizeof_memory_range with 16 in *; lia). rewrite drop_0.
  rewrite (take_ge _ (Z.to_nat sizeof_memory_range)) by (change (Z.to_nat sizeof_memory_range) with 16%nat; rewrite length_app, !le_length; done). rewrite take_app_length' by (by rewrite le_length). rewrite drop_app_length' by (by rewrite le_length).
  rewrite (take_ge (Prelude.le 8 p)) by (by rewrite le_length). rewrite !unle_le.
  change (8 * Z.of_nat 8) with 64. rewrite !Z.mod_small by (unfold fits in *; lia). rewrite Hkm.
  destruct (serve_spec (NR_CPUS v) Hnr (Resources.AddMem b p) (res e) Hp Hw ltac:(lia)) as (ret&r'&Hs&Hw'&Hret&Hcp&Hm).
  cbn [serve] in Hs. rewrite Hs. cbn [answers] in Hret. injection Hret as ->. cbn [mbind option_bind negb Z.eqb].
  destruct (ctrl_add_mem_whole v b p (with_res e r')) as (st&e'&Hst&_&Hbt).
  assert (running e' = running e ∧ res e' = r' ∧ pci e' = pci e ∧ (accepts v → st = 0)) as (Hrun&Hres&Hpe&Hacc).
  { revert Hst. unfold ctrl_add_mem.
    assert (zlen (cmd_mem_add b (u64 (p * 4096))) = sizeof_cmd_mem_add) as Hl' by done.
    rewrite <-Hl', xbuf_sync_send_whole. cbn [mbind option_bind]. intros [= <- <-]. split_and!; [done..|].
    intros Ha. by rewrite Ha. }
  exists st, e'. split; [done|]. rewrite Hres. cbn [blocks_of omap list_omap app] in Hm. split.
  - split; [congruence|by rewrite Hpe|by rewrite Hbt|by rewrite Hres|]. rewrite Hres, Hm. cbn [length]. lia.
  - split; [done|]. split; [|done]. unfold cpus_recorded. apply set_eq. intros x. rewrite !elem_of_ids, Hcp.
    split; [by intros [?|?]|by left].
Qed.
End requests.

(** ** Lemmas: the requests of a tool *)

Section replays.
Context {S : Type} `{TrampolineLaws S}.
Context (v : Ctrl.env) (Hnr : 0 ≤ NR_CPUS v < 2 ^ 32) (Hkm : kmalloc_ok v = true).
Context (connect : list tool_event → Z) (Hconn : ∀ tr, 0 ≤ connect tr) (id : Z) (e0 : enclave S) (N : Z).
Implicit Types e : enclave S.

(** The enclave behind the requests [tr], of at most [N] events. *)
Record behind tr e : Prop := { bh_replay : replay v tr e0 = Some e; bh_fine : fine v (pci e0) (N - zlen tr) e }.

Lemma replay_app t1 t2 e : replay v (t1 ++ t2) e = (replay v t1 e ≫= replay v t2).
Proof.
  revert e. induction t1 as [|[| |] t1 IH]; intros e; [done|apply IH| |apply IH].
  cbn [app replay]. destruct (request v cmd a e) as [[ret e1]|]; [|done]. cbn [mbind option_bind]. apply IH.
Qed.

Definition after_request cmd a (tr : list tool_event) := (tr ++ [Connect id]) ++ [Cmd cmd a; CloseFd].

Lemma send_spec cmd a tr e ret e' :
  replay v tr e0 = Some e → request v cmd a e = Some (ret, e') →
  attempt connect (answer v e0) id cmd a tr = (ret, after_request cmd a tr) ∧
  replay v (after_request cmd a tr) e0 = Some e'.
Proof using Hconn.
  intros Hr Hq. unfold attempt, pisces_send_ctrl_cmd, after_request, answer.
  rewrite (proj2 (Z.ltb_ge (connect tr) 0)) by done. rewrite !replay_app, Hr. cbn [mbind option_bind replay].
  rewrite Hq. by cbn [mbind option_bind].
Qed.

Lemma after_length cmd a tr : zlen (after_request cmd a tr) = zlen tr + 3.
Proof. unfold after_request. rewrite !length_app. simpl. lia. Qed.

Lemma attempt_grows cmd a tr ioctl : zlen tr ≤ zlen (attempt connect ioctl id cmd a tr).2.
Proof.
  unfold attempt, pisces_send_ctrl_cmd. case_test; cbn [snd]; rewrite !length_app; simpl; lia.
Qed.
Lemma attempts_grow cmd args tr ioctl : zlen tr ≤ zlen (attempts connect ioctl id cmd args tr).
Proof.
  revert tr. induction args as [|a args IH]; intros tr; cbn [attempts]; [done|].
  pose proof (attempt_grows cmd a tr ioctl). pose proof (IH (attempt connect ioctl id cmd a tr).2). lia.
Qed.

(** One processor, or one block. *)
Lemma behind_cpu c tr e :
  behind tr e → 0 ≤ c < NR_CPUS v → zlen (attempt connect (answer v e0) id PISCES_CMD_ADD_CPU (Num c) tr).2 ≤ N →
  ∃ ret e', attempt connect (answer v e0) id PISCES_CMD_ADD_CPU (Num c) tr = (ret, after_request PISCES_CMD_ADD_CPU (Num c) tr) ∧
    behind (after_request PISCES_CMD_ADD_CPU (Num c) tr) e' ∧
    cpus_recorded (NR_CPUS v) (res e') = {[c]} ∪ cpus_recorded (NR_CPUS v) (res e) ∧
    memdesc_list (res e') = memdesc_list (res e) ∧
    (accepts v → c ∉ cpus_recorded (NR_CPUS v) (res e) → ret = 0).
Proof using Hnr Hconn.
  intros [Hr Hf] Hc Hlen. pose proof (attempt_grows PISCES_CMD_ADD_CPU (Num c) tr (answer v e0)) as Hg.
  destruct (request_cpu v Hnr (pci e0) (N - zlen tr) c e Hf ltac:(lia) Hc) as (ret&e'&Hq&Hf'&Hrec&Hm&Ha).
  destruct (send_spec _ _ _ _ _ _ Hr Hq) as [E Hr']. exists ret, e'. split; [done|].
  split; [|done]. split; [done|]. eapply fine_room; [|exact Hf']. rewrite after_length. lia.
Qed.

Lemma behind_mem b p tr e :
  behind tr e → fits 64 b → fits 32 p →
  zlen (attempt connect (answer v e0) id PISCES_CMD_ADD_MEM (Range b p) tr).2 ≤ N →
  ∃ ret e', attempt connect (answer v e0) id PISCES_CMD_ADD_MEM (Range b p) tr = (ret, after_request PISCES_CMD_ADD_MEM (Range b p) tr) ∧
    behind (after_request PISCES_CMD_ADD_MEM (Range b p) tr) e' ∧
    memdesc_list (res e') ≡ₚ {| base_addr := b; pages := p |} :: memdesc_list (res e) ∧
    cpus_recorded (NR_CPUS v) (res e') = cpus_recorded (NR_CPUS v) (res e) ∧ (accepts v → ret = 0).
Proof using Hnr Hkm Hconn.
  intros [Hr Hf] Hb Hp. unfold attempt, pisces_send_ctrl_cmd at 1.
  rewrite (proj2 (Z.ltb_ge (connect tr) 0)) by done. cbn [snd].
  change ((tr ++ [Connect id]) ++ [Cmd PISCES_CMD_ADD_MEM (Range b p); CloseFd])
    with (after_request PISCES_CMD_ADD_MEM (Range b p) tr). rewrite after_length. intros Hlen.
  destruct (request_mem v Hnr Hkm (pci e0) (N - zlen tr - 1) b p e) as (ret&e'&Hq&Hf'&Hm&Hcp&Ha); [|lia|done..|].
  { eapply fine_room; [|exact Hf]. lia. }
  destruct (send_spec _ _ _ _ _ _ Hr Hq) as [E Hr']. exists ret, e'. split; [done|].
  split; [|done]. split; [done|]. eapply fine_room; [|exact Hf']. rewrite after_length. lia.
Qed.

Lemma behind_cpus l tr e :
  behind tr e → Forall (λ c, 0 ≤ c < NR_CPUS v) l →
  zlen (attempts connect (answer v e0) id PISCES_CMD_ADD_CPU (Num <$> l) tr) ≤ N →
  ∃ e', behind (attempts connect (answer v e0) id PISCES_CMD_ADD_CPU (Num <$> l) tr) e' ∧
    cpus_recorded (NR_CPUS v) (res e') = ids l ∪ cpus_recorded (NR_CPUS v) (res e) ∧
    memdesc_list (res e') = memdesc_list (res e) ∧
    (accepts v → NoDup l → ids l ## cpus_recorded (NR_CPUS v) (res e) → granted connect (answer v e0) id l tr = l).
Proof using All.
  intros Hb Hl. revert tr e Hb. induction Hl as [|c l Hc _ IH]; intros tr e Hb; cbn [fmap list_fmap attempts granted].
  - intros _. exists e. split; [done|]. split; [apply ids_nil_union|]. done.
  - intros Hlen. set (t1 := (attempt connect (answer v e0) id PISCES_CMD_ADD_CPU (Num c) tr).2) in *.
    pose proof (attempts_grow PISCES_CMD_ADD_CPU (Num <$> l) t1 (answer v e0)).
    destruct (behind_cpu c tr e Hb Hc ltac:(fold t1; lia)) as (ret&e1&E&Hb1&Hr1&Hm1&Ha1).
    assert (t1 = after_request PISCES_CMD_ADD_CPU (Num c) tr) as -> by (unfold t1; by rewrite E). rewrite E.
    destruct (IH _ _ Hb1 Hlen) as (e'&Hb'&Hr'&Hm'&Ha'). exists e'. split; [done|].
    split; [rewrite Hr', Hr1, ids_cons; set_solver|]. split; [by rewrite Hm'|].
    intros Hacc [Hni Hnd]%NoDup_cons Hdis. rewrite ids_cons in Hdis. rewrite Ha1 by (done || set_solver).
    cbn [Z.eqb app]. f_equal. apply Ha'; [done..|]. rewrite Hr1.
    assert (c ∉ ids l) by (by rewrite elem_of_ids). set_solver.
Qed.

(** The blocks of a tool's request, as the module records them. *)
Definition recorded_as (b : mem_block) : enclave_mem_block := {| base_addr := mb_base b; pages := mb_pages b |}.

Lemma behind_blocks l tr e :
  behind tr e → Forall (λ b, fits 64 (mb_base b) ∧ fits 32 (mb_pages b)) l →
  zlen (attempts connect (answer v e0) id PISCES_CMD_ADD_MEM (range_of <$> l) tr) ≤ N →
  ∃ e', behind (attempts connect (answer v e0) id PISCES_CMD_ADD_MEM (range_of <$> l) tr) e' ∧
    memdesc_list (res e') ≡ₚ (recorded_as <$> l) ++ memdesc_list (res e) ∧
    cpus_recorded (NR_CPUS v) (res e') = cpus_recorded (NR_CPUS v) (res e).
Proof using All.
  intros Hb Hl. revert tr e Hb. induction Hl as [|b l [Hb1 Hb2] _ IH]; intros tr e Hb; cbn [fmap list_fmap attempts].
  - intros _. by exists e.
  - intros Hlen. set (t1 := (attempt connect (answer v e0) id PISCES_CMD_ADD_MEM (range_of b) tr).2) in *.
    pose proof (attempts_grow PISCES_CMD_ADD_MEM (range_of <$> l) t1 (answer v e0)).
    destruct (behind_mem (mb_base b) (mb_pages b) tr e Hb Hb1 Hb2) as (ret&e1&E&He1&Hm1&Hc1&_);
      [change (Range _ _) with (range_of b); fold t1; lia|].
    change (Range _ _) with (range_of b) in E, He1.
    assert (t1 = after_request PISCES_CMD_ADD_MEM (range_of b) tr) as -> by (unfold t1; by rewrite E).
    destruct (IH _ _ He1 Hlen) as (e'&He'&Hm'&Hc'). exists e'. split; [done|]. split; [|by rewrite Hc'].
    rewrite Hm', Hm1. cbn [fmap list_fmap app]. by rewrite Permutation_middle.
Qed.
End replays.

(** ** Lemmas: the account *)

Lemma recorded_step (X0 X X' R L : gset Z) :
  X0 ⊆ X ⊆ X0 ∪ R → R ## X0 → L ## X → X ⊆ X' ⊆ L ∪ X → X0 ⊆ X' ⊆ X0 ∪ (L ∪ R) ∧ L ∪ R ## X0.
Proof. intros [Ha Hb] Hc Hd [He Hf]. split; [split|]; set_solver. Qed.

Lemma recorded_back (X0 X R : gset Z) : X0 ⊆ X ⊆ X0 ∪ R → R ## X0 → X ∖ R = X0.
Proof.
  intros [Ha Hb] Hc. apply set_eq. intros x. rewrite elem_of_difference. destruct (decide (x ∈ R)); set_solver.
Qed.

Lemma ids_one c : ids [c] = {[c]}.
Proof. unfold ids. set_solver. Qed.

Lemma elem_of_rev {A} (l : list A) x : x ∈ rev l ↔ x ∈ l.
Proof. by rewrite <-Permutation_rev. Qed.

Section accounts.
Context {H : Type} `{PetLaws H} (NRC : Z) `{!PetBounds H NRC}.
Implicit Types h : H.

(** Exactly what is recorded is off line. *)
Definition exact h0 h (r : resources) : Prop :=
  cpus_off h = cpus_off h0 ∪ cpus_recorded NRC r ∧ blocks_off h = blocks_off h0 ∪ blocks_recorded r.

Definition host_block (id : Z) : enclave_mem_block :=
  {| base_addr := id * Petlib.pet_block_size; pages := Petlib.pet_block_size / 4096 |}.
Definition no_block : enclave_mem_block := {| base_addr := 0; pages := 0 |}.

Lemma host_block_bytes : 0 < Petlib.pet_block_size ∧ Petlib.pet_block_size / 4096 * 4096 = Petlib.pet_block_size ∧
  fits 32 (Petlib.pet_block_size / 4096) ∧ Petlib.pet_block_size / 4096 * 4096 < 2 ^ 32.
Proof.
  destruct (block_size_pages (H := H) (NR_CPUS := NRC)) as [Hs Hm].
  assert (Petlib.pet_block_size / 4096 * 4096 = Petlib.pet_block_size) as E by (apply Z.mod_divide in Hm as [k ->]; [|done]; by rewrite Z.div_mul).
  unfold fits. rewrite E. split_and!; try done; try lia.
Qed.

Lemma host_block_in i : blocks_in (host_block i) = [i].
Proof.
  destruct host_block_bytes as (Hs&E&_). unfold blocks_in, host_block. cbn [base_addr pages].
  by rewrite E, Z.div_mul, Z.div_same by lia.
Qed.
Lemma no_block_in : blocks_in no_block = [].
Proof. done. Qed.
Lemma host_blocks_in l n : ((host_block <$> l) ++ replicate n no_block) ≫= blocks_in = l.
Proof.
  rewrite bind_app. replace (replicate n no_block ≫= blocks_in) with ([] : list Z) by (by induction n).
  rewrite app_nil_r. induction l as [|i l IH]; [done|]. cbn [fmap list_fmap]. by rewrite bind_cons, IH, host_block_in.
Qed.
Lemma host_blocks_offered l n : Forall block_number l → Forall offered_block ((host_block <$> l) ++ replicate n no_block).
Proof.
  intros Hl. apply list.Forall_app. split; [|apply list.Forall_replicate; by left].
  apply list.Forall_fmap. eapply list.Forall_impl; [exact Hl|]. intros i Hi. right. by exists i.
Qed.

Lemma blocks_recorded_perm r r' nb :
  memdesc_list r' ≡ₚ nb ++ memdesc_list r → blocks_recorded r' = ids (nb ≫= blocks_in) ∪ blocks_recorded r.
Proof.
  intros Hp. unfold blocks_recorded. rewrite <-ids_app, <-bind_app. apply set_eq. intros x. rewrite !elem_of_ids, !list_elem_of_bind.
  by setoid_rewrite Hp.
Qed.

(** A step that records the processors [lc] and the blocks [nb], and takes off line
    at most these. *)
Lemma account_step h0 h h' r r' lc nb lb :
  accounted NRC h0 h r → Resources.wf NRC r' →
  cpus_recorded NRC r' = ids lc ∪ cpus_recorded NRC r → memdesc_list r' ≡ₚ nb ++ memdesc_list r →
  nb ≫= blocks_in = lb → Forall offered_block nb → ids lc ## cpus_off h → ids lb ## blocks_off h →
  cpus_off h ⊆ cpus_off h' ⊆ ids lc ∪ cpus_off h → blocks_off h ⊆ blocks_off h' ⊆ ids lb ∪ blocks_off h →
  accounted NRC h0 h' r' ∧
  (cpus_off h' = ids lc ∪ cpus_off h → blocks_off h' = ids lb ∪ blocks_off h → exact h0 h r → exact h0 h' r').
Proof.
  intros [Hc Hcn Hb Hbn Hw Ho] Hw' Hrc Hm Hin Hof Hdc Hdb Hc' Hb'.
  pose proof (blocks_recorded_perm r r' nb Hm) as Hrb. rewrite Hin in Hrb. split.
  - destruct (recorded_step _ _ _ _ _ Hc Hcn Hdc Hc') as [? ?], (recorded_step _ _ _ _ _ Hb Hbn Hdb Hb') as [? ?].
    split; rewrite ?Hrc, ?Hrb; try done. rewrite Hm. by apply list.Forall_app.
  - intros Ec Eb [Xc Xb]. unfold exact. rewrite Hrc, Hrb, Ec, Eb, Xc, Xb. by rewrite !(assoc_L (∪)), !(comm_L (∪) (ids _) (_ : gset Z)).
Qed.

(** Before the launch. *)
Lemma account_start h0 : accounted NRC h0 h0 no_resources ∧ exact h0 h0 no_resources.
Proof.
  assert (for_each_cpu NRC 0 = []) as Hnil.
  { pose proof (wf_cpus _ _ (no_resources_wf NRC)) as Hz. simpl in Hz. by destruct (for_each_cpu NRC 0). }
  assert (cpus_recorded NRC no_resources = ∅) as Ec by (unfold cpus_recorded; cbn [assigned_cpus no_resources]; by rewrite Hnil).
  assert (blocks_recorded no_resources = ∅) as Eb by done.
  split; [split|split]; rewrite ?Ec, ?Eb; try (by set_solver); apply no_resources_wf.
Qed.

(** Nothing happened on the host. *)
Lemma account_same h0 h h' r : same h h' → accounted NRC h0 h r → accounted NRC h0 h' r.
Proof. intros [Eb Ec] [??????]. split; rewrite ?Eb, ?Ec; done. Qed.
Lemma exact_same h0 h h' r : same h h' → exact h0 h r → exact h0 h' r.
Proof. intros [Eb Ec]. unfold exact. by rewrite Eb, Ec. Qed.

(** *** Giving back *)

Lemma give_back_blocks l h : returned l [] h (give_back_all (OnlineBlock <$> l) h).
Proof.
  revert h. induction l as [|i l IH]; intros h.
  - unfold returned. by rewrite !ids_nil_difference.
  - change (i :: l) with ([i] ++ l). change (@nil Z) with (@nil Z ++ []) at 2.
    eapply returned_trans; [apply online_block|apply IH].
Qed.
Lemma give_back_cpus l h : returned [] l h (give_back_all (OnlineCpu <$> l) h).
Proof.
  revert h. induction l as [|i l IH]; intros h.
  - unfold returned. by rewrite !ids_nil_difference.
  - change (i :: l) with ([i] ++ l). change (@nil Z) with (@nil Z ++ []) at 1.
    eapply returned_trans; [apply online_cpu|apply IH].
Qed.
Lemma give_back_devs l h : give_back_all (dev_event <$> l) h = h.
Proof. by induction l as [|d l IH]. Qed.
Lemma give_back_app l1 l2 h : give_back_all (l1 ++ l2) h = give_back_all l2 (give_back_all l1 h).
Proof. apply foldl_app. Qed.

Lemma block_events_all l :
  l ≫= block_events Petlib.pet_block_size = OnlineBlock <$> (l ≫= blocks_in).
Proof. induction l as [|b l IH]; [done|]. by rewrite !bind_cons, fmap_app, IH. Qed.

(** Giving back everything recorded leaves the host of before the launch. *)
Lemma given_back h0 h r devs tr :
  accounted NRC h0 h r → give_back_all tr h = h →
  same h0 (give_back_all (tr ++ (dev_event <$> devs) ++
    (rev (memdesc_list r) ≫= block_events Petlib.pet_block_size) ++
    cpu_events (rev (for_each_cpu NRC (assigned_cpus r)))) h).
Proof.
  intros [Hc Hcn Hb Hbn _ _] Htr. rewrite !give_back_app, Htr, give_back_devs, block_events_all. unfold cpu_events.
  pose proof (give_back_blocks (rev (memdesc_list r) ≫= blocks_in) h) as R1.
  pose proof (give_back_cpus (rev (for_each_cpu NRC (assigned_cpus r)))
    (give_back_all (OnlineBlock <$> (rev (memdesc_list r) ≫= blocks_in)) h)) as R2.
  destruct (returned_trans _ _ _ _ _ _ _ R1 R2) as [Eb Ec]. rewrite app_nil_r in Eb. cbn [app] in Ec.
  assert (ids (rev (memdesc_list r) ≫= blocks_in) = blocks_recorded r) as Hrb.
  { unfold blocks_recorded. apply set_eq. intros x. rewrite !elem_of_ids, !list_elem_of_bind.
    by setoid_rewrite elem_of_rev. }
  assert (ids (rev (for_each_cpu NRC (assigned_cpus r))) = cpus_recorded NRC r) as Hrc.
  { unfold cpus_recorded. apply set_eq. intros x. by rewrite !elem_of_ids, elem_of_rev. }
  rewrite Hrb in Eb. rewrite Hrc in Ec. unfold same. rewrite Eb, Ec. by split; apply recorded_back.
Qed.
End accounts.

(** ** Lemmas: the administrator's requests *)

Section administration.
Context {S : Type} `{TrampolineLaws S} {Host : Type} `{!Petlib Host, !PetLaws Host}.
Context (v : Ctrl.env) (Hnr : 0 ≤ NR_CPUS v < 2 ^ 32) (Hkm : kmalloc_ok v = true) `{!PetBounds Host (NR_CPUS v)}.
Context (connect : list tool_event → Z) (Hconn : ∀ tr, 0 ≤ connect tr) (id : Z) (e0 : enclave S) (N : Z) (h0 : Host).
Implicit Types (e : enclave S) (h : Host).
Notation accounted := (accounted (NR_CPUS v)).
Notation exact := (exact (NR_CPUS v)).
Notation behind := (behind v e0 N).
Notation administer := (administer connect (answer v e0) id).
Notation attempts := (attempts connect (answer v e0) id).

(** Numbers are not negative, and a processor that was off line before the launch is
    not removed. *)
Definition allowed (a : admin) : Prop :=
  match a with AddCpus n _ | AddMem n _ => 0 ≤ n | RemoveCpu c => c ∉ cpus_off h0 | _ => True end.
(** The requests it takes at most. *)
Definition requests_of (a : admin) : Z :=
  match a with AddCpus n _ | AddMem n _ => n | AddMemNode zone => pet_num_blocks zone | _ => 1 end.
Definition requests_all (l : list admin) : Z := foldr (λ a n, Z.max 0 (requests_of a) + n) 0 l.
Definition removes (a : admin) : Prop := match a with RemoveCpu _ => True | _ => False end.

(** Processors, or blocks, recorded: a reading of [account_step]. *)
Lemma account_cpus h h' r r' l :
  accounted h0 h r → Resources.wf (NR_CPUS v) r' → cpus_recorded (NR_CPUS v) r' = ids l ∪ cpus_recorded (NR_CPUS v) r →
  memdesc_list r' = memdesc_list r → ids l ## cpus_off h → blocks_off h' = blocks_off h →
  cpus_off h ⊆ cpus_off h' ⊆ ids l ∪ cpus_off h →
  accounted h0 h' r' ∧ (cpus_off h' = ids l ∪ cpus_off h → exact h0 h r → exact h0 h' r').
Proof using PetBounds0.
  intros Ha Hw Hc Hm Hd Eb Hs.
  destruct (account_step (NR_CPUS v) h0 h h' r r' l [] [] Ha Hw Hc) as [Ha' Hx]; [by rewrite Hm|done|constructor|done|apply ids_nil_disjoint|done| |].
  - rewrite Eb. split; [done|apply union_subseteq_r].
  - split; [done|]. intros Ec. apply Hx; [done|]. rewrite Eb. apply ids_nil_union.
Qed.
Lemma account_blocks h h' r r' l n :
  accounted h0 h r → Resources.wf (NR_CPUS v) r' → cpus_recorded (NR_CPUS v) r' = cpus_recorded (NR_CPUS v) r →
  memdesc_list r' ≡ₚ ((host_block <$> l) ++ replicate n no_block) ++ memdesc_list r → Forall block_number l →
  ids l ## blocks_off h → cpus_off h' = cpus_off h → blocks_off h ⊆ blocks_off h' ⊆ ids l ∪ blocks_off h →
  accounted h0 h' r' ∧ (blocks_off h' = ids l ∪ blocks_off h → exact h0 h r → exact h0 h' r').
Proof using PetBounds0.
  intros Ha Hw Hc Hm Hn Hd Ec Hs.
  destruct (account_step (NR_CPUS v) h0 h h' r r' [] ((host_block <$> l) ++ replicate n no_block) l Ha Hw) as [Ha' Hx]; [|exact Hm|apply (host_blocks_in (NR_CPUS v))|
    by apply host_blocks_offered|apply ids_nil_disjoint|done| |done|].
  - rewrite Hc. apply ids_nil_union.
  - rewrite Ec. split; [done|apply union_subseteq_r].
  - split; [done|]. intros Eb. apply Hx; [|done]. rewrite Ec. apply ids_nil_union.
Qed.

(** What the tools do to the record of the enclave behind [tr], and to the host. *)
Definition served a h tr h' tr' : Prop :=
  ∀ e, behind tr e → accounted h0 h (res e) → zlen tr' ≤ N →
  ∃ e', behind tr' e' ∧ accounted h0 h' (res e') ∧
    (accepts v → ¬ removes a → exact h0 h (res e) → exact h0 h' (res e')).

Lemma served_same a h h' tr : same h h' → served a h tr h' tr.
Proof using. intros Hs e Hb Ha _. exists e. split; [done|]. split; [by eapply account_same|]. intros _ _. by apply exact_same. Qed.

Lemma served_cpus a h h' tr l :
  NoDup l → Forall (λ c, 0 ≤ c < NR_CPUS v) l → ids l ## cpus_off h → 
  taken [] (granted connect (answer v e0) id l tr) h h' →
  served a h tr h' (attempts PISCES_CMD_ADD_CPU (Num <$> l) tr).
Proof using All.
  intros Hnd Hl Hd (_&_&_&_&Eb&Ec) e Hb Ha Hlen. pose proof (granted_ids connect (answer v e0) id l tr) as Hg.
  destruct (behind_cpus v Hnr Hkm connect Hconn id e0 N l tr e Hb Hl Hlen) as (e'&Hb'&Hr&Hm&Hall).
  exists e'. split; [done|]. pose proof (fi_wf _ _ _ _ (bh_fine _ _ _ _ _ Hb')) as Hw'.
  destruct (account_cpus h h' (res e) (res e') l) as [Ha' Hx]; [done..| | |].
  - rewrite Eb. symmetry. apply ids_nil_union.
  - rewrite Ec. clear -Hg. split; [apply union_subseteq_r|]. by apply union_mono_r.
  - split; [done|]. intros Hacc _ He. apply Hx; [|done]. rewrite Ec, Hall; [done..|]. destruct He as [E _]. rewrite E in Hd. set_solver.
Qed.

Lemma served_blocks a h h' tr l n :
  Forall block_number l → taken l [] h h' →
  served a h tr h' (attempts PISCES_CMD_ADD_MEM ((range_of <$> (block_of <$> l)) ++ replicate n (Range 0 0)) tr).
Proof using All.
  intros Hl (_&_&Hd&_&Eb&Ec) e Hb Ha.
  replace (replicate n (Range 0 0)) with (range_of <$> replicate n {| mb_base := 0; mb_pages := 0 |})
    by (by rewrite fmap_replicate). rewrite <-fmap_app. intros Hlen.
  destruct (behind_blocks v Hnr Hkm connect Hconn id e0 N ((block_of <$> l) ++ replicate n {| mb_base := 0; mb_pages := 0 |}) tr e Hb) as (e'&Hb'&Hm&Hc).
  { apply list.Forall_app. split; [|apply list.Forall_replicate; by split].
    apply list.Forall_fmap. eapply list.Forall_impl; [exact Hl|]. intros i (Hi&Hi2&_).
    destruct (host_block_bytes (NR_CPUS v)) as (Hs&_&Hf&_). split; [|exact Hf]. cbn [block_of mb_base compose]. unfold fits. nia. }
  { exact Hlen. }
  exists e'. split; [done|]. pose proof (fi_wf _ _ _ _ (bh_fine _ _ _ _ _ Hb')) as Hw'.
  rewrite fmap_app, <-list_fmap_compose, fmap_replicate in Hm.
  destruct (account_blocks h h' (res e) (res e') l n) as [Ha' Hx]; [done..| | |].
  - rewrite Ec. symmetry. apply ids_nil_union.
  - rewrite Eb. split; [apply union_subseteq_r|done].
  - split; [done|]. intros _ _. by apply Hx.
Qed.
(** One processor or block: refused, it comes back on line, and stays recorded. *)
Lemma served_cpu c h tr :
  let '(_, h', tr') := administer (AddCpu c) h tr in zlen tr ≤ zlen tr' ∧ served (AddCpu c) h tr h' tr'.
Proof using All.
  cbn [Lifecycle.administer]. unfold pisces_add_cpu. destruct (pet_offline_cpu c h) as [r h1] eqn:E.
  destruct (offline_cpu _ _ _ _ E) as [[-> Hs]|[-> Ht]]; cbn [Z.eqb]; [by split; [|apply served_same]|].
  pose proof (cpu_bound _ _ _ E) as Hc.
  pose proof (attempt_grows connect id PISCES_CMD_ADD_CPU (Num c) tr (answer v e0)) as Hg.
  destruct (pisces_send_ctrl_cmd _ _ _ _ _ _) as [ret t] eqn:Es. unfold attempt in Hg. rewrite Es in Hg. cbn [snd] in Hg.
  destruct Ht as (_&_&_&Hd&Eb&Ec). destruct (online_cpu c h1) as [Eb2 Ec2]. rewrite ids_nil_difference in Eb2.
  pose proof (ids_one c) as Hone.
  assert (∀ h', blocks_off h' = blocks_off h1 → cpus_off h ⊆ cpus_off h' ⊆ ids [c] ∪ cpus_off h →
    (ret = 0 → cpus_off h' = ids [c] ∪ cpus_off h) → served (AddCpu c) h tr h' t) as Hserved.
  { intros h' Hb' Hc' He' e Hb Ha Hlen.
    destruct (behind_cpu v Hnr connect Hconn id e0 N c tr e Hb Hc) as (ret'&e'&Es'&Hbe&Hr&Hm&Hacc);
      unfold attempt in *; rewrite Es in *; [exact Hlen|]. injection Es' as <- ->.
    exists e'. split; [done|]. pose proof (fi_wf _ _ _ _ (bh_fine _ _ _ _ _ Hbe)) as Hw'. rewrite <-Hone in Hr.
    destruct (account_cpus h h' (res e) (res e') [c]) as [Ha' Hx]; [done..|by rewrite Hb', Eb, <-ids_nil_union|done|].
    split; [done|]. intros Hac _ He. apply Hx; [|done]. apply He', Hacc; [done|]. destruct He as [X _].
    rewrite X, Hone in Hd. set_solver. }
  destruct (Z.eqb_spec ret 0); cbn [negb]; (split; [done|]); apply Hserved; try done.
  - rewrite Ec. split; [apply union_subseteq_r|done].
  - rewrite Ec2, Ec. clear -Hd. split; set_solver.
Qed.

Lemma served_block i h tr :
  let '(_, h', tr') := administer (AddMemBlock i) h tr in zlen tr ≤ zlen tr' ∧ served (AddMemBlock i) h tr h' tr'.
Proof using All.
  cbn [Lifecycle.administer]. unfold pisces_add_mem_explicit. destruct (pet_offline_block i h) as [r h1] eqn:E.
  destruct (offline_block _ _ _ _ E) as [[-> Hs]|[-> Ht]]; cbn [Z.eqb]; [by split; [|apply served_same]|].
  pose proof (block_bound (NR_CPUS := NR_CPUS v) _ _ _ E) as Hi. destruct (host_block_bytes (H := Host) (NR_CPUS v)) as (Hbs&_&Hf&_).
  rewrite (wrap_small 64 i), wrap_small by (destruct Hi as (?&?&?); unfold fits; nia).
  rewrite (Z.mul_comm Petlib.pet_block_size).
  pose proof (attempt_grows connect id PISCES_CMD_ADD_MEM (Range (i * Petlib.pet_block_size) (Petlib.pet_block_size / 4096)) tr (answer v e0)) as Hg.
  destruct (pisces_send_ctrl_cmd _ _ _ _ _ _) as [ret t] eqn:Es. unfold attempt in Hg. rewrite Es in Hg. cbn [snd] in Hg.
  destruct Ht as (_&_&Hd&_&Eb&Ec). destruct (Petlib.online_block i h1) as [Eb2 Ec2]. rewrite ids_nil_difference in Ec2.
  assert (∀ h', cpus_off h' = cpus_off h1 → blocks_off h ⊆ blocks_off h' ⊆ ids [i] ∪ blocks_off h →
    (ret ≠ -1 → blocks_off h' = ids [i] ∪ blocks_off h) → served (AddMemBlock i) h tr h' t) as Hserved.
  { intros h' Hc' Hb' He' e Hb Ha Hlen.
    destruct (behind_mem v Hnr Hkm connect Hconn id e0 N (i * Petlib.pet_block_size) (Petlib.pet_block_size / 4096) tr e Hb)
      as (ret'&e'&Es'&Hbe&Hm&Hr&Hacc); unfold attempt in *; rewrite ?Es in *; [|done|done|].
    { destruct Hi as (?&?&?); unfold fits; nia. }
    injection Es' as <- ->. exists e'. split; [done|]. pose proof (fi_wf _ _ _ _ (bh_fine _ _ _ _ _ Hbe)) as Hw'.
    destruct (account_blocks h h' (res e) (res e') [i] 0) as [Ha' Hx]; [done..|by apply list.Forall_singleton|done|by rewrite Hc', Ec, <-ids_nil_union|done|].
    split; [done|]. intros Hac _ He. apply Hx; [|done]. apply He'. by rewrite Hacc. }
  destruct (Z.eqb_spec ret (-1)); (split; [done|]); apply Hserved; try done.
  - rewrite Eb2, Eb. clear -Hd. split; set_solver.
  - rewrite Eb. split; [apply union_subseteq_r|done].
Qed.

Lemma served_remove c h tr :
  c ∉ cpus_off h0 →
  let '(_, h', tr') := administer (RemoveCpu c) h tr in zlen tr ≤ zlen tr' ∧ served (RemoveCpu c) h tr h' tr'.
Proof using All.
  intros Hc. cbn [Lifecycle.administer]. unfold pisces_remove_cpu.
  pose proof (attempt_grows connect id PISCES_CMD_REMOVE_CPU (Num c) tr (answer v e0)) as Hg.
  destruct (pisces_send_ctrl_cmd _ _ _ _ _ _) as [ret t] eqn:Es. unfold attempt in Hg. rewrite Es in Hg. cbn [snd] in Hg.
  assert (∀ h', blocks_off h' = blocks_off h → cpus_off h0 ∩ cpus_off h ⊆ cpus_off h' ⊆ cpus_off h → served (RemoveCpu c) h tr h' t) as Hserved.
  { intros h' Eb Hs e [Hr Hf] Ha Hlen.
    destruct (request_remove v (pci e0) (N - zlen tr) c e Hf) as (ret'&e'&Hq&Hf'&Hre).
    destruct (send_spec v connect Hconn id e0 _ _ _ _ _ _ Hr Hq) as [Es' Hr']. unfold attempt in Es'. rewrite Es in Es'.
    injection Es' as -> ->. rewrite after_length in Hlen. exists e'. rewrite Hre.
    split; [split; [done|]; eapply fine_room; [|exact Hf']; rewrite after_length; lia|].
    split; [|by intros _ []]. destruct Ha as [[? ?] ????]. split; rewrite ?Eb; try done. clear -Hs H1 H2. split; set_solver. }
  destruct (Z.eqb_spec ret 0); cbn [negb]; (split; [done|]); apply Hserved; try done.
  - destruct (online_cpu c h) as [E _]. by rewrite E, ids_nil_difference.
  - destruct (online_cpu c h) as [_ E]. rewrite E. clear -Hc. split; set_solver.
  - split; [apply intersection_subseteq_r|done].
Qed.

Lemma administer_served a h tr :
  allowed a → let '(_, h', tr') := administer a h tr in zlen tr ≤ zlen tr' ∧ served a h tr h' tr'.
Proof using All.
  destruct a as [n zone|c|c|n zone|zone|i]; cbn [allowed]; intros Ha.
  - cbn [Lifecycle.administer]. pose proof (add_cpus_spec connect (answer v e0) id n zone h tr Ha) as Hs.
    destruct (pisces_add_cpus _ _ _ _ _ _ _) as [[ret h'] t].
    destruct Hs as [(_&Hs&->)|(_&l&h1&arr&E&->&_&Hnd&->&Hd&Ht)]; [by split; [|apply served_same]|].
    split; [apply attempts_grow|]. eapply served_cpus; try done. by eapply cpus_bound.
  - apply served_cpu.
  - by apply served_remove.
  - cbn [Lifecycle.administer]. pose proof (add_mem_spec connect (answer v e0) id n zone h tr Ha) as Hs.
    destruct (pisces_add_mem _ _ _ _ _ _ _) as [[ret h'] t].
    destruct Hs as [(_&Hs&->)|(_&l&bl&E&Hbl&_&->&Ht)]; [by split; [|apply served_same]|].
    split; [apply attempts_grow|]. rewrite <-(app_nil_r (range_of <$> _)). change [] with (replicate 0 (Range 0 0)).
    apply served_blocks; [by eapply (blocks_bound (NR_CPUS := NR_CPUS v))|done].
  - cbn [Lifecycle.administer]. pose proof (add_node_spec connect (answer v e0) id zone h tr) as Hs.
    destruct (pisces_add_mem_node _ _ _ _ _ _) as [[ret h'] t]. destruct Hs as (l&bl&E&_&_&Ht&Hbl&->).
    split; [apply attempts_grow|]. apply served_blocks; [|done]. by eapply (node_bound (NR_CPUS := NR_CPUS v)).
  - apply served_block.
Qed.

(** What the enclave refused is on line again, and recorded: a reset stops that processor
    and offers the enclave that block ([Device.ioctl_reset]). *)
Lemma refused_stays_recorded i c h tr e :
  behind tr e →
  (let '(ret, h', tr') := administer (AddMemBlock i) h tr in
   (pet_offline_block i h).1 = 0 → ret = -1 → zlen tr' ≤ N →
   ∃ e', behind tr' e' ∧ i ∉ blocks_off h' ∧ i ∈ blocks_recorded (H := Host) (res e')) ∧
  (let '(ret, h', tr') := administer (AddCpu c) h tr in
   (pet_offline_cpu c h).1 = 0 → ret = -1 → zlen tr' ≤ N →
   ∃ e', behind tr' e' ∧ c ∉ cpus_off h' ∧ c ∈ cpus_recorded (NR_CPUS v) (res e')).
Proof using All.
  intros Hb. split; cbn [Lifecycle.administer].
  - unfold pisces_add_mem_explicit. destruct (pet_offline_block i h) as [r h1] eqn:E.
    destruct (Z.eqb_spec r (-1)) as [->|_]; [done|].
    destruct (pisces_send_ctrl_cmd _ _ _ _ _ _) as [ret t] eqn:Es.
    destruct (Z.eqb_spec ret (-1)); [|done]. intros ?. cbn [fst] in *. subst r. intros _ Hlen.
    pose proof (block_bound (NR_CPUS := NR_CPUS v) _ _ _ E) as Hi.
    destruct (host_block_bytes (H := Host) (NR_CPUS v)) as (Hbs&_&Hf&_).
    rewrite (wrap_small 64 i), wrap_small, (Z.mul_comm Petlib.pet_block_size) in Es by (destruct Hi as (?&?&?); unfold fits; nia).
    destruct (behind_mem v Hnr Hkm connect Hconn id e0 N (i * Petlib.pet_block_size) (Petlib.pet_block_size / 4096) tr e Hb)
      as (ret'&e'&Es'&Hbe&Hm&_); unfold attempt in *; rewrite ?Es in *; [|done|done|].
    { destruct Hi as (?&?&?); unfold fits; nia. }
    injection Es' as <- ->. exists e'. split; [done|]. destruct (Petlib.online_block i h1) as [Eb _].
    rewrite Eb, ids_one. split; [set_solver|].
    rewrite (blocks_recorded_perm (res e) (res e') [host_block i]) by exact Hm.
    rewrite bind_cons, (host_block_in (NR_CPUS v)). cbn [mbind list_bind app]. rewrite ids_one. set_solver.
  - unfold pisces_add_cpu. destruct (pet_offline_cpu c h) as [r h1] eqn:E.
    destruct (Z.eqb_spec r (-1)) as [->|_]; [done|].
    destruct (pisces_send_ctrl_cmd _ _ _ _ _ _) as [ret t] eqn:Es.
    destruct (Z.eqb_spec ret 0) as [->|]; cbn [negb]; [done|]. intros ?. cbn [fst] in *. subst r. intros _ Hlen.
    pose proof (cpu_bound _ _ _ E) as Hc.
    destruct (behind_cpu v Hnr connect Hconn id e0 N c tr e Hb Hc) as (ret'&e'&Es'&Hbe&Hr&_);
      unfold attempt in *; rewrite Es in *; [exact Hlen|]. injection Es' as <- ->.
    exists e'. split; [done|]. destruct (online_cpu c h1) as [_ Ec]. rewrite Ec, Hr, ids_one. split; set_solver.
Qed.

(** How many requests. *)
Lemma attempts_length cmd args tr : zlen (attempts cmd args tr) ≤ zlen tr + 3 * zlen args.
Proof using.
  revert tr. induction args as [|a args IH]; intros tr; cbn [Tools.attempts length]; [lia|].
  assert (zlen (attempt connect (answer v e0) id cmd a tr).2 ≤ zlen tr + 3); [|specialize (IH (attempt connect (answer v e0) id cmd a tr).2); lia].
  unfold attempt, pisces_send_ctrl_cmd. case_test; cbn [snd]; rewrite !length_app; simpl; lia.
Qed.

Lemma attempt_length cmd a tr ret t :
  pisces_send_ctrl_cmd connect (answer v e0) id cmd a tr = (ret, t) → zlen t ≤ zlen tr + 3.
Proof using. intros E. pose proof (attempts_length cmd [a] tr) as Hl. cbn [Tools.attempts] in Hl. unfold attempt in Hl. by rewrite E in Hl. Qed.

Lemma administer_length a h tr :
  allowed a → let '(_, _, tr') := administer a h tr in zlen tr' ≤ zlen tr + 3 * Z.max 0 (requests_of a).
Proof using PetLaws0.
  destruct a as [n zone|c|c|n zone|zone|i]; cbn [allowed Lifecycle.administer requests_of]; intros Ha.
  - pose proof (add_cpus_spec connect (answer v e0) id n zone h tr Ha) as Hs.
    destruct (pisces_add_cpus _ _ _ _ _ _ _) as [[ret h'] t].
    destruct Hs as [(_&_&->)|(_&l&h1&arr&_&_&Hl&_&->&_)]; [lia|].
    pose proof (attempts_length PISCES_CMD_ADD_CPU (Num <$> l) tr) as Hlen. rewrite length_fmap in Hlen. lia.
  - unfold pisces_add_cpu. destruct (pet_offline_cpu c h) as [r h1]. case_test; [lia|].
    destruct (pisces_send_ctrl_cmd _ _ _ _ _ _) as [ret t] eqn:E. apply attempt_length in E. case_test; lia.
  - unfold pisces_remove_cpu. destruct (pisces_send_ctrl_cmd _ _ _ _ _ _) as [ret t] eqn:E. apply attempt_length in E. case_test; lia.
  - pose proof (add_mem_spec connect (answer v e0) id n zone h tr Ha) as Hs.
    destruct (pisces_add_mem _ _ _ _ _ _ _) as [[ret h'] t].
    destruct Hs as [(_&_&->)|(_&l&bl&_&_&Hl&->&_)]; [lia|].
    pose proof (attempts_length PISCES_CMD_ADD_MEM (range_of <$> (block_of <$> l)) tr) as Hlen. rewrite !length_fmap in Hlen. lia.
  - pose proof (add_node_spec connect (answer v e0) id zone h tr) as Hs.
    destruct (pisces_add_mem_node _ _ _ _ _ _) as [[ret h'] t]. destruct Hs as (l&bl&_&Hl&?&_&_&->).
    match goal with |- context [attempts _ ?args _] => pose proof (attempts_length PISCES_CMD_ADD_MEM args tr) as Hlen end.
    rewrite length_app, length_replicate, !length_fmap in Hlen. lia.
  - unfold pisces_add_mem_explicit. destruct (pet_offline_block i h) as [r h1]. case_test; [lia|].
    destruct (pisces_send_ctrl_cmd _ _ _ _ _ _) as [ret t] eqn:E. apply attempt_length in E. case_test; lia.
Qed.

Lemma administer_all_length l h tr h' tr' :
  Forall allowed l → administer_all connect (answer v e0) id l h tr = (h', tr') →
  zlen tr' ≤ zlen tr + 3 * requests_all l.
Proof using PetLaws0.
  intros Hl. revert h tr. induction Hl as [|a l Ha _ IH]; intros h tr; cbn [administer_all requests_all foldr].
  - intros [= _ <-]. lia.
  - pose proof (administer_length a h tr Ha) as Hs. destruct (administer a h tr) as [[ret h1] t1].
    intros E. apply IH in E. fold (requests_all l). lia.
Qed.

(** Any sequence of requests. *)
Lemma administer_all_accounts l h tr h' tr' :
  Forall allowed l → administer_all connect (answer v e0) id l h tr = (h', tr') →
  zlen tr ≤ zlen tr' ∧
  ∀ e, behind tr e → accounted h0 h (res e) → zlen tr' ≤ N →
  ∃ e', behind tr' e' ∧ accounted h0 h' (res e') ∧
    (accepts v → Forall (λ a, ¬ removes a) l → exact h0 h (res e) → exact h0 h' (res e')).
Proof using All.
  intros Hl. revert h tr. induction Hl as [|a l Ha _ IH]; intros h tr; cbn [administer_all].
  - intros [= <- <-]. split; [done|]. intros e Hb Hac _. by exists e.
  - pose proof (administer_served a h tr Ha) as Hs. destruct (administer a h tr) as [[ret h1] t1].
    destruct Hs as [Hg Hs]. intros E. destruct (IH _ _ E) as [Hg' IH']. split; [lia|]. intros e Hb Hac Hlen.
    destruct (Hs e Hb Hac ltac:(lia)) as (e1&Hb1&Hac1&Hx1). destruct (IH' e1 Hb1 Hac1 Hlen) as (e'&Hb'&Hac'&Hx').
    exists e'. do 2 (split; [done|]). intros Hacc [Hna Hnl]%list.Forall_cons He. auto.
Qed.
End administration.

(** ** Lemmas: the launch and the release *)

(** The request of the launch tool, as the module reads it. *)
Definition described (be : Tools.boot_env) : launch_env :=
  {| base := be_base be; block_size := be_block_size be; num_blocks := be_num_blocks be; boot_cpu_id := be_cpu be |}.
Definition asked (k : kernel) (be : Tools.boot_env) : kernel :=
  {| user_boot := Some (described be); lcall_ret := lcall_ret k; initialized := initialized k;
     lcall_stops := lcall_stops k; hw := hw k; new_fd := new_fd k |}.

Section life.
Context {S : Type} `{TrampolineLaws S} {Host : Type} `{!Petlib Host, !PetLaws Host}.
Context (maxlvt : Z) (integrated : bool) (esr icr_idle : list apic_event → Z).
Context (fuel : nat) (v : Ctrl.env) (files : BootParams.boot_env) (k : kernel) (d : device S).
Context (Hnr : 0 ≤ NR_CPUS v < 2 ^ 31) (Hkm : kmalloc_ok v = true) `{!PetBounds Host (NR_CPUS v)}.
Implicit Types h : Host.
Notation NRC := (NR_CPUS v).

(** What the module answers to the launch tool. *)
Definition launch_ioctl (be : Tools.boot_env) : option (Z * device S) :=
  enclave_ioctl maxlvt integrated esr icr_idle fuel v files PISCES_ENCLAVE_LAUNCH (asked k be) d.
Definition launch_answer (be : Tools.boot_env) : Z :=
  match launch_ioctl be with Some (ret, _) => ret | None => -1 end.

(** An enclave that was loaded, and comes up. *)
Record loaded : Prop := {
  ll_fresh : res (encl d) = no_resources;
  ll_lock : trampoline_lock (boot (encl d)) = false;
  ll_lcall : lcall_ret k ≠ -1;
  ll_up : ∀ tr, initialized k tr = true
}.

Lemma boot_blocks_host b0 n c :
  boot_blocks (described {| be_base := b0 * Petlib.pet_block_size; be_block_size := Petlib.pet_block_size;
                            be_num_blocks := n; be_cpu := c |}) = host_block <$> seqZ b0 n.
Proof using.
  unfold boot_blocks, described. cbn [base block_size num_blocks be_base be_block_size be_num_blocks].
  replace (seqZ b0 n) with (seqZ (b0 + 0) n) by (by rewrite Z.add_0_r). rewrite <-fmap_add_seqZ, <-list_fmap_compose. apply list_fmap_ext.
  intros i x _. unfold compose, host_block. f_equal. lia.
Qed.

Lemma call_bounds block_id zone b0 n cpu_id c h h1 h2 :
  mem_call block_id zone b0 n h h1 → cpu_call cpu_id zone c h1 h2 → 
  (block_id ≠ -1 → b0 = block_id ∧ n = 1) → (cpu_id ≠ -1 → c = cpu_id) → Forall block_number (seqZ b0 n) ∧ 0 ≤ c < NRC.
Proof using PetBounds0.
  intros Hm Hc Hb Hcp. split.
  - destruct Hm as [(_&ret&Hr&E)|(Hne&E)]; [by eapply (contig_bound (NR_CPUS := NRC))|].
    destruct (Hb Hne) as [-> ->]. rewrite seqZ_one. apply list.Forall_singleton. by eapply (block_bound (NR_CPUS := NRC)).
  - destruct Hc as [(_&l&E)|(Hne&E)]; [|rewrite (Hcp Hne); by eapply cpu_bound].
    pose proof (cpus_bound _ _ _ _ _ _ E) as Hf. change (take (Z.to_nat 1) (c :: l)) with [c] in Hf.
    by inversion Hf.
Qed.

Lemma described_ok b0 n c :
  0 ≤ b0 → 0 < n < 2 ^ 31 → Forall block_number (seqZ b0 n) →
  launch_ok (described {| be_base := b0 * Petlib.pet_block_size; be_block_size := Petlib.pet_block_size;
                          be_num_blocks := n; be_cpu := c |}).
Proof using PetBounds0.
  intros Hb Hn Hf. destruct (block_size_pages (H := Host) (NR_CPUS := NRC)) as [Hs Hm].
  destruct (host_block_bytes (H := Host) NRC) as (_&_&Hp&_).
  assert (block_number (b0 + (n - 1))) as (_&He&_).
  { eapply list.Forall_forall; [exact Hf|]. apply elem_of_seqZ. lia. }
  split; cbn; [nia|unfold fits in Hp; lia|done|nia].
Qed.
(** The module's answer to the tool. *)
Lemma asked_up block_id num b0 n cpu_id c zone h h1 h2 kern initrd be :
  0 < num < 2 ^ 31 → launch_blocks block_id num b0 n → (cpu_id ≠ -1 → c = cpu_id) →
  mem_call block_id zone b0 n h h1 → cpu_call cpu_id zone c h1 h2 → loaded →
  loadable fuel files ((if bool_decide (block_id = -1) then num else 1) * Petlib.pet_block_size (H := Host)) kern initrd →
  be = {| be_base := b0 * Petlib.pet_block_size (H := Host); be_block_size := Petlib.pet_block_size (H := Host);
          be_num_blocks := n; be_cpu := c |} →
  ∃ d1, launch_ioctl be = Some (0, d1) ∧ up d d1 ∧ pci (encl d1) = pci (encl d) ∧
    0 < n ≤ num ∧ Forall block_number (seqZ b0 n) ∧ Resources.wf NRC (res (encl d1)) ∧
    memdesc_list (res (encl d1)) ≡ₚ (host_block (H := Host) <$> seqZ b0 n) ++ memdesc_list no_resources ∧
    cpus_recorded NRC (res (encl d1)) = ids [c] ∪ cpus_recorded NRC no_resources.
Proof using All.
  intros Hn [Hb0 Hbl] Hcpu Hmc Hcc [Hres Hl Hlc Hup] Hld ->.
  assert (0 < n ≤ num ∧ (block_id ≠ -1 → b0 = block_id ∧ n = 1) ∧
          n = if bool_decide (block_id = -1) then num else 1) as (Hnn&Hid&Hneq).
  { case_bool_decide; [subst; split; [lia|done]|]. destruct Hbl as [-> ->]. split; [lia|done]. }
  destruct (call_bounds _ _ _ _ _ _ _ _ _ Hmc Hcc Hid Hcpu) as [Hbn Hcb].
  set (be := {| be_base := _; be_block_size := _; be_num_blocks := _; be_cpu := _ |}).
  destruct (ioctl_launch_up maxlvt integrated esr icr_idle fuel v files (asked k be) d (described be) kern initrd)
    as (d1&Hio&Hu&_&_&_&Hwf&Hm&Hcp&_&Hpci&_); rewrite ?Hres; try done.
  { apply described_ok; [done|lia|done]. }
  { simpl. lia. }
  { apply no_resources_wf. }
  { simpl. lia. }
  { change (num_blocks (described be) * block_size (described be)) with (n * Petlib.pet_block_size (H := Host)). by rewrite Hneq. }
  exists d1. rewrite Hres in Hm, Hcp. unfold be in Hm. rewrite boot_blocks_host in Hm. do 7 (split; [done|]).
  unfold cpus_recorded. apply set_eq. intros x. rewrite elem_of_union, !elem_of_ids, Hcp, list_elem_of_singleton. naive_solver.
Qed.

(** A launch is refused by the host only; otherwise the enclave runs, and the account
    is exact. *)
Lemma launched malloc_ok cpu_id block_id zone num h0 kern initrd :
  0 < num < 2 ^ 31 → cpu_id = -1 ∨ fits 32 cpu_id →
  block_id = -1 ∨ 0 ≤ block_id ∧ block_id * Petlib.pet_block_size < 2 ^ 64 → loaded →
  loadable fuel files ((if bool_decide (block_id = -1) then num else 1) * Petlib.pet_block_size) kern initrd →
  ∃ ret h1 l, pisces_launch malloc_ok launch_answer cpu_id block_id zone num h0 = Some (ret, h1, l) ∧
  ((ret = -1 ∧ same h0 h1 ∧ l = []) ∨
   (ret = 0 ∧ ∃ be d1, l = [be] ∧ launch_ioctl be = Some (0, d1) ∧ up d d1 ∧ pci (encl d1) = pci (encl d) ∧
      zlen (memdesc_list (res (encl d1))) ≤ num ∧
      accounted NRC h0 h1 (res (encl d1)) ∧ exact NRC h0 h1 (res (encl d1)))).
Proof using All.
  intros Hn Hc Hb Hload Hld.
  destruct (launch_spec malloc_ok launch_answer cpu_id block_id zone num h0 Hn Hc Hb)
    as (ret&h1&l&E&[(->&b0&n&c&Hbl&Hcpu&Ht&(hm&hc&Hmc&Hcc)&->&_)
                   |(->&Hs&[->|(b0&n&c&Hbl&Hcpu&(hm&hc&Hmc&Hcc)&->&Hans)])]);
    eexists _, h1, _; (split; [exact E|]); [|by left|].
  - right. split; [done|]. eexists _.
    destruct (asked_up _ _ _ _ _ _ _ _ _ _ _ _ _ Hn Hbl Hcpu Hmc Hcc Hload Hld eq_refl)
      as (d1&Hio&Hu&Hpci&Hnn&Hbn&Hwf&Hm&Hcr).
    exists d1. do 4 (split; [done|]). split; [rewrite Hm, length_app, length_fmap, length_seqZ; simpl; lia|].
    destruct Ht as (_&_&Hdb&Hdc&Eb&Ec). destruct (account_start NRC h0) as [Ha0 Hx0].
    destruct (account_step NRC h0 h0 h1 no_resources (res (encl d1)) [c] ((host_block <$> seqZ b0 n) ++ replicate 0 no_block) (seqZ b0 n))
      as [Ha Hx]; try done.
    + by rewrite app_nil_r.
    + apply (host_blocks_in NRC).
    + by apply host_blocks_offered.
    + rewrite Ec. split; [apply union_subseteq_r|done].
    + rewrite Eb. split; [apply union_subseteq_r|done].
    + split; [done|]. by apply Hx.
  - destruct (asked_up _ _ _ _ _ _ _ _ _ _ _ _ _ Hn Hbl Hcpu Hmc Hcc Hload Hld eq_refl) as (d1&Hio&_).
    unfold launch_answer in Hans. rewrite Hio in Hans. lia.
Qed.

(** *** The release *)

(** What the teardown tool meets: the files of the enclave, an enclave that shuts down,
    and the host's block size and notation for devices. *)
Record obliging (pct_p : Z → list Z) (ptr : Z) (e : enclave S) (t : host) : Prop := {
  ob_shows : shows pct_p NRC ptr (res e) (pci e) t;
  ob_ctrl : 0 ≤ ctrl_fd t ∧ shutdown_ret t = 0;
  ob_size : Teardown.pet_block_size t = Petlib.pet_block_size (H := Host);
  ob_bdf : ∀ b s f, 0 ≤ b < 256 → 0 ≤ s < 32 → 0 ≤ f < 8 →
    pet_parse_bdf t (pct_wx 2 b ++ chars ":" ++ pct_wx 2 s ++ chars "." ++ pct_x f) = Some (b, s, f)
}.

(** The devices, as the proc file can print them. *)
Definition devs_ok (p : enclave_pci_state) : Prop :=
  Forall dev_ok (dev_list p) ∧ dev_cnt p = zlen (dev_list p) ∧ zlen (dev_list p) < 2 ^ 31.

Lemma accounted_shown h0 h r p :
  accounted NRC h0 h r → zlen (memdesc_list r) < 2 ^ 31 → devs_ok p →
  showable NRC r p ∧ Forall (block_aligned (Petlib.pet_block_size (H := Host))) (memdesc_list r).
Proof using Hnr PetBounds0.
  intros [_ _ _ _ Hw Ho] Hlen (Hd&Hc&Hn). destruct (host_block_bytes (H := Host) NRC) as (Hs&Hp&_&Hb). split.
  - split; try done. eapply list.Forall_impl; [exact Ho|]. intros b [->|(i&(Hi&He&_)&->)]; [done|].
    unfold block_ok. cbn [base_addr pages]. rewrite Hp in Hb |- *. nia.
  - eapply list.Forall_impl; [exact Ho|]. intros b [->|(i&(Hi&_&He)&->)]; unfold block_aligned; cbn [base_addr pages].
    + by rewrite Z.mod_0_l, Z.div_0_l by lia.
    + rewrite Hp. split; [by apply Z.mod_mul; lia|]. replace (_ + _) with ((i + 1) * Petlib.pet_block_size (H := Host)) by lia.
      rewrite Z.div_mul by lia. lia.
Qed.

Lemma released pct_p ptr id h0 h e t :
  (∀ a, fits 64 a → pct_p a = pct_wx 16 a) → accounted NRC h0 h (res e) → zlen (memdesc_list (res e)) < 2 ^ 31 →
  devs_ok (pci e) → obliging pct_p ptr e t →
  ∃ evs, pisces_teardown t id = Some (0, evs) ∧ same h0 (give_back_all evs h).
Proof using Hnr PetLaws0 PetBounds0.
  intros Hp Ha Hlen Hd [Hsh Hctrl Hsz Hbdf]. destruct (accounted_shown _ _ _ _ Ha Hlen Hd) as [Hok Hal].
  eexists. split.
  - apply (teardown_events pct_p NRC ptr id (res e) (pci e) t); [done..|]. split; rewrite ?Hsz; try done.
    by destruct (host_block_bytes (H := Host) NRC).
  - rewrite Hsz. by apply given_back.
Qed.
End life.

(** Without the control channel, memory is taken from the host and nobody has it: the tool
    returns 0 although nothing was asked of the module. *)
Lemma memory_lost_without_channel {S : Type} `{TrampolineOps S} {Host : Type} `{!Petlib Host, !PetLaws Host}
    v connect ioctl id n zone (h : Host) tr (e : enclave S) :
  (∀ tr, connect tr < 0) → 0 < n →
  let '(ret, h', tr') := pisces_add_mem connect ioctl id n zone h tr in
  ret = 0 → replay v tr' e = replay v tr e ∧ ∃ i, i ∉ blocks_off h ∧ i ∈ blocks_off h'.
Proof.
  intros Hc Hn. pose proof (add_mem_spec connect ioctl id n zone h tr ltac:(lia)) as Hs.
  destruct (pisces_add_mem _ _ _ _ _ _ _) as [[ret h'] t].
  destruct Hs as [(->&_)|(_&l&bl&_&_&Hl&->&(_&_&Hd&_&Eb&_))]; [done|]. intros _. split.
  - generalize (range_of <$> (block_of <$> l)) as args. intros args. revert tr. induction args as [|a args IH]; intros tr; [done|].
    cbn [attempts]. rewrite IH. unfold attempt, pisces_send_ctrl_cmd. rewrite (proj2 (Z.ltb_lt _ 0)) by apply Hc. cbn [snd].
    rewrite replay_app. by destruct (replay v tr e).
  - destruct l as [|i l]; [simpl in Hl; lia|]. exists i. rewrite Eb, ids_cons. set_solver.
Qed.

(** ** Properties *)

Section properties.
Context {S : Type} `{TrampolineLaws S} {Host : Type} `{!Petlib Host, !PetLaws Host}.
Context (maxlvt : Z) (integrated : bool) (esr icr_idle : list apic_event → Z).
Context (fuel : nat) (v : Ctrl.env) (files : BootParams.boot_env) (k : kernel) `{!PetBounds Host (NR_CPUS v)}.

End properties.

(** ** Witness

    A machine of 64 processors whose enclave takes every command: launched on block 3
    and processor 5, given two more processors, a node's block and a numbered one, and
    a processor that is then removed. *)
Definition life_env : Ctrl.env :=
  let v := Ctrl.demo_env 0 in
  {| NR_CPUS := simple_cpus; apicid := apicid v; sync := sync v; kmalloc_ok := true; pci_env := pci_env v; ts := ts v;
     pml_bytes := pml_bytes v; bootmem_pa := bootmem_pa v; bootmem_sz := bootmem_sz v; cons_irq := cons_irq v;
     cons_vec := cons_vec v; cons_fd := cons_fd v; ring_at := ring_at v |}.
Definition life_requests : list admin := [AddCpus 2 (-1); AddMem 1 (-1); AddMemBlock 40; AddCpu 9; RemoveCpu 9; AddCpu 5].
Definition life_device : device V3.state := demo_device demo_enclave false.
Definition life_fuel : nat := Z.to_nat 0x8000001.

Lemma life_loadable :
  loadable life_fuel BootParams.demo_env 0x8000000 [Byte.x01; Byte.x02; Byte.x03] [Byte.x04; Byte.x05].
Proof.
  destruct demo_loadable as [Hcode Hkern Hinit [Hfit _] _ _].
  split; [exact Hcode|exact Hkern|exact Hinit|split; [lia|reflexivity]| |reflexivity].
  unfold life_fuel. rewrite Z2Nat.id; done.
Qed.

