(* ===== verification/Commands.v ===== *)
(** * The commands ([linux_usr/pisces_run.c], [pisces_add.c], [pisces_launch.c], [v3_pci.c])

    What the command lines ask the library ([Tools]) for.  A command gets the
    options in order, as [getopt] gives them ([Options]), and the remaining arguments.
    [Undefined] is behaviour C leaves undefined; [Minus1] an exit with -1. *)
From stdpp Require Import gmap.
From S2P Require Import Prelude Text Teardown Petlib Tools.
#[local] Open Scope Z_scope.
#[local] Open Scope list_scope.

(** The tokens [strsep] gives one after the other. *)
Fixpoint tokens_from (fuel : nat) (d : Z) (s : list Z) : list (list Z) :=
  match fuel with
  | O => []
  | S fuel => let '(t, r) := strsep d s in
              t :: match r with None => [] | Some s => tokens_from fuel d s end
  end.
Definition comma : Z := 44.
Definition tokens (s : list Z) : list (list Z) := tokens_from (S (length s)) comma s.

(** ** [pisces_run] *)

(** An option as [getopt_long_only] returns it. *)
Inductive run_option := JobFile | LongOption (opt_index : Z) (optarg : list Z) | BadOption.

Record run_settings := {
  rs_num_ranks : Z; rs_cpu_list : option (list Z); rs_large_pages : Z; rs_smartmap : Z;
  rs_heap_size : Z; rs_stack_size : Z; rs_name : option (list Z); rs_envp : list Z; rs_job_file : bool
}.
Definition run_defaults : run_settings :=
  {| rs_num_ranks := 1; rs_cpu_list := None; rs_large_pages := 0; rs_smartmap := 0;
     rs_heap_size := 16 * 1024 * 1024; rs_stack_size := 256 * 1024; rs_name := None; rs_envp := [];
     rs_job_file := false |}.

(** A number that starts with a digit and is not 0, else [usage]. *)
Definition positive_arg (optarg : list Z) : result Z :=
  match optarg with
  | c :: _ => if negb (isdigit c) then Minus1 else
              let n := (strtol 10 optarg).1 in if u64 n =? 0 then Minus1 else Ret n
  | [] => Minus1
  end.

Definition run_option_step (s : run_settings) (o : run_option) : result run_settings :=
  let mk nr cl lp sm hs ss nm ev jf :=
    Ret {| rs_num_ranks := nr; rs_cpu_list := cl; rs_large_pages := lp; rs_smartmap := sm;
           rs_heap_size := hs; rs_stack_size := ss; rs_name := nm; rs_envp := ev; rs_job_file := jf |} in
  let '{| rs_num_ranks := nr; rs_cpu_list := cl; rs_large_pages := lp; rs_smartmap := sm;
          rs_heap_size := hs; rs_stack_size := ss; rs_name := nm; rs_envp := ev; rs_job_file := jf |} := s in
  match o with
  | JobFile => mk nr cl lp sm hs ss nm ev true
  | BadOption => Minus1
  | LongOption i arg =>
      if i =? 0 then n ← positive_arg arg;
                     if u32 n =? 0 then Minus1 else mk (u32 n) cl lp sm hs ss nm ev jf
      else if i =? 1 then mk nr (Some arg) lp sm hs ss nm ev jf
      else if i =? 2 then mk nr cl 1 sm hs ss nm ev jf
      else if i =? 3 then mk nr cl lp 1 hs ss nm ev jf
      else if i =? 4 then n ← positive_arg arg; mk nr cl lp sm (u64 (u64 n * 1024 * 1024)) ss nm ev jf
      else if i =? 5 then n ← positive_arg arg; mk nr cl lp sm hs (u64 (u64 n * 1024 * 1024)) nm ev jf
      else if i =? 6 then mk nr cl lp sm hs ss (Some arg) ev jf
      else if i =? 7 then mk nr cl lp sm hs ss nm arg jf
      else Ret s
  end.
Fixpoint run_options (s : run_settings) (os : list run_option) : result run_settings :=
  match os with [] => Ret s | o :: os => s ← run_option_step s o; run_options s os end.

(** The program's arguments, joined by blanks; the flag tells whether the string
    was allocated.  The first one is the command line's own, and is freed when a
    second is appended. *)
Fixpoint join_args (exe_argv : option (list Z * bool)) (args : list (list Z)) : result (option (list Z)) :=
  match args with
  | [] => Ret (fst <$> exe_argv)
  | a :: args =>
      match exe_argv with
      | None => join_args (Some (a, false)) args
      | Some (s, allocated) =>
          if allocated then join_args (Some (s ++ [32] ++ a, true)) args else Undefined
      end
  end.

(** The program's name: past the last slash. *)
Definition basename (exe_path : list Z) : list Z :=
  match strrchr 47 exe_path with Some s => drop 1 s | None => exe_path end.

Fixpoint mask_loop (l : list (list Z)) (cpu_mask : Z) : result Z :=
  match l with
  | [] => Ret cpu_mask
  | iter_str :: l =>
      let idx := atoi iter_str in
      if (idx =? 0) && negb (bool_decide (head iter_str = Some 48)) then Minus1 else
      if (idx <? 0) || (idx >=? 64) then Undefined else               (* 0x1ULL << idx *)
      mask_loop l (Z.lor cpu_mask (Z.shiftl 1 idx))
  end.
Definition cpu_mask_of (cpu_list : option (list Z)) : result Z :=
  match cpu_list with
  | None => Ret 0xffffffffffffffff
  | Some s => mask_loop (tokens s) 0
  end.

(** [main]: the enclave and the job the library is asked to run.  [None] for a
    job file, which is not supported: the command exits with 0. *)
Definition run_main (os : list run_option) (argv : list (list Z)) : result (option (Z * job)) :=
  s ← run_options run_defaults os;
  if rs_job_file s then Ret None else
  match argv with
  | dev :: exe :: args =>
      let pisces_id := get_pisces_id_from_path dev in
      exe_argv ← join_args None args;
      mask ← cpu_mask_of (rs_cpu_list s);
      Ret (Some (pisces_id,
        {| job_name := Some (match rs_name s with Some n => n | None => basename exe end);
           exe_path := Some exe; exe_argv := exe_argv; job_envp := Some (rs_envp s);
           use_large_pages := rs_large_pages s; use_smartmap := rs_smartmap s;
           num_ranks := u8 (rs_num_ranks s); cpu_mask := mask;
           heap_size := rs_heap_size s; stack_size := rs_stack_size s |}))
  | _ => Undefined                                    (* a NULL argument is read *)
  end.

(** ** [pisces_add], [pisces_launch] *)

Section add.
Context {H : Type} `{Petlib H}.
Context (connect : list tool_event → Z) (ioctl : list tool_event → Z → request_arg → Z).

Fixpoint add_each (f : Z → H → list tool_event → Z * H * list tool_event) (l : list (list Z)) (h : H)
    (tr : list tool_event) : H * list tool_event :=
  match l with [] => (h, tr) | t :: l => let '(_, h, tr) := f (atoi t) h tr in add_each f l h tr end.

(** [mem], [cpu], [numa]: the last argument given to each option; [explicit]:
    [-e] was given. *)
Definition add_main (explicit : bool) (mem cpu : option (list Z)) (numa_zone pisces_id : Z) (h : H)
    (tr : list tool_event) : H * list tool_event :=
  let '(h, tr) :=
    match mem with
    | None => (h, tr)
    | Some s =>
        if explicit then add_each (pisces_add_mem_explicit connect ioctl pisces_id) (tokens s) h tr
        else if bool_decide (s = chars "all") then
          let '(_, h, tr) := pisces_add_mem_node connect ioctl pisces_id numa_zone h tr in (h, tr)
        else let '(_, h, tr) := pisces_add_mem connect ioctl pisces_id (atoi s) numa_zone h tr in (h, tr)
    end in
  match cpu with
  | None => (h, tr)
  | Some s =>
      if explicit then add_each (λ c, pisces_add_cpu connect ioctl pisces_id (u64 c)) (tokens s) h tr
      else let '(_, h, tr) := pisces_add_cpus connect ioctl pisces_id (atoi s) numa_zone h tr in (h, tr)
  end.

(** The arguments checked before the library is called. *)
Definition launch_main (malloc_ok : bool) (launch : boot_env → Z) (cpu_id block_id numa_zone num_blocks : Z)
    (dev : list Z) (h : H) : option (Z * H * list boot_env) :=
  if num_blocks <? 1 then Some (-1, h, []) else
  if get_pisces_id_from_path dev =? -1 then Some (-1, h, []) else
  '(ret, h, l) ← pisces_launch malloc_ok launch cpu_id block_id numa_zone num_blocks h;
  Some (if negb (ret =? 0) then -1 else 0, h, l).
End add.

(** ** [v3_pci] *)

Inductive pci_tool_event :=
  | PciOffline (bus dev fn : Z) | PciOnline (bus dev fn : Z)
  | PciConnect | PciAdd (spec : list Z * Z * Z * Z) | PciFree (spec : list Z * Z * Z * Z).

Section v3_pci.
(** [pet_parse_bdf], and what petlib and the driver answer. *)
Context (parse : list Z → option (Z * Z * Z)).
Context (offline_ret online_ret ctrl_fd ioctl_ret : Z).

Definition v3_pci_add (name bdf : list Z) : Z * list pci_tool_event :=
  match parse bdf with
  | None => (-1, [])
  | Some (bus, dev, fn) =>
      let tr := [PciOffline bus dev fn] in
      if negb (offline_ret =? 0) then (-1, tr) else
      let tr := tr ++ [PciConnect] in
      if ctrl_fd <? 0 then (-1, tr ++ [PciOnline bus dev fn]) else
      let tr := tr ++ [PciAdd (name, bus, dev, fn)] in
      if negb (ioctl_ret =? 0) then (-1, tr ++ [PciOnline bus dev fn]) else (0, tr)
  end.

Definition v3_pci_remove (name bdf : list Z) : Z * list pci_tool_event :=
  match parse bdf with
  | None => (-1, [])
  | Some (bus, dev, fn) =>
      let tr := [PciConnect] ++ (if ctrl_fd >=? 0 then [PciFree (name, bus, dev, fn)] else []) ++
                [PciOnline bus dev fn] in
      (if negb (online_ret =? 0) then -1 else 0, tr)
  end.
End v3_pci.

(** ** Lemmas *)

(** A list written with commas. *)
Fixpoint commas (l : list (list Z)) : list Z :=
  match l with [] => [] | [t] => t | t :: l => t ++ [comma] ++ commas l end.

Lemma tokens_commas_from fuel l :
  l ≠ [] → Forall (Forall (λ c, c ≠ comma)) l → (length (commas l) < fuel)%nat →
  tokens_from fuel comma (commas l) = l.
Proof.
  intros Hne Hl. revert fuel. induction Hl as [|t l Ht Hl IH]; intros fuel Hf; [done|].
  destruct fuel as [|fuel]; [lia|]. destruct l as [|u l]; cbn [tokens_from].
  - cbn [commas]. by rewrite strsep_last.
  - change (commas (t :: u :: l)) with (t ++ comma :: commas (u :: l)) in *.
    rewrite strsep_app by done. rewrite IH; [done|done|]. rewrite length_app in Hf. cbn [length] in Hf. lia.
Qed.

Lemma tokens_commas l : l ≠ [] → Forall (Forall (λ c, c ≠ comma)) l → tokens (commas l) = l.
Proof. intros. apply tokens_commas_from; [done|done|lia]. Qed.

Lemma pct_d_token c : 0 ≤ c < 64 → Forall (λ x, x ≠ comma) (pct_d c) ∧ atoi (pct_d c) = c ∧
  ((atoi (pct_d c) =? 0) && negb (bool_decide (head (pct_d c) = Some 48)) = false).
Proof.
  intros Hc. pose proof (atoi_pct_d c [] ltac:(lia) I) as Ha. rewrite app_nil_r in Ha.
  split; [|split; [done|]].
  - destruct (pct_d_chars c ltac:(lia)) as (Hd&_&_). eapply list.Forall_impl; [exact Hd|].
    intros x Hx. unfold isdigit in Hx. apply andb_true_iff in Hx as [?%Z.leb_le ?%Z.leb_le]. unfold comma. lia.
  - rewrite Ha. destruct (Z.eqb_spec c 0) as [->|]; [|done]. done.
Qed.

Lemma mask_loop_spec l m :
  Forall (λ c, 0 ≤ c < 64) l → 0 ≤ m →
  ∃ m', mask_loop (pct_d <$> l) m = Ret m' ∧ 0 ≤ m' ∧
    ∀ i, 0 ≤ i → Z.testbit m' i = Z.testbit m i || bool_decide (i ∈ l).
Proof.
  intros Hl. revert m. induction Hl as [|c l Hc _ IH]; intros m Hm.
  - exists m. split; [done|]. split; [done|]. intros i _. by rewrite bool_decide_false, orb_false_r by apply not_elem_of_nil.
  - cbn [fmap list_fmap mask_loop]. destruct (pct_d_token c Hc) as (_&Ha&Hz). rewrite Hz, Ha.
    rewrite (proj2 (Z.ltb_ge c 0)), Z.geb_leb, (proj2 (Z.leb_gt 64 c)) by lia. cbn [orb].
    destruct (IH (Z.lor m (Z.shiftl 1 c))) as (m'&->&Hm'&Hb).
    { apply Z.lor_nonneg. split; [done|]. apply Z.shiftl_nonneg. lia. }
    exists m'. split; [done|]. split; [done|]. intros i Hi. rewrite Hb, Z.lor_spec by done.
    rewrite Z.shiftl_1_l, Z.pow2_bits_eqb by lia. rewrite <-orb_assoc. f_equal.
    apply eq_true_iff_eq. rewrite orb_true_iff, !bool_decide_eq_true, Z.eqb_eq, elem_of_cons. naive_solver.
Qed.

(** ** Properties *)

(** [pisces_run] with a list of processors runs, in the enclave its path
    names, a job named after the program's file, with the defaults for what is
    not given and a processor mask with exactly the listed bits.  At most one
    argument can be passed to the program: with two or more, the command frees a
    string of its own command line. *)
Theorem run_job_request (pisces_id : Z) (l : list Z) (exe : list Z) (args : list (list Z))
    (Hid : 0 ≤ pisces_id < 2 ^ 31) (Hne : l ≠ []) (Hl : Forall (λ c, 0 ≤ c < 64) l) :
  let result := run_main [LongOption 1 (commas (pct_d <$> l))] (get_pisces_dev_path pisces_id :: exe :: args) in
  ((length args ≤ 1)%nat → ∃ mask, (∀ i, 0 ≤ i → Z.testbit mask i = bool_decide (i ∈ l)) ∧
     result = Ret (Some (pisces_id,
       {| job_name := Some (basename exe); exe_path := Some exe; exe_argv := head args; job_envp := Some [];
          use_large_pages := 0; use_smartmap := 0; num_ranks := 1; cpu_mask := mask;
          heap_size := 16 * 1024 * 1024; stack_size := 256 * 1024 |}))) ∧
  ((1 < length args)%nat → result = Undefined).
Proof.
  intros res. subst res. unfold run_main. cbn [run_options run_option_step run_defaults Z.eqb Pos.eqb mbind result_bind].
  cbn [rs_job_file rs_cpu_list]. rewrite dev_path_roundtrip by done. unfold cpu_mask_of.
  rewrite tokens_commas; [|by destruct l|].
  2: { apply Forall_fmap. eapply list.Forall_impl; [exact Hl|]. intros c Hc. by apply pct_d_token. }
  destruct (mask_loop_spec l 0 Hl) as (m&->&_&Hm); [done|]. split.
  - intros Ha. exists m. split; [intros i Hi; rewrite Hm by done; by rewrite Z.bits_0|].
    destruct args as [|a [|b args]]; [done|done|simpl in Ha; lia].
  - intros Ha. destruct args as [|a [|b args]]; simpl in Ha; [lia|lia|done].
Qed.

Lemma run_job_request_witness :
  ∃ mask, (∀ i, 0 ≤ i → Z.testbit mask i = bool_decide (i ∈ [1; 3])) ∧
  run_main [LongOption 1 (chars "1,3")] [chars "/dev/pisces-enclave2"; chars "/bin/ls"; chars "-l"] =
    Ret (Some (2,
       {| job_name := Some (chars "ls"); exe_path := Some (chars "/bin/ls"); exe_argv := Some (chars "-l");
          job_envp := Some [];
          use_large_pages := 0; use_smartmap := 0; num_ranks := 1; cpu_mask := mask;
          heap_size := 16 * 1024 * 1024; stack_size := 256 * 1024 |})).
Proof.
  destruct (run_job_request 2 [1; 3] (chars "/bin/ls") [chars "-l"]) as [Hr _].
  - lia.
  - done.
  - repeat constructor; lia.
  - destruct (Hr ltac:(simpl; lia)) as (m&Hm&E). exists m. split; [exact Hm|]. exact E.
Defined.

(** A device that could not be given to the enclave is given back to the host; the
    device taken from an enclave is given back whatever the enclave answers. *)
Lemma v3_pci_add_balanced parse offl ctrl ret name bdf bus dev fn :
  parse bdf = Some (bus, dev, fn) → offl = 0 →
  let '(r, tr) := v3_pci_add parse offl ctrl ret name bdf in
  (r = 0 ∧ PciOnline bus dev fn ∉ tr ∧ PciAdd (name, bus, dev, fn) ∈ tr) ∨
  (r = -1 ∧ list.last tr = Some (PciOnline bus dev fn)).
Proof.
  intros Hp ->. unfold v3_pci_add. rewrite Hp. cbn [Z.eqb negb]. case_test; [by right|].
  case_test; [by right|]. left. split; [done|]. cbn [app]. split; [|by right; right; left].
  rewrite !elem_of_cons. intros [|[|[|[]%elem_of_nil]]]; discriminate.
Qed.
