(* ===== verification/Options.v ===== *)
(** * Command lines

    The options of the tools, as [getopt_long] of the C library gives them: options
    and arguments may be mixed, a long option may be cut short as long as only one
    begins with it, [--] ends the options.  Then the loops and checks of the tools
    ([linux_usr/pisces_add.c], [pisces_launch.c], [pisces_run.c], [v3_pci.c]) before
    what [Commands] models, and the tools without options ([pisces_load.c],
    [pisces_load_file.c], [pisces_reset.c], [pisces_shutdown.c]).  [Minus1] is an exit with -1. *)
From stdpp Require Import gmap.
From S2P Require Import Prelude Text Teardown Petlib Tools Commands.
#[local] Open Scope Z_scope.
#[local] Open Scope list_scope.
#[local] Abbreviation str := (list Z).

(** ** The library: [getopt_long] *)

Record long_option := { l_name : str; l_arg : bool; l_val : Z }.

(** What a call returns: the letter, or the value of a long option with its index,
    and the argument.  [Bad] is ['?']. *)
Inductive opt := Opt (c : Z) (index : nat) (arg : option str) | Bad.

Definition dash : Z := 45.
Definition colon : Z := 58.

Section getopt.
Context (only : bool) (optstring : str) (longs : list long_option).

(** Whether a letter takes an argument. *)
Fixpoint letter_in (l : str) (c : Z) : option bool :=
  match l with
  | [] => None
  | d :: l =>
      if (d =? c) && negb (c =? colon)
      then Some (match l with e :: _ => e =? colon | [] => false end) else letter_in l c
  end.
Definition letter := letter_in optstring.

(** The only option with the name, or else the only one that begins with it. *)
Definition long_matches (p : long_option → bool) : list (nat * long_option) :=
  filter (λ x, p x.2 = true) (imap pair longs).
Definition find_long (n : str) : option (nat * long_option) :=
  match long_matches (λ o, bool_decide (l_name o = n)) with
  | x :: _ => Some x
  | [] => match long_matches (λ o, bool_decide (n `prefix_of` l_name o)) with [x] => Some x | _ => None end
  end.

(** What a word gives: options, or options the last of which takes the next word. *)
Inductive parsed := Given (l : list opt) | Needs (l : list opt) (f : str → opt).

Fixpoint letters (s : str) : parsed :=
  match s with
  | [] => Given []
  | c :: s =>
      let more o := match letters s with Given l => Given (o :: l) | Needs l f => Needs (o :: l) f end in
      match letter c with
      | None => more Bad
      | Some false => more (Opt c 0 None)
      | Some true => match s with [] => Needs [] (λ a, Opt c 0 (Some a)) | _ => Given [Opt c 0 (Some s)] end
      end
  end.

Definition equals_sign : Z := 61.
Definition long_word (s : str) : option parsed :=
  let '(n, v) := strsep equals_sign s in
  '(i, o) ← find_long n;
  Some (if l_arg o then
          match v with
          | Some v => Given [Opt (l_val o) i (Some v)]
          | None => Needs [] (λ a, Opt (l_val o) i (Some a))
          end
        else match v with Some _ => Given [Bad] | None => Given [Opt (l_val o) i None] end).

(** A word behind its dash.  With [getopt_long_only] one dash may begin a long
    option as well, unless the word is a letter of the options; a word that could be
    more than one is no option.  (The library does not take such a word for letters;
    no letter of the tools begins two long options.) *)
Definition option_word (s : str) : parsed :=
  match s with
  | [] => Given []
  | c :: s' =>
      if (c =? dash) && negb (bool_decide (longs = [])) then default (Given [Bad]) (long_word s')
      else if only && (negb (bool_decide (s' = [])) || bool_decide (letter c = None)) then
        match long_word s with
        | Some p => p
        | None => if bool_decide (letter c = None) then Given [Bad] else letters s
        end
      else letters s
  end.

(** The options, and the arguments that are left. *)
Fixpoint getopt_long (argv : list str) : list opt * list str :=
  match argv with
  | [] => ([], [])
  | w :: rest =>
      let argument := let '(o, a) := getopt_long rest in (o, w :: a) in
      match w with
      | c :: d :: s =>
          if negb (c =? dash) then argument
          else if bool_decide (d :: s = [dash]) then ([], rest)
          else
            match option_word (d :: s) with
            | Given l => let '(o, a) := getopt_long rest in (l ++ o, a)
            | Needs l f =>
                match rest with
                | [] => (l ++ [Bad], [])
                | v :: rest => let '(o, a) := getopt_long rest in (l ++ f v :: o, a)
                end
            end
      | _ => argument
      end
  end.
End getopt.

Definition required_argument (n : str) (v : Z) : long_option := {| l_name := n; l_arg := true; l_val := v |}.
Definition no_argument (n : str) (v : Z) : long_option := {| l_name := n; l_arg := false; l_val := v |}.

(** ** [pisces_add] *)

Definition add_longs : list long_option :=
  [required_argument (chars "mem") 109; required_argument (chars "cpu") 99;
   required_argument (chars "numa") 110; no_argument (chars "explicit") 101].

Record add_settings := { as_mem : option str; as_cpu : option str; as_numa : Z; as_explicit : bool }.
Definition add_defaults : add_settings := {| as_mem := None; as_cpu := None; as_numa := -1; as_explicit := false |}.

Definition add_option_step (s : add_settings) (o : opt) : result add_settings :=
  match o with
  | Bad => Minus1
  | Opt c _ arg =>
      let optarg := default [] arg in
      Ret (if c =? 109 then {| as_mem := Some optarg; as_cpu := as_cpu s; as_numa := as_numa s; as_explicit := as_explicit s |}
           else if c =? 99 then {| as_mem := as_mem s; as_cpu := Some optarg; as_numa := as_numa s; as_explicit := as_explicit s |}
           else if c =? 110 then {| as_mem := as_mem s; as_cpu := as_cpu s; as_numa := atoi optarg; as_explicit := as_explicit s |}
           else {| as_mem := as_mem s; as_cpu := as_cpu s; as_numa := as_numa s; as_explicit := true |})
  end.
Fixpoint add_options (s : add_settings) (os : list opt) : result add_settings :=
  match os with [] => Ret s | o :: os => s ← add_option_step s o; add_options s os end.

Section commands.
Context {H : Type} `{Petlib H}.
Context (connect : list tool_event → Z) (ioctl : list tool_event → Z → request_arg → Z).

Definition add_command (argv : list str) (h : H) (tr : list tool_event) : result (H * list tool_event) :=
  let '(os, args) := getopt_long false (chars "m:c:n:e:") add_longs argv in
  s ← add_options add_defaults os;
  match args with
  | [dev] => Ret (add_main connect ioctl (as_explicit s) (as_mem s) (as_cpu s) (as_numa s) (get_pisces_id_from_path dev) h tr)
  | _ => Minus1
  end.

(** ** [pisces_launch] *)

Definition launch_longs : list long_option :=
  [required_argument (chars "block") 98; required_argument (chars "num-blocks") 109;
   required_argument (chars "numa") 110; required_argument (chars "cpu") 99].

Record launch_settings := { ls_numa : Z; ls_cpu : Z; ls_block : Z; ls_num : Z }.
Definition launch_defaults : launch_settings :=
  {| ls_numa := PISCES_ANY_NUMA_ZONE; ls_cpu := PISCES_ANY_CPU; ls_block := PISCES_ANY_MEMBLOCK; ls_num := 1 |}.

Definition launch_option_step (s : launch_settings) (o : opt) : result launch_settings :=
  match o with
  | Bad => Minus1
  | Opt c _ arg =>
      let n := atoi (default [] arg) in
      Ret (if c =? 110 then {| ls_numa := n; ls_cpu := ls_cpu s; ls_block := ls_block s; ls_num := ls_num s |}
           else if c =? 99 then {| ls_numa := ls_numa s; ls_cpu := n; ls_block := ls_block s; ls_num := ls_num s |}
           else if c =? 98 then {| ls_numa := ls_numa s; ls_cpu := ls_cpu s; ls_block := n; ls_num := ls_num s |}
           else {| ls_numa := ls_numa s; ls_cpu := ls_cpu s; ls_block := ls_block s; ls_num := n |})
  end.
Fixpoint launch_options (s : launch_settings) (os : list opt) : result launch_settings :=
  match os with [] => Ret s | o :: os => s ← launch_option_step s o; launch_options s os end.

Definition launch_command (malloc_ok : bool) (launch : boot_env → Z) (argv : list str) (h : H)
    : result (Z * H * list boot_env) :=
  let '(os, args) := getopt_long false (chars "b:m:n:c:") launch_longs argv in
  s ← launch_options launch_defaults os;
  match args with
  | [dev] => match launch_main malloc_ok launch (ls_cpu s) (ls_block s) (ls_numa s) (ls_num s) dev h with
             | Some r => Ret r
             | None => Undefined
             end
  | _ => Minus1
  end.
End commands.

(** ** [pisces_run] *)

(** These options store into a flag, and the call returns 0. *)
Definition run_longs : list long_option :=
  [required_argument (chars "np") 0; required_argument (chars "cpulist") 0;
   no_argument (chars "use-large-pages") 0; no_argument (chars "use-smartmap") 0;
   required_argument (chars "heap_size") 0; required_argument (chars "stack_size") 0;
   required_argument (chars "name") 0; required_argument (chars "envp") 0].

Definition run_option_of (o : opt) : run_option :=
  match o with
  | Bad => BadOption
  | Opt c i arg => if c =? 0 then LongOption (Z.of_nat i) (default [] arg) else JobFile
  end.
Definition run_command (argv : list str) : result (option (Z * job)) :=
  let '(os, args) := getopt_long true (chars "f:") run_longs argv in run_main (run_option_of <$> os) args.

(** ** [v3_pci] *)

Inductive op_mode_t := QUERY | ADD (name : str) | REMOVE (name : str).

Definition pci_longs : list long_option :=
  [no_argument (chars "help") 104; required_argument (chars "remove") 114; required_argument (chars "add") 97].

Fixpoint pci_mode (m : op_mode_t) (os : list opt) : result op_mode_t :=
  match os with
  | [] => Ret m
  | Opt c _ arg :: os =>
      if c =? 114 then pci_mode (REMOVE (default [] arg)) os
      else if c =? 97 then pci_mode (ADD (default [] arg)) os
      else Minus1
  | Bad :: _ => Minus1
  end.

(** To query prints only; it looks at the whole command line. *)
Definition pci_command (parse : str → option (Z * Z * Z)) (offline_ret online_ret ctrl_fd ioctl_ret : Z)
    (argv : list str) : result (Z * list pci_tool_event) :=
  let '(os, args) := getopt_long false (chars "r:a:h") pci_longs argv in
  m ← pci_mode QUERY os;
  match m with
  | QUERY =>
      match argv with
      | [] => Ret (0, [])
      | [bdf] => match parse bdf with None => Minus1 | Some _ => Ret (0, []) end
      | _ => Minus1
      end
  | ADD name =>
      match args with bdf :: _ :: _ => Ret (v3_pci_add parse offline_ret ctrl_fd ioctl_ret name bdf) | _ => Minus1 end
  | REMOVE name =>
      match args with bdf :: _ :: _ => Ret (v3_pci_remove parse online_ret ctrl_fd name bdf) | _ => Minus1 end
  end.

(** ** Tools without options

    [argv] are the words behind the program's name.  A word behind the last is NULL,
    and what is behind that is not the tool's. *)

(** [pisces_load]: the number of the enclave, or -1.  [open] of NULL fails. *)
Definition load_command (open : str → Z) (load : pisces_image → Z) (argv : list str) : result Z :=
  match argv with
  | kern :: initrd :: cmdline :: _ => Ret (pisces_load open load kern initrd cmdline)
  | [kern; initrd] => if (open kern =? -1) || (open initrd =? -1) then Ret (-1) else Undefined
  | _ => Undefined
  end.

(** [pisces_load_file] counts the words with one too few. *)
Definition load_file_command (connect : list tool_event → Z) (ioctl : list tool_event → Z → request_arg → Z)
    (argv : list str) (tr : list tool_event) : result (Z * list tool_event) :=
  match argv with
  | dev :: local_file :: remote_file :: _ =>
      Ret (pisces_load_file connect ioctl (get_pisces_id_from_path dev) local_file remote_file tr)
  | [_; _] => Undefined
  | _ => Minus1
  end.

(** [pisces_reset] and [pisces_shutdown] return 0 whatever comes of it. *)
Definition reset_command (reset : str → Z) (argv : list str) : result Z :=
  match argv with
  | dev :: _ => let _ := pisces_reset reset (get_pisces_id_from_path dev) in Ret 0
  | [] => Minus1
  end.
Definition shutdown_command (h : host) (argv : list str) : result (Z * list event) :=
  match argv with
  | id :: _ => match pisces_teardown h (atoi id) with Some (_, tr) => Ret (0, tr) | None => Undefined end
  | [] => Minus1
  end.

(** ** Letters and arguments come back *)

Section render.
Context (only : bool) (optstring : str) (longs : list long_option).

(** A letter of the options with its argument, as words. *)
Definition words (o : Z * option str) : list str :=
  match o with (c, None) => [[dash; c]] | (c, Some a) => [[dash; c]; a] end.
Definition known_option (o : Z * option str) : Prop :=
  o.1 ≠ dash ∧ letter optstring o.1 = Some (match o.2 with Some _ => true | None => false end).
Definition argument (a : str) : Prop := match a with c :: _ :: _ => c ≠ dash | _ => True end.

Lemma letter_word c b :
  c ≠ dash → letter optstring c = Some b →
  option_word only optstring longs [c] = if b then Needs [] (λ a, Opt c 0 (Some a)) else Given [Opt c 0 None].
Proof using.
  intros Hc Hl. unfold option_word. rewrite (proj2 (Z.eqb_neq _ _) Hc). cbn [andb].
  rewrite (bool_decide_true ([] = [])), (bool_decide_false (letter _ c = None)) by (done || by rewrite Hl).
  rewrite andb_false_r. cbn [letters]. fold letter. rewrite Hl. by destruct b.
Qed.

Lemma arguments_only args : Forall argument args → getopt_long only optstring longs args = ([], args).
Proof using.
  induction 1 as [|a args Ha _ IH]; [done|]. cbn [getopt_long]. rewrite IH. destruct a as [|c [|d s]]; [done..|].
  cbn [argument] in Ha. by rewrite (proj2 (Z.eqb_neq _ _) Ha).
Qed.

(** Options written as words, in whatever order, with the arguments behind them. *)
Lemma getopt_words os args :
  Forall known_option os → Forall argument args →
  getopt_long only optstring longs ((os ≫= words) ++ args) = ((λ o, Opt o.1 0 o.2) <$> os, args).
Proof using.
  intros Hos Ha. induction Hos as [|[c [a|]] os [Hc Hl] _ IH]; [by apply arguments_only| |]; cbn [fst snd] in Hc, Hl;
    cbn [mbind list_bind words app getopt_long fmap list_fmap fst snd];
    rewrite Z.eqb_refl, (bool_decide_false ([c] = [dash])) by congruence; cbn [negb]; rewrite (letter_word c _ Hc Hl);
    cbn [app]; by rewrite IH.
Qed.
End render.

(** ** What the tools make of it *)

(** [-e] takes the next word, although the long option [explicit] does not. *)
Lemma add_explicit_swallows {H} `{Petlib H} connect ioctl dev h tr :
  add_command connect ioctl [chars "-e"; dev] h tr = Minus1.
Proof. done. Qed.

(** The options behind the program's name are taken for options of [pisces_run]. *)
Lemma run_takes_program_options dev exe :
  argument dev → argument exe → run_command [dev; exe; chars "-l"] = Minus1.
Proof.
  intros Hd He. unfold run_command.
  assert (getopt_long true (chars "f:") run_longs [dev; exe; chars "-l"] = ([Bad], [dev; exe])) as ->; [|done].
  destruct dev as [|c [|d s]], exe as [|c' [|d' s']]; cbn [argument] in Hd, He; cbn [getopt_long];
    rewrite ?(proj2 (Z.eqb_neq _ _) Hd), ?(proj2 (Z.eqb_neq _ _) He); done.
Qed.

(** The usage message says [--use_large_pages]; the option is [--use-large-pages]. *)
Example run_usage_differs :
  (getopt_long true (chars "f:") run_longs [chars "--use_large_pages"]).1 = [Bad] ∧
  (getopt_long true (chars "f:") run_longs [chars "--use-large-pages"; chars "-np"; chars "4"]).1 =
    [Opt 0 2 None; Opt 0 0 (Some (chars "4"))].
Proof. by vm_compute. Qed.

Example launch_words :
  getopt_long false (chars "b:m:n:c:") launch_longs
    [chars "--num=3"; chars "/dev/pisces-enclave0"; chars "-c2"; chars "--"; chars "-x"] =
  ([Bad; Opt 99 0 (Some (chars "2"))], [chars "/dev/pisces-enclave0"; chars "-x"]).
Proof. by vm_compute. Qed.
