(* ===== verification/Ezxml.v ===== *)
(** * The XML tree of the tools

    [linux_usr/ezxml.c] and [ezxml.h], the part that works on the tree: tags are
    nodes of a store, with the five links of [struct ezxml], and the record of the
    root tag is kept beside its node.  [None] is an access through a pointer that
    is NULL or points to no tag.  The lists of sub tags that the links make up,
    and what the operations do to them, are at the end. *)
From S2P Require Import Prelude Text.
From stdpp Require Import gmap list sorting.
#[local] Open Scope Z_scope.
#[local] Set Warnings "-ambiguous-paths".

Abbreviation str := (list Z).
Abbreviation addr := nat.

(** ** Data *)

Definition EZXML_NAMEM : Z := 0x80.
Definition EZXML_TXTM : Z := 0x40.
Definition EZXML_DUP : Z := 0x20.

(** An entry of [attr]: the name, the value ([None] is the literal empty string
    that the parser gives to attributes without value, one object for all), and the
    character that says which of them are allocated. *)
Record attribute := Attribute { at_name : str; at_value : option str; at_flags : Z }.
Definition at_text (a : attribute) : str := default [] (at_value a).

Record ezxml := Ezxml {
  name : option str; attr : list attribute; txt : str; off : nat;
  next : option addr; sibling : option addr; ordered : option addr;
  child : option addr; parent : option addr; flags : Z }.

(** A default attribute of a document type: its name, its default, and whether it
    is character data. *)
Record default_attr := DefaultAttr { da_name : str; da_value : option str; da_cdata : bool }.

Inductive error :=
| Root_tag_missing | Unexpected_closing_tag (n : str) | Circular_entity (n : str)
| Unclosed_attlist | Malformed_attlist | Markup_outside_root | Missing (c : Z)
| Unclosed_comment | Unclosed_cdata | Unclosed_doctype | Unclosed_pi | Unexpected_lt
| Unclosed_tag (n : str).

(** [struct ezxml_root] less its [xml], and less the buffers: the instructions of
    a target come with ['<'] or ['>'], before or after the root tag. *)
Record ezxml_root := EzxmlRoot {
  cur : option addr; ent : list (str * str); dattr : list (str * list default_attr);
  pi : list (str * list (str * Z)); standalone : bool; err : option error }.

Record store := Store { nodes : gmap addr ezxml; roots : gmap addr ezxml_root; brk : addr }.

Definition set_next v x := Ezxml (name x) (attr x) (txt x) (off x) v (sibling x) (ordered x) (child x) (parent x) (flags x).
Definition set_sibling v x := Ezxml (name x) (attr x) (txt x) (off x) (next x) v (ordered x) (child x) (parent x) (flags x).
Definition set_ordered v x := Ezxml (name x) (attr x) (txt x) (off x) (next x) (sibling x) v (child x) (parent x) (flags x).
Definition set_child v x := Ezxml (name x) (attr x) (txt x) (off x) (next x) (sibling x) (ordered x) v (parent x) (flags x).
Definition set_attrs v x := Ezxml (name x) v (txt x) (off x) (next x) (sibling x) (ordered x) (child x) (parent x) (flags x).
Definition set_name v x := Ezxml v (attr x) (txt x) (off x) (next x) (sibling x) (ordered x) (child x) (parent x) (flags x).
Definition set_text v x := Ezxml (name x) (attr x) v (off x) (next x) (sibling x) (ordered x) (child x) (parent x) (flags x).
Definition set_flags v x := Ezxml (name x) (attr x) (txt x) (off x) (next x) (sibling x) (ordered x) (child x) (parent x) v.
(** The first statements of [ezxml_insert]. *)
Definition detach (o : nat) (p : addr) x := Ezxml (name x) (attr x) (txt x) o None None None (child x) (Some p) (flags x).

Definition set_nodes m s := Store m (roots s) (brk s).
Definition upd (p : addr) (f : ezxml → ezxml) (s : store) : option store :=
  x ← nodes s !! p; Some (set_nodes (<[p := f x]> (nodes s)) s).
Definition upd_root (p : addr) (f : ezxml_root → ezxml_root) (s : store) : option store :=
  r ← roots s !! p; Some (Store (nodes s) (<[p := f r]> (roots s)) (brk s)).

(** ** Walking the links

    A walk takes one unit of fuel for each tag, and more tags than there are would
    be a loop. *)

Definition fuel_of (s : store) : nat := S (size (nodes s)).

(** [for (cur = p, prev = NULL; cur && ! stop(cur); prev = cur, cur = step(cur));] *)
Fixpoint seek (n : nat) (m : gmap addr ezxml) (step : ezxml → option addr)
    (stop : ezxml → option bool) (prev p : option addr) : option (option addr * option addr) :=
  match n with
  | O => None
  | S n =>
      match p with
      | None => Some (prev, None)
      | Some c =>
          x ← m !! c; b ← stop x;
          if (b : bool) then Some (prev, p) else seek n m step stop p (step x)
      end
  end.

(** [for (; step(c) && go(step(c)); c = step(c));] *)
Fixpoint advance (n : nat) (m : gmap addr ezxml) (step : ezxml → option addr)
    (go : addr → ezxml → bool) (c : addr) : option addr :=
  match n with
  | O => None
  | S n =>
      x ← m !! c;
      match step x with
      | None => Some c
      | Some d => y ← m !! d; if go d y then advance n m step go d else Some c
      end
  end.

(** [strcmp(x->name, n) == 0]. *)
Definition name_is (n : str) (x : ezxml) : option bool := m ← name x; Some (bool_decide (m = n)).

Definition ezxml_child (s : store) (xml : option addr) (n : str) : option (option addr) :=
  first ← match xml with Some p => child <$> nodes s !! p | None => Some None end;
  snd <$> seek (fuel_of s) (nodes s) sibling (name_is n) None first.

Definition ezxml_next (s : store) (xml : option addr) : option (option addr) :=
  match xml with Some p => next <$> nodes s !! p | None => Some None end.

Definition ezxml_txt (s : store) (xml : option addr) : option str :=
  match xml with Some p => txt <$> nodes s !! p | None => Some [] end.

Definition ezxml_name (s : store) (xml : option addr) : option (option str) :=
  match xml with Some p => name <$> nodes s !! p | None => Some None end.

(** A negative index walks to the end of the list. *)
Fixpoint idx_loop (n : nat) (s : store) (xml : option addr) (idx : Z) : option (option addr) :=
  match n with
  | O => None
  | S n =>
      match xml with
      | None => Some None
      | Some _ => if idx =? 0 then Some xml else q ← ezxml_next s xml; idx_loop n s q (idx - 1)
      end
  end.
Definition ezxml_idx (s : store) (xml : option addr) (idx : Z) : option (option addr) :=
  idx_loop (fuel_of s) s xml idx.

(** The variable arguments as they are read: a name and an index each time, and
    [None] or the empty name at the end. *)
Fixpoint ezxml_vget (s : store) (xml : option addr) (ap : list (str * Z)) : option (option addr) :=
  match ap with
  | [] => Some xml
  | (n, idx) :: ap =>
      match n with
      | [] => Some xml
      | _ =>
          c ← ezxml_child s xml n;
          if idx <? 0 then Some c else q ← ezxml_idx s c idx; ezxml_vget s q ap
      end
  end.
Definition ezxml_get := ezxml_vget.

(** [while (root->xml.parent) root = root->xml.parent]. *)
Fixpoint root_loop (n : nat) (m : gmap addr ezxml) (p : addr) : option addr :=
  match n with
  | O => None
  | S n => x ← m !! p; match parent x with None => Some p | Some q => root_loop n m q end
  end.
Definition root_of (s : store) (p : addr) : option addr := root_loop (fuel_of s) (nodes s) p.
Definition root_data (s : store) (p : addr) : option ezxml_root := r ← root_of s p; roots s !! r.

(** The entry of a name in a list, as the loops over names find it. *)
Fixpoint assoc {B} (n : str) (l : list (str * B)) : option B :=
  match l with
  | [] => None
  | (m, b) :: l => if bool_decide (m = n) then Some b else assoc n l
  end.

Definition find_attr (n : str) (l : list attribute) : option attribute :=
  snd <$> list_find (λ a, at_name a = n) l.
Definition find_default (n : str) (l : list default_attr) : option default_attr :=
  snd <$> list_find (λ d, da_name d = n) l.

(** The default attributes of a tag name, less those without a default. *)
Definition default_of (r : ezxml_root) (tagname a : str) : option str :=
  l ← assoc tagname (dattr r); d ← find_default a l; da_value d.

(** The inner [None] is the NULL that says that there is none.  The root is looked
    for only when the tag has no such attribute. *)
Definition ezxml_attr (s : store) (xml : option addr) (a : str) : option (option str) :=
  match xml with
  | None => Some None
  | Some p =>
      x ← nodes s !! p;
      match find_attr a (attr x) with
      | Some v => Some (Some (at_text v))
      | None =>
          r ← root_data s p;
          match dattr r with
          | [] => Some None
          | _ => n ← name x; Some (default_of r n a)
          end
      end
  end.

Definition ezxml_pi (s : store) (xml : option addr) (target : str) : option (list str) :=
  match xml with
  | None => Some []
  | Some p => r ← root_data s p; Some (match assoc target (pi r) with Some l => l.*1 | None => [] end)
  end.

(** The message; the line it names and its truncation to 127 characters are not
    part of the model. *)
Definition ezxml_error (s : store) (xml : option addr) : option (option error) :=
  match xml with None => Some None | Some p => err <$> root_data s p end.

(** ** Changing the tree *)

Definition default_ents : list (str * str) :=
  [(chars "lt;", chars "&#60;"); (chars "gt;", chars "&#62;"); (chars "quot;", chars "&#34;");
   (chars "apos;", chars "&#39;"); (chars "amp;", chars "&#38;")].

Definition malloc (x : ezxml) (s : store) : store * addr :=
  (Store (<[brk s := x]> (nodes s)) (roots s) (S (brk s)), brk s).

Definition ezxml_new (n : option str) (s : store) : store * addr :=
  let '(s, p) := malloc (Ezxml n [] [] 0 None None None None None 0) s in
  (Store (nodes s) (<[p := EzxmlRoot (Some p) default_ents [] [] false None]> (roots s)) (brk s), p).

(** Among all the sub tags, in their order. *)
Definition insert_ordered (s : store) (xml dest head : addr) (o : nat) : option store :=
  h ← nodes s !! head;
  if (off h <=? o)%nat then
    c ← advance (fuel_of s) (nodes s) ordered (λ _ y, off y <=? o)%nat head;
    x ← nodes s !! c;
    s ← upd xml (set_ordered (ordered x)) s;
    upd c (set_ordered (Some xml)) s
  else
    s ← upd xml (set_ordered (Some head)) s;
    upd dest (set_child (Some xml)) s.

(** After a sub tag of the same name. *)
Definition insert_next (s : store) (xml c : addr) (o : nat) : option store :=
  c ← advance (fuel_of s) (nodes s) next (λ _ y, off y <=? o)%nat c;
  x ← nodes s !! c;
  s ← upd xml (set_next (next x)) s;
  upd c (set_next (Some xml)) s.

(** As the first of its name, [old] being the first so far. *)
Definition insert_first (s : store) (xml head : addr) (prev old : option addr) (o : nat) : option store :=
  s ← match prev, old with
      | Some p, Some c => x ← nodes s !! c; upd p (set_sibling (sibling x)) s
      | _, _ => Some s
      end;
  s ← upd xml (set_next old) s;
  '(prev, c) ← seek (fuel_of s) (nodes s) sibling (λ y, Some (negb (off y <=? o)%nat)) None (Some head);
  s ← upd xml (set_sibling c) s;
  match prev with Some p => upd p (set_sibling (Some xml)) s | None => Some s end.

Definition ezxml_insert (s : store) (xml dest : addr) (o : nat) : option store :=
  s ← upd xml (detach o dest) s;
  d ← nodes s !! dest;
  match child d with
  | None => upd dest (set_child (Some xml)) s
  | Some head =>
      s ← insert_ordered s xml dest head o;
      x ← nodes s !! xml; n ← name x;
      '(prev, c) ← seek (fuel_of s) (nodes s) sibling (name_is n) None (Some head);
      match c with
      | Some c' =>
          y ← nodes s !! c';
          if (off y <=? o)%nat then insert_next s xml c' o else insert_first s xml head prev c o
      | None => insert_first s xml head prev c o
      end
  end.

Definition ezxml_add_child (s : store) (xml : option addr) (n : str) (o : nat) : option (store * option addr) :=
  match xml with
  | None => Some (s, None)
  | Some p =>
      let '(s, c) := malloc (Ezxml (Some n) [] [] 0 None None None None None 0) s in
      s ← ezxml_insert s c p o; Some (s, Some c)
  end.

Definition ezxml_set_flag (s : store) (xml : option addr) (f : Z) : option store :=
  match xml with None => Some s | Some p => upd p (λ x, set_flags (Z.lor (flags x) f) x) s end.

Definition ezxml_set_txt (s : store) (xml : option addr) (t : str) : option store :=
  match xml with
  | None => Some s
  | Some p => upd p (λ x, set_text t (set_flags (Z.land (flags x) (Z.lnot EZXML_TXTM)) x)) s
  end.

(** The flag character of a new attribute is a space, or [EZXML_NAMEM] when the
    name was duplicated for it.  To remove an attribute, the code moves two entries
    more than the list has, and follows the pointer that comes in with them. *)
Definition set_attr_entry (dup : bool) (n : str) (v : option str) (l : list attribute) : option (list attribute) :=
  let mark f := if dup then Z.lor f EZXML_TXTM else Z.land f (Z.lnot EZXML_TXTM) in
  match list_find (λ a, at_name a = n) l, v with
  | None, None => Some l
  | None, Some v => Some (l ++ [Attribute n (Some v) (mark (if dup then EZXML_NAMEM else 32))])
  | Some (i, a), Some v => Some (<[i := Attribute (at_name a) (Some v) (mark (at_flags a))]> l)
  | Some _, None => None
  end.

(** The flag [EZXML_DUP] stays set when there was nothing to remove. *)
Definition ezxml_set_attr (s : store) (xml : option addr) (n : str) (v : option str) : option store :=
  match xml with
  | None => Some s
  | Some p =>
      x ← nodes s !! p;
      let dup := negb (Z.land (flags x) EZXML_DUP =? 0) in
      l ← set_attr_entry dup n v (attr x);
      upd p (λ x, set_attrs l (match find_attr n (attr x), v with
                               | None, None => x
                               | _, _ => set_flags (Z.land (flags x) (Z.lnot EZXML_DUP)) x
                               end)) s
  end.

Definition ezxml_set_attr_d (s : store) (xml : option addr) (n v : str) : option store :=
  s ← ezxml_set_flag s xml EZXML_DUP; ezxml_set_attr s xml n (Some v).

(** [while (cur->ordered != xml) cur = cur->ordered]: there is no test of NULL. *)
Fixpoint before (n : nat) (m : gmap addr ezxml) (xml c : addr) : option addr :=
  match n with
  | O => None
  | S n => x ← m !! c; d ← ordered x; if (d =? xml)%nat then Some c else before n m xml d
  end.

(** [while (strcmp(cur->sibling->name, xml->name)) cur = cur->sibling]. *)
Fixpoint before_name (k : nat) (m : gmap addr ezxml) (n : str) (c : addr) : option addr :=
  match k with
  | O => None
  | S k =>
      x ← m !! c; d ← sibling x; y ← m !! d; b ← name_is n y;
      if (b : bool) then Some c else before_name k m n d
  end.

(** The part of [ezxml_cut] for a tag that is not the first sub tag. *)
Definition cut_later (s : store) (xml first : addr) : option store :=
  c ← before (fuel_of s) (nodes s) xml first;
  x ← nodes s !! xml;
  s ← upd c (set_ordered (ordered x)) s;
  f ← nodes s !! first; n ← name x; same ← name_is n f;
  '(s, c) ← if (same : bool) then Some (s, first)
            else
              c ← before_name (fuel_of s) (nodes s) n first;
              y ← nodes s !! c; d ← sibling y;
              if (d =? xml)%nat then
                s ← upd c (set_sibling (match next x with Some z => Some z | None => sibling x end)) s;
                Some (s, c)
              else Some (s, d);
  c ← advance (fuel_of s) (nodes s) next (λ d _, negb (d =? xml)%nat) c;
  y ← nodes s !! c;
  match next y with
  | None => Some s
  | Some d => z ← nodes s !! d; upd c (set_next (next z)) s
  end.

(** The tag keeps its [parent]. *)
Definition ezxml_cut (s : store) (xml : option addr) : option store :=
  match xml with
  | None => Some s
  | Some p =>
      x ← nodes s !! p;
      s ← match next x with Some z => upd z (set_sibling (sibling x)) s | None => Some s end;
      s ← match parent x with
          | None => Some s
          | Some d =>
              y ← nodes s !! d; first ← child y;
              if (first =? p)%nat then upd d (set_child (ordered x)) s else cut_later s p first
          end;
      upd p (λ x, set_ordered None (set_sibling None (set_next None x))) s
  end.

(** Sub tags first, then the tags that follow, then the tag itself. *)
Fixpoint free_loop (n : nat) (s : store) (xml : option addr) : option store :=
  match n with
  | O => None
  | S n =>
      match xml with
      | None => Some s
      | Some p =>
          x ← nodes s !! p;
          s ← free_loop n s (child x);
          x ← nodes s !! p;
          s ← free_loop n s (ordered x);
          x ← nodes s !! p;
          s ← match parent x with
              | None => _ ← roots s !! p; Some (Store (nodes s) (delete p (roots s)) (brk s))
              | Some _ => Some s
              end;
          Some (set_nodes (delete p (nodes s)) s)
      end
  end.
Definition ezxml_free (s : store) (xml : option addr) : option store := free_loop (fuel_of s) s xml.

Definition ezxml_move (s : store) (xml dest : addr) (o : nat) : option store :=
  s ← ezxml_cut s (Some xml); ezxml_insert s xml dest o.
Definition ezxml_remove (s : store) (xml : option addr) : option store :=
  s ← ezxml_cut s xml; ezxml_free s xml.
