(* ===== verification/EzxmlLinks.v ===== *)
(** * The lists of sub tags

    The links of [Ezxml] as lists.  The sub tags of a tag are a list, in the order
    of their offsets; [ordered] links them all, [sibling] the first of each name,
    and [next] those of one name.  [ezxml_insert] keeps the three lists, and
    [ezxml_child] and [ezxml_next] find what they promise in them. *)
From stdpp Require Import gmap sorting.
From S2P Require Import Prelude Text Ezxml.
From stdpp Require Import list.
#[local] Open Scope Z_scope.

(** ** The store, link by link *)

Definition content (x : ezxml) : ezxml :=
  Ezxml (name x) (attr x) (txt x) (off x) None None None None (parent x) (flags x).

Record view := View {
  vc : gmap addr ezxml; vn : gmap addr (option addr); vs : gmap addr (option addr);
  vo : gmap addr (option addr); vh : gmap addr (option addr);
  vr : gmap addr ezxml_root; vb : addr }.

Definition see (s : store) : view :=
  View (content <$> nodes s) (next <$> nodes s) (sibling <$> nodes s) (ordered <$> nodes s)
       (child <$> nodes s) (roots s) (brk s).

Lemma see_at s k c :
  vc (see s) !! k = Some c → ∃ x, nodes s !! k = Some x ∧ c = content x ∧
    vn (see s) !! k = Some (next x) ∧ vs (see s) !! k = Some (sibling x) ∧
    vo (see s) !! k = Some (ordered x) ∧ vh (see s) !! k = Some (child x).
Proof.
  cbn. rewrite !lookup_fmap. destruct (nodes s !! k) as [x|]; [|done]. cbn. intros [= <-]. by exists x.
Qed.

Lemma see_nodes s k x : nodes s !! k = Some x → vc (see s) !! k = Some (content x).
Proof. intros H. cbn. by rewrite lookup_fmap, H. Qed.

Section Update.
Context (s : store) (k : addr) (x : ezxml) (Hk : nodes s !! k = Some x).

#[local] Ltac fields :=
  unfold upd; rewrite Hk; cbn [mbind option_bind]; eexists; split; [reflexivity|];
  unfold see; cbn [set_nodes nodes roots brk]; f_equal;
  rewrite fmap_insert; cbn; try reflexivity; apply insert_id; by rewrite lookup_fmap, Hk.

Lemma upd_next v : ∃ s', upd k (set_next v) s = Some s' ∧
  see s' = View (vc (see s)) (<[k := v]> (vn (see s))) (vs (see s)) (vo (see s)) (vh (see s)) (vr (see s)) (vb (see s)).
Proof using Hk. fields. Qed.
Lemma upd_sibling v : ∃ s', upd k (set_sibling v) s = Some s' ∧
  see s' = View (vc (see s)) (vn (see s)) (<[k := v]> (vs (see s))) (vo (see s)) (vh (see s)) (vr (see s)) (vb (see s)).
Proof using Hk. fields. Qed.
Lemma upd_ordered v : ∃ s', upd k (set_ordered v) s = Some s' ∧
  see s' = View (vc (see s)) (vn (see s)) (vs (see s)) (<[k := v]> (vo (see s))) (vh (see s)) (vr (see s)) (vb (see s)).
Proof using Hk. fields. Qed.
Lemma upd_child v : ∃ s', upd k (set_child v) s = Some s' ∧
  see s' = View (vc (see s)) (vn (see s)) (vs (see s)) (vo (see s)) (<[k := v]> (vh (see s))) (vr (see s)) (vb (see s)).
Proof using Hk. fields. Qed.
Lemma upd_detach o d : ∃ s', upd k (detach o d) s = Some s' ∧
  see s' = View (<[k := content (detach o d x)]> (vc (see s))) (<[k := None]> (vn (see s)))
    (<[k := None]> (vs (see s))) (<[k := None]> (vo (see s))) (vh (see s)) (vr (see s)) (vb (see s)).
Proof using Hk. fields. Qed.
End Update.

(** ** Chains *)

Fixpoint chain (m : gmap addr (option addr)) (p : option addr) (l : list addr) : Prop :=
  match l with
  | [] => p = None
  | k :: l => p = Some k ∧ ∃ q, m !! k = Some q ∧ chain m q l
  end.

Lemma chain_head m p l : chain m p l → p = head l.
Proof. destruct l; simpl; [done|]. by intros [-> _]. Qed.

Lemma chain_insert m p l k v : k ∉ l → chain m p l → chain (<[k := v]> m) p l.
Proof.
  revert p. induction l as [|j l IH]; intros p Hk; [done|]. apply not_elem_of_cons in Hk as [? ?].
  intros [-> (q&Hq&Hl)]. split; [done|]. exists q. rewrite lookup_insert_ne by done. auto.
Qed.

Lemma chain_suffix m p l1 l2 : chain m p (l1 ++ l2) → chain m (head l2) l2.
Proof.
  revert p. induction l1 as [|j l1 IH]; intros p; cbn [app].
  - intros H. by rewrite <-(chain_head _ _ _ H).
  - intros [_ (q&_&H)]. eauto.
Qed.

Lemma chain_at m p l1 k l2 : chain m p (l1 ++ k :: l2) → m !! k = Some (head l2).
Proof.
  intros H%chain_suffix. destruct H as [_ (q&Hq&Hl)]. by rewrite Hq, (chain_head _ _ _ Hl).
Qed.

(** A tag of the chain is made to lead elsewhere. *)
Lemma chain_relink m p l1 k l2 l3 :
  chain m p (l1 ++ k :: l2) → chain m (head l3) l3 → k ∉ l1 → k ∉ l3 →
  chain (<[k := head l3]> m) p (l1 ++ k :: l3).
Proof.
  intros H H3 Hk1 Hk3. revert p H. induction l1 as [|j l1 IH]; intros p; cbn [app].
  - intros [-> _]. split; [done|]. exists (head l3). rewrite lookup_insert_eq. split; [done|].
    by apply chain_insert.
  - apply not_elem_of_cons in Hk1 as [Hkj Hk1].
    intros [-> (q&Hq&Hl)]. split; [done|]. exists q. rewrite lookup_insert_ne by done. split; [done|]. by apply IH.
Qed.

(** A tag is put behind another. *)
Lemma chain_put m p l1 k l2 x :
  chain m p (l1 ++ k :: l2) → NoDup (l1 ++ k :: l2) → x ∉ l1 ++ k :: l2 →
  chain (<[k := Some x]> (<[x := head l2]> m)) p (l1 ++ k :: x :: l2).
Proof.
  intros H Hnd Hx. apply NoDup_app in Hnd as (Hnd1&Hnd&Hnd2). apply list.NoDup_cons in Hnd2 as [Hk2 _].
  rewrite elem_of_app, elem_of_cons in Hx.
  apply (chain_relink _ p l1 k l2 (x :: l2)).
  - apply chain_insert; [|done]. rewrite elem_of_app, elem_of_cons. done.
  - split; [done|]. exists (head l2). rewrite lookup_insert_eq. split; [done|].
    apply chain_insert; [tauto|]. exact (chain_suffix _ _ (l1 ++ [k]) l2 ltac:(by rewrite <-app_assoc)).
  - intros ?. eapply Hnd; [done|]. by left.
  - rewrite elem_of_cons. intros [->|?]; tauto.
Qed.

(** A tag is put at the front. *)
Lemma chain_push m p l x : chain m p l → x ∉ l → chain (<[x := p]> m) (Some x) (x :: l).
Proof.
  intros H Hx. split; [done|]. exists p. rewrite lookup_insert_eq. split; [done|]. by apply chain_insert.
Qed.

(** ** The walks *)

Section Walks.
Context (m : gmap addr ezxml) (step : ezxml → option addr).

Lemma seek_chain (stop : ezxml → option bool) (st : addr → bool) n prev p l1 l2 :
  chain (step <$> m) p (l1 ++ l2) → (length (l1 ++ l2) < n)%nat →
  (∀ k, k ∈ l1 ++ l2 → ∃ x, m !! k = Some x ∧ stop x = Some (st k)) →
  Forall (λ k, st k = false) l1 → Forall (λ k, st k = true) (take 1 l2) →
  seek n m step stop prev p = Some (match last l1 with Some k => Some k | None => prev end, head l2).
Proof.
  intros H Hn Hst H1 H2. revert prev p n H Hn. induction l1 as [|k l1 IH]; intros prev p [|n] H Hn; try (simpl in *; lia).
  - cbn [app] in *. destruct l2 as [|k l2].
    + simpl in H. by subst.
    + destruct H as [-> _]. destruct (Hst k) as (x&Hx&Hs); [by left|]. cbn [seek]. rewrite Hx. cbn [mbind option_bind].
      rewrite Hs. cbn [mbind option_bind]. by rewrite (Forall_inv H2).
  - cbn [app] in *. destruct H as [-> (q&Hq&Hl)]. destruct (Hst k) as (x&Hx&Hs); [by left|].
    cbn [seek]. rewrite Hx. cbn [mbind option_bind]. rewrite Hs. cbn [mbind option_bind].
    apply Forall_cons in H1 as [-> H1]. rewrite lookup_fmap, Hx in Hq. injection Hq as <-.
    rewrite (IH ltac:(intros; apply Hst; by right) H1 (Some k)) by (done || simpl in *; lia).
    destruct l1 as [|j l1]; [done|]. cbn [last]. by destruct (last (j :: l1)) eqn:E; [|apply last_None in E].
Qed.

Lemma advance_chain (go : addr → ezxml → bool) n c l1 l2 :
  chain (step <$> m) (Some c) (c :: l1 ++ l2) → (length (c :: l1 ++ l2) < n)%nat →
  Forall (λ k, ∃ x, m !! k = Some x ∧ go k x = true) l1 →
  Forall (λ k, ∃ x, m !! k = Some x ∧ go k x = false) (take 1 l2) →
  advance n m step go c = Some (default c (last l1)).
Proof.
  intros H Hn H1 H2. revert c n H Hn. induction H1 as [|k l1 (y&Hy&Hg) _ IH]; intros c [|n] H Hn; try (simpl in *; lia);
    destruct H as [_ (q&Hq&Hl)]; rewrite lookup_fmap in Hq; destruct (m !! c) as [x|] eqn:Hx; try done; injection Hq as <-;
    cbn [advance]; rewrite Hx; cbn [mbind option_bind].
  - cbn [app] in *. destruct l2 as [|k l2]; [simpl in Hl; by rewrite Hl|]. destruct Hl as [-> _].
    destruct (Forall_inv H2) as (y&->&Hg). cbn [mbind option_bind]. by rewrite Hg.
  - cbn [app] in *. destruct Hl as [E Hl]. rewrite E, Hy. cbn [mbind option_bind]. rewrite Hg.
    rewrite (IH k) by (done || simpl in *; lia). destruct l1 as [|j l1]; [done|]. cbn [last].
    by destruct (last (j :: l1)) eqn:E'; [|apply last_None in E'].
Qed.
End Walks.

(** A list of distinct tags is no longer than the fuel. *)
Lemma fuel_enough s l : NoDup l → Forall (λ k, k ∈ dom (nodes s)) l → (length l < fuel_of s)%nat.
Proof.
  intros Hnd Hl. unfold fuel_of. rewrite <-size_dom. apply Nat.lt_succ_r.
  rewrite <-(size_list_to_set (C := gset addr) l) by done. apply subseteq_size. intros k. rewrite elem_of_list_to_set.
  rewrite Forall_forall in Hl. apply Hl.
Qed.

(** ** Sub tags *)

Record kid := Kid { k_addr : addr; k_name : str; k_off : nat }.
Abbreviation addrs := (fmap k_addr).

(** The first tag of each name, and the tags of one name. *)
Fixpoint firsts (l : list kid) : list kid :=
  match l with [] => [] | k :: l => k :: filter (λ j, k_name j ≠ k_name k) (firsts l) end.
Definition named (n : str) (l : list kid) : list kid := filter (λ k, k_name k = n) l.

(** The links below the tag [d] are those of the list [ks]. *)
Record sub_tags (v : view) (d : addr) (ks : list kid) : Prop := {
  st_nodup : NoDup (addrs ks);
  st_nodes : Forall (λ k, ∃ c, vc v !! k_addr k = Some c ∧ name c = Some (k_name k) ∧
                          off c = k_off k ∧ parent c = Some d) ks;
  st_child : vh v !! d = Some (head (addrs ks));
  st_ordered : chain (vo v) (head (addrs ks)) (addrs ks);
  st_sibling : chain (vs v) (head (addrs ks)) (addrs (firsts ks));
  st_next n : chain (vn v) (head (addrs (named n ks))) (addrs (named n ks));
  st_sorted : StronglySorted (λ a b, k_off a ≤ k_off b)%nat ks }.

Lemma firsts_app l1 l2 :
  firsts (l1 ++ l2) = firsts l1 ++ filter (λ j, k_name j ∉ k_name <$> l1) (firsts l2).
Proof.
  induction l1 as [|k l1 IH]; cbn [app firsts fmap list_fmap].
  - cbn [app]. symmetry. apply filter_every, Forall_forall. intros x _. apply not_elem_of_nil.
  - rewrite IH, filter_app, list_filter_filter. cbn [app]. do 2 f_equal. apply list_filter_iff. intros x.
    rewrite not_elem_of_cons. tauto.
Qed.

Lemma firsts_sublist l : firsts l `sublist_of` l.
Proof.
  induction l as [|k l IH]; cbn [firsts]; [done|]. apply sublist_skip. etrans; [|exact IH]. apply sublist_filter.
Qed.

Lemma named_firsts n l : named n (firsts l) = match named n l with [] => [] | k :: _ => [k] end.
Proof.
  unfold named. induction l as [|k l IH]; [done|]. cbn [firsts]. rewrite !filter_cons. case_decide as Hk.
  - f_equal. rewrite list_filter_filter. apply (filter_none (λ j, k_name j = n ∧ k_name j ≠ k_name k)), Forall_forall. naive_solver.
  - rewrite <-IH, list_filter_filter. apply list_filter_iff. intros x. naive_solver.
Qed.

(** Where the first tag of a name is, among the firsts. *)
Lemma firsts_split n l :
  (named n l = [] ∧ Forall (λ k, k_name k ≠ n) (firsts l)) ∨
  ∃ c r f1 f2, named n l = c :: r ∧ k_name c = n ∧ firsts l = f1 ++ c :: f2 ∧
               Forall (λ k, k_name k ≠ n) f1 ∧ Forall (λ k, k_name k ≠ n) f2.
Proof.
  pose proof (named_firsts n l) as H. destruct (named n l) as [|c r] eqn:E.
  - left. split; [done|]. by apply (filter_none (λ k, k_name k = n)).
  - right. assert (c ∈ named n (firsts l)) as [Hc Hin]%list_elem_of_filter by (rewrite H; by left).
    apply list_elem_of_split in Hin as (f1&f2&Ef). exists c, r, f1, f2. split; [done|]. split; [done|]. split; [done|].
    unfold named in H. rewrite Ef, filter_app, filter_cons, decide_True in H by done.
    apply (f_equal length) in H. rewrite length_app in H. simpl in H.
    split; apply (filter_none (λ k, k_name k = n)), length_zero_iff_nil; lia.
Qed.

(** ** [ezxml_insert] *)

(** The tags of a list are in the store, with their names and offsets. *)
Definition known (s : store) (l : list kid) : Prop :=
  Forall (λ k, ∃ y, nodes s !! k_addr k = Some y ∧ name y = Some (k_name k) ∧ off y = k_off k) l.

Lemma known_see s s' l : vc (see s') = vc (see s) → known s l → known s' l.
Proof.
  intros E Hk. eapply Forall_impl; [exact Hk|]. intros k (y&Hy&Hn&Ho).
  apply see_nodes in Hy. rewrite <-E in Hy. apply see_at in Hy as (z&Hz&Ec&_). exists z.
  split; [done|]. by destruct y, z; simplify_eq/=.
Qed.

Lemma see_keep s s' k y :
  vc (see s') = vc (see s) → nodes s !! k = Some y → ∃ z, nodes s' !! k = Some z ∧ content z = content y.
Proof. intros E Hy%see_nodes. rewrite <-E in Hy. apply see_at in Hy as (z&Hz&->&_). by exists z. Qed.

Lemma known_sublist s l l' : l' `sublist_of` l → known s l → known s l'.
Proof. unfold known. rewrite !Forall_forall. intros Hs H k Hk. apply H. by eapply elem_of_sublist. Qed.

Lemma known_fuel s l : NoDup (addrs l) → known s l → (length l < fuel_of s)%nat.
Proof.
  intros Hnd Hk. rewrite <-(length_fmap k_addr). apply fuel_enough; [done|].
  apply Forall_fmap. eapply Forall_impl; [exact Hk|]. intros k (y&Hy&_). by apply elem_of_dom_2 in Hy.
Qed.

Section Insert.
Context (s : store) (x : addr) (xn : ezxml) (o : nat) (Hx : nodes s !! x = Some xn).
Implicit Types (l : list kid) (c : kid).

(** Where a walk by offsets ends. *)
Lemma advance_off (step : ezxml → option addr) c l1 l2 :
  chain (step <$> nodes s) (Some (k_addr c)) (addrs (c :: l1 ++ l2)) →
  NoDup (addrs (c :: l1 ++ l2)) → known s (c :: l1 ++ l2) →
  Forall (λ k, k_off k ≤ o)%nat l1 → Forall (λ k, o < k_off k)%nat l2 →
  advance (fuel_of s) (nodes s) step (λ _ y, off y <=? o)%nat (k_addr c)
  = Some (k_addr (default c (last l1))).
Proof using.
  intros Hc Hnd Hk H1 H2. cbn [fmap list_fmap] in Hc. rewrite fmap_app in Hc.
  rewrite (advance_chain _ step _ _ (k_addr c) (addrs l1) (addrs l2)).
  - f_equal. rewrite fmap_last. by destruct (last l1).
  - done.
  - pose proof (known_fuel s _ Hnd Hk) as H. simpl in *. rewrite length_app in *. by rewrite !length_fmap.
  - apply Forall_cons in Hk as [_ [Hk _]%Forall_app]. apply Forall_fmap. unfold known in Hk.
    rewrite Forall_forall in Hk, H1 |- *. intros k Hin. destruct (Hk k Hin) as (y&Hy&_&Ho).
    exists y. split; [done|]. rewrite Ho. apply Nat.leb_le. by apply H1.
  - apply Forall_cons in Hk as [_ [_ Hk]%Forall_app]. destruct l2 as [|k l2]; [by constructor|]. cbn.
    apply Forall_cons in H2 as [H2 _]. apply Forall_cons in Hk as [(y&Hy&_&Ho) _]. constructor; [|done].
    exists y. split; [done|]. rewrite Ho. by apply Nat.leb_gt.
Qed.

(** A tag is linked behind the last tag of a non-empty list, in any of the links:
    the shape of both insertions. *)
Lemma put_last m p c l1 l2 :
  chain m p (addrs (c :: l1 ++ l2)) → NoDup (addrs (c :: l1 ++ l2)) → x ∉ addrs (c :: l1 ++ l2) →
  m !! k_addr (default c (last l1)) = Some (head (addrs l2)) ∧
  chain (<[k_addr (default c (last l1)) := Some x]> (<[x := head (addrs l2)]> m)) p
    (addrs (c :: l1) ++ x :: addrs l2).
Proof using.
  intros Hc Hnd Hin. destruct (exists_last (l := c :: l1)) as (f&z&E); [done|].
  assert (default c (last l1) = z) as ->.
  { apply (f_equal last) in E. rewrite last_snoc in E. destruct l1 as [|j l1]; [by injection E|].
    change (last (c :: j :: l1)) with (last (j :: l1)) in E. by rewrite E. }
  assert (addrs (c :: l1 ++ l2) = addrs f ++ k_addr z :: addrs l2) as Ea.
  { change (c :: l1 ++ l2) with ((c :: l1) ++ l2). rewrite E, <-app_assoc, fmap_app. done. }
  rewrite Ea in *. split; [by eapply chain_at|]. rewrite E, fmap_app, <-app_assoc. by apply chain_put.
Qed.

Section Ordered.
Context (d : addr) (dn : ezxml) (Hd : nodes s !! d = Some dn) (h : addr) (l1 l2 : list kid).
Context (Hh : head (addrs (l1 ++ l2)) = Some h) (Hnd : NoDup (addrs (l1 ++ l2))) (Hkn : known s (l1 ++ l2)).
Context (Hxl : x ∉ addrs (l1 ++ l2)).
Context (H1 : Forall (λ k, k_off k ≤ o)%nat l1) (H2 : Forall (λ k, o < k_off k)%nat l2).

Lemma insert_ordered_spec :
  chain (vo (see s)) (Some h) (addrs (l1 ++ l2)) → vh (see s) !! d = Some (Some h) →
  ∃ s' m, insert_ordered s x d h o = Some s' ∧
    see s' = View (vc (see s)) (vn (see s)) (vs (see s)) m (<[d := head (addrs l1 ++ [x])]> (vh (see s)))
                  (vr (see s)) (vb (see s)) ∧
    chain m (head (addrs l1 ++ [x])) (addrs l1 ++ x :: addrs l2) ∧
    ∀ k, k ≠ x → k ∉ addrs (l1 ++ l2) → m !! k = vo (see s) !! k.
Proof using H1 H2 Hx Hd Hh Hkn Hnd Hxl.
  intros Hc Hvh. unfold insert_ordered. destruct l1 as [|c l1'].
  - cbn [app] in *. destruct l2 as [|k l2']; [done|]. injection Hh as <-.
    pose proof (Forall_inv Hkn) as (y&Hy&_&Ho). pose proof (Forall_inv H2) as Ho2. cbn beta in Ho2.
    rewrite Hy. cbn [mbind option_bind]. rewrite Ho, (proj2 (Nat.leb_gt _ _) Ho2).
    destruct (upd_ordered s x xn Hx (Some (k_addr k))) as (s1&E1&V1). rewrite E1. cbn [mbind option_bind].
    destruct (see_keep s s1 d dn) as (dn1&Hd1&_); [by rewrite V1|done|].
    destruct (upd_child s1 d dn1 Hd1 (Some x)) as (s2&E2&V2). rewrite V1 in V2. cbn in V2.
    exists s2. eexists. split; [exact E2|]. split; [exact V2|]. split.
    + by apply chain_push.
    + intros j Hj _. by rewrite lookup_insert_ne.
  - pose proof (Forall_inv Hkn) as (y&Hy&_&Ho). pose proof (Forall_inv H1) as Ho1. cbn beta in Ho1.
    injection Hh as <-. rewrite Hy. cbn [mbind option_bind]. rewrite Ho, (proj2 (Nat.leb_le _ _) Ho1).
    apply Forall_cons in H1 as [_ H1'].
    rewrite (advance_off ordered c l1' l2) by done. cbn [mbind option_bind].
    destruct (put_last (vo (see s)) (Some (k_addr c)) c l1' l2 Hc Hnd Hxl) as [Hl Hc'].
    set (z := k_addr (default c (last l1'))) in *.
    assert (∃ yz, nodes s !! z = Some yz ∧ ordered yz = head (addrs l2)) as (yz&Hyz&Eo).
    { cbn in Hl. rewrite lookup_fmap in Hl. destruct (nodes s !! z) as [yz|]; [|done]. injection Hl as Hl. eauto. }
    rewrite Hyz. cbn [mbind option_bind]. rewrite Eo.
    destruct (upd_ordered s x xn Hx (head (addrs l2))) as (s1&E1&V1). rewrite E1. cbn [mbind option_bind].
    destruct (see_keep s s1 z yz) as (z1&Hz1&_); [by rewrite V1|done|].
    destruct (upd_ordered s1 z z1 Hz1 (Some x)) as (s2&E2&V2). rewrite V1 in V2. cbn [vc vn vs vo vh vr vb] in V2.
    exists s2. eexists. split; [exact E2|]. split.
    { rewrite V2. f_equal. symmetry. apply insert_id. exact Hvh. }
    split; [exact Hc'|]. intros j Hj Hjl. rewrite !lookup_insert_ne; [done|done|].
    intros <-. apply Hjl. unfold z. apply list_elem_of_fmap_2. change (c :: l1' ++ l2) with ((c :: l1') ++ l2).
    apply elem_of_app. left. destruct (last l1') as [w|] eqn:Ew; [|by left]. right. by apply last_Some_elem_of.
Qed.
End Ordered.

Lemma at_link {A} (get : ezxml → A) k v : (get <$> nodes s) !! k = Some v → ∃ y, nodes s !! k = Some y ∧ get y = v.
Proof using. rewrite lookup_fmap. destruct (nodes s !! k) as [y|]; [|done]. intros [= <-]. by exists y. Qed.

Lemma last_in c l l' : k_addr (default c (last l)) ∈ addrs (c :: l ++ l').
Proof using.
  apply list_elem_of_fmap_2. change (c :: l ++ l') with ((c :: l) ++ l'). apply elem_of_app. left.
  destruct (last l) as [w|] eqn:Ew; [|by left]. right. by apply last_Some_elem_of.
Qed.

Lemma insert_next_spec c f1 f2 :
  chain (vn (see s)) (Some (k_addr c)) (addrs (c :: f1 ++ f2)) → NoDup (addrs (c :: f1 ++ f2)) →
  known s (c :: f1 ++ f2) → x ∉ addrs (c :: f1 ++ f2) →
  Forall (λ k, k_off k ≤ o)%nat f1 → Forall (λ k, o < k_off k)%nat f2 →
  ∃ s' m, insert_next s x (k_addr c) o = Some s' ∧
    see s' = View (vc (see s)) m (vs (see s)) (vo (see s)) (vh (see s)) (vr (see s)) (vb (see s)) ∧
    chain m (Some (k_addr c)) (addrs (c :: f1) ++ x :: addrs f2) ∧
    ∀ k, k ≠ x → k ∉ addrs (c :: f1 ++ f2) → m !! k = vn (see s) !! k.
Proof using Hx.
  intros Hc Hnd Hkn Hxl H1 H2. unfold insert_next.
  rewrite (advance_off next c f1 f2) by done. cbn [mbind option_bind].
  destruct (put_last (vn (see s)) (Some (k_addr c)) c f1 f2 Hc Hnd Hxl) as [Hl Hc'].
  set (z := k_addr (default c (last f1))) in *. apply at_link in Hl as (yz&Hyz&Eo).
  rewrite Hyz. cbn [mbind option_bind]. rewrite Eo.
  destruct (upd_next s x xn Hx (head (addrs f2))) as (s1&E1&V1). rewrite E1. cbn [mbind option_bind].
  destruct (see_keep s s1 z yz) as (z1&Hz1&_); [by rewrite V1|done|].
  destruct (upd_next s1 z z1 Hz1 (Some x)) as (s2&E2&V2). rewrite V1 in V2. cbn [vc vn vs vo vh vr vb] in V2.
  exists s2. eexists. split; [exact E2|]. split; [exact V2|]. split; [exact Hc'|].
  intros j Hj Hjl. rewrite !lookup_insert_ne; [done|done|]. intros <-. apply Hjl, last_in.
Qed.

(** The first of its name leaves the list of the first tags. *)
Lemma unlink_first p c g1 g2 :
  chain (vs (see s)) p (addrs (g1 ++ c :: g2)) → NoDup (addrs (g1 ++ c :: g2)) → g1 ≠ [] →
  ∃ s' m q, last (addrs g1) = Some q ∧
    (y ← nodes s !! k_addr c; upd q (set_sibling (sibling y)) s) = Some s' ∧
    see s' = View (vc (see s)) (vn (see s)) m (vo (see s)) (vh (see s)) (vr (see s)) (vb (see s)) ∧
    chain m p (addrs (g1 ++ g2)) ∧ ∀ k, k ∉ addrs (g1 ++ c :: g2) → m !! k = vs (see s) !! k.
Proof using.
  intros Hc Hnd Hg. destruct (exists_last Hg) as (g&w&->). rewrite !fmap_app, <-!app_assoc in *. cbn [fmap list_fmap app] in *.
  pose proof (chain_at _ _ _ _ _ Hc) as Hw.
  assert (chain (vs (see s)) p ((addrs g ++ [k_addr w]) ++ k_addr c :: addrs g2)) as Hc' by (by rewrite <-app_assoc).
  pose proof (chain_at _ _ _ _ _ Hc') as (y&Hy&Es)%at_link. apply at_link in Hw as (yw&Hyw&_).
  apply NoDup_app in Hnd as (_&Hnd1&Hnd2). apply NoDup_cons in Hnd2 as [Hw2 _].
  destruct (upd_sibling s (k_addr w) yw Hyw (head (addrs g2))) as (s1&E1&V1).
  exists s1. do 2 eexists. split; [apply last_snoc|]. split; [by rewrite Hy; cbn [mbind option_bind]; rewrite Es|].
  split; [exact V1|]. split.
  - apply (chain_relink _ _ _ _ (k_addr c :: addrs g2)); [done| | |].
    + apply (chain_suffix _ p (addrs g ++ [k_addr w; k_addr c])). by rewrite <-app_assoc.
    + intros Hin. eapply Hnd1; [exact Hin|by left].
    + intros ?. apply Hw2. by right.
  - intros k Hk. rewrite lookup_insert_ne; [done|]. intros <-. apply Hk. apply elem_of_app. right. by left.
Qed.
End Insert.

Section First.
Context (x h : addr) (o : nat) (r1 r2 : list kid).
Context (Hxl : x ∉ addrs (r1 ++ r2)) (Hnd : NoDup (addrs (r1 ++ r2))).
Context (H1 : Forall (λ k, k_off k ≤ o)%nat r1) (H2 : Forall (λ k, o < k_off k)%nat r2).
Context (Hh : head (addrs (r1 ++ r2)) = Some h).

(** The end of [insert_first], when the old first is out of the list. *)
Lemma link_first s xn old :
  nodes s !! x = Some xn → known s (r1 ++ r2) → chain (vs (see s)) (Some h) (addrs (r1 ++ r2)) →
  ∃ s' m, (s ← upd x (set_next old) s;
           '(prev, c) ← seek (fuel_of s) (nodes s) sibling (λ y, Some (negb (off y <=? o)%nat)) None (Some h);
           s ← upd x (set_sibling c) s;
           match prev with Some p => upd p (set_sibling (Some x)) s | None => Some s end) = Some s' ∧
    see s' = View (vc (see s)) (<[x := old]> (vn (see s))) m (vo (see s)) (vh (see s)) (vr (see s)) (vb (see s)) ∧
    chain m (head (addrs r1 ++ [x])) (addrs r1 ++ x :: addrs r2) ∧
    ∀ k, k ≠ x → k ∉ addrs (r1 ++ r2) → m !! k = vs (see s) !! k.
Proof using H1 H2 Hh Hnd Hxl.
  intros Hx Hkn Hc. destruct (upd_next s x xn Hx old) as (s1&E1&V1). rewrite E1. cbn [mbind option_bind].
  assert (known s1 (r1 ++ r2)) as Hkn1 by (apply (known_see s s1); [by rewrite V1|done]).
  assert (vs (see s) = vs (see s1)) as Evs by (by rewrite V1). rewrite Evs in Hc.
  assert (seek (fuel_of s1) (nodes s1) sibling (λ y, Some (negb (off y <=? o)%nat)) None (Some h)
          = Some (last (addrs r1), head (addrs r2))) as ->.
  { pose proof Hc as Hc0. rewrite fmap_app in Hc0.
    rewrite (seek_chain _ _ _ (λ k, bool_decide (k ∈ addrs r2)) _ _ _ (addrs r1) (addrs r2) Hc0).
    - f_equal. f_equal. by destruct (last (addrs r1)).
    - rewrite <-fmap_app, length_fmap. by apply known_fuel.
    - intros k. rewrite elem_of_app. intros Hk. unfold known in Hkn1. rewrite Forall_forall in Hkn1.
      rewrite fmap_app in Hnd. apply NoDup_app in Hnd as (_&Hd&_). rewrite Forall_forall in H1, H2.
      destruct Hk as [Hk|Hk]; pose proof Hk as (j&->&Hj)%list_elem_of_fmap.
      + destruct (Hkn1 j) as (y&Hy&_&Ho); [apply elem_of_app; by left|]. exists y. split; [done|]. rewrite Ho.
        rewrite (proj2 (Nat.leb_le _ _) (H1 j Hj)). rewrite bool_decide_false by (by apply Hd). done.
      + destruct (Hkn1 j) as (y&Hy&_&Ho); [apply elem_of_app; by right|]. exists y. split; [done|]. rewrite Ho.
        rewrite (proj2 (Nat.leb_gt _ _) (H2 j Hj)). by rewrite bool_decide_true.
    - rewrite fmap_app in Hnd. apply NoDup_app in Hnd as (_&Hd&_). apply Forall_forall. intros k Hk.
      apply bool_decide_eq_false. by apply Hd.
    - apply Forall_forall. intros k Hk. apply bool_decide_eq_true. destruct (addrs r2); [by apply elem_of_nil in Hk|].
      cbn in Hk. apply list_elem_of_singleton in Hk as ->. by left. }
  cbn [mbind option_bind].
  destruct (see_keep s s1 x xn) as (x1&Hx1&_); [by rewrite V1|done|].
  destruct (upd_sibling s1 x x1 Hx1 (head (addrs r2))) as (s2&E2&V2). rewrite E2. cbn [mbind option_bind].
  destruct r1 as [|c r1'].
  - exists s2. eexists. split; [done|]. rewrite V2, V1 in *. split; [done|]. split.
    + cbn [app] in *. replace (head (addrs r2)) with (Some h). by apply chain_push.
    + intros k Hk _. by rewrite lookup_insert_ne.
  - injection Hh as <-. destruct (put_last x (vs (see s1)) (Some (k_addr c)) c r1' r2 Hc Hnd Hxl) as [Hl Hc'].
    assert (last (addrs (c :: r1')) = Some (k_addr (default c (last r1')))) as ->.
    { rewrite fmap_last. destruct r1' as [|j r1']; [done|]. change (last (c :: j :: r1')) with (last (j :: r1')).
      destruct (last (j :: r1')) eqn:E'; [done|by apply last_None in E']. }
    set (z := k_addr (default c (last r1'))) in *. apply at_link in Hl as (yz&Hyz&_).
    destruct (see_keep s1 s2 z yz) as (z1&Hz1&_); [by rewrite V2|done|].
    destruct (upd_sibling s2 z z1 Hz1 (Some x)) as (s3&E3&V3). rewrite V2 in V3. cbn [vc vn vs vo vh vr vb] in V3.
    exists s3, (<[z := Some x]> (<[x := head (addrs r2)]> (vs (see s)))). split; [exact E3|].
    split; [by rewrite V3, V1|]. split; [by rewrite Evs|].
    intros j Hj Hjl. rewrite !lookup_insert_ne; [done|done|]. intros <-. apply Hjl, last_in.
Qed.
End First.

Lemma chain_agree m m' p l : chain m p l → (∀ k, k ∈ l → m' !! k = m !! k) → chain m' p l.
Proof.
  revert p. induction l as [|k l IH]; intros p; [done|]. intros [-> (q&Hq&Hl)] Ha. split; [done|].
  exists q. split; [rewrite Ha; [done|by left]|]. apply IH; [done|]. intros j Hj. apply Ha. by right.
Qed.

Lemma sublist_addrs l l' : l `sublist_of` l' → addrs l `sublist_of` addrs l'.
Proof. induction 1; cbn; [done|by apply sublist_skip|by apply sublist_cons]. Qed.

Lemma addrs_sublist l l' x : l `sublist_of` l' → x ∉ addrs l' → x ∉ addrs l.
Proof. intros Hs Hx Hin. apply Hx. eapply elem_of_sublist; [exact Hin|by apply sublist_addrs]. Qed.

Lemma named_sublist n l : named n l `sublist_of` l.
Proof. apply sublist_filter. Qed.

Lemma named_put m n x o l1 l2 :
  named m (l1 ++ Kid x n o :: l2) = named m l1 ++ (if decide (n = m) then [Kid x n o] else []) ++ named m l2.
Proof. unfold named. rewrite filter_app, filter_cons. cbn [k_name]. by case_decide. Qed.

Lemma names_named n (l : list kid) : n ∈ k_name <$> l ↔ named n l ≠ [].
Proof.
  rewrite list_elem_of_fmap. split.
  - intros (k&->&Hk) E. assert (k ∈ named (k_name k) l) as H by (by apply list_elem_of_filter).
    rewrite E in H. by apply elem_of_nil in H.
  - destruct (named n l) as [|k r] eqn:E; [done|]. intros _. exists k.
    assert (k ∈ named n l) as [? ?]%list_elem_of_filter by (rewrite E; by left). done.
Qed.

(** The first tags when a tag goes behind the tags of its name, and when it becomes
    the first of its name. *)
Lemma firsts_put_later x n o l1 l2 :
  named n l1 ≠ [] → firsts (l1 ++ Kid x n o :: l2) = firsts (l1 ++ l2).
Proof.
  intros Hn%names_named. rewrite !firsts_app. f_equal. cbn [firsts]. rewrite filter_cons, decide_False by (cbn; tauto).
  rewrite list_filter_filter. apply list_filter_iff. intros k. cbn. split; [tauto|]. intros Hk. split; [done|]. by intros E; rewrite E in Hk.
Qed.

Lemma firsts_put_first x n o l1 l2 :
  named n l1 = [] → ∃ r2, r2 `sublist_of` l2 ∧
  firsts (l1 ++ Kid x n o :: l2) = firsts l1 ++ Kid x n o :: r2 ∧
  filter (λ k, k_name k ≠ n) (firsts (l1 ++ l2)) = firsts l1 ++ r2.
Proof.
  intros Hn. exists (filter (λ k, k_name k ≠ n) (filter (λ k, k_name k ∉ k_name <$> l1) (firsts l2))). split_and!.
  - etrans; [apply sublist_filter|]. etrans; [apply sublist_filter|]. apply firsts_sublist.
  - rewrite firsts_app. f_equal. cbn [firsts]. rewrite filter_cons, decide_True.
    + f_equal. rewrite !list_filter_filter. apply list_filter_iff. intros k. cbn. tauto.
    + cbn. intros H. by apply names_named in H.
  - rewrite firsts_app, filter_app. f_equal. apply filter_every.
    apply (filter_none (λ k, k_name k = n)) in Hn. rewrite Forall_forall in Hn |- *. intros k Hk. apply Hn.
    eapply elem_of_sublist; [exact Hk|apply firsts_sublist].
Qed.

Lemma filter_other n l : Forall (λ k, k_name k ≠ n) l → filter (λ k, k_name k ≠ n) l = l.
Proof. apply filter_every. Qed.

Lemma known_of_sub_tags s d ks : sub_tags (see s) d ks → known s ks.
Proof.
  intros H. eapply Forall_impl; [exact (st_nodes _ _ _ H)|]. intros k (c&Hc&Hn&Ho&_).
  apply see_at in Hc as (y&Hy&->&_). by exists y.
Qed.

(** The links of the list with the new tag, from the chains that were made. *)
Lemma sub_tags_put v v' d x n o xn l1 l2 :
  let K := Kid x n o in
  sub_tags v d (l1 ++ l2) → x ∉ addrs (l1 ++ l2) → name xn = Some n →
  Forall (λ k, k_off k ≤ o)%nat l1 → Forall (λ k, o < k_off k)%nat l2 →
  vc v' = <[x := content (detach o d xn)]> (vc v) →
  vh v' !! d = Some (head (addrs l1 ++ [x])) →
  chain (vo v') (head (addrs l1 ++ [x])) (addrs l1 ++ x :: addrs l2) →
  chain (vs v') (head (addrs l1 ++ [x])) (addrs (firsts (l1 ++ K :: l2))) →
  chain (vn v') (head (addrs (named n (l1 ++ K :: l2)))) (addrs (named n (l1 ++ K :: l2))) →
  (∀ k, k ≠ x → k ∉ addrs (named n (l1 ++ l2)) → vn v' !! k = vn v !! k) →
  sub_tags v' d (l1 ++ K :: l2).
Proof.
  intros K H Hx Hname H1 H2 Ec Hd Ho Hs Hn Hrest.
  assert (addrs (l1 ++ K :: l2) = addrs l1 ++ x :: addrs l2) as Ea by (by rewrite fmap_app).
  assert (head (addrs (l1 ++ K :: l2)) = head (addrs l1 ++ [x])) as Eh by (rewrite Ea; by destruct l1).
  split; rewrite ?Eh; try done.
  - rewrite Ea. apply NoDup_Permutation_proper with (x :: addrs (l1 ++ l2)).
    + rewrite fmap_app. by rewrite Permutation_middle.
    + apply NoDup_cons. split; [done|apply H].
  - pose proof (st_nodes _ _ _ H) as Hk. rewrite Forall_app in Hk. destruct Hk as [Hk1 Hk2].
    rewrite Ec. apply Forall_app. rewrite fmap_app, not_elem_of_app in Hx. destruct Hx as [Hx1 Hx2].
    assert (∀ l, x ∉ addrs l → Forall (λ k, ∃ c, vc v !! k_addr k = Some c ∧ name c = Some (k_name k) ∧ off c = k_off k ∧ parent c = Some d) l →
      Forall (λ k, ∃ c, <[x := content (detach o d xn)]> (vc v) !! k_addr k = Some c ∧ name c = Some (k_name k) ∧ off c = k_off k ∧ parent c = Some d) l) as Hold.
    { intros l Hxl. rewrite !Forall_forall. intros Hl k Hk. destruct (Hl k Hk) as (c&Hc). exists c.
      rewrite lookup_insert_ne; [done|]. intros ->. apply Hxl. by apply list_elem_of_fmap_2. }
    split; [by apply Hold|]. constructor; [|by apply Hold]. cbn. exists (content (detach o d xn)).
    by rewrite lookup_insert_eq.
  - by rewrite Ea.
  - intros m. destruct (decide (n = m)) as [<-|Hm]; [done|].
    unfold K. rewrite named_put, decide_False by done. cbn [app]. unfold named. rewrite <-filter_app.
    apply (chain_agree (vn v)); [apply H|]. intros k Hk. apply list_elem_of_fmap in Hk as (j&->&Hj).
    apply list_elem_of_filter in Hj as [Hjm Hj]. apply Hrest.
    + intros <-. apply Hx. by apply list_elem_of_fmap_2.
    + intros Hin. apply list_elem_of_fmap in Hin as (i&Hi&[Hin Hil]%list_elem_of_filter).
      assert (i = j); [|congruence]. pose proof (st_nodup _ _ _ H) as Hnd.
      apply list_elem_of_lookup in Hil as (ni&Hni). apply list_elem_of_lookup in Hj as (nj&Hnj).
      assert (ni = nj); [|congruence]. eapply NoDup_lookup; [exact Hnd| |]; rewrite list_lookup_fmap.
      * by rewrite Hni.
      * rewrite Hnj. cbn. by f_equal.
  - pose proof (st_sorted _ _ _ H) as Hso. apply StronglySorted_app in Hso as (Hso&Hso1&Hso2).
    rewrite Forall_forall in H1, H2. apply StronglySorted_app. split; [|split; [done|]].
    + intros a b Ha Hb. apply elem_of_cons in Hb as [->|Hb]; [by apply H1|by apply Hso].
    + apply StronglySorted_cons. split; [|done]. apply Forall_forall. intros b Hb. cbn. specialize (H2 b Hb). lia.
Qed.

(** What insertion leaves alone. *)
Record touched (v v' : view) (x d : addr) (c : ezxml) (h : option addr) (l : list addr) : Prop := {
  to_content : vc v' = <[x := c]> (vc v);
  to_child : vh v' = <[d := h]> (vh v);
  to_roots : vr v' = vr v;
  to_brk : vb v' = vb v;
  to_next k : k ≠ x → k ∉ l → vn v' !! k = vn v !! k;
  to_sibling k : k ≠ x → k ∉ l → vs v' !! k = vs v !! k;
  to_ordered k : k ≠ x → k ∉ l → vo v' !! k = vo v !! k }.

Section InsertLinks.
Context (s : store) (x d : addr) (xn dn : ezxml) (o : nat) (n : str) (l1 l2 : list kid).
Context (Hx : nodes s !! x = Some xn) (Hname : name xn = Some n) (Hd : nodes s !! d = Some dn) (Hxd : x ≠ d).
Context (H : sub_tags (see s) d (l1 ++ l2)) (Hxl : x ∉ addrs (l1 ++ l2)).
Context (H1 : Forall (λ k, k_off k ≤ o)%nat l1) (H2 : Forall (λ k, o < k_off k)%nat l2).

(** The tag after the first statements of [ezxml_insert]. *)
Lemma insert_start :
  ∃ s1, upd x (detach o d) s = Some s1 ∧
    see s1 = View (<[x := content (detach o d xn)]> (vc (see s))) (<[x := None]> (vn (see s)))
      (<[x := None]> (vs (see s))) (<[x := None]> (vo (see s))) (vh (see s)) (vr (see s)) (vb (see s)) ∧
    known s1 (l1 ++ l2) ∧
    (∃ y, nodes s1 !! x = Some y ∧ name y = Some n) ∧ ∃ y, nodes s1 !! d = Some y ∧ child y = head (addrs (l1 ++ l2)).
Proof using H H1 H2 Hx Hd Hxd Hname Hxl.
  destruct (upd_detach s x xn Hx o d) as (s1&E1&V1). exists s1. split; [done|]. split; [done|]. split_and!.
  - pose proof (known_of_sub_tags s d _ H) as Hk. unfold known in *. rewrite Forall_forall in *. intros k Hk0.
    destruct (Hk k Hk0) as (y&Hy&Hny&Hoy). apply see_nodes in Hy.
    assert (vc (see s1) !! k_addr k = Some (content y)) as Hy1.
    { rewrite V1. cbn. rewrite lookup_insert_ne; [done|]. intros ->. apply Hxl. by apply list_elem_of_fmap_2. }
    apply see_at in Hy1 as (z&Hz&Ez&_). exists z. split; [done|]. by destruct y, z; simplify_eq/=.
  - assert (vc (see s1) !! x = Some (content (detach o d xn))) as Hy1 by (rewrite V1; cbn; by rewrite lookup_insert_eq).
    apply see_at in Hy1 as (z&Hz&Ez&_). exists z. split; [done|]. by destruct xn, z; simplify_eq/=.
  - assert (vc (see s1) !! d = Some (content dn)) as Hy1.
    { rewrite V1. cbn [vc]. rewrite lookup_insert_ne by done. by apply see_nodes. }
    apply see_at in Hy1 as (z&Hz&_&_&_&_&Hh). exists z. split; [done|]. rewrite V1 in Hh. cbn [vh] in Hh.
    rewrite (st_child _ _ _ H) in Hh. by injection Hh.
Qed.

(** The part of [ezxml_insert] that works on the lists by name. *)
Definition by_name (s2 : store) (h : addr) : option store :=
  x' ← nodes s2 !! x; n ← name x';
  '(prev, c) ← seek (fuel_of s2) (nodes s2) sibling (name_is n) None (Some h);
  match c with
  | Some c' =>
      y ← nodes s2 !! c';
      if (off y <=? o)%nat then insert_next s2 x c' o else insert_first s2 x h prev c o
  | None => insert_first s2 x h prev c o
  end.

Lemma seek_name s2 h f1 f2 :
  known s2 (f1 ++ f2) → NoDup (addrs (f1 ++ f2)) → chain (vs (see s2)) (Some h) (addrs (f1 ++ f2)) →
  Forall (λ k, k_name k ≠ n) f1 → Forall (λ k, k_name k = n) (take 1 f2) →
  seek (fuel_of s2) (nodes s2) sibling (name_is n) None (Some h) = Some (last (addrs f1), head (addrs f2)).
Proof using.
  intros Hk Hnd Hc F1 F2. rewrite fmap_app in Hc.
  set (nm := λ a, match nodes s2 !! a with Some y => default [] (name y) | None => [] end).
  assert (Forall (λ k, nm (k_addr k) = k_name k) (f1 ++ f2)) as Hnm.
  { eapply Forall_impl; [exact Hk|]. intros k (y&Hy&Hn&_). unfold nm. by rewrite Hy, Hn. }
  rewrite (seek_chain _ _ _ (λ a, bool_decide (nm a = n)) _ _ _ _ _ Hc).
  - f_equal. f_equal. by destruct (last (addrs f1)).
  - rewrite <-fmap_app, length_fmap. by apply known_fuel.
  - intros a. rewrite <-fmap_app. intros (k&->&Hin)%list_elem_of_fmap. unfold known in Hk.
    rewrite Forall_forall in Hk. destruct (Hk k Hin) as (y&Hy&Hn&_). exists y. split; [done|].
    unfold name_is, nm. by rewrite Hy, Hn.
  - apply Forall_app in Hnm as [Hnm _]. apply Forall_fmap. rewrite Forall_forall in Hnm, F1 |- *. intros k Hin.
    apply bool_decide_eq_false. rewrite Hnm by done. by apply F1.
  - apply Forall_app in Hnm as [_ Hnm]. destruct f2 as [|k f2]; [constructor|]. constructor; [|constructor].
    apply bool_decide_eq_true. rewrite (Forall_inv Hnm). by apply Forall_inv in F2.
Qed.

(** What is left of the list of the first tags takes the new first. *)
Lemma first_rest :
  ∃ r2, r2 `sublist_of` l2 ∧ (named n l1 = [] → firsts (l1 ++ Kid x n o :: l2) = firsts l1 ++ Kid x n o :: r2 ∧
    filter (λ k, k_name k ≠ n) (firsts (l1 ++ l2)) = firsts l1 ++ r2).
Proof using.
  destruct (decide (named n l1 = [])) as [E|E].
  - destruct (firsts_put_first x n o l1 l2 E) as (r2&?&?&?). by exists r2.
  - exists []. split; [apply sublist_nil_l|done].
Qed.

Lemma head_firsts l : head (addrs (firsts l)) = head (addrs l).
Proof using. by destruct l. Qed.

Lemma named_nodup : NoDup (addrs (named n (l1 ++ l2))) ∧ NoDup (addrs (firsts (l1 ++ l2))).
Proof using H.
  split; (eapply sublist_NoDup; [apply (st_nodup _ _ _ H)|]); apply sublist_addrs; [apply named_sublist|apply firsts_sublist].
Qed.

Section ByName.
Context (s2 : store) (x2 : ezxml) (h : addr).
Context (Hx2 : nodes s2 !! x = Some x2) (Hn2 : name x2 = Some n) (Hk2 : known s2 (l1 ++ l2)).
Context (Hh : head (addrs (l1 ++ l2)) = Some h).
Context (Vn : vn (see s2) = <[x := None]> (vn (see s))) (Vs : vs (see s2) = <[x := None]> (vs (see s))).

(** What the part by name does to the lists. *)
Definition by_name_ok (r : option store) : Prop := ∃ s' N' S', r = Some s' ∧
  see s' = View (vc (see s2)) N' S' (vo (see s2)) (vh (see s2)) (vr (see s2)) (vb (see s2)) ∧
  chain S' (head (addrs l1 ++ [x])) (addrs (firsts (l1 ++ Kid x n o :: l2))) ∧
  chain N' (head (addrs (named n (l1 ++ Kid x n o :: l2)))) (addrs (named n (l1 ++ Kid x n o :: l2))) ∧
  (∀ k, k ≠ x → k ∉ addrs (named n (l1 ++ l2)) → N' !! k = vn (see s) !! k) ∧
  (∀ k, k ≠ x → k ∉ addrs (l1 ++ l2) → S' !! k = vs (see s) !! k).

(** The tag is the first of its name: [s3] is the store without the old first. *)
Lemma as_first s3 x3 old (r2 : list kid) S3 :
  named n l1 = [] → r2 `sublist_of` l2 → firsts (l1 ++ Kid x n o :: l2) = firsts l1 ++ Kid x n o :: r2 →
  nodes s3 !! x = Some x3 → see s3 = View (vc (see s2)) (vn (see s2)) S3 (vo (see s2)) (vh (see s2)) (vr (see s2)) (vb (see s2)) →
  old = head (addrs (named n l2)) → head (addrs (firsts l1 ++ r2)) = Some h →
  chain S3 (Some h) (addrs (firsts l1 ++ r2)) →
  (∀ k, k ≠ x → k ∉ addrs (l1 ++ l2) → S3 !! k = vs (see s) !! k) →
  by_name_ok (s ← upd x (set_next old) s3;
      '(prev, c) ← seek (fuel_of s) (nodes s) sibling (λ y, Some (negb (off y <=? o)%nat)) None (Some h);
      s ← upd x (set_sibling c) s;
      match prev with Some p => upd p (set_sibling (Some x)) s | None => Some s end).
Proof using H H1 H2 Hh Hxl Hk2 Vn.
  intros Hn1 Hr2 Hf Hx3 V3 Eold Hh3 Hc3 Ha3.
  assert (firsts l1 ++ r2 `sublist_of` l1 ++ l2) as Hsub by (apply sublist_app; [apply firsts_sublist|done]).
  destruct (link_first x h o (firsts l1) r2) with (s := s3) (xn := x3) (old := old) as (s'&m&E'&V'&Hc'&Ha').
  - by eapply addrs_sublist.
  - eapply sublist_NoDup; [apply (st_nodup _ _ _ H)|]. by apply sublist_addrs.
  - rewrite Forall_forall in H1 |- *. intros k Hk. apply H1. eapply elem_of_sublist; [exact Hk|apply firsts_sublist].
  - rewrite Forall_forall in H2 |- *. intros k Hk. apply H2. by eapply elem_of_sublist.
  - done.
  - done.
  - eapply known_sublist; [exact Hsub|]. apply (known_see s2 s3); [by rewrite V3|done].
  - by rewrite V3.
  - exists s'. do 2 eexists. split; [exact E'|]. rewrite V3 in V'. cbn [vc vn vs vo vh vr vb] in V'.
    split; [exact V'|]. split_and!.
    + rewrite Hf, fmap_app. cbn [fmap list_fmap k_addr]. replace (head (addrs l1 ++ [x])) with (head (addrs (firsts l1) ++ [x])); [done|].
      by destruct l1.
    + rewrite named_put, Hn1, decide_True by done. cbn [app fmap list_fmap k_addr head]. rewrite Eold, Vn, insert_insert_eq.
      apply chain_push.
      * pose proof (st_next _ _ _ H n) as Hc. unfold named in Hc, Hn1 |- *. by rewrite filter_app, Hn1 in Hc.
      * rewrite fmap_app, not_elem_of_app in Hxl. eapply addrs_sublist; [apply named_sublist|tauto].
    + intros k Hk _. rewrite Vn. by rewrite !lookup_insert_ne.
    + intros k Hk Hkl. rewrite Ha'; [by rewrite V3; apply Ha3|done|]. by eapply addrs_sublist.
Qed.
(** The sub tags of the parent, as [ezxml_insert] leaves them for the part by name. *)
Lemma siblings_chain : chain (vs (see s2)) (Some h) (addrs (firsts (l1 ++ l2))).
Proof using H Hxl Hh Vs.
  rewrite Vs, <-Hh. apply chain_insert; [eapply addrs_sublist; [apply firsts_sublist|done]|apply H].
Qed.
Lemma firsts_known : known s2 (firsts (l1 ++ l2)).
Proof using Hk2. eapply known_sublist; [apply firsts_sublist|done]. Qed.
Lemma named_app : named n (l1 ++ l2) = named n l1 ++ named n l2.
Proof using. apply filter_app. Qed.
Lemma siblings_kept k : k ≠ x → k ∉ addrs (l1 ++ l2) → vs (see s2) !! k = vs (see s) !! k.
Proof using Vs. intros Hk _. rewrite Vs. by rewrite lookup_insert_ne. Qed.

(** The new first tag is not put before all others with a later one of its name first. *)
Lemma head_kept r2 :
  (∀ k, head (l1 ++ l2) = Some k → (o < k_off k)%nat → k_name k ≠ n) → named n l1 = [] →
  filter (λ k, k_name k ≠ n) (firsts (l1 ++ l2)) = firsts l1 ++ r2 → head (addrs (firsts l1 ++ r2)) = Some h.
Proof using H H1 H2 Hh Hk2 Hxl.
  intros Hfirst Hn1 E. rewrite <-E. destruct (l1 ++ l2) as [|k L] eqn:EL; [done|].
  cbn [firsts]. rewrite filter_cons, decide_True; [done|]. destruct l1 as [|k1 l1'].
  - apply Hfirst; [done|]. cbn in EL. subst l2. by apply Forall_inv in H2.
  - injection EL as -> _. apply (filter_none (λ k, k_name k = n)) in Hn1. by apply Forall_inv in Hn1.
Qed.

(** A first tag [c] of the name that does not lie behind the new one: the new one goes in
    its list. *)
Lemma later_of_name c r y :
  named n (l1 ++ l2) = c :: r → nodes s2 !! k_addr c = Some y → off y = k_off c → (k_off c ≤ o)%nat →
  by_name_ok (insert_next s2 x (k_addr c) o).
Proof using H H1 H2 Hx2 Hxd Hxl Hk2 Hh Vn Vs.
  intros En Hy Hoy Hle. destruct named_nodup as [Hnd Hnf]. pose proof named_app as Enm.
  assert (∃ r1, named n l1 = c :: r1) as (r1&Hr1).
  { destruct (named n l1) as [|c' r1] eqn:E1; [|rewrite Enm in En; injection En as -> _; by exists r1].
    cbn in Enm. assert (c ∈ named n l2) as [_ Hin]%list_elem_of_filter by (rewrite <-Enm, En; by left).
    rewrite Forall_forall in H2. specialize (H2 c Hin). lia. }
  assert (Forall (λ k, k_off k ≤ o)%nat r1) as Hr1o.
  { rewrite Forall_forall in H1 |- *. intros k Hk. apply H1.
    eapply elem_of_sublist; [|apply (named_sublist n)]. rewrite Hr1. by right. }
  assert (Forall (λ k, o < k_off k)%nat (named n l2)) as Hl2o.
  { rewrite Forall_forall in H2 |- *. intros k Hk. apply H2. eapply elem_of_sublist; [exact Hk|apply named_sublist]. }
  rewrite Hr1 in Enm. cbn [app] in Enm.
  destruct (insert_next_spec s2 x x2 o Hx2 c r1 (named n l2)) as (s'&m&E'&V'&Hc'&Ha'); try done.
  - rewrite Vn, <-Enm. apply chain_insert; [eapply addrs_sublist; [apply named_sublist|done]|].
    pose proof (st_next _ _ _ H n) as Hch. rewrite Enm in Hch |- *. exact Hch.
  - by rewrite <-Enm.
  - rewrite <-Enm. eapply known_sublist; [apply named_sublist|done].
  - rewrite <-Enm. eapply addrs_sublist; [apply named_sublist|done].
  - exists s'. do 2 eexists. split; [exact E'|]. split; [exact V'|]. split_and!.
    + rewrite firsts_put_later by (by rewrite Hr1). rewrite Vs.
      apply chain_insert; [eapply addrs_sublist; [apply firsts_sublist|done]|].
      replace (head (addrs l1 ++ [x])) with (head (addrs (l1 ++ l2))) by (by destruct l1). apply H.
    + rewrite named_put, Hr1, decide_True by done. cbn [app fmap list_fmap k_addr head]. by rewrite fmap_app.
    + intros k Hk Hkl. rewrite Ha'; [rewrite Vn; by rewrite lookup_insert_ne|done|by rewrite <-Enm].
    + intros k Hk Hkl. by apply siblings_kept.
Qed.

(** Behind it, the new one takes its place among the first tags. *)
Lemma earlier_of_name c r f1 f2 :
  (∀ k, head (l1 ++ l2) = Some k → (o < k_off k)%nat → k_name k ≠ n) →
  named n (l1 ++ l2) = c :: r → k_name c = n → firsts (l1 ++ l2) = f1 ++ c :: f2 →
  Forall (λ k, k_name k ≠ n) f1 → Forall (λ k, k_name k ≠ n) f2 → (o < k_off c)%nat →
  by_name_ok (insert_first s2 x h (last (addrs f1)) (Some (k_addr c)) o).
Proof using H H1 H2 Hx2 Hn2 Hxd Hxl Hk2 Hh Vn Vs.
  intros Hfirst En Hc Ef Ff1 Ff2 Hgt. destruct named_nodup as [_ Hnf]. pose proof named_app as Enm.
  pose proof siblings_chain as Hcs. pose proof firsts_known as Hkf. destruct first_rest as (r2&Hr2&Hr).
  rewrite Ef in Hcs, Hnf, Hkf. assert (named n l1 = []) as Hn1.
  { destruct (named n l1) as [|c' r1] eqn:E1; [done|]. rewrite Enm in En. injection En as -> _.
    assert (c ∈ named n l1) as [_ Hin]%list_elem_of_filter by (rewrite E1; by left).
    rewrite Forall_forall in H1. specialize (H1 c Hin). lia. }
  destruct (Hr Hn1) as [Hf Hf2]. pose proof (head_kept r2 Hfirst Hn1 Hf2) as Hh2.
  rewrite Ef in Hf2. rewrite filter_app, filter_cons, decide_False in Hf2 by tauto.
  rewrite !filter_other in Hf2 by done. assert (f1 ≠ []) as Hf1.
  { intros ->. apply (Hfirst c); [|done|done]. destruct (l1 ++ l2); [done|]. cbn in Ef. by injection Ef as -> _. }
  destruct (unlink_first s2 (Some h) c f1 f2) as (s3&S3&q&Eq&E3&V3&Hc3&Ha3); try done.
  unfold insert_first. rewrite Eq, E3. cbn [mbind option_bind].
  destruct (see_keep s2 s3 x x2) as (x3&Hx3&_); [by rewrite V3|done|].
  apply (as_first s3 x3 (Some (k_addr c)) r2 S3); try done.
  - rewrite Hn1 in Enm. cbn [app] in Enm. by rewrite <-Enm, En.
  - by rewrite <-Hf2.
  - intros k Hk Hkl. rewrite Ha3; [by apply siblings_kept|]. rewrite <-Ef. eapply addrs_sublist; [apply firsts_sublist|done].
Qed.

Lemma by_name_spec :
  (∀ k, head (l1 ++ l2) = Some k → (o < k_off k)%nat → k_name k ≠ n) → by_name_ok (by_name s2 h).
Proof using H H1 H2 Hx2 Hn2 Hxd Hxl Hk2 Hh Vn Vs.
  intros Hfirst. destruct named_nodup as [Hnd Hnf]. pose proof siblings_chain as Hcs. pose proof firsts_known as Hkf.
  unfold by_name. rewrite Hx2. cbn [mbind option_bind]. rewrite Hn2. cbn [mbind option_bind].
  destruct (firsts_split n (l1 ++ l2)) as [[En Ef]|(c&r&f1&f2&En&Hc&Ef&Ff1&Ff2)].
  - (* no tag of this name yet *)
    pose proof En as En'. rewrite named_app in En'. apply app_nil in En' as [Hn1 Hn2']. destruct first_rest as (r2&Hr2&Hr).
    pose proof (seek_name s2 h (firsts (l1 ++ l2)) []) as Hs. rewrite app_nil_r in Hs.
    rewrite Hs by (done || constructor). clear Hs.
    cbn [mbind option_bind head fmap list_fmap]. destruct (Hr Hn1) as [Hf Hf2]. pose proof (head_kept r2 Hfirst Hn1 Hf2) as Hh2.
    rewrite filter_other in Hf2 by done.
    unfold insert_first. replace (match last (addrs (firsts (l1 ++ l2))) with Some p => _ | None => _ end) with (Some s2)
      by (by destruct (last _)).
    cbn [mbind option_bind]. apply (as_first s2 x2 None r2 (vs (see s2))); try done.
    + by rewrite Hn2'.
    + by rewrite <-Hf2.
    + apply siblings_kept.
  - (* [c] is the first of its name *)
    rewrite Ef in Hcs, Hnf, Hkf. rewrite (seek_name s2 h f1 (c :: f2)) by (done || by repeat constructor).
    cbn [mbind option_bind head fmap list_fmap].
    apply Forall_app in Hkf as [_ Hkc]. apply Forall_cons in Hkc as [(y&Hy&_&Hoy) _].
    rewrite Hy. cbn [mbind option_bind]. rewrite Hoy. destruct (Nat.leb_spec (k_off c) o) as [Hle|Hgt].
    + by eapply later_of_name.
    + by eapply earlier_of_name.
Qed.
End ByName.

Lemma insert_links :
  (∀ k, head (l1 ++ l2) = Some k → (o < k_off k)%nat → k_name k ≠ n) →
  ∃ s', ezxml_insert s x d o = Some s' ∧ sub_tags (see s') d (l1 ++ Kid x n o :: l2) ∧
        touched (see s) (see s') x d (content (detach o d xn)) (head (addrs l1 ++ [x])) (addrs (l1 ++ l2)).
Proof using All.
  intros Hfirst. destruct insert_start as (s1&E1&V1&Hkn&(y&Hy&Hny)&(z&Hz&Hcz)).
  unfold ezxml_insert. rewrite E1. cbn [mbind option_bind]. rewrite Hz. cbn [mbind option_bind]. rewrite Hcz.
  destruct (head (addrs (l1 ++ l2))) as [h|] eqn:Eh.
  2: { destruct l1 as [|? ?]; [|done]. destruct l2 as [|? ?]; [|done]. cbn [app] in *.
       destruct (upd_child s1 d z Hz (Some x)) as (s2&E2&V2). exists s2. split; [done|]. rewrite V1 in V2. cbn in V2.
       split.
       - apply (sub_tags_put (see s) _ d x n o xn [] []); rewrite ?V2; try done; cbn.
         + by rewrite lookup_insert_eq.
         + split; [done|]. exists None. by rewrite lookup_insert_eq.
         + split; [done|]. exists None. by rewrite lookup_insert_eq.
         + case_decide; [|done]. cbn. split; [done|]. exists None. by rewrite lookup_insert_eq.
         + intros k Hk _. by rewrite lookup_insert_ne.
       - split; rewrite V2; cbn; try done; intros; by rewrite lookup_insert_ne. }
  destruct (insert_ordered_spec s1 x y o Hy d z Hz h l1 l2 Eh (st_nodup _ _ _ H) Hkn Hxl H1 H2) as (s2&m&E2&V2&Hc2&Ha2).
  { rewrite V1, <-Eh. cbn [vo]. apply chain_insert; [done|apply H]. }
  { rewrite V1. cbn [vh]. by rewrite (st_child _ _ _ H), Eh. }
  rewrite E2. cbn [mbind option_bind]. fold (by_name s2 h).
  destruct (see_keep s1 s2 x y) as (x2&Hx2&Ex2); [by rewrite V2|done|].
  assert (name x2 = Some n) as Hn2 by (by destruct x2, y; simplify_eq/=).
  rewrite V1 in V2. cbn [vc vn vs vo vh vr vb] in V2.
  destruct (by_name_spec s2 x2 h Hx2 Hn2) as (s'&N'&S'&E'&V'&HcS&HcN&HaN&HaS); try done; try (by rewrite V2).
  { apply (known_see s1 s2); [by rewrite V2, V1|done]. }
  exists s'. split; [exact E'|]. rewrite V2 in V'. cbn [vc vn vs vo vh vr vb] in V'. split.
  - apply (sub_tags_put (see s) _ d x n o xn l1 l2); rewrite ?V'; try done. cbn. by rewrite lookup_insert_eq.
  - split; rewrite V'; cbn [vc vn vs vo vh vr vb]; try done.
    + intros k Hk Hkl. apply HaN; [done|]. eapply addrs_sublist; [apply named_sublist|done].
    + intros k Hk Hkl. rewrite Ha2 by done. rewrite V1. cbn. by rewrite lookup_insert_ne.
Qed.
End InsertLinks.

Lemma touched_sub_tags s s' x d c h ks d' ks' :
  touched (see s) (see s') x d c h (addrs ks) → sub_tags (see s) d ks →
  d' ≠ d → x ∉ addrs ks' → sub_tags (see s) d' ks' → sub_tags (see s') d' ks'.
Proof.
  intros Ht H Hd Hx H'. pose proof (st_nodes _ _ _ H') as Hn. rewrite Forall_forall in Hn.
  assert (∀ k, k ∈ addrs ks' → k ≠ x ∧ k ∉ addrs ks) as Hk.
  { intros k Hin. split; [by intros ->|]. intros Hin'. apply list_elem_of_fmap in Hin as (j&->&Hj).
    destruct (Hn j Hj) as (y&Hy&_&_&Hp). pose proof (st_nodes _ _ _ H) as Hn'. rewrite Forall_forall in Hn'.
    apply list_elem_of_fmap in Hin' as (i&Ei&Hi). destruct (Hn' i Hi) as (z&Hz&_&_&Hp'). rewrite <-Ei in Hz. congruence. }
  assert (∀ l, l `sublist_of` ks' → ∀ k, k ∈ addrs l → k ∈ addrs ks') as Hsub.
  { intros l Hs k Hin. eapply elem_of_sublist; [exact Hin|by apply sublist_addrs]. }
  split; try apply H'.
  - apply Forall_forall. intros j Hj. destruct (Hn j Hj) as (y&Hy&?). exists y. rewrite (to_content _ _ _ _ _ _ _ Ht).
    rewrite lookup_insert_ne; [done|]. destruct (Hk (k_addr j)) as [? _]; [by apply list_elem_of_fmap_2|congruence].
  - rewrite (to_child _ _ _ _ _ _ _ Ht), lookup_insert_ne by congruence. apply H'.
  - apply (chain_agree (vo (see s))); [apply H'|]. intros k Hin. destruct (Hk k Hin). by apply (to_ordered _ _ _ _ _ _ _ Ht).
  - apply (chain_agree (vs (see s))); [apply H'|]. intros k Hin. apply (Hsub _ (firsts_sublist ks')) in Hin.
    destruct (Hk k Hin). by apply (to_sibling _ _ _ _ _ _ _ Ht).
  - intros n. apply (chain_agree (vn (see s))); [apply H'|]. intros k Hin. apply (Hsub _ (named_sublist n ks')) in Hin.
    destruct (Hk k Hin). by apply (to_next _ _ _ _ _ _ _ Ht).
Qed.

(** Where an offset belongs in a list by offsets. *)
Lemma split_by_offset o (ks : list kid) :
  StronglySorted (λ a b, k_off a ≤ k_off b)%nat ks →
  ∃ l1 l2, ks = l1 ++ l2 ∧ Forall (λ k, k_off k ≤ o)%nat l1 ∧ Forall (λ k, o < k_off k)%nat l2.
Proof.
  induction 1 as [|k ks Hs IH Hk]; [by exists [], []|]. destruct (decide (k_off k ≤ o)%nat) as [Hle|Hgt].
  - destruct IH as (l1&l2&->&?&?). exists (k :: l1), l2. split; [done|]. split; [by constructor|done].
  - exists [], (k :: ks). split; [done|]. split; [constructor|]. constructor; [lia|].
    eapply Forall_impl; [exact Hk|]. cbn. intros j Hj. lia.
Qed.

(** C12: [ezxml_insert] keeps the lists of sub tags.  A tag is put behind the tags with
    the same or a smaller offset: the list of all sub tags, the list of the first of
    each name and the lists of each name are those of the new list, and the lists
    below all other tags are as before.  This needs that the tag does not come before
    a first sub tag of the same name. *)
Theorem ezxml_insert_keeps_lists s x d xn dn o n ks :
  nodes s !! x = Some xn → name xn = Some n → nodes s !! d = Some dn → x ≠ d →
  sub_tags (see s) d ks → x ∉ addrs ks →
  (∀ k, head ks = Some k → (o < k_off k)%nat → k_name k ≠ n) →
  ∃ l1 l2 s', ks = l1 ++ l2 ∧ Forall (λ k, k_off k ≤ o)%nat l1 ∧ Forall (λ k, o < k_off k)%nat l2 ∧
    ezxml_insert s x d o = Some s' ∧ sub_tags (see s') d (l1 ++ Kid x n o :: l2) ∧
    ∀ d' ks', d' ≠ d → x ∉ addrs ks' → sub_tags (see s) d' ks' → sub_tags (see s') d' ks'.
Proof.
  intros Hx Hn Hd Hxd H Hxl Hfirst. destruct (split_by_offset o ks (st_sorted _ _ _ H)) as (l1&l2&->&H1&H2).
  destruct (insert_links s x d xn dn o n l1 l2) as (s'&E&H'&Ht); try done.
  exists l1, l2, s'. split_and!; try done. intros d' ks' Hd' Hx' Hs'. by eapply touched_sub_tags.
Qed.

(** ** What goes wrong *)

Definition blank (n : str) : ezxml := Ezxml (Some n) [] [] 0 None None None None None 0.
Definition insert_all (s : store) (l : list (addr * nat)) : option store :=
  foldl (λ s xo, s ← s; ezxml_insert s xo.1 0 xo.2) (Some s) l.

(** A root with the sub tags [a], [b], [a], and one more tag [a]. *)
Definition family : store :=
  Store (<[0:=blank (chars "r")]> (<[1:=blank (chars "a")]> (<[2:=blank (chars "b")]>
    (<[3:=blank (chars "a")]> (<[4:=blank (chars "a")]> ∅)))))%nat ∅ 5.

(** Before a first sub tag of the same name, the list of the first of each name gets
    both. *)
Lemma insert_before_first_same_name :
  ∃ s, insert_all family [(1, 5); (2, 6); (4, 0)]%nat = Some s ∧
    (sibling <$> nodes s !! 4%nat) = Some (Some 1%nat) ∧ (name <$> nodes s !! 1%nat) = (name <$> nodes s !! 4%nat).
Proof. eexists. split; [vm_compute; reflexivity|]. by vm_compute. Qed.

(** When the first sub tag is cut, the tags of its name behind other tags are not
    found any more. *)
Lemma cut_first_loses_its_name :
  ∃ s s', insert_all family [(1, 5); (2, 6); (3, 7)]%nat = Some s ∧
    ezxml_child s (Some 0%nat) (chars "a") = Some (Some 1%nat) ∧
    ezxml_cut s (Some 1%nat) = Some s' ∧
    ezxml_child s' (Some 0%nat) (chars "a") = Some None ∧
    (ordered <$> nodes s' !! 2%nat) = Some (Some 3%nat) ∧ (name <$> nodes s' !! 3%nat) = Some (Some (chars "a")).
Proof.
  do 2 eexists. split; [vm_compute; reflexivity|]. split; [by vm_compute|]. split; [vm_compute; reflexivity|].
  by vm_compute.
Qed.

(** To remove an attribute that is there reads behind the list. *)
Lemma remove_attr_overreads s p x n v :
  nodes s !! p = Some x → find_attr n (attr x) = Some v → ezxml_set_attr s (Some p) n None = None.
Proof.
  intros Hx Hf. unfold ezxml_set_attr. rewrite Hx. cbn [mbind option_bind]. unfold set_attr_entry.
  unfold find_attr in Hf. by destruct (list_find _ _) as [[i a]|].
Qed.

(** ** Witness *)

Lemma family_sub_tags : sub_tags (see family) 0 [].
Proof. split; cbn [fmap list_fmap head firsts]; try constructor; try done. Qed.

Definition family1 : store := default family (ezxml_insert family 1 0 5).
Lemma family1_sub_tags : sub_tags (see family1) 0 [Kid 1 (chars "a") 5].
Proof.
  destruct (insert_links family 1 0 (blank (chars "a")) (blank (chars "r")) 5 (chars "a") [] []) as (s'&E&H&_);
    try done; try apply family_sub_tags; try apply not_elem_of_nil; try by constructor.
  unfold family1. by rewrite E.
Qed.

Lemma ezxml_insert_keeps_lists_witness :
  ∃ s', ezxml_insert family1 2 0 3 = Some s' ∧ sub_tags (see s') 0 [Kid 2 (chars "b") 3; Kid 1 (chars "a") 5].
Proof.
  destruct (ezxml_insert_keeps_lists family1 2 0 (blank (chars "b")) (default (blank []) (nodes family1 !! 0%nat)) 3 (chars "b")
    [Kid 1 (chars "a") 5]) as (l1&l2&s'&El&H1&H2&E&Hs&_).
  - by vm_compute.
  - done.
  - by vm_compute.
  - done.
  - apply family1_sub_tags.
  - apply not_elem_of_cons. split; [done|apply not_elem_of_nil].
  - by intros k [= <-].
  - exists s'. split; [exact E|]. destruct l1 as [|k l1]; [cbn in El; subst l2; exact Hs|].
    exfalso. injection El as <- _. apply Forall_inv in H1. cbn in H1. lia.
Defined.
