(* ===== verification/EzxmlText.v ===== *)
(** * Text of XML documents

    The functions of [linux_usr/ezxml.c] that work on text: line ends, character
    and entity references, their encoding, and the conversion from UTF-16.  A
    string is the list of its characters, as unsigned bytes, without terminator. *)
From S2P Require Import Prelude Text Ezxml.
From stdpp Require Import list.
#[local] Open Scope Z_scope.

Definition amp : Z := 38.
Definition langle : Z := 60.
Definition rangle : Z := 62.
Definition quot : Z := 34.
Definition apos : Z := 39.
Definition semi : Z := 59.
Definition cr : Z := 13.
Definition percent : Z := 37.

(** [EZXML_WS], and [strspn] and [strcspn] as tests of characters. *)
Definition ws (c : Z) : bool := (c =? 9) || (c =? 13) || (c =? 10) || (c =? 32).
Definition skip_ws (s : str) : str := (span ws s).2.
Definition until (p : Z → bool) (s : str) : str * str := span (λ c, negb (p c)) s.

(** [strchr]: the string from the character on. *)
Definition strchr (d : Z) (s : str) : option str :=
  match (until (Z.eqb d) s).2 with [] => None | r => Some r end.

(** [strstr]. *)
Fixpoint strstr (p s : str) : option str :=
  match Text.strip_prefix p s, s with
  | Some _, _ => Some s
  | None, [] => None
  | None, _ :: s' => strstr p s'
  end.
Definition starts (p s : str) : bool := if Text.strip_prefix p s then true else false.

(** ** UTF-8 *)

(** A character of [b] + 1 bytes, where [b] is found from its number of bits.
    Beyond 41 bits, which only a character reference can ask for, the code shifts by
    a negative count, which C leaves undefined; x86 then shifts out the low byte. *)
Definition payload (c : Z) : Z := (Z.log2 c + 1 - 2) ÷ 5.
Fixpoint continuation (b : nat) (c : Z) : str :=
  match b with
  | O => []
  | S b => Z.lor 0x80 (Z.land (Z.shiftr c (6 * Z.of_nat b)) 0x3F) :: continuation b c
  end.
Definition utf8 (c : Z) : str :=
  if c <? 0x80 then [u8 c]
  else let b := payload c in
       u8 (Z.lor (if b <=? 7 then Z.shiftl 0xFF (7 - b) else 0) (Z.shiftr c (6 * b))) :: continuation (Z.to_nat b) c.

Definition surrogate (c : Z) : bool := (0xD800 <=? c) && (c <=? 0xDFFF).
Definition unit_of (be : bool) (x y : Z) : Z := if be then Z.lor (Z.shiftl x 8) y else Z.lor (Z.shiftl y 8) x.

Fixpoint from_utf16 (be : bool) (s : str) : str :=
  match s with
  | x :: y :: s' =>
      let c := unit_of be x y in
      if surrogate c then
        match s' with
        | z :: w :: s'' =>
            let d := unit_of be z w in
            utf8 (Z.lor (Z.shiftl (Z.land c 0x3FF) 10) (Z.land d 0x3FF) + 0x10000) ++ from_utf16 be s''
        | _ => utf8 c
        end
      else utf8 c ++ from_utf16 be s'
  | _ => []
  end.

(** [None]: the string is not UTF-16. *)
Definition ezxml_str2utf8 (s : str) : option str :=
  match s with
  | c :: s' => if c =? 0xFE then Some (from_utf16 true (drop 1 s'))
               else if c =? 0xFF then Some (from_utf16 false (drop 1 s')) else None
  | [] => None
  end.

(** ** Decoding *)

(** Line ends.  A string that ends in a carriage return takes the loop past the
    terminator, on into the text behind it: the second component says so. *)
Fixpoint normalize (s : str) : str * bool :=
  match s with
  | [] => ([], false)
  | c :: s' =>
      let keep '(r, past) := (c :: r, past : bool) in
      let line '(r, past) := (newline :: r, past : bool) in
      if c =? cr then
        match s' with
        | [] => ([newline], true)
        | d :: s'' =>
            if d =? newline then match s'' with [] => ([newline], true) | _ => line (normalize s'') end
            else line (normalize s')
        end
      else keep (normalize s')
  end.

(** The argument [t]: ['&'], ['%'], ['c'], [' '] and ['*']. *)
Inductive mode := Content | Param | Cdata | Attr | Attr_tokens.
#[export] Instance mode_eq_dec : EqDecision mode.
Proof. solve_decision. Defined.

Definition refers (t : mode) (c : Z) : bool :=
  match t with
  | Content | Attr | Attr_tokens => c =? amp
  | Param => c =? percent
  | Cdata => false
  end.
Definition spaces (t : mode) : bool := match t with Attr | Attr_tokens => true | _ => false end.

(** The number after [&#], and what follows it. *)
Definition char_ref (s : str) : Z * str :=
  match s with
  | c :: s' => if c =? 120 then strtol 16 s' else strtol 10 s
  | [] => strtol 10 s
  end.

(** The first entity whose name, with its semicolon, starts the string. *)
Fixpoint find_ent (ent : list (str * str)) (s : str) : option str :=
  match ent with
  | [] => None
  | (n, v) :: ent => if starts n s then Some v else find_ent ent s
  end.

(** The text, and whether it had to be moved to allocated memory: the value of an
    entity is longer than the reference it replaces.  The value of an entity is
    decoded again.  [None] is an expansion longer than the fuel. *)
Fixpoint decode (n : nat) (ent : list (str * str)) (t : mode) (s : str) : option (str * bool) :=
  match n with
  | O => None
  | S n =>
      let emit cs s := '(r, m) ← decode n ent t s; Some (cs ++ r, m : bool) in
      match s with
      | [] => Some ([], false)
      | c :: s' =>
          if (c =? amp) && negb (bool_decide (t = Cdata)) && starts (chars "#") s' then
            let '(v, e) := char_ref (tl s') in
            match e with
            | d :: e' => if (v =? 0) || negb (d =? semi) then emit [c] s' else emit (utf8 v) e'
            | [] => emit [c] s'
            end
          else if refers t c then
            match find_ent ent s' with
            | Some v =>
                e ← strchr semi s;
                '(r, m) ← decode n ent t (v ++ tl e);
                Some (r, m || (length s - length e <? length v - 1)%nat)
            | None => emit [c] s'
            end
          else if spaces t && isspace c then emit [32] s'
          else emit [c] s'
      end
  end.

(** Runs of spaces become one, and the last goes.  When the text does not end in
    exactly one space, the loop takes its [s++] past the terminator: [None]. *)
Fixpoint tokens (n : nat) (s : str) : option str :=
  match n, s with
  | O, _ => None
  | _, [] => Some []
  | S n, _ =>
      let '(w, r) := until (Z.eqb 32) (span (Z.eqb 32) s).2 in
      match r with
      | [] => None
      | _ :: r => rest ← tokens n r; Some (w ++ 32 :: rest)
      end
  end.

(** What [ezxml_decode] gives: the text, whether the loop over line ends ran past
    it, and whether it was allocated. *)
Record decoded := Decoded { d_text : str; d_past : bool; d_alloc : bool }.

Definition ezxml_decode (n : nat) (ent : list (str * str)) (t : mode) (s : str) : option decoded :=
  let '(s, past) := normalize s in
  '(r, alloc) ← decode n ent t s;
  r ← match t with Attr_tokens => (@removelast Z) <$> tokens (S (length r)) r | _ => Some r end;
  Some (Decoded r past alloc).

(** ** Encoding *)

(** One character; [a] is for attributes. *)
Definition encode_char (a : bool) (c : Z) : str :=
  if c =? amp then chars "&amp;"
  else if c =? langle then chars "&lt;"
  else if c =? rangle then chars "&gt;"
  else if c =? quot then (if a then chars "&quot;" else [c])
  else if c =? newline then (if a then chars "&#xA;" else [c])
  else if c =? 9 then (if a then chars "&#x9;" else [c])
  else if c =? cr then chars "&#xD;"
  else [c].

(** The first [len] characters, or all of them; [None] is a length of -1. *)
Definition ezxml_ampencode (a : bool) (len : option nat) (s : str) : str :=
  match len with Some n => take n s | None => s end ≫= encode_char a.

(** ** Circular entities *)

(** [ezxml_ent_ok]: whether the text [s], with the entities it refers to, is free
    of references to [n]. *)
Fixpoint ent_ok (fuel : nat) (n : str) (ent : list (str * str)) (s : str) : option bool :=
  match fuel with
  | O => None
  | S fuel =>
      match strchr amp s with
      | None => Some true
      | Some e =>
          let s := tl e in
          if starts n s then Some false
          else
            ok ← match find_ent ent s with Some v => ent_ok fuel n ent v | None => Some true end;
            if (ok : bool) then ent_ok fuel n ent s else Some false
      end
  end.

(** ** Lemmas *)

Lemma until_app p t c r : Forall (λ c, p c = false) t → p c = true → until p (t ++ c :: r) = (t, c :: r).
Proof.
  intros Ht Hc. unfold until. rewrite span_app; [done| |cbn; by rewrite Hc].
  eapply Forall_impl; [exact Ht|]. intros d Hd. by rewrite Hd.
Qed.

Lemma until_all p t : Forall (λ c, p c = false) t → until p t = (t, []).
Proof.
  intros Ht. unfold until. rewrite <-(app_nil_r t) at 1. rewrite span_app; [done| |done].
  eapply Forall_impl; [exact Ht|]. intros d Hd. by rewrite Hd.
Qed.

Lemma strchr_app d t r : Forall (λ c, c ≠ d) t → strchr d (t ++ d :: r) = Some (d :: r).
Proof.
  intros Ht. unfold strchr. rewrite until_app; [done| |apply Z.eqb_refl].
  eapply Forall_impl; [exact Ht|]. intros c Hc. apply Z.eqb_neq. congruence.
Qed.

Lemma normalize_plain s : Forall (λ c, c ≠ cr) s → normalize s = (s, false).
Proof.
  induction 1 as [|c s Hc _ IH]; [done|]. cbn [normalize]. rewrite (proj2 (Z.eqb_neq c _) Hc). by rewrite IH.
Qed.

(** What [decode] leaves of a character that [ezxml_ampencode] wrote: as an
    attribute, a vertical tab or a form feed becomes a space. *)
Definition kept (a : bool) (c : Z) : Z := if a && ((c =? 11) || (c =? 12)) then 32 else c.

Section Decode.
Context (t : mode) (a : bool) (Ht : t = if a then Attr else Content).

Lemma decode_raw n c s :
  c ≠ amp → decode (S n) default_ents t (c :: s)
    = '(r, m) ← decode n default_ents t s; Some ((if a && isspace c then 32 else c) :: r, m).
Proof using Ht.
  intros Hc. cbn [decode]. rewrite (proj2 (Z.eqb_neq c _) Hc). cbn [andb].
  assert (refers t c = false) as -> by (rewrite Ht; destruct a; by apply Z.eqb_neq).
  assert (spaces t = a) as -> by (by rewrite Ht; destruct a). by destruct (a && isspace c).
Qed.

(** A reference to a character, in decimal or hexadecimal. *)
Lemma decode_char_ref n ref v s :
  (∀ s, char_ref (ref ++ semi :: s) = (v, semi :: s)) → v ≠ 0 →
  decode (S n) default_ents t (amp :: 35 :: ref ++ semi :: s)
    = '(r, m) ← decode n default_ents t s; Some (utf8 v ++ r, m).
Proof using Ht.
  intros Hr Hv. cbn [decode]. rewrite bool_decide_false by (by rewrite Ht; destruct a). cbn [tl].
  rewrite Hr. by rewrite (proj2 (Z.eqb_neq v 0) Hv).
Qed.

(** A reference to one of the five entities. *)
Lemma decode_ent n name v s :
  find_ent default_ents (name ++ semi :: s) = Some v → Forall (λ c, c ≠ semi) name →
  head name ≠ Some 35 → name ≠ [] →
  decode (S n) default_ents t (amp :: name ++ semi :: s)
    = '(r, m) ← decode n default_ents t (v ++ s); Some (r, m || (S (length name) <? length v - 1)%nat).
Proof using Ht.
  intros Hf Hs Hh Hne. cbn [decode].
  assert (starts (chars "#") (name ++ semi :: s) = false) as ->.
  { destruct name as [|c name]; [done|]. unfold starts. change (chars "#") with [35]. cbn [app Text.strip_prefix].
    destruct (Z.eqb_spec 35 c) as [<-|]; [by destruct Hh|done]. }
  assert (refers t amp = true) as -> by (by rewrite Ht; destruct a). rewrite andb_false_r, Hf.
  assert (strchr semi (amp :: name ++ semi :: s) = Some (semi :: s)) as ->.
  { apply (strchr_app semi (amp :: name) s). by constructor. }
  cbn [mbind option_bind tl length]. rewrite length_app. cbn [length].
  replace (S (length name + S (length s)) - S (length s))%nat with (S (length name)) by lia. done.
Qed.

(** The entities stand for references. *)
Lemma decode_named n name ref v s r m :
  find_ent default_ents (name ++ semi :: s) = Some (amp :: 35 :: ref ++ [semi]) →
  Forall (λ c, c ≠ semi) name → head name ≠ Some 35 → name ≠ [] →
  (∀ s, char_ref (ref ++ semi :: s) = (v, semi :: s)) → 0 < v < 0x80 →
  decode n default_ents t s = Some (r, m) →
  ∃ m, decode (S (S n)) default_ents t (amp :: name ++ semi :: s) = Some (v :: r, m).
Proof using Ht.
  intros Hf Hs Hh Hne Hr Hv Hd. rewrite (decode_ent (S n) name _ s Hf) by done. cbn [app].
  rewrite <-app_assoc. cbn [app]. rewrite (decode_char_ref n ref v s) by (done || lia). rewrite Hd. cbn [mbind option_bind].
  unfold utf8. rewrite (proj2 (Z.ltb_lt v 0x80)) by lia. unfold u8. rewrite Z.mod_small by lia. by eexists.
Qed.

End Decode.

(** What was encoded is decoded. *)
Lemma decode_encode (t : mode) (a : bool) n s :
  t = (if a then Attr else Content) → (2 * length s < n)%nat →
  ∃ m : bool, decode n default_ents t (s ≫= encode_char a) = Some (kept a <$> s, m).
Proof.
  intros Ht. revert n. induction s as [|c s IH]; intros n Hn; [destruct n; [lia|by exists false]|].
  destruct n as [|[|n]]; cbn [length] in Hn; [lia..|].
  destruct (IH (S n)) as (m1&E1); [lia|]. destruct (IH n) as (m0&E0); [lia|].
  rewrite bind_cons, fmap_cons.
  set (X := s ≫= encode_char a) in *. unfold encode_char.
  assert (∀ (ref : str) v, (∀ s, char_ref (ref ++ semi :: s) = (v, semi :: s)) → 0 < v < 0x80 →
    ∃ m : bool, decode (S (S n)) default_ents t (amp :: 35 :: ref ++ semi :: X) = Some (v :: (kept a <$> s), m)) as Href.
  { intros ref v Hr Hv. rewrite (decode_char_ref t a Ht (S n) ref v X) by (done || lia). rewrite E1. cbn [mbind option_bind].
    unfold utf8. rewrite (proj2 (Z.ltb_lt v 0x80)) by lia. unfold u8. rewrite Z.mod_small by lia. by eexists. }
  assert (c ≠ amp → (c = 9 ∨ c = 10 ∨ c = 13 → a = false) →
    ∃ m : bool, decode (S (S n)) default_ents t (c :: X) = Some (kept a c :: (kept a <$> s), m)) as Hraw.
  { intros Hc Hsp. rewrite (decode_raw t a Ht) by done. rewrite E1. cbn [mbind option_bind]. exists m1. do 3 f_equal.
    unfold kept. destruct a; [|done]. cbn [andb]. destruct (isspace c) eqn:E.
    - apply isspace_spec in E. destruct (Z.eqb_spec c 11), (Z.eqb_spec c 12); try done. cbn. destruct (decide (c = 32)); [done|].
      exfalso. assert (true = false); [apply Hsp; lia|done].
    - destruct (Z.eqb_spec c 11) as [E'|]; [by rewrite E' in E|].
      destruct (Z.eqb_spec c 12) as [E'|]; [by rewrite E' in E|done]. }
  assert (∀ v, v ≠ 11 → v ≠ 12 → kept a v = v) as Hkept.
  { intros v H1 H2. unfold kept. by rewrite (proj2 (Z.eqb_neq v 11) H1), (proj2 (Z.eqb_neq v 12) H2), andb_false_r. }
  destruct (Z.eqb_spec c amp) as [->|Ha].
  { rewrite Hkept by done. eapply (decode_named t a Ht n (chars "amp") (chars "38") 38 X); try done; by repeat constructor. }
  destruct (Z.eqb_spec c langle) as [->|Hl].
  { rewrite Hkept by done. eapply (decode_named t a Ht n (chars "lt") (chars "60") 60 X); try done; by repeat constructor. }
  destruct (Z.eqb_spec c rangle) as [->|Hg].
  { rewrite Hkept by done. eapply (decode_named t a Ht n (chars "gt") (chars "62") 62 X); try done; by repeat constructor. }
  destruct (Z.eqb_spec c quot) as [->|Hq].
  { destruct a eqn:Ea; [|by apply Hraw]. rewrite Hkept by done.
    eapply (decode_named t true Ht n (chars "quot") (chars "34") 34 X); try done; by repeat constructor. }
  destruct (Z.eqb_spec c newline) as [->|Hn'].
  { destruct a eqn:Ea; [|by apply Hraw]. rewrite Hkept by done. apply (Href (chars "xA") 10); [by intros [|? ?]|done]. }
  destruct (Z.eqb_spec c 9) as [->|H9].
  { destruct a eqn:Ea; [|by apply Hraw]. rewrite Hkept by done. apply (Href (chars "x9") 9); [by intros [|? ?]|done]. }
  destruct (Z.eqb_spec c cr) as [->|Hcr].
  { rewrite Hkept by done. apply (Href (chars "xD") 13); [by intros [|? ?]|done]. }
  apply Hraw; [done|]. unfold newline, cr in *. lia.
Qed.

Lemma encode_chars (a : bool) c :
  Forall (λ d, d ≠ cr ∧ d ≠ langle ∧ (a = true → d ≠ quot) ∧ (c ≠ 0 → d ≠ 0)) (encode_char a c).
Proof.
  unfold encode_char, cr, langle, quot, newline, amp, rangle.
  repeat match goal with |- context [c =? ?v] => destruct (Z.eqb_spec c v) end;
    try (destruct a); repeat (constructor; [split_and!; (lia || done)|]); try done; constructor.
Qed.

Lemma ampencode_chars (a : bool) s :
  Forall (λ d, d ≠ cr ∧ d ≠ langle ∧ (a = true → d ≠ quot)) (ezxml_ampencode a None s) ∧
  (Forall (λ c, c ≠ 0) s → Forall (λ c, c ≠ 0) (ezxml_ampencode a None s)).
Proof.
  unfold ezxml_ampencode. induction s as [|c s [IH1 IH2]]; [done|]. rewrite bind_cons.
  pose proof (encode_chars a c) as H. split.
  - apply Forall_app. split; [|done]. eapply Forall_impl; [exact H|]. by intros d (?&?&?&?).
  - intros [Hc Hs]%Forall_cons. apply Forall_app. split; [|auto]. eapply Forall_impl; [exact H|]. intros d (_&_&_&Hd). auto.
Qed.

(** Text that was written is read back. *)
Lemma decode_ampencode k (a : bool) s :
  (2 * length s < k)%nat →
  ∃ m, ezxml_decode k default_ents (if a then Attr else Content) (ezxml_ampencode a None s)
       = Some (Decoded (kept a <$> s) false m).
Proof.
  intros Hk. destruct (decode_encode (if a then Attr else Content) a k s eq_refl Hk) as (m&E). exists m.
  unfold ezxml_decode. rewrite normalize_plain.
  - unfold ezxml_ampencode. cbn beta iota. rewrite E. cbn [mbind option_bind]. by destruct a.
  - destruct (ampencode_chars a s) as [H _]. eapply Forall_impl; [exact H|]. by intros d (?&_).
Qed.

Lemma ampencode_app a s1 s2 :
  ezxml_ampencode a None (s1 ++ s2) = ezxml_ampencode a None s1 ++ ezxml_ampencode a None s2.
Proof. unfold ezxml_ampencode. apply bind_app. Qed.
