(* ===== verification/EzxmlParse.v ===== *)
(** * Parsing and printing XML

    [linux_usr/ezxml.c]: [ezxml_parse_str], its callbacks and the functions that
    read a file for it, and [ezxml_toxml].  The parser writes terminators into the
    buffer it reads; a name or a text is here the list of its characters, and the
    position is the rest of the string.  [None] is an access outside of the string
    or of the tree, or fuel that runs out. *)
From S2P Require Import Prelude Text Ezxml EzxmlText.
From stdpp Require Import list gmap.
#[local] Open Scope Z_scope.

(** ** The record of the root *)

Definition set_cur v r := EzxmlRoot v (ent r) (dattr r) (pi r) (standalone r) (err r).
Definition set_err v r := EzxmlRoot (cur r) (ent r) (dattr r) (pi r) (standalone r) (Some v).
Definition set_ent v r := EzxmlRoot (cur r) v (dattr r) (pi r) (standalone r) (err r).
Definition set_dattr v r := EzxmlRoot (cur r) (ent r) v (pi r) (standalone r) (err r).
Definition set_pi v r := EzxmlRoot (cur r) (ent r) (dattr r) v (standalone r) (err r).
Definition set_standalone r := EzxmlRoot (cur r) (ent r) (dattr r) (pi r) true (err r).

Definition ezxml_err (root : addr) (e : error) (s : store) : option store := upd_root root (set_err e) s.

(** ** What the parser calls *)

Definition ezxml_open_tag (s : store) (root : addr) (n : str) (a : list attribute) : option store :=
  r ← roots s !! root; p ← cur r; x ← nodes s !! p;
  '(s, p) ← match name x with
            | Some _ => '(s, c) ← ezxml_add_child s (Some p) n (length (txt x)); c ← c; Some (s, c)
            | None => s ← upd p (set_name (Some n)) s; Some (s, p)
            end;
  s ← upd p (set_attrs a) s;
  upd_root root (set_cur (Some p)) s.

(** The content of the current tag; the second component is that of
    [ezxml_decode]: the loop over line ends ran into the text that follows. *)
Definition ezxml_char_content (n : nat) (s : store) (root : addr) (t : mode) (c : str) : option (store * bool) :=
  r ← roots s !! root;
  match cur r with
  | None => Some (s, false)
  | Some p =>
      x ← nodes s !! p;
      match name x, c with
      | None, _ | _, [] => Some (s, false)
      | Some _, _ =>
          d ← ezxml_decode n (ent r) t c;
          s ← upd p (set_text (txt x ++ d_text d)) s;
          s ← match txt x, d_alloc d with
              | [], false => Some s
              | _, _ => ezxml_set_flag s (Some p) EZXML_TXTM
              end;
          Some (s, d_past d)
      end
  end.

(** The boolean says that the tag was closed. *)
Definition ezxml_close_tag (s : store) (root : addr) (n : str) : option (store * bool) :=
  r ← roots s !! root;
  let fail := s ← ezxml_err root (Unexpected_closing_tag n) s; Some (s, false) in
  match cur r with
  | None => fail
  | Some p =>
      x ← nodes s !! p;
      match name x with
      | None => fail
      | Some m => if bool_decide (m = n) then s ← upd_root root (set_cur (parent x)) s; Some (s, true) else fail
      end
  end.

Definition before_root : Z := langle.
Definition after_root : Z := rangle.

(** The instructions of a target are found under its first entry. *)
Fixpoint add_pi (target : str) (v : str * Z) (l : list (str * list (str * Z))) :=
  match l with
  | [] => [(target, [v])]
  | (m, vs) :: l => if bool_decide (target = m) then (m, vs ++ [v]) :: l else (m, vs) :: add_pi target v l
  end.

Definition ezxml_proc_inst (s : store) (root : addr) (c : str) : option store :=
  let '(target, rest) := until ws c in
  let rest := skip_ws rest in
  if bool_decide (target = chars "xml") then
    match strstr (chars "standalone") rest with
    | Some e =>
        let v := (span (λ c, ws c || (c =? 61) || (c =? apos) || (c =? quot)) (drop 10 e)).2 in
        if starts (chars "yes") v then upd_root root set_standalone s else Some s
    | None => Some s
    end
  else
    x ← nodes s !! root;
    let mark := match name x with Some _ => after_root | None => before_root end in
    upd_root root (λ r, set_pi (add_pi target (rest, mark) (pi r)) r) s.

(** ** The internal subset of the document type *)

(** What the scan of the subset changes: the store, the parameter entities, the
    variable [n], and the position, which is [None] when [s] is NULL. *)
Record dtd := Dtd { d_st : store; d_pe : list (str * str); d_n : option str; d_s : option str }.

(** An entity declaration, from behind [<!ENTITY]; [false] is the [break].  Without
    white space behind the name, its semicolon goes on the terminator. *)
Definition dtd_entity (k : nat) (root : addr) (st : store) (pe : list (str * str)) (s : str)
    : option (dtd * bool) :=
  let c := skip_ws s in
  let '(n, r) := until ws (span (λ c, ws c || (c =? percent)) c).2 in
  r ← match r with [] => None | _ :: r => Some r end;
  let n := n ++ [semi] in
  let skip := Some (Dtd st pe (Some (n ++ r)) (strchr rangle r), true) in
  match skip_ws r with
  | [] => skip
  | q :: v =>
      if negb ((q =? quot) || (q =? apos)) then skip
      else
        let '(v, s) := until (Z.eqb q) v in
        let s := match s with [] => None | _ :: s => Some s end in
        d ← ezxml_decode k pe Param v;
        if d_past d then None else
        rt ← roots st !! root;
        let param := match c with c :: _ => c =? percent | [] => false end in
        ok ← ent_ok k n (if param then pe else ent rt) (d_text d);
        if (ok : bool) then
          let e := (n, d_text d) in
          if param then Some (Dtd st (pe ++ [e]) (Some n) s, true)
          else st ← upd_root root (λ r, set_ent (ent r ++ [e]) r) st; Some (Dtd st pe (Some n) s, true)
        else st ← ezxml_err root (Circular_entity n) st; Some (Dtd st pe (Some n) s, false)
  end.

(** The entry [i] of the default attributes gets an attribute; behind the end, a new
    entry for the tag [t]. *)
Definition add_default (i : nat) (t : str) (d : default_attr) (l : list (str * list default_attr)) :=
  match l !! i with
  | Some (m, ds) => <[i := (m, ds ++ [d])]> l
  | None => l ++ [(t, [d])]
  end.

(** The type of an attribute and what separates it from its default: [None] is the
    NULL of a missing parenthesis. *)
Definition attlist_type (s : str) : option (bool * str) :=
  let s := skip_ws (tl s) in
  let cdata := starts (chars "CDATA") s in
  let s := if starts (chars "NOTATION") s then skip_ws (drop 8 s) else s in
  s ← match s with
      | c :: _ => if c =? 40 then strchr 41 s else Some (until ws s).2
      | [] => Some []
      end;
  let s := (span (λ c, ws c || (c =? 41)) s).2 in
  Some (cdata, if starts (chars "#FIXED") s then skip_ws (drop 6 s) else s).

(** The loop over the attributes of a declaration, with the terminator or the
    character before the next one at the head of [s].  (The code has [++s] and [s] in
    one expression; the increment is taken to come first.) *)
Fixpoint attlist_loop (fuel k : nat) (root : addr) (i : nat) (t : str)
    (st : store) (s : str) : option (store * option str * option str) :=
  match fuel with
  | O => None
  | S fuel =>
      s ← match s with [] => None | _ :: s => Some s end;
      let malformed n s := st ← ezxml_err root Malformed_attlist st; Some (st, Some n, s) in
      let '(n, r) := until ws (skip_ws s) in
      match skip_ws s with
      | [] => Some (st, Some [], Some s)
      | c :: _ =>
          if c =? rangle then Some (st, Some (skip_ws s), Some s) else
          match r with
          | [] => malformed n (Some [])
          | _ :: _ =>
              match attlist_type r with
              | None => malformed n None
              | Some (cdata, s) =>
                  let go v s :=
                    rt ← roots st !! root;
                    v ← match v with
                        | None => Some None
                        | Some v =>
                            d ← ezxml_decode k (ent rt) (if cdata then Attr else Attr_tokens) v;
                            if d_past d then None else Some (Some (d_text d))
                        end;
                    st ← upd_root root (λ r, set_dattr (add_default i t (DefaultAttr n v cdata) (dattr r)) r) st;
                    attlist_loop fuel k root i t st s in
                  match s with
                  | q :: v =>
                      if q =? 35 then
                        let s := drop (length (until (λ c, ws c || (c =? rangle)) s).1 - 1) s in
                        if cdata then attlist_loop fuel k root i t st s else go None s
                      else if (q =? quot) || (q =? apos) then
                        let '(v, s) := until (Z.eqb q) v in
                        match s with [] => malformed n None | _ => go (Some v) s end
                      else malformed n (Some s)
                  | [] => malformed n (Some s)
                  end
              end
          end
      end
  end.

(** [for (i = 0; root->attr[i] && strcmp(n, root->attr[i][0]); i++);], where [n] is
    what the scan found last, not the tag of the declaration; at first it is NULL. *)
Fixpoint entry_of (n : option str) (l : list (str * list default_attr)) : option nat :=
  match l, n with
  | [], _ => Some O
  | _ :: _, None => None
  | (m, _) :: l, Some n' => if bool_decide (n' = m) then Some O else S <$> entry_of n l
  end.

(** The loop: the store, and the subset is done. *)
Fixpoint dtd_loop (fuel k : nat) (root : addr) (x : dtd) : option store :=
  match fuel with
  | O => None
  | S fuel =>
      let st := d_st x in
      let next s := dtd_loop fuel k root (Dtd st (d_pe x) (d_n x) s) in
      match d_s x with
      | None => Some st
      | Some s =>
          let s := (until (λ c, (c =? langle) || (c =? percent)) s).2 in
          match s with
          | [] => Some st
          | c :: s' =>
              if starts (chars "<!ENTITY") s then
                '(x', go) ← dtd_entity k root st (d_pe x) (drop 8 s);
                if (go : bool) then dtd_loop fuel k root x' else Some (d_st x')
              else if starts (chars "<!ATTLIST") s then
                let t := skip_ws (drop 9 s) in
                match t with
                | [] => ezxml_err root Unclosed_attlist st
                | _ =>
                    let '(t, s) := until (λ c, ws c || (c =? rangle)) t in
                    match s with
                    | [] => None
                    | c :: _ =>
                        if c =? rangle then next (Some s)
                        else
                          rt ← roots st !! root;
                          i ← entry_of (d_n x) (dattr rt);
                          '(st, n, s) ← attlist_loop (S (length s)) k root i t st s;
                          dtd_loop fuel k root (Dtd st (d_pe x) n s)
                    end
                end
              else if starts (chars "<!--") s then next (strstr (chars "-->") (drop 4 s))
              else if starts (chars "<?") s then
                match strstr (chars "?>") (drop 2 s) with
                | Some e =>
                    let c := take (length s - 2 - length e) (drop 2 s) in
                    st ← ezxml_proc_inst st root c;
                    dtd_loop fuel k root (Dtd st (d_pe x) (d_n x) (Some (tl e)))
                | None => next None
                end
              else if c =? langle then next (strchr rangle s)
              else rt ← roots st !! root; if standalone rt then next (Some s') else Some st
          end
      end
  end.

(** Whether there is no error. *)
Definition ezxml_internal_dtd (k : nat) (s : store) (root : addr) (c : str) : option (store * bool) :=
  s ← dtd_loop (S (length c)) k root (Dtd s [] None (Some c));
  r ← roots s !! root; Some (s, bool_decide (err r = None)).

(** ** [ezxml_parse_str] *)

Definition slash : Z := 47.
Definition equals : Z := 61.
Definition isalpha (c : Z) : bool := ((65 <=? c) && (c <=? 90)) || ((97 <=? c) && (c <=? 122)).
(** The last test is of a negative [char]. *)
Definition name_start (c : Z) : bool := isalpha c || (c =? 95) || (c =? 58) || (128 <=? c).

(** The text behind one whose line ends ran past its terminator. *)
Definition run_on (past : bool) (rest : str) : option str :=
  if past then let '(r, again) := normalize rest in if (again : bool) then None else Some r else Some rest.

(** The loop over the attributes of a tag; [a] are the defaults of its name. *)
Fixpoint tag_attrs (fuel k : nat) (en : list (str * str)) (a : list default_attr) (s : str)
    : option (error + list attribute * str) :=
  match fuel, s with
  | O, _ => None
  | _, [] => Some (inr ([], s))
  | S fuel, c :: _ =>
      if (c =? slash) || (c =? rangle) then Some (inr ([], s)) else
      let '(n, r) := until (λ c, ws c || (c =? equals) || (c =? slash) || (c =? rangle)) s in
      let go v f r :=
        x ← tag_attrs fuel k en a (span isspace r).2;
        Some (match x with inl e => inl e | inr (l, r) => inr (Attribute n v f :: l, r) end) in
      match r with
      | [] => go None 32 r
      | c :: r' =>
          if negb ((c =? equals) || isspace c) then go None 32 r else
          let r := (span (λ c, ws c || (c =? equals)) r').2 in
          match r with
          | [] => go None 32 r
          | q :: v =>
              if negb ((q =? quot) || (q =? apos)) then go None 32 r else
              let '(v, r) := until (Z.eqb q) v in
              match r with
              | [] => Some (inl (Missing q))
              | _ :: r =>
                  let t := match find_default n a with
                           | Some d => if da_cdata d then Attr else Attr_tokens
                           | None => Attr
                           end in
                  d ← ezxml_decode k en t v;
                  r ← run_on (d_past d) r;
                  go (Some (d_text d)) (if d_alloc d then EZXML_TXTM else 32) r
              end
          end
      end
  end.

(** A piece of markup: it returns with an error, or goes on with the rest of the
    string, whose first character becomes a terminator. *)
Inductive step := Stop (s : store) | Go (s : store) (rest : str).

Definition stop (root : addr) (e : error) (s : store) : option step := Stop <$> ezxml_err root e s.

Section Parse.
(** The fuel of a text, and the last character of the document, which a terminator
    stands for while it is parsed. *)
Context (k : nat) (root : addr) (e : Z).

Definition new_tag (st : store) (s : str) : option step :=
  r ← roots st !! root;
  match cur r with
  | None => stop root Markup_outside_root st
  | Some _ =>
      let '(n, s) := until (λ c, ws c || (c =? slash) || (c =? rangle)) s in
      let s := (span isspace s).2 in
      x ← tag_attrs (S (length s)) k (ent r) (default [] (Ezxml.assoc n (dattr r))) s;
      match x with
      | inl er => stop root er st
      | inr (a, []) =>
          if e =? rangle then st ← ezxml_open_tag st root n a; Some (Go st [])
          else stop root (Missing rangle) st
      | inr (a, c :: s) =>
          if c =? slash then
            if match s with [] => e =? rangle | d :: _ => d =? rangle end then
              st ← ezxml_open_tag st root n a;
              '(st, _) ← ezxml_close_tag st root n;
              Some (Go st s)
            else stop root (Missing rangle) st
          else st ← ezxml_open_tag st root n a; Some (Go st (c :: s))
      end
  end.

Definition close_tag (st : store) (s : str) : option step :=
  let '(n, r) := until (λ c, ws c || (c =? rangle)) s in
  if match r with [] => negb (e =? rangle) | _ => false end then stop root (Missing rangle) st
  else
    '(st, ok) ← ezxml_close_tag st root n;
    Some (if (ok : bool) then Go st (skip_ws r) else Stop st).

(** From behind [!--]. *)
Definition comment (st : store) (s : str) : option step :=
  match strstr (chars "--") s with
  | Some r =>
      match drop 2 r with
      | [] => if e =? rangle then Some (Go st []) else stop root Unclosed_comment st
      | c :: r => if c =? rangle then Some (Go st (c :: r)) else stop root Unclosed_comment st
      end
  | None => stop root Unclosed_comment st
  end.

(** From behind [![CDATA[]. *)
Definition cdata (st : store) (s : str) : option step :=
  match strstr (chars "]]>") s with
  | Some r =>
      '(st, past) ← ezxml_char_content k st root Cdata (take (length s - length r) s);
      r ← run_on past (drop 2 r); Some (Go st r)
  | None => stop root Unclosed_cdata st
  end.

(** The loop that looks for the end of the document type; [l] says that there is a
    subset. *)
Fixpoint doctype_end (fuel : nat) (l : bool) (s : str) : option (bool * str) :=
  match fuel with
  | O => None
  | S fuel =>
      match s with
      | [] => Some (l, [])
      | c :: s' =>
          let last := match skip_ws s' with d :: _ => d =? rangle | [] => false end in
          if if l then negb ((c =? 93) && last) else negb (c =? rangle) then
            let s := (until (λ c, (c =? 91) || (c =? 93) || (c =? rangle)) s').2 in
            doctype_end fuel (match s with c :: _ => (c =? 91) || l | [] => l end) s
          else Some (l, s)
      end
  end.

(** From [!DOCTYPE] on; with a subset, the position is put one further, which is
    past the end when the subset was not closed. *)
Definition doctype (st : store) (s : str) : option step :=
  '(l, r) ← doctype_end (S (length s)) false s;
  if match r with [] => negb (e =? rangle) | _ => false end then stop root Unclosed_doctype st
  else if (l : bool) then
    d ← strchr 91 s;
    '(st, ok) ← ezxml_internal_dtd k st root (take (length (tl d) - length r) (tl d));
    match r with
    | [] => if (ok : bool) then None else Some (Stop st)
    | _ :: r => Some (if (ok : bool) then Go st r else Stop st)
    end
  else Some (Go st r).

(** [do { s = strchr(s, '?'); } while (s && *(++s) && *s != '>')]. *)
Fixpoint pi_end (fuel : nat) (s : str) : option (option str) :=
  match fuel with
  | O => None
  | S fuel =>
      match strchr 63 s with
      | None => Some None
      | Some r =>
          match tl r with
          | [] => Some (Some [])
          | c :: _ => if c =? rangle then Some (Some (tl r)) else pi_end fuel (tl r)
          end
      end
  end.

(** From the question mark on.  In [<?>] the length of the instruction is -1. *)
Definition proc_inst (st : store) (s : str) : option step :=
  r ← pi_end (S (length s)) s;
  match r with
  | None => stop root Unclosed_pi st
  | Some r =>
      if match r with [] => negb (e =? rangle) | _ => false end then stop root Unclosed_pi st
      else if (length s - length r <? 2)%nat then None
      else
        st ← ezxml_proc_inst st root (take (length s - length r - 2) (tl s));
        Some (Go st r)
  end.

Definition markup (st : store) (s : str) : option step :=
  match s with
  | [] => stop root Unexpected_lt st
  | c :: s' =>
      if name_start c then new_tag st s
      else if c =? slash then close_tag st s'
      else if starts (chars "!--") s then comment st (drop 3 s)
      else if starts (chars "![CDATA[") s then cdata st (drop 8 s)
      else if starts (chars "!DOCTYPE") s then doctype st s
      else if c =? 63 then proc_inst st s
      else stop root Unexpected_lt st
  end.

(** After the last piece. *)
Definition finish (st : store) : option store :=
  r ← roots st !! root;
  match cur r with
  | None => Some st
  | Some p =>
      x ← nodes st !! p;
      ezxml_err root (match name x with None => Root_tag_missing | Some n => Unclosed_tag n end) st
  end.

(** What follows a piece of markup: text, then the next piece. *)
Definition after (rec : store → str → option store) (st : store) (s : str) : option store :=
  match s with
  | [] | [_] => finish st
  | _ :: c :: s' =>
      if c =? langle then rec st s'
      else
        let '(t, r) := until (Z.eqb langle) (c :: s') in
        match r with
        | [] => finish st
        | _ :: r =>
            '(st, past) ← ezxml_char_content k st root Content t;
            r ← run_on past r;
            rec st r
        end
  end.

(** The loop, from behind a [<]. *)
Fixpoint parse_loop (fuel : nat) (st : store) (s : str) : option store :=
  match fuel with
  | O => None
  | S fuel =>
      x ← markup st s;
      match x with
      | Stop st => Some st
      | Go st s => after (parse_loop fuel) st s
      end
  end.
End Parse.

(** The characters up to the first terminator. *)
Definition c_string (s : str) : str := (until (Z.eqb 0) s).1.

(** A document of UTF-16 that converts to nothing leaves the string NULL. *)
Definition ezxml_parse_str (k : nat) (st : store) (doc : str) : option (store * addr) :=
  let '(st, root) := ezxml_new None st in
  match doc with
  | [] => st ← ezxml_err root Root_tag_missing st; Some (st, root)
  | _ =>
      let doc := default doc (ezxml_str2utf8 doc) in
      e ← last doc;
      match (until (Z.eqb langle) (c_string (removelast doc))).2 with
      | [] => st ← ezxml_err root Root_tag_missing st; Some (st, root)
      | _ :: s => st ← parse_loop k root e (S (length s)) st s; Some (st, root)
      end
  end.

(** ** Reading files *)

Definition EZXML_BUFSIZE : nat := 1024.

(** [fread] gives a whole buffer until the end of the stream. *)
Fixpoint fread_all (fuel : nat) (f : str) : option str :=
  match fuel with
  | O => None
  | S fuel =>
      let l := take EZXML_BUFSIZE f in
      if (length l =? EZXML_BUFSIZE)%nat then r ← fread_all fuel (drop EZXML_BUFSIZE f); Some (l ++ r)
      else Some l
  end.
Definition ezxml_parse_fp (k : nat) (st : store) (f : str) : option (store * addr) :=
  s ← fread_all (S (length f)) f; ezxml_parse_str k st s.

(** The file, or [None] for a descriptor that is negative.  Mapped or read, the
    parser gets the whole file; [short] is what [read] returns when mapping failed. *)
Definition ezxml_parse_fd (k : nat) (st : store) (f : option str) (mapped : bool) (short : nat)
    : option (store * option addr) :=
  match f with
  | None => Some (st, None)
  | Some f =>
      '(st, root) ← ezxml_parse_str k st (if mapped then f else take short f); Some (st, Some root)
  end.
Definition ezxml_parse_file := ezxml_parse_fd.

(** ** [ezxml_toxml] *)

(** Whether the attribute [i] is the one [ezxml_attr] finds: the code compares the
    pointers of the values. *)
Definition is_found (l : list attribute) (i : nat) (a : attribute) : bool :=
  match list_find (λ b, at_name b = at_name a) l with
  | Some (j, b) => (i =? j)%nat || match at_value a, at_value b with None, None => true | _, _ => false end
  | None => false
  end.

Definition print_attr (n v : str) : str :=
  [32] ++ n ++ [equals; quot] ++ ezxml_ampencode true None v ++ [quot].
Definition print_attrs (l : list attribute) : str :=
  mjoin (imap (λ i a, if is_found l i a then print_attr (at_name a) (at_text a) else []) l).

(** The default attributes that the tag does not have itself. *)
Definition print_defaults (l : list attribute) (ds : list default_attr) : str :=
  mjoin (imap (λ i d,
    match da_value d, find_attr (da_name d) l, list_find (λ d', da_name d' = da_name d) ds with
    | Some v, None, Some (j, _) => if (i =? j)%nat then print_attr (da_name d) v else []
    | _, _, _ => []
    end) ds).

(** The text from [start], up to the offset. *)
Definition segment (t : str) (start off : nat) : str :=
  ezxml_ampencode false (if (start <=? off)%nat then Some (off - start)%nat else None) (drop start t).

(** With a default attribute to print, the root has to be found from the tag. *)
Fixpoint ezxml_toxml_r (n : nat) (st : store) (xml : addr) (start : nat)
    (da : list (str * list default_attr)) : option str :=
  match n with
  | O => None
  | S n =>
      x ← nodes st !! xml;
      t ← match parent x with Some p => txt <$> nodes st !! p | None => Some [] end;
      m ← name x;
      let ds := default [] (Ezxml.assoc m da) in
      _ ← match filter (λ d, da_value d ≠ None ∧ find_attr (da_name d) (attr x) = None) ds with
          | [] => Some tt
          | _ => _ ← root_data st xml; Some tt
          end;
      inner ← match child x with
              | Some c => ezxml_toxml_r n st c 0 da
              | None => Some (ezxml_ampencode false None (txt x))
              end;
      let here := segment t start (off x) ++ [langle] ++ m ++ print_attrs (attr x) ++ print_defaults (attr x) ds
                  ++ [rangle] ++ inner ++ [langle; slash] ++ m ++ [rangle] in
      let off := (off x `min` length t)%nat in
      rest ← match ordered x with
             | Some o => ezxml_toxml_r n st o off da
             | None => Some (ezxml_ampencode false None (drop off t))
             end;
      Some (here ++ rest)
  end.

Definition print_pi (target v : str) : str :=
  chars "<?" ++ target ++ (match v with [] => [] | _ => [32] end) ++ v ++ chars "?>".

(** The instructions before the root tag, a line each, and those after it. *)
Definition print_pis (pre : bool) (l : list (str * list (str * Z))) : str :=
  '(target, vs) ← l; '(v, mark) ← vs;
  if pre then if mark =? after_root then [] else print_pi target v ++ [newline]
  else if mark =? before_root then [] else [newline] ++ print_pi target v.

Definition ezxml_toxml (st : store) (xml : option addr) : option str :=
  match xml with
  | None => Some []
  | Some p =>
      x ← nodes st !! p;
      match name x with
      | None => Some []
      | Some _ =>
          r ← root_data st p;
          st ← upd p (λ x, Ezxml (name x) (attr x) (txt x) (off x) (next x) (sibling x) None (child x) None (flags x)) st;
          body ← ezxml_toxml_r (fuel_of st) st p 0 (dattr r);
          Some (match parent x with
                | None => print_pis true (pi r) ++ body ++ print_pis false (pi r)
                | Some _ => body
                end)
      end
  end.

(** The test program of [ezxml.c]. *)
Definition parse_and_print (k : nat) (doc : str) : option (str * option error) :=
  '(st, root) ← ezxml_parse_str k (Store ∅ ∅ 0) doc;
  s ← ezxml_toxml st (Some root); e ← ezxml_error st (Some root); Some (s, e).
