(* ===== verification/EzxmlTree.v ===== *)
(** * XML trees

    A document as a tree, related to the tags and links of [Ezxml], and the round
    trip: [ezxml_toxml] of a tree, parsed by [ezxml_parse_str], gives the tree. *)
From stdpp Require Import gmap sorting.
From S2P Require Import Prelude Text Ezxml EzxmlLinks EzxmlText EzxmlParse.
From stdpp Require Import list.
#[local] Open Scope Z_scope.

(** ** Trees *)

(** The sub tags of a tag, in their order: the offset, the name, the attributes,
    the text and the sub tags of the first, and the others. *)
Inductive forest :=
| Nil
| Tag (o : nat) (n : str) (a : list (str * str)) (t : str) (kids rest : forest).

Fixpoint tags (f : forest) : nat :=
  match f with Nil => O | Tag _ _ _ _ kids rest => S (tags kids + tags rest) end.

Fixpoint print_attributes (a : list (str * str)) : str :=
  match a with [] => [] | (n, v) :: a => print_attr n v ++ print_attributes a end.

(** The sub tags within the text [t] of their parent, from the offset [start]. *)
Fixpoint print_forest (t : str) (start : nat) (f : forest) : str :=
  match f with
  | Nil => ezxml_ampencode false None (drop start t)
  | Tag o n a t' kids rest =>
      ezxml_ampencode false None (take (o - start) (drop start t)) ++
      [langle] ++ n ++ print_attributes a ++ [rangle] ++ print_forest t' 0 kids ++ [langle; slash] ++ n ++ [rangle] ++
      print_forest t o rest
  end.

(** Names and texts that the parser reads as they are. *)
Definition plain (s : str) : Prop := Forall (λ c, c ≠ 0) s.
Definition tag_name (n : str) : Prop :=
  plain n ∧ Forall (λ c, ws c = false ∧ c ≠ slash ∧ c ≠ rangle) n ∧
  match n with c :: _ => name_start c = true | [] => False end.
Definition attr_name (n : str) : Prop :=
  plain n ∧ Forall (λ c, ws c = false ∧ c ≠ slash ∧ c ≠ rangle ∧ c ≠ equals) n ∧
  match n with c :: _ => isspace c = false | [] => False end.
Definition attr_ok (a : str * str) : Prop :=
  attr_name a.1 ∧ plain a.2 ∧ Forall (λ c, c ≠ 11 ∧ c ≠ 12) a.2.

Fixpoint wf (t : str) (start : nat) (f : forest) : Prop :=
  match f with
  | Nil => True
  | Tag o n a t' kids rest =>
      (start ≤ o ≤ length t)%nat ∧ tag_name n ∧ Forall attr_ok a ∧ NoDup a.*1 ∧ plain t' ∧
      wf t' 0 kids ∧ wf t o rest
  end.

Definition attr_pairs (l : list attribute) : list (str * str) := (λ a, (at_name a, at_text a)) <$> l.

(** The tags [ks] of the store, with all that is below them, are the forest; [al]
    lists the tags. *)
Fixpoint rep (s : store) (ks : list kid) (f : forest) (al : list addr) : Prop :=
  match f, ks with
  | Nil, [] => al = []
  | Tag o n a t kids rest, k :: ks =>
      k_name k = n ∧ k_off k = o ∧
      ∃ x ks2 al1 al2, nodes s !! k_addr k = Some x ∧ attr_pairs (attr x) = a ∧ txt x = t ∧
        al = k_addr k :: al1 ++ al2 ∧
        sub_tags (see s) (k_addr k) ks2 ∧ rep s ks2 kids al1 ∧ rep s ks rest al2
  | _, _ => False
  end.

(** ** What the parser makes of printed text *)

Lemma ampencode_nil a T : ezxml_ampencode a None T = [] → T = [].
Proof.
  destruct T as [|d T]; [done|]. unfold ezxml_ampencode. rewrite bind_cons. intros [E _]%app_nil. exfalso.
  unfold encode_char in E. by repeat match type of E with context [d =? ?v] => destruct (Z.eqb_spec d v) end; destruct a.
Qed.

Section Pieces.
Context (k : nat) (root : addr) (e : Z).

(** The text up to the next piece. *)
Lemma after_text rec st T rest :
  (2 * length T < k)%nat →
  after k root rec st (rangle :: ezxml_ampencode false None T ++ langle :: rest) =
  ('(st, past) ← ezxml_char_content k st root Content (ezxml_ampencode false None T); r ← run_on past rest; rec st r)
  ∨ T = [] ∧ after k root rec st (rangle :: ezxml_ampencode false None T ++ langle :: rest) = rec st rest.
Proof using.
  intros Hk. destruct (ampencode_chars false T) as [H _]. destruct T as [|c T].
  - right. done.
  - left. destruct (ezxml_ampencode false None (c :: T)) as [|d E] eqn:EE; [by apply ampencode_nil in EE|].
    cbn [app after]. pose proof (Forall_inv H) as (_&Hd&_). rewrite (proj2 (Z.eqb_neq d langle) Hd).
    change (d :: E ++ langle :: rest) with ((d :: E) ++ langle :: rest).
    rewrite until_app; [done| |apply Z.eqb_refl]. eapply Forall_impl; [exact H|]. intros x (_&Hx&_). apply Z.eqb_neq. congruence.
Qed.

(** The attributes of a tag. *)
Lemma tag_attrs_printed fuel a rest :
  Forall attr_ok a → (length a < fuel)%nat → Forall (λ x, (2 * length x.2 < k)%nat) a →
  ∃ l, tag_attrs fuel k default_ents [] (span isspace (print_attributes a ++ rangle :: rest)).2
       = Some (inr (l, rangle :: rest)) ∧ attr_pairs l = a.
Proof using.
  intros Ha. revert fuel. induction Ha as [|[n v] a (Hn&Hv&Hv2) _ IH]; intros [|fuel] Hf Hk; cbn [length] in Hf; try lia.
  - by exists [].
  - apply Forall_cons in Hk as [Hkv Hk]. cbn [fst snd] in *. destruct Hn as (Hn0&Hn1&Hn2).
    destruct n as [|c n]; [done|]. cbn [print_attributes]. unfold print_attr. rewrite <-!app_assoc. cbn [app].
    assert ((span isspace (32 :: (c :: n) ++ equals :: quot :: ezxml_ampencode true None v ++ quot :: print_attributes a ++ rangle :: rest)).2
      = (c :: n) ++ equals :: quot :: ezxml_ampencode true None v ++ quot :: print_attributes a ++ rangle :: rest) as Es.
    { cbn [span app]. change (isspace 32) with true. cbn iota. rewrite Hn2. done. }
    cbn [app] in Es. rewrite Es. cbn [tag_attrs]. pose proof (Forall_inv Hn1) as (_&Hc1&Hc2&_).
    rewrite (proj2 (Z.eqb_neq c slash) Hc1), (proj2 (Z.eqb_neq c rangle) Hc2). cbn [orb].
    change (c :: n ++ ?r) with ((c :: n) ++ r).
    rewrite (until_app _ (c :: n) equals); [| |done].
    2: { eapply Forall_impl; [exact Hn1|]. intros d (H1&H2&H3&H4). rewrite H1.
         by rewrite (proj2 (Z.eqb_neq d _) H2), (proj2 (Z.eqb_neq d _) H3), (proj2 (Z.eqb_neq d _) H4). }
    change (equals =? equals) with true. cbn [negb orb andb].
    change (span (λ c, ws c || (c =? equals)) (quot :: ?r)).2 with (quot :: r). cbn iota.
    change (quot =? quot) with true. cbn [negb orb].
    destruct (ampencode_chars true v) as [Hc _].
    rewrite (until_app _ (ezxml_ampencode true None v) quot); [| |apply Z.eqb_refl].
    2: { eapply Forall_impl; [exact Hc|]. intros d (_&_&Hd). apply Z.eqb_neq. intros <-. by apply Hd. }
    cbn [find_default list_find fmap option_fmap option_map].
    destruct (decode_ampencode k true v Hkv) as (m&Ed). cbn iota in Ed. rewrite Ed. cbn [mbind option_bind d_past run_on d_text d_alloc].
    destruct (IH fuel ltac:(lia) Hk) as (l&El&Hl). rewrite El. cbn [mbind option_bind].
    eexists. split; [reflexivity|]. unfold attr_pairs in *. cbn [fmap list_fmap at_name at_text at_value default from_option id].
    rewrite Hl. do 2 f_equal. rewrite <-(list_fmap_id v) at 2. apply list_fmap_ext. intros i d Hd.
    rewrite Forall_lookup in Hv2. destruct (Hv2 i d Hd) as [H11 H12]. unfold kept.
    by rewrite (proj2 (Z.eqb_neq d _) H11), (proj2 (Z.eqb_neq d _) H12).
Qed.
End Pieces.

(** ** What the steps of the parser leave alone *)

Definition wf_store (s : store) : Prop :=
  ∀ a x, nodes s !! a = Some x → (a < brk s)%nat ∧ ∀ d, parent x = Some d → (d < brk s)%nat.

Definition same_links (x x' : ezxml) : Prop :=
  next x' = next x ∧ sibling x' = sibling x ∧ ordered x' = ordered x.
Definition same_tag (x x' : ezxml) : Prop :=
  name x' = name x ∧ off x' = off x ∧ parent x' = parent x ∧ attr x' = attr x.

(** Only the text of [q], its sub tags and their links change. *)
Definition keeps (q : addr) (s s' : store) : Prop :=
  ∀ a x, nodes s !! a = Some x → ∃ x', nodes s' !! a = Some x' ∧ same_tag x x' ∧
    (a ≠ q → txt x' = txt x ∧ child x' = child x) ∧ (parent x ≠ Some q → same_links x x').

Lemma keeps_refl q s : keeps q s s.
Proof. intros a x Hx. exists x. by repeat split. Qed.

Lemma keeps_trans q s1 s2 s3 : keeps q s1 s2 → keeps q s2 s3 → keeps q s1 s3.
Proof.
  intros H1 H2 a x Hx. destruct (H1 a x Hx) as (y&Hy&(?&?&Ep&?)&Hc&Hl). destruct (H2 a y Hy) as (z&Hz&(?&?&?&?)&Hc'&Hl').
  exists z. split; [done|]. split; [by split_and!; etrans|]. split.
  - intros Ha. destruct (Hc Ha), (Hc' Ha). by split; etrans.
  - intros Hp. destruct (Hl Hp) as (?&?&?). destruct Hl' as (?&?&?); [by rewrite Ep|]. by split_and!; etrans.
Qed.

(** The list of sub tags of [d] is the same when its tags and their links are. *)
Lemma sub_tags_same s s' d ks :
  sub_tags (see s) d ks →
  (∀ k x, k ∈ addrs ks → nodes s !! k = Some x → ∃ x', nodes s' !! k = Some x' ∧
     name x' = name x ∧ off x' = off x ∧ parent x' = parent x ∧ same_links x x') →
  (∀ x, nodes s !! d = Some x → ∃ x', nodes s' !! d = Some x' ∧ child x' = child x) →
  sub_tags (see s') d ks.
Proof.
  intros H Hk Hd. pose proof (st_nodes _ _ _ H) as Hn. rewrite Forall_forall in Hn.
  assert (∀ k, k ∈ addrs ks → ∃ x x', nodes s !! k = Some x ∧ nodes s' !! k = Some x' ∧
    name x' = name x ∧ off x' = off x ∧ parent x' = parent x ∧ same_links x x') as Hall.
  { intros k Hin. pose proof Hin as (j&->&Hj)%list_elem_of_fmap. destruct (Hn j Hj) as (c&Hc&_).
    apply see_at in Hc as (x&Hx&_). destruct (Hk _ x Hin Hx) as (x'&?&?). by exists x, x'. }
  assert (∀ ks', ks' `sublist_of` ks → ∀ k, k ∈ addrs ks' → k ∈ addrs ks) as Hsub.
  { intros ks' Hs k Hin. eapply elem_of_sublist; [exact Hin|by apply sublist_addrs]. }
  split.
  - apply H.
  - apply Forall_forall. intros j Hj. destruct (Hn j Hj) as (c&Hc&Hc1&Hc2&Hc3).
    apply see_at in Hc as (x&Hx&->&_). destruct (Hk (k_addr j) x) as (x'&Hx'&?&?&?&_); [by apply list_elem_of_fmap_2|done|].
    exists (content x'). split; [by apply see_nodes|]. cbn in *. split_and!; congruence.
  - pose proof (st_child _ _ _ H) as Hc. cbn in Hc |- *. rewrite lookup_fmap in Hc |- *.
    destruct (nodes s !! d) as [x|]; [|done]. destruct (Hd x eq_refl) as (x'&->&E). cbn in *. by rewrite E.
  - apply (chain_agree (vo (see s))); [apply H|]. intros k Hin. destruct (Hall k Hin) as (x&x'&Hx&Hx'&_&_&_&_&_&E).
    cbn. rewrite !lookup_fmap, Hx, Hx'. cbn. by rewrite E.
  - apply (chain_agree (vs (see s))); [apply H|]. intros k Hin. apply (Hsub _ (firsts_sublist ks)) in Hin.
    destruct (Hall k Hin) as (x&x'&Hx&Hx'&_&_&_&_&E&_). cbn. rewrite !lookup_fmap, Hx, Hx'. cbn. by rewrite E.
  - intros n. apply (chain_agree (vn (see s))); [apply H|]. intros k Hin. apply (Hsub _ (named_sublist n ks)) in Hin.
    destruct (Hall k Hin) as (x&x'&Hx&Hx'&_&_&_&E&_). cbn. rewrite !lookup_fmap, Hx, Hx'. cbn. by rewrite E.
  - apply H.
Qed.

(** A tag among the sub tags has its parent. *)
Lemma sub_tags_parent s d ks k x :
  sub_tags (see s) d ks → k ∈ addrs ks → nodes s !! k = Some x → parent x = Some d.
Proof.
  intros H (j&->&Hj)%list_elem_of_fmap Hx. pose proof (st_nodes _ _ _ H) as Hn. rewrite Forall_forall in Hn.
  destruct (Hn j Hj) as (c&Hc&_&_&Hp). apply see_at in Hc as (y&Hy&->&_). by simplify_eq/=.
Qed.

Lemma sub_tags_keeps q s s' d ks : keeps q s s' → d ≠ q → sub_tags (see s) d ks → sub_tags (see s') d ks.
Proof.
  intros Hk Hd H. apply (sub_tags_same s); [done| |].
  - intros k x Hin Hx. destruct (Hk k x Hx) as (x'&Hx'&(?&?&?&?)&_&Hl). exists x'. split_and!; try done.
    apply Hl. rewrite (sub_tags_parent s d ks k x) by done. congruence.
  - intros x Hx. destruct (Hk d x Hx) as (x'&Hx'&_&Hc&_). exists x'. split; [done|]. by apply Hc.
Qed.

Lemma rep_keeps q s s' ks f al : keeps q s s' → q ∉ al → rep s ks f al → rep s' ks f al.
Proof.
  intros Hk. revert ks al. induction f as [|o n a t kids IHk rest IHr]; intros [|k ks] al Hq; try done.
  cbn [rep]. intros (Hn&Ho&x&ks2&al1&al2&Hx&Ha&Ht&->&Hs&Hkids&Hrest).
  apply not_elem_of_cons in Hq as [Hqk Hq]. apply not_elem_of_app in Hq as [Hq1 Hq2].
  split; [done|]. split; [done|]. destruct (Hk _ _ Hx) as (x'&Hx'&(?&?&?&Ea)&Hc&_). destruct Hc as [Et _]; [done|].
  exists x', ks2, al1, al2. split; [done|]. rewrite Ea, Et. split_and!; try done.
  - by eapply sub_tags_keeps.
  - by apply IHk.
  - by apply IHr.
Qed.

(** ** The steps *)

(** The store where [T] was added to the text of [q]. *)
Definition with_text (q : addr) (x : ezxml) (T : str) (fl : Z) (s : store) : store :=
  set_nodes (<[q := set_flags fl (set_text (txt x ++ T) x)]> (nodes s)) s.

Lemma with_text_nil s q x : nodes s !! q = Some x → with_text q x [] (flags x) s = s.
Proof.
  intros Hx. unfold with_text. rewrite app_nil_r.
  assert (set_flags (flags x) (set_text (txt x) x) = x) as -> by (by destruct x).
  rewrite insert_id by done. by destruct s.
Qed.

Section WithText.
Context (s : store) (q : addr) (x : ezxml) (T : str) (fl : Z) (Hx : nodes s !! q = Some x).

Lemma with_text_at a y :
  nodes s !! a = Some y → ∃ y', nodes (with_text q x T fl s) !! a = Some y' ∧ same_tag y y' ∧ same_links y y' ∧
    child y' = child y ∧ (a ≠ q → txt y' = txt y).
Proof using Hx.
  intros Hy. destruct (decide (a = q)) as [->|Ha].
  - simplify_eq. eexists. split; [apply lookup_insert_eq|]. by split_and!.
  - exists y. split; [by cbn; rewrite lookup_insert_ne|]. by split_and!.
Qed.

Lemma with_text_keeps : keeps q s (with_text q x T fl s).
Proof using Hx. intros a y Hy. destruct (with_text_at a y Hy) as (y'&?&?&?&?&?). exists y'. split_and!; auto. Qed.

Lemma with_text_sub_tags d ks : sub_tags (see s) d ks → sub_tags (see (with_text q x T fl s)) d ks.
Proof using Hx.
  intros H. apply (sub_tags_same s); [done| |].
  - intros k y _ Hy. destruct (with_text_at k y Hy) as (y'&?&(?&?&?&_)&?&_). by exists y'.
  - intros y Hy. destruct (with_text_at d y Hy) as (y'&?&_&_&?&_). by exists y'.
Qed.

Lemma with_text_wf : wf_store s → wf_store (with_text q x T fl s).
Proof using Hx.
  intros Hwf a y Hy. destruct (decide (a = q)) as [->|Ha].
  - cbn in Hy. rewrite lookup_insert_eq in Hy. injection Hy as <-. exact (Hwf q x Hx).
  - cbn in Hy. rewrite lookup_insert_ne in Hy by done. exact (Hwf a y Hy).
Qed.
End WithText.

Lemma kept_false (s : str) : kept false <$> s = s.
Proof. induction s as [|c s IH]; [done|]. rewrite fmap_cons. by rewrite IH. Qed.

Section Steps.
Context (k : nat) (root : addr).

(** Content that was decoded is added to the text of the current tag. *)
Lemma char_content_decoded s r q x t c T past m :
  roots s !! root = Some r → cur r = Some q → nodes s !! q = Some x → name x ≠ None → c ≠ [] →
  ezxml_decode k (ent r) t c = Some (Decoded T past m) →
  ∃ fl, ezxml_char_content k s root t c = Some (with_text q x T fl s, past).
Proof using.
  intros Hr Hq Hx Hn Hc Ed. unfold ezxml_char_content. rewrite Hr. cbn [mbind option_bind]. rewrite Hq, Hx. cbn [mbind option_bind].
  destruct (name x) as [n|]; [|done]. destruct c as [|c0 c]; [done|]. rewrite Ed. cbn [mbind option_bind d_text d_alloc d_past].
  unfold upd. rewrite Hx. cbn [mbind option_bind].
  assert (∀ f, ezxml_set_flag (set_nodes (<[q:=set_text (txt x ++ T) x]> (nodes s)) s) (Some q) f
    = Some (with_text q x T (Z.lor (flags x) f) s)) as Hf.
  { intros f. unfold ezxml_set_flag, upd. cbn [nodes set_nodes]. rewrite lookup_insert_eq. cbn [mbind option_bind].
    unfold with_text, set_nodes. cbn [nodes roots brk]. by rewrite insert_insert_eq. }
  assert (set_nodes (<[q:=set_text (txt x ++ T) x]> (nodes s)) s = with_text q x T (flags x) s) as Hw.
  { unfold with_text. by destruct x. }
  rewrite Hf, Hw. destruct (txt x) as [|? ?], m; by eexists.
Qed.

Lemma char_content_step s r q x T :
  roots s !! root = Some r → cur r = Some q → ent r = default_ents → nodes s !! q = Some x → name x ≠ None →
  (2 * length T < k)%nat →
  ∃ fl, ezxml_char_content k s root Content (ezxml_ampencode false None T) = Some (with_text q x T fl s, false).
Proof using.
  intros Hr Hq He Hx Hn Hk. destruct (decide (ezxml_ampencode false None T = [])) as [E|E].
  - exists (flags x). apply ampencode_nil in E as ->. rewrite with_text_nil by done. unfold ezxml_char_content. rewrite Hr.
    cbn [mbind option_bind]. rewrite Hq, Hx. cbn [mbind option_bind]. by destruct (name x).
  - destruct (decode_ampencode k false T Hk) as (m&Ed). rewrite kept_false in Ed.
    apply (char_content_decoded s r q x Content _ T false m); try done. by rewrite He.
Qed.

(** Text and what follows it. *)
Lemma text_step rec s r q x T rest :
  roots s !! root = Some r → cur r = Some q → ent r = default_ents → nodes s !! q = Some x → name x ≠ None →
  (2 * length T < k)%nat →
  ∃ fl, after k root rec s (rangle :: ezxml_ampencode false None T ++ langle :: rest) = rec (with_text q x T fl s) rest.
Proof using.
  intros Hr Hq He Hx Hn Hk. destruct (after_text k root rec s T rest Hk) as [E|[-> E]]; rewrite E.
  - destruct (char_content_step s r q x T Hr Hq He Hx Hn Hk) as (fl&->). exists fl. by cbn [mbind option_bind run_on].
  - exists (flags x). by rewrite with_text_nil.
Qed.

Lemma touched_at s s' x d c h l a y :
  touched (see s) (see s') x d c h l → nodes s !! a = Some y → a ≠ x →
  ∃ y', nodes s' !! a = Some y' ∧ content y' = content y ∧ (a ≠ d → child y' = child y) ∧ (a ∉ l → same_links y y').
Proof using.
  intros Ht Hy Ha. pose proof (see_nodes _ _ _ Hy) as Hc.
  assert (vc (see s') !! a = Some (content y)) as Hc' by (rewrite (to_content _ _ _ _ _ _ _ Ht); by rewrite lookup_insert_ne).
  apply see_at in Hc as (y0&Hy0&_&N0&S0&O0&H0). rewrite Hy in Hy0. injection Hy0 as <-.
  apply see_at in Hc' as (y'&Hy'&Ec&N'&S'&O'&H'). exists y'. split; [done|]. split; [done|]. split.
  - intros Had. rewrite (to_child _ _ _ _ _ _ _ Ht), lookup_insert_ne in H' by done. congruence.
  - intros Hal. rewrite (to_next _ _ _ _ _ _ _ Ht) in N' by done. rewrite (to_sibling _ _ _ _ _ _ _ Ht) in S' by done.
    rewrite (to_ordered _ _ _ _ _ _ _ Ht) in O' by done. split_and!; congruence.
Qed.

Lemma content_fields y y' :
  content y' = content y → same_tag y y' ∧ txt y' = txt y.
Proof using. destruct y, y'. cbn. intros E. by simplify_eq/=. Qed.

Section Open.
Context (s : store) (r : ezxml_root) (q : addr) (x : ezxml) (m : str) (ks : list kid) (n : str) (a : list attribute).
Context (Hr : roots s !! root = Some r) (Hq : cur r = Some q) (Hx : nodes s !! q = Some x) (Hm : name x = Some m).
Context (Hs : sub_tags (see s) q ks) (Ho : Forall (λ k, k_off k ≤ length (txt x))%nat ks) (Hwf : wf_store s).

#[local] Abbreviation p := (brk s).
#[local] Abbreviation new_node := (Ezxml (Some n) [] [] 0 None None None None None 0).

(** [malloc] changes nothing that there was. *)
Lemma malloc_at b y : nodes s !! b = Some y → b ≠ p ∧ nodes (malloc new_node s).1 !! b = Some y.
Proof using Hwf.
  intros Hy. destruct (Hwf b y Hy) as [Hb _]. split; [lia|]. cbn. rewrite lookup_insert_ne by lia. done.
Qed.

Lemma add_child_step :
  ∃ s', ezxml_add_child s (Some q) n (length (txt x)) = Some (s', Some p) ∧
    sub_tags (see s') q (ks ++ [Kid p n (length (txt x))]) ∧
    touched (see (malloc new_node s).1) (see s') p q (content (detach (length (txt x)) q new_node))
      (head (addrs ks ++ [p])) (addrs ks).
Proof using Hx Hs Ho Hwf.
  destruct (malloc_at q x Hx) as [Hqp Hx1].
  assert (p ∉ addrs ks) as Hp.
  { intros (j&Ej&Hj)%list_elem_of_fmap. pose proof (st_nodes _ _ _ Hs) as Hn. rewrite Forall_forall in Hn.
    destruct (Hn j Hj) as (c&Hc&_). apply see_at in Hc as (y&Hy&_). apply Hwf in Hy as [Hy _]. lia. }
  unfold ezxml_add_child. destruct (malloc new_node s) as [s1 p'] eqn:E1. injection E1 as E1 <-. cbn [fst] in *.
  destruct (insert_links s1 p q new_node x (length (txt x)) n ks []) as (s2&E2&H2&Ht); rewrite ?app_nil_r; try done.
  - rewrite <-E1. cbn. by rewrite lookup_insert_eq.
  - apply (sub_tags_same s); [done| |].
    + intros b y _ Hy. exists y. split; [rewrite <-E1; by apply malloc_at in Hy as [_ Hy]|]. by split_and!.
    + intros y Hy. assert (y = x) as -> by congruence. by exists x.
  - intros j Hj Hlt. exfalso. rewrite Forall_forall in Ho. destruct ks as [|j0 ks']; [done|]. injection Hj as ->.
    specialize (Ho j ltac:(by left)). lia.
  - cbn beta iota zeta. rewrite E2. cbn [mbind option_bind]. exists s2. split; [done|]. split; [done|].
    by rewrite app_nil_r in Ht.
Qed.

Lemma open_tag_step :
  ∃ s', ezxml_open_tag s root n a = Some s' ∧ brk s' = S p ∧
    roots s' = <[root := set_cur (Some p) r]> (roots s) ∧ wf_store s' ∧ keeps q s s' ∧
    (∃ x', nodes s' !! q = Some x' ∧ txt x' = txt x) ∧
    (∃ y, nodes s' !! p = Some y ∧ name y = Some n ∧ attr y = a ∧ txt y = [] ∧ parent y = Some q) ∧
    sub_tags (see s') q (ks ++ [Kid p n (length (txt x))]) ∧ sub_tags (see s') p [] ∧
    (∀ b z, nodes s' !! b = Some z → b = p ∨ ∃ z0, nodes s !! b = Some z0).
Proof using All.
  destruct add_child_step as (s2&E2&H2&Ht). destruct (malloc_at q x Hx) as [Hqp Hx1].
  unfold ezxml_open_tag. rewrite Hr. cbn [mbind option_bind]. rewrite Hq. cbn [mbind option_bind].
  rewrite Hx. cbn [mbind option_bind]. rewrite Hm, E2. cbn [mbind option_bind].
  assert (vc (see s2) !! p = Some (content (detach (length (txt x)) q new_node))) as Hp2.
  { rewrite (to_content _ _ _ _ _ _ _ Ht). by rewrite lookup_insert_eq. }
  apply see_at in Hp2 as (y&Hy&Ey&_&_&_&Hyc). rewrite (to_child _ _ _ _ _ _ _ Ht), lookup_insert_ne in Hyc by done.
  cbn in Hyc. rewrite lookup_fmap, lookup_insert_eq in Hyc. injection Hyc as Hyc.
  unfold upd. rewrite Hy. cbn [mbind option_bind]. unfold upd_root. cbn [roots set_nodes].
  pose proof (to_roots _ _ _ _ _ _ _ Ht) as Er. pose proof (to_brk _ _ _ _ _ _ _ Ht) as Eb. cbn in Er, Eb. rewrite Er, Hr.
  cbn [mbind option_bind]. eexists. split; [reflexivity|]. cbn [brk roots nodes set_nodes]. rewrite Eb.
  set (s' := Store _ _ _).
  assert (∀ b z, b ≠ p → nodes s !! b = Some z → ∃ z', nodes s' !! b = Some z' ∧ content z' = content z ∧
    (b ≠ q → child z' = child z) ∧ (b ∉ addrs ks → same_links z z')) as Hold.
  { intros b z Hb Hz. apply malloc_at in Hz as [_ Hz]. destruct (touched_at _ _ _ _ _ _ _ b z Ht Hz Hb) as (z'&?&?).
    exists z'. split; [|done]. subst s'. cbn. by rewrite lookup_insert_ne. }
  assert (sub_tags (see s2) q (ks ++ [Kid p n (length (txt x))]) → sub_tags (see s') q (ks ++ [Kid p n (length (txt x))])) as Hlast.
  { intros H. apply (sub_tags_same s2); [done| |].
    - intros b z _ Hz. subst s'. cbn. destruct (decide (b = p)) as [->|Hb].
      + rewrite Hy in Hz. injection Hz as <-. rewrite lookup_insert_eq. eexists. split; [done|]. by split_and!.
      + rewrite lookup_insert_ne by done. exists z. by split_and!.
    - intros z Hz. subst s'. cbn. rewrite lookup_insert_ne by done. by exists z. }
  split; [done|]. split; [done|]. split_and!.
  - intros b z Hz. subst s'. cbn in Hz |- *. destruct (decide (b = p)) as [->|Hb].
    + rewrite lookup_insert_eq in Hz. injection Hz as <-. split; [lia|]. cbn. intros d Hd.
      assert (parent y = Some q) as Ep by (by destruct y; simplify_eq/=). rewrite Ep in Hd. injection Hd as <-.
      destruct (Hwf q x Hx). lia.
    + rewrite lookup_insert_ne in Hz by done. apply see_nodes in Hz.
      rewrite (to_content _ _ _ _ _ _ _ Ht), lookup_insert_ne in Hz by done.
      apply see_at in Hz as (z0&Hz0&Ez&_). cbn in Hz0. rewrite lookup_insert_ne in Hz0 by done.
      destruct (Hwf b z0 Hz0) as [H1 Hpar]. split; [lia|]. intros d Hd.
      apply content_fields in Ez as [(_&_&Ep&_) _]. rewrite Ep in Hd. specialize (Hpar d Hd). lia.
  - intros b z Hz. pose proof Hz as [Hbp _]%malloc_at. destruct (Hold b z Hbp Hz) as (z'&Hz'&Ec&Hch&Hl).
    apply content_fields in Ec as [Etag Etxt]. exists z'. split; [done|]. split; [done|]. split; [by intros; split; auto|].
    intros Hpar. apply Hl. intros Hin. apply Hpar. exact (sub_tags_parent s q ks b z Hs Hin Hz).
  - destruct (Hold q x Hqp Hx) as (z'&Hz'&Ec&_). exists z'. split; [done|]. by apply content_fields in Ec as [_ ?].
  - subst s'. cbn. rewrite lookup_insert_eq. eexists. split; [done|]. by destruct y; simplify_eq/=.
  - by apply Hlast.
  - split; cbn [fmap list_fmap head firsts]; try constructor; try done. subst s'. cbn.
    rewrite lookup_fmap, lookup_insert_eq. cbn. by rewrite Hyc.
  - intros b z Hz. subst s'. cbn in Hz. destruct (decide (b = p)) as [->|Hb]; [by left|right].
    rewrite lookup_insert_ne in Hz by done. apply see_nodes in Hz.
    rewrite (to_content _ _ _ _ _ _ _ Ht), lookup_insert_ne in Hz by done.
    apply see_at in Hz as (z0&Hz0&_). cbn in Hz0. rewrite lookup_insert_ne in Hz0 by done. by exists z0.
Qed.
End Open.
End Steps.

(** ** The parser on printed text *)

(** The fuel of the texts is enough. *)
Fixpoint small (k : nat) (f : forest) : Prop :=
  match f with
  | Nil => True
  | Tag _ _ a t kids rest =>
      (2 * length t < k)%nat ∧ Forall (λ x, 2 * length x.2 < k)%nat a ∧ small k kids ∧ small k rest
  end.

Section Printed.
Context (k : nat) (root : addr) (e : Z).

Lemma print_attributes_start a rest :
  Forall attr_ok a → ∃ c l, print_attributes a ++ rangle :: rest = c :: l ∧ ws c || (c =? slash) || (c =? rangle) = true.
Proof using. destruct a as [|[n v] a]; intros _; [by exists rangle, rest|]. by eexists 32, _. Qed.

Lemma attributes_fuel a rest :
  Forall attr_ok a → (length a < S (length (span isspace (print_attributes a ++ rangle :: rest)).2))%nat.
Proof using.
  intros Ha. assert (2 * length a ≤ length (print_attributes a))%nat as H.
  { clear. induction a as [|[n v] a IH]; [simpl; lia|]. cbn [print_attributes]. unfold print_attr.
    rewrite !length_app. cbn [length]. lia. }
  destruct Ha as [|[n v] a (Hn&_) Ha]; [simpl; lia|]. destruct Hn as (_&_&Hn2). cbn [fst] in Hn2.
  destruct n as [|c n]; [done|]. cbn [print_attributes] in *. unfold print_attr in *. cbn [app span].
  change (isspace 32) with true. cbn iota. rewrite Hn2. cbn [app length snd] in *. rewrite !length_app in *. cbn [length] in *. lia.
Qed.

Lemma markup_new_tag st r q n a rest :
  roots st !! root = Some r → cur r = Some q → ent r = default_ents → dattr r = [] →
  tag_name n → Forall attr_ok a → Forall (λ x, 2 * length x.2 < k)%nat a →
  ∃ l, attr_pairs l = a ∧ markup k root e st (n ++ print_attributes a ++ rangle :: rest)
       = (st ← ezxml_open_tag st root n l; Some (Go st (rangle :: rest))).
Proof using.
  intros Hr Hq He Hd (Hn0&Hn1&Hn2) Ha Hk. destruct n as [|c n]; [done|].
  destruct (print_attributes_start a rest Ha) as (d&l0&El&Hd0).
  destruct (tag_attrs_printed k (S (length (span isspace (print_attributes a ++ rangle :: rest)).2)) a rest Ha) as (l&El2&Hl); [|done|].
  { by apply attributes_fuel. }
  exists l. split; [done|]. cbn [markup app]. rewrite Hn2.
  unfold new_tag. rewrite Hr. cbn [mbind option_bind]. rewrite Hq.
  change (c :: n ++ ?r) with ((c :: n) ++ r). rewrite El, (until_app _ (c :: n) d l0); [| |done].
  2: { eapply Forall_impl; [exact Hn1|]. intros b (H1&H2&H3). by rewrite H1, (proj2 (Z.eqb_neq b _) H2), (proj2 (Z.eqb_neq b _) H3). }
  cbn beta iota zeta. rewrite <-El, He, Hd. cbn [Ezxml.assoc default from_option]. rewrite El2. cbn [mbind option_bind].
  change (rangle =? slash) with false. done.
Qed.

(** A closing tag puts the parent back. *)
Definition close_cur (r : ezxml_root) (q : option addr) (s : store) : store :=
  Store (nodes s) (<[root := set_cur q r]> (roots s)) (brk s).

Lemma markup_close_tag st r p y n rest :
  roots st !! root = Some r → cur r = Some p → nodes st !! p = Some y → name y = Some n → tag_name n →
  (rest = [] → e = rangle) →
  markup k root e st (slash :: n ++ (match rest with [] => [] | _ => rangle :: tl rest end)) =
  Some (Go (close_cur r (parent y) st) (match rest with [] => [] | _ => rangle :: tl rest end)).
Proof using.
  intros Hr Hp Hy Hn (_&Hn1&_) He. cbn [markup]. change (name_start slash) with false.
  change (slash =? slash) with true. cbn iota. unfold close_tag.
  assert (Forall (λ c, ws c || (c =? rangle) = false) n) as Hw.
  { eapply Forall_impl; [exact Hn1|]. intros b (H1&_&H3). by rewrite H1, (proj2 (Z.eqb_neq b _) H3). }
  assert (until (λ c, ws c || (c =? rangle)) (n ++ (match rest with [] => [] | _ => rangle :: tl rest end))
          = (n, match rest with [] => [] | _ => rangle :: tl rest end)) as ->.
  { destruct rest as [|c rest]; [rewrite app_nil_r; by apply until_all|]. by apply until_app. }
  assert (ezxml_close_tag st root n = Some (close_cur r (parent y) st, true)) as Ec.
  { unfold ezxml_close_tag. rewrite Hr. cbn [mbind option_bind]. rewrite Hp. rewrite Hy. cbn [mbind option_bind].
    rewrite Hn, bool_decide_true by done. unfold upd_root. rewrite Hr. done. }
  destruct rest as [|c rest].
  - rewrite He by done. change (negb (rangle =? rangle)) with false. cbn iota. by rewrite Ec.
  - cbn iota. by rewrite Ec.
Qed.

(** What the parser does with a printed list of sub tags of [q]. *)
Record grown (s s' : store) (q : addr) (t : str) (ks ks' : list kid) (f : forest) (al : list addr) : Prop := {
  gr_wf : wf_store s';
  gr_roots : roots s' = roots s;
  gr_keeps : keeps q s s';
  gr_text : ∃ x, nodes s' !! q = Some x ∧ txt x = t;
  gr_sub : sub_tags (see s') q (ks ++ ks');
  gr_rep : rep s' ks' f al;
  gr_nodup : NoDup al;
  gr_fresh : Forall (λ a, brk s ≤ a < brk s')%nat al;
  gr_brk : (brk s ≤ brk s')%nat }.

Definition grows (f : forest) : Prop := ∀ t start s r q x m ks fuel rest,
  wf t start f → small k f → (2 * length t < k)%nat → (start ≤ length t)%nat →
  roots s !! root = Some r → cur r = Some q → ent r = default_ents → dattr r = [] →
  nodes s !! q = Some x → name x = Some m → txt x = take start t →
  sub_tags (see s) q ks → Forall (λ j, k_off j ≤ start)%nat ks → wf_store s →
  ∃ s' ks' al, after k root (parse_loop k root e (2 * tags f + fuel)) s (rangle :: print_forest t start f ++ langle :: rest)
               = parse_loop k root e fuel s' rest ∧ grown s s' q t ks ks' f al.

Lemma grows_nil : grows Nil.
Proof using.
  intros t start s r q x m ks fuel rest _ _ Hk Hst Hr Hq He Hd Hx Hm Ht Hs _ Hwf. cbn [print_forest tags Nat.mul Nat.add].
  destruct (text_step k root (parse_loop k root e fuel) s r q x (drop start t) rest) as (fl&E); try done; [congruence| |].
  { rewrite length_drop. lia. }
  exists (with_text q x (drop start t) fl s), [], []. split; [exact E|]. split; try done.
  - by apply with_text_wf.
  - by apply with_text_keeps.
  - eexists. split; [apply lookup_insert_eq|]. cbn. by rewrite Ht, take_drop.
  - rewrite app_nil_r. by apply with_text_sub_tags.
  - apply NoDup_nil_2.
Qed.

(** The tags that were there, while the new tag [p] under [q] is filled. *)
Lemma keeps_below q p s1 s2 s3 :
  (∀ a x, nodes s1 !! a = Some x → a ≠ p ∧ parent x ≠ Some p) → keeps q s1 s2 → keeps p s2 s3 → keeps q s1 s3.
Proof using.
  intros Hp H1 H2 a x Hx. destruct (Hp a x Hx) as [Hap Hpp].
  destruct (H1 a x Hx) as (y&Hy&(?&?&Ep&?)&Hc&Hl). destruct (H2 a y Hy) as (z&Hz&(?&?&?&?)&Hc'&Hl').
  destruct (Hc' Hap) as [Et Ech]. destruct Hl' as (?&?&?); [by rewrite Ep|].
  exists z. split; [done|]. split; [by split_and!; etrans|]. split.
  - intros Ha. destruct (Hc Ha). by split; etrans.
  - intros Hpar. destruct (Hl Hpar) as (?&?&?). by split_and!; etrans.
Qed.

Lemma keeps_nodes q s s' : nodes s' = nodes s → keeps q s s'.
Proof using. intros E a x Hx. exists x. rewrite E. by repeat split. Qed.

Lemma close_cur_roots r p q s s' :
  roots s !! root = Some r → cur r = Some q → roots s' = <[root := set_cur (Some p) r]> (roots s) →
  roots (close_cur (set_cur (Some p) r) (Some q) s') = roots s.
Proof using.
  intros Hr Hq E. unfold close_cur. cbn [roots]. rewrite E, insert_insert_eq. apply insert_id. rewrite Hr. f_equal.
  by destruct r; cbn in *; subst.
Qed.

(** The tag made next is not there yet, nor is it a parent. *)
Lemma brk_fresh s q x :
  wf_store s → nodes s !! q = Some x →
  q ≠ brk s ∧ ∀ b z, nodes s !! b = Some z → b ≠ brk s ∧ parent z ≠ Some (brk s).
Proof using.
  intros Hwf Hx. split; [destruct (Hwf q x Hx); lia|]. intros b z Hz. destruct (Hwf b z Hz) as [Hb Hpz].
  split; [lia|]. intros Hpar. specialize (Hpz _ Hpar). lia.
Qed.

(** A filled tag [p], closed, and the tags behind it. *)
Lemma grown_cons s s2 s3 s4 s5 q x p yp t ks ks3 ks5 o n a t' kids rest al1 al2 :
  wf_store s → nodes s !! q = Some x → p = brk s → q ≠ p → brk s2 = S p →
  grown s2 s3 p t' [] ks3 kids al1 → nodes s3 !! p = Some yp → attr_pairs (attr yp) = a →
  nodes s4 = nodes s3 → brk s4 = brk s3 → keeps q s s4 → roots s4 = roots s →
  grown s4 s5 q t (ks ++ [Kid p n o]) ks5 rest al2 →
  grown s s5 q t ks (Kid p n o :: ks5) (Tag o n a t' kids rest) (p :: al1 ++ al2).
Proof using.
  intros Hwf Hx Ep Hqp Hb2 [Hwf3 _ _ (yp'&Hyp'&Htp) Hsp3 Hrep3 Hnd3 Hfr3 Hb3] Hyp Hap En4 Eb4 Hks4 Hr4
    [Hwf5 Hr5 Hk5 Ht5 Hs5 Hrep5 Hnd5 Hfr5 Hb5].
  rewrite Hyp in Hyp'. injection Hyp' as <-. cbn [app] in Hsp3. rewrite Forall_forall in Hfr3, Hfr5.
  assert (q ∉ al1) as Hq1 by (intros Hin; specialize (Hfr3 q Hin); destruct (Hwf q x Hx); lia).
  split; try done.
  - by rewrite Hr5.
  - by eapply keeps_trans.
  - by rewrite <-app_assoc in Hs5.
  - cbn [rep]. split; [done|]. split; [done|].
    assert (nodes s4 !! p = Some yp) as Hyp4 by (by rewrite En4).
    destruct (Hk5 p yp Hyp4) as (y5&Hy5&(_&_&_&Ha5)&Hc5&_). destruct Hc5 as [Ht5' _]; [done|].
    exists y5, ks3, al1, al2. split; [done|]. split; [congruence|]. split; [congruence|]. split; [done|].
    split; [|split; [|done]].
    + apply (sub_tags_keeps q s4); [done|done|]. apply (sub_tags_keeps q s3); [by apply keeps_nodes|done|done].
    + apply (rep_keeps q s4); [done|done|]. apply (rep_keeps q s3); [by apply keeps_nodes|done|done].
  - apply NoDup_cons. split.
    + rewrite elem_of_app. intros [Hin|Hin]; [specialize (Hfr3 p Hin)|specialize (Hfr5 p Hin)]; lia.
    + apply NoDup_app. split_and!; [done| |done]. intros b Hi1 Hi2. specialize (Hfr3 b Hi1). specialize (Hfr5 b Hi2). lia.
  - rewrite Forall_forall. intros b [->|[Hin|Hin]%elem_of_app]%elem_of_cons;
      [|specialize (Hfr3 b Hin)|specialize (Hfr5 b Hin)]; lia.
  - lia.
Qed.

(** The printed tags, up to the first tag. *)
Lemma print_forest_tag t start o n a t' kids rest more :
  (start ≤ o ≤ length t)%nat →
  let T := take (o - start) (drop start t) in
  rangle :: print_forest t start (Tag o n a t' kids rest) ++ langle :: more =
    rangle :: ezxml_ampencode false None T ++ langle :: n ++ print_attributes a ++
      rangle :: print_forest t' 0 kids ++ langle :: slash :: n ++ rangle :: print_forest t o rest ++ langle :: more ∧
  take start t ++ T = take o t.
Proof using.
  intros Ho T. subst T. split.
  - cbn [print_forest]. rewrite <-!app_assoc. cbn [app]. done.
  - rewrite <-(take_drop start t) at 3. rewrite take_app_ge; rewrite length_take_le by lia; [|lia]. done.
Qed.

Lemma grows_tag o n a t' kids rest : grows kids → grows rest → grows (Tag o n a t' kids rest).
Proof using.
  intros IHk IHr t start s r q x m ks fuel more (Hso&Hn&Ha&Hnd&Ht'&Hwk&Hwr) (Hkt'&Hka&Hsk&Hsr) Hk Hst Hr Hq He Hd Hx Hm Ht Hs Hko Hwf.
  (* the text before the tag *)
  set (T := take (o - start) (drop start t)).
  set (more2 := n ++ rangle :: print_forest t o rest ++ langle :: more).
  set (more1 := n ++ print_attributes a ++ rangle :: print_forest t' 0 kids ++ langle :: slash :: more2).
  destruct (print_forest_tag t start o n a t' kids rest more ltac:(lia)) as [-> HT]. fold T more2 more1 in HT |- *.
  replace (2 * tags (Tag o n a t' kids rest) + fuel)%nat with (S (2 * tags kids + S (2 * tags rest + fuel)))
    by (cbn [tags]; lia).
  destruct (text_step k root (parse_loop k root e (S (2 * tags kids + S (2 * tags rest + fuel)))) s r q x T more1) as (fl&E);
    try done; [congruence|subst T; rewrite length_take, length_drop; lia|].
  rewrite E. clear E. set (s1 := with_text q x T fl s).
  set (x1 := set_flags fl (set_text (txt x ++ T) x)).
  assert (nodes s1 !! q = Some x1) as Hx1 by apply lookup_insert_eq.
  assert (txt x1 = take o t) as Htx1 by (by cbn; rewrite Ht).
  (* the tag *)
  destruct (markup_new_tag s1 r q n a (print_forest t' 0 kids ++ langle :: slash :: more2)) as (l&Hl&Em); try done.
  cbn [parse_loop]. subst more1. rewrite Em. clear Em.
  destruct (open_tag_step k root s1 r q x1 m ks n l) as (s2&E2&Hb2&Hr2&Hwf2&Hk2&(xq&Hxq&Htq)&(y&Hy&Hny&Hay&Hty&Hpy)&Hs2&Hsp&_); try done.
  { by apply with_text_sub_tags. }
  { rewrite Htx1, length_take_le by lia. eapply Forall_impl; [exact Hko|]. cbn. intros j Hj. lia. }
  { by apply with_text_wf. }
  rewrite E2. cbn [mbind option_bind]. set (p := brk s1) in *. set (r2 := set_cur (Some p) r) in *.
  rewrite Htx1, length_take_le in Hs2 by lia.
  assert (keeps q s s1) as Hk1 by (by apply with_text_keeps).
  destruct (brk_fresh s q x Hwf Hx) as [Hqp Hold]. change (brk s) with p in Hqp, Hold.
  (* what is inside *)
  destruct (IHk t' 0%nat s2 r2 p y n [] (S (2 * tags rest + fuel)) (slash :: more2)) as (s3&ks3&al1&E3&G3); try done.
  { lia. }
  { by rewrite Hr2, lookup_insert_eq. }
  rewrite E3. clear E3. pose proof G3 as [Hwf3 Hr3 Hk3 (yp&Hyp&_) _ _ _ _ _].
  destruct (Hk3 p y Hy) as (yp'&Hyp'&(Hnp&_&Hpp&Hap)&_). rewrite Hyp in Hyp'. injection Hyp' as <-.
  (* the closing tag *)
  cbn [parse_loop]. subst more2.
  pose proof (markup_close_tag s3 r2 p yp n (rangle :: print_forest t o rest ++ langle :: more)) as Ec.
  cbn [tl] in Ec. rewrite Ec; [|by rewrite Hr3, Hr2, lookup_insert_eq|done|done|congruence|done|done]. clear Ec.
  cbn [mbind option_bind]. rewrite Hpp, Hpy. set (s4 := close_cur r2 (Some q) s3).
  assert (roots s4 = roots s) as Hr4.
  { apply (close_cur_roots r p q s1 s3); [done|done|by rewrite Hr3]. }
  assert (keeps q s s4) as Hks4.
  { eapply keeps_trans; [|apply (keeps_nodes q s3); done]. eapply keeps_below; [exact Hold| |exact Hk3].
    by eapply keeps_trans. }
  destruct (Hks4 q x Hx) as (x4&Hx4&(Hn4&_)&_).
  destruct (IHr t o s4 r q x4 m (ks ++ [Kid p n o]) fuel more) as (s5&ks5&al2&E5&G5); try done.
  { lia. }
  { by rewrite Hr4. }
  { congruence. }
  { destruct (Hk3 q xq Hxq) as (x4'&Hx4'&_&Hc&_). destruct (Hc Hqp) as [Hc' _].
    assert (x4' = x4) as -> by (unfold s4, close_cur in Hx4; cbn in Hx4; congruence). congruence. }
  { apply (sub_tags_keeps p s2); [|done|done]. eapply keeps_trans; [exact Hk3|]. by apply keeps_nodes. }
  { apply Forall_app. split; [|by repeat constructor]. eapply Forall_impl; [exact Hko|]. cbn. intros j Hj. lia. }
  exists s5, (Kid p n o :: ks5), (p :: al1 ++ al2). split; [exact E5|].
  eapply (grown_cons s s2 s3 s4 s5 q x p yp); try done. congruence.
Qed.

Lemma parse_forest f : grows f.
Proof using. induction f as [|o n a t kids IHk rest IHr]; [apply grows_nil|by apply grows_tag]. Qed.
End Printed.

(** ** Whole documents *)

(** The text of a document without instructions and document type. *)
Definition print_document (n : str) (a : list (str * str)) (t : str) (f : forest) : str :=
  langle :: n ++ print_attributes a ++ rangle :: print_forest t 0 f ++ langle :: slash :: n ++ [rangle].

(** The root tag [p] of the store with what is below it. *)
Record document (s : store) (p : addr) (n : str) (a : list (str * str)) (t : str) (f : forest) : Prop := {
  doc_tag : ∃ x ks al, nodes s !! p = Some x ∧ name x = Some n ∧ attr_pairs (attr x) = a ∧ txt x = t ∧
    parent x = None ∧ ordered x = None ∧ off x = O ∧ sub_tags (see s) p ks ∧ rep s ks f al ∧ NoDup (p :: al);
  doc_root : ∃ r, roots s !! p = Some r ∧ pi r = [] ∧ dattr r = [] ∧ err r = None }.

(** What the parser reads back as it is. *)
Definition wf_document (n : str) (a : list (str * str)) (t : str) (f : forest) : Prop :=
  tag_name n ∧ Forall attr_ok a ∧ NoDup a.*1 ∧ plain t ∧ wf t 0 f.

Lemma print_attrs_pairs l : NoDup (attr_pairs l).*1 → print_attrs l = print_attributes (attr_pairs l).
Proof.
  intros Hnd. unfold print_attrs.
  assert (∀ l0 l1, l = l0 ++ l1 → mjoin (imap (λ i a, if is_found l (length l0 + i) a then print_attr (at_name a) (at_text a) else []) l1)
          = print_attributes (attr_pairs l1)) as H; [|exact (H [] l eq_refl)].
  intros l0 l1. revert l0. induction l1 as [|a l1 IH]; intros l0 El; [done|].
  cbn [imap mjoin list_join attr_pairs fmap list_fmap print_attributes]. f_equal.
  - assert (is_found l (length l0 + 0) a = true) as ->; [|done]. unfold is_found.
    destruct (list_find_Some (λ b, at_name b = at_name a) l (length l0) a) as [_ Hf].
    rewrite Hf; [by rewrite Nat.add_0_r, Nat.eqb_refl|]. clear Hf. subst l. split_and!.
    + by rewrite lookup_app_r, Nat.sub_diag.
    + done.
    + intros j y Hj Hlt Hy. rewrite lookup_app_l in Hj by done.
      unfold attr_pairs in Hnd. rewrite <-list_fmap_compose in Hnd.
      assert (j = length l0); [|lia]. eapply NoDup_lookup; [exact Hnd| |]; rewrite list_lookup_fmap.
      * rewrite lookup_app_l by done. by rewrite Hj.
      * rewrite lookup_app_r, Nat.sub_diag by done. cbn. by rewrite Hy.
  - etrans; [|apply (IH (l0 ++ [a])); by rewrite <-app_assoc]. f_equal. apply imap_ext. intros i y _. cbn.
    rewrite length_app. cbn. by rewrite <-Nat.add_assoc.
Qed.

Lemma rep_length s ks f al : rep s ks f al → length al = tags f ∧ Forall (λ a, a ∈ dom (nodes s)) al.
Proof.
  revert ks al. induction f as [|o n a t kids IHk rest IHr]; intros [|k ks] al; try done; cbn [rep].
  - by intros ->.
  - intros (_&_&x&ks2&al1&al2&Hx&_&_&->&_&H1&H2). destruct (IHk _ _ H1), (IHr _ _ H2). cbn [length tags].
    rewrite length_app. split; [lia|]. constructor; [by apply elem_of_dom_2 in Hx|]. by apply Forall_app.
Qed.

Lemma rep_head s ks f al : rep s ks f al → (ks = [] ↔ f = Nil).
Proof. destruct f, ks; cbn; try done. Qed.

(** [ezxml_toxml_r] prints the sub tags of [q], from one of them on. *)
Lemma toxml_rep s f : ∀ n q xq t pre ks start al,
  rep s ks f al → sub_tags (see s) q (pre ++ ks) → nodes s !! q = Some xq → txt xq = t → wf t start f →
  (tags f < n)%nat →
  match ks with
  | [] => True
  | k :: _ => ezxml_toxml_r n s (k_addr k) start [] = Some (print_forest t start f)
  end.
Proof.
  induction f as [|o m a t' kids IHk rest IHr]; intros n q xq t pre [|k ks] start al Hrep Hs Hq Ht Hwf Hn; try done.
  destruct n as [|n]; [lia|]. cbn [tags] in Hn. cbn [rep] in Hrep.
  destruct Hrep as (Hkn&Hko&x&ks2&al1&al2&Hx&Ha&Htx&->&Hsx&Hkids&Hrest).
  destruct Hwf as (Hso&Hm&Hat&Hnd&Ht'&Hwk&Hwr).
  assert (k_addr k ∈ addrs (pre ++ k :: ks)) as Hin.
  { apply list_elem_of_fmap_2, elem_of_app. right. by left. }
  pose proof (sub_tags_parent _ _ _ _ _ Hs Hin Hx) as Hpar.
  assert (name x = Some m ∧ off x = o) as [Hnx Hox].
  { pose proof (st_nodes _ _ _ Hs) as H. rewrite Forall_app in H. destruct H as [_ H].
    apply Forall_inv in H as (c&Hc&Hc1&Hc2&_). apply see_at in Hc as (x'&Hx'&->&_). cbn in Hc1, Hc2. simplify_eq. by subst. }
  assert (ordered x = head (addrs ks)) as Hord.
  { pose proof (st_ordered _ _ _ Hs) as H. rewrite fmap_app in H. apply chain_at in H. cbn in H.
    rewrite lookup_fmap, Hx in H. by injection H. }
  assert (child x = head (addrs ks2)) as Hch.
  { pose proof (st_child _ _ _ Hsx) as H. cbn in H. rewrite lookup_fmap, Hx in H. by injection H. }
  cbn [ezxml_toxml_r]. rewrite Hx. cbn [mbind option_bind]. rewrite Hpar, Hq. cbn [fmap option_fmap option_map mbind option_bind].
  rewrite Hnx. cbn [mbind option_bind Ezxml.assoc default from_option filter list_filter]. rewrite Ht.
  assert (match child x with
          | Some c => ezxml_toxml_r n s c 0 []
          | None => Some (ezxml_ampencode false None (txt x))
          end = Some (print_forest t' 0 kids)) as ->.
  { rewrite Hch. specialize (IHk n (k_addr k) x t' [] ks2 O al1 Hkids Hsx Hx Htx Hwk ltac:(lia)).
    destruct ks2 as [|k2 ks2]; [|done]. assert (kids = Nil) as -> by (by apply (rep_head s [] kids al1)).
    cbn. by rewrite Htx, drop_0. }
  cbn [mbind option_bind]. rewrite Hox, Hord. replace (o `min` length t)%nat with o by lia.
  assert (match head (addrs ks) with
          | Some c => ezxml_toxml_r n s c o []
          | None => Some (ezxml_ampencode false None (drop o t))
          end = Some (print_forest t o rest)) as ->.
  { specialize (IHr n q xq t (pre ++ [k]) ks o al2 Hrest). rewrite <-app_assoc in IHr.
    specialize (IHr Hs Hq Ht Hwr ltac:(lia)). destruct ks as [|k2 ks]; [|done].
    by assert (rest = Nil) as -> by (by apply (rep_head s [] rest al2)). }
  cbn [mbind option_bind]. f_equal. cbn [print_forest]. rewrite print_attrs_pairs by (by rewrite Ha). rewrite Ha.
  unfold segment. rewrite (proj2 (Nat.leb_le start o)) by lia. unfold ezxml_ampencode at 1.
  cbn [print_defaults imap mjoin list_join]. rewrite <-!app_assoc. by cbn [app].
Qed.

Lemma toxml_document s p n a t f :
  document s p n a t f → wf_document n a t f → ezxml_toxml s (Some p) = Some (print_document n a t f).
Proof.
  intros [(x&ks&al&Hx&Hn&Ha&Ht&Hp&Ho&Hoff&Hs&Hrep&Hnd) (r&Hr&Hpi&Hda&_)] (Hwn&Hwa&Hwnd&Hwt&Hwf).
  unfold ezxml_toxml. rewrite Hx. cbn [mbind option_bind]. rewrite Hn.
  assert (root_data s p = Some r) as ->.
  { unfold root_data, root_of, fuel_of. cbn [root_loop]. rewrite Hx. cbn [mbind option_bind]. rewrite Hp. cbn [mbind option_bind]. done. }
  cbn [mbind option_bind]. unfold upd. rewrite Hx. cbn [mbind option_bind].
  assert (Ezxml (name x) (attr x) (txt x) (off x) (next x) (sibling x) None (child x) None (flags x) = x) as ->.
  { destruct x. cbn in *. by subst. }
  rewrite insert_id by done. assert (set_nodes (nodes s) s = s) as -> by by destruct s.
  destruct (rep_length s ks f al Hrep) as [Hlen Hdom].
  assert (length (p :: al) < fuel_of s)%nat as Hfuel.
  { apply fuel_enough; [done|]. constructor; [by apply elem_of_dom_2 in Hx|done]. }
  cbn [length] in Hfuel. destruct (fuel_of s) as [|n'] eqn:Ef; [lia|]. cbn [ezxml_toxml_r].
  rewrite Hx. cbn [mbind option_bind]. rewrite Hp. cbn [mbind option_bind]. rewrite Hn, Hda. cbn [mbind option_bind Ezxml.assoc default from_option filter list_filter].
  assert (child x = head (addrs ks)) as ->.
  { pose proof (st_child _ _ _ Hs) as H. cbn in H. rewrite lookup_fmap, Hx in H. by injection H. }
  assert (match head (addrs ks) with
          | Some c => ezxml_toxml_r n' s c 0 []
          | None => Some (ezxml_ampencode false None (txt x))
          end = Some (print_forest t 0 f)) as ->.
  { pose proof (toxml_rep s f n' p x t [] ks O al Hrep Hs Hx Ht Hwf ltac:(lia)) as H.
    destruct ks as [|k ks]; [|done]. assert (f = Nil) as -> by (by apply (rep_head s [] f al)). cbn. by rewrite Ht, drop_0. }
  cbn [mbind option_bind]. rewrite Ho, Hpi, Hoff. unfold print_pis.
  cbn [mbind option_bind list_bind length Nat.min]. f_equal. rewrite print_attrs_pairs by (by rewrite Ha). rewrite Ha.
  cbn [print_defaults imap mjoin list_join]. unfold segment, print_document. cbn. by rewrite <-!app_assoc, ?app_nil_r.
Qed.

(** The length of what is printed. *)
Lemma print_forest_length t start f : (2 * tags f ≤ length (print_forest t start f))%nat.
Proof.
  revert t start. induction f as [|o n a t' kids IHk rest IHr]; intros t start; [cbn; lia|].
  cbn [print_forest tags]. rewrite !length_app. cbn [length]. specialize (IHk t' 0%nat). specialize (IHr t o). lia.
Qed.

Lemma plain_app s1 s2 : plain (s1 ++ s2) ↔ plain s1 ∧ plain s2.
Proof. apply Forall_app. Qed.
Lemma plain_ampencode a s : plain s → plain (ezxml_ampencode a None s).
Proof. intros H. destruct (ampencode_chars a s) as [_ Hp]. by apply Hp. Qed.

Lemma plain_attributes a : Forall attr_ok a → plain (print_attributes a).
Proof.
  induction 1 as [|[n v] a ((Hn&_)&Hv&_) _ IH]; [constructor|]. cbn [print_attributes]. unfold print_attr.
  repeat (apply plain_app; split); try done; try (by repeat constructor). by apply plain_ampencode.
Qed.

Lemma plain_forest t start f : plain t → wf t start f → plain (print_forest t start f).
Proof.
  revert t start. induction f as [|o n a t' kids IHk rest IHr]; intros t start Ht; cbn [print_forest wf].
  - intros _. apply plain_ampencode. by apply Forall_drop.
  - intros (_&Hn&Ha&_&Ht'&Hk&Hr). destruct Hn as (Hn&_).
    repeat (apply plain_app; split); try done; try (by repeat constructor); auto.
    + apply plain_ampencode. by apply Forall_take, Forall_drop.
    + by apply plain_attributes.
Qed.

(** The root tag after its opening tag. *)
Section Root.
Context (st : store) (n : str) (l : list attribute) (Hwf : wf_store st).
#[local] Abbreviation p := (brk st).
#[local] Abbreviation root_tag := (Ezxml (Some n) l [] 0 None None None None None 0).
#[local] Abbreviation root_record := (EzxmlRoot (Some p) default_ents [] [] false None).

Definition opened : store := Store (<[p := root_tag]> (nodes st)) (<[p := root_record]> (roots st)) (S p).

Lemma open_root : ezxml_open_tag (ezxml_new None st).1 p n l = Some opened.
Proof using.
  unfold ezxml_open_tag, ezxml_new, malloc, upd, upd_root, set_nodes. cbn [fst nodes roots brk].
  repeat (rewrite !lookup_insert_eq; cbn [mbind option_bind cur name nodes roots brk]).
  unfold opened. by rewrite !insert_insert_eq.
Qed.

Lemma opened_wf : wf_store opened.
Proof using Hwf.
  intros a x Hx. cbn in Hx |- *. destruct (decide (a = p)) as [->|Ha].
  - rewrite lookup_insert_eq in Hx. injection Hx as <-. split; [lia|done].
  - rewrite lookup_insert_ne in Hx by done. destruct (Hwf a x Hx) as [? Hp]. split; [lia|]. intros d Hd. specialize (Hp d Hd). lia.
Qed.

Lemma opened_sub_tags : sub_tags (see opened) p [].
Proof using.
  split; cbn [fmap list_fmap head firsts]; try constructor; try done. cbn. rewrite lookup_fmap, lookup_insert_eq. done.
Qed.
End Root.

(** The text of a document has no terminator, and ends in an angle. *)
Lemma print_document_text n a t f :
  wf_document n a t f →
  let body := n ++ print_attributes a ++ rangle :: print_forest t 0 f ++ langle :: slash :: n in
  print_document n a t f = (langle :: body) ++ [rangle] ∧ c_string (langle :: body) = langle :: body ∧
  ∃ extra, length body = (2 * tags f + S extra)%nat.
Proof.
  intros (Hn&Ha&Hnd&Ht&Hf) body. split; [|split].
  - unfold print_document. subst body. cbn [app]. f_equal. rewrite <-!app_assoc. cbn [app]. by rewrite <-!app_assoc.
  - unfold c_string. rewrite until_all; [done|].
    assert (plain (langle :: body)) as Hpl.
    { subst body. destruct Hn as (Hn0&_). apply (plain_app [langle]). split; [by repeat constructor|].
      repeat (apply plain_app; split); try done.
      - by apply plain_attributes.
      - apply (plain_app [rangle]). split; [by repeat constructor|]. apply plain_app. split; [by apply plain_forest|].
        apply (plain_app [langle; slash]). split; [by repeat constructor|done]. }
    eapply Forall_impl; [exact Hpl|]. intros c Hc. apply Z.eqb_neq. congruence.
  - pose proof (print_forest_length t 0 f). exists (length body - 2 * tags f - 1)%nat. subst body. rewrite !length_app. cbn [length].
    rewrite !length_app. cbn [length]. lia.
Qed.

(** The tags below the root, when the root is closed. *)
Lemma grown_document s s2 s3 p x n l t f ks al r :
  nodes s !! p = Some x → name x = Some n → attr x = l → off x = 0%nat → ordered x = None → parent x = None →
  (p < brk s)%nat → Forall (λ b, brk s ≤ b)%nat al → grown s s2 p t [] ks f al → nodes s3 = nodes s2 →
  roots s3 !! p = Some r → pi r = [] ∧ dattr r = [] ∧ err r = None →
  document s3 p n (attr_pairs l) t f.
Proof.
  intros Hx Hn Hl Ho Hor Hpar Hp Hal [Hwf2 Hr2 Hk2 (x2&Hx2&Ht2) Hs2 Hrep Hnd2 Hfr Hb2] En3 Hr3 Hdoc. split; [|by exists r].
  destruct (Hk2 p _ Hx) as (x2'&Hx2'&(Hn2&Ho2&Hp2&Ha2)&_&Hl2). rewrite Hx2 in Hx2'. injection Hx2' as <-.
  destruct Hl2 as (_&_&Hord); [by rewrite Hpar|].
  assert (keeps p s2 s3) as Hk3 by (by apply keeps_nodes).
  assert (p ∉ al) as Hpal by (intros Hin; rewrite Forall_forall in Hal; specialize (Hal p Hin); lia).
  exists x2, ks, al. split; [by rewrite En3|]. split_and!; try congruence.
  - apply (sub_tags_same s2); [done| |].
    + intros j y _ Hy. exists y. rewrite En3. by split_and!.
    + intros y Hy. exists y. by rewrite En3.
  - by apply (rep_keeps p s2).
  - by apply NoDup_cons.
Qed.

(** The parser on what was printed. *)
Lemma parse_document k st n a t f :
  wf_document n a t f → small k (Tag 0 n a t f Nil) → wf_store st →
  ∃ s', ezxml_parse_str k st (print_document n a t f) = Some (s', brk st) ∧ wf_store s' ∧ document s' (brk st) n a t f.
Proof.
  intros Hdoc (Hkt&Hka&Hkf&_) Hwf. set (p := brk st). destruct (print_document_text n a t f Hdoc) as (Etxt&Estr&extra&Ex).
  destruct Hdoc as (Hn&Ha&Hnd&Ht&Hf). unfold ezxml_parse_str. destruct (ezxml_new None st) as [st0 p'] eqn:E0.
  assert (p' = p ∧ st0 = (ezxml_new None st).1) as [-> Est0] by (rewrite E0; by injection E0 as _ <-).
  rewrite Etxt. set (body := n ++ _) in *. change (ezxml_str2utf8 ((langle :: body) ++ [rangle])) with (@None str). cbn [default from_option].
  rewrite last_snoc, removelast_last. cbn [mbind option_bind]. rewrite Estr.
  change ((until (Z.eqb langle) (langle :: body)).2) with (langle :: body). cbn iota.
  destruct ((langle :: body) ++ [rangle]) as [|d0 l0] eqn:Edoc; [done|]. clear Edoc d0 l0 Etxt Estr.
  rewrite Ex. cbn [parse_loop]. subst body.
  assert (roots st0 !! p = Some (EzxmlRoot (Some p) default_ents [] [] false None)) as Hr0.
  { rewrite Est0. cbn. by rewrite lookup_insert_eq. }
  destruct (markup_new_tag k p rangle st0 _ p n a (print_forest t 0 f ++ langle :: slash :: n) Hr0) as (l&Hl&Em); try done.
  rewrite Em. clear Em. rewrite Est0, open_root. cbn [mbind option_bind].
  assert (nodes (opened st n l) !! p = Some (Ezxml (Some n) l [] 0 None None None None None 0)) as Hx by apply lookup_insert_eq.
  assert (roots (opened st n l) !! p = Some (EzxmlRoot (Some p) default_ents [] [] false None)) as Hr by apply lookup_insert_eq.
  destruct (parse_forest k p rangle f t 0%nat (opened st n l) _ p _ n [] (S extra) (slash :: n) Hf Hkf Hkt ltac:(lia) Hr
    eq_refl eq_refl eq_refl Hx eq_refl) as (s2&ks&al&E2&G); try done.
  { apply opened_sub_tags. }
  { by apply opened_wf. }
  rewrite E2. clear E2. pose proof G as [Hwf2 Hr2 Hk2 (x2&Hx2&_) _ _ _ Hfr _].
  destruct (Hk2 p _ Hx) as (x2'&Hx2'&(Hn2&_&Hp2&_)&_). rewrite Hx2 in Hx2'. injection Hx2' as <-. cbn [parse_loop].
  pose proof (markup_close_tag k p rangle s2 (EzxmlRoot (Some p) default_ents [] [] false None) p x2 n []) as Ec.
  rewrite app_nil_r in Ec. rewrite Ec; [|by rewrite Hr2|done|done|done|done|done]. clear Ec.
  cbn [mbind option_bind after]. cbn in Hp2. rewrite Hp2.
  set (s3 := close_cur _ _ _ _). unfold finish.
  assert (roots s3 !! p = Some (EzxmlRoot None default_ents [] [] false None)) as Hr3 by apply lookup_insert_eq.
  rewrite Hr3. cbn [mbind option_bind cur]. exists s3. split; [done|]. split; [done|].
  rewrite <-Hl. eapply grown_document; [exact Hx|reflexivity..|cbn; lia| |exact G|reflexivity|exact Hr3|done].
  eapply Forall_impl; [exact Hfr|]. by intros b [? _].
Qed.

Lemma document_error s p n a t f : document s p n a t f → ezxml_error s (Some p) = Some None.
Proof.
  intros [(x&_&_&Hx&_&_&_&Hpar&_) (r&Hr&_&_&He)]. unfold ezxml_error, root_data, root_of, fuel_of.
  cbn [root_loop]. rewrite Hx. cbn [mbind option_bind]. rewrite Hpar. cbn [mbind option_bind]. rewrite Hr. cbn. by rewrite He.
Qed.

(** ** Finding tags *)

(** The tags of a chain, one after the other. *)
Fixpoint walk_next (n : nat) (s : store) (p : option addr) : option (list addr) :=
  match n with
  | O => None
  | S n =>
      match p with
      | None => Some []
      | Some a => q ← ezxml_next s p; l ← walk_next n s q; Some (a :: l)
      end
  end.

Lemma child_named s d ks n :
  sub_tags (see s) d ks → d ∈ dom (nodes s) → ezxml_child s (Some d) n = Some (head (addrs (named n ks))).
Proof.
  intros H [x Hx]%elem_of_dom. unfold ezxml_child. rewrite Hx. cbn [fmap option_fmap option_map mbind option_bind].
  pose proof (st_child _ _ _ H) as Hc. cbn in Hc. rewrite lookup_fmap, Hx in Hc. injection Hc as ->.
  pose proof (st_sibling _ _ _ H) as Hs. pose proof (known_of_sub_tags _ _ _ H) as Hk.
  assert (NoDup (addrs (firsts ks))) as Hnd.
  { eapply sublist_NoDup; [apply (st_nodup _ _ _ H)|]. apply sublist_addrs, firsts_sublist. }
  assert (known s (firsts ks)) as Hkf by (eapply known_sublist; [apply firsts_sublist|done]).
  destruct ks as [|k0 ks']; [by cbn|].
  change (head (addrs (k0 :: ks'))) with (Some (k_addr k0)) in *.
  destruct (firsts_split n (k0 :: ks')) as [[En Ef]|(c&r&f1&f2&En&Hcn&Ef&Ff1&Ff2)].
  - pose proof (seek_name n s (k_addr k0) (firsts (k0 :: ks')) []) as Hsk. rewrite app_nil_r in Hsk.
    rewrite Hsk by (done || constructor). rewrite En. done.
  - rewrite Ef in Hs, Hnd, Hkf. rewrite (seek_name n s (k_addr k0) f1 (c :: f2)) by (done || by repeat constructor).
    rewrite En. done.
Qed.

Lemma next_named s d ks n i k :
  sub_tags (see s) d ks → named n ks !! i = Some k →
  ezxml_next s (Some (k_addr k)) = Some (k_addr <$> named n ks !! S i).
Proof.
  intros H Hi. pose proof (st_next _ _ _ H n) as Hc.
  rewrite <-(take_drop_middle (named n ks) i k Hi), fmap_app in Hc. cbn [fmap list_fmap] in Hc. apply chain_at in Hc.
  cbn in Hc. rewrite lookup_fmap in Hc. unfold ezxml_next. destruct (nodes s !! k_addr k) as [x|]; [|done].
  cbn in Hc |- *. injection Hc as ->. f_equal. rewrite head_lookup, list_lookup_fmap, lookup_drop. by rewrite Nat.add_0_r.
Qed.

(** C28: The tags of a name are found, in their order.  When the links below a tag are
    those of a list of sub tags, [ezxml_child] gives the first sub tag of a name, or
    NULL, [ezxml_next] leads from each to the next of that name, and so
    [ezxml_idx] gives the [i]-th, and NULL behind the last. *)
Theorem child_next_enumerate s d ks n :
  sub_tags (see s) d ks → d ∈ dom (nodes s) →
  ∃ c, ezxml_child s (Some d) n = Some c ∧
    (∀ i, ezxml_idx s c (Z.of_nat i) = Some (k_addr <$> named n ks !! i)) ∧
    walk_next (fuel_of s) s c = Some (addrs (named n ks)).
Proof.
  intros H Hd. exists (head (addrs (named n ks))). split; [by apply child_named|].
  assert (length (named n ks) < fuel_of s)%nat as Hlen.
  { eapply known_fuel; [|eapply known_sublist; [apply named_sublist|by eapply known_of_sub_tags]].
    eapply sublist_NoDup; [apply (st_nodup _ _ _ H)|]. apply sublist_addrs, named_sublist. }
  set (l := named n ks) in *. split.
  - intros i. unfold ezxml_idx.
    assert (∀ fuel j, length l - j < fuel → (j ≤ length l) → ∀ i, idx_loop fuel s (k_addr <$> l !! j) (Z.of_nat i) = Some (k_addr <$> l !! (j + i)))%nat as Hloop.
    { induction fuel as [|fuel IH]; intros j Hf Hj i'; [lia|]. cbn [idx_loop]. destruct (l !! j) as [k|] eqn:Ek.
      - cbn [fmap option_fmap option_map]. destruct i' as [|i']; [by rewrite Nat.add_0_r, Ek|].
        rewrite (proj2 (Z.eqb_neq _ 0)) by lia. rewrite (next_named s d ks n j k H Ek). cbn [mbind option_bind].
        replace (Z.of_nat (S i') - 1) with (Z.of_nat i') by lia.
        assert (j < length l)%nat by (by apply lookup_lt_Some in Ek). rewrite IH by lia. do 3 f_equal. lia.
      - apply lookup_ge_None in Ek. cbn. by rewrite lookup_ge_None_2 by lia. }
    pose proof (Hloop (fuel_of s) 0%nat ltac:(lia) ltac:(lia) i) as Hl. rewrite Nat.add_0_l in Hl. rewrite <-Hl. f_equal.
    by destruct l.
  - assert (∀ fuel j, (length l - j < fuel)%nat → (j ≤ length l)%nat → walk_next fuel s (k_addr <$> l !! j) = Some (addrs (drop j l))) as Hw.
    { induction fuel as [|fuel IH]; intros j Hf Hj; [lia|]. cbn [walk_next]. destruct (l !! j) as [k|] eqn:Ek.
      - cbn [fmap option_fmap option_map]. pose proof (next_named s d ks n j k H Ek) as En. rewrite En. cbn [mbind option_bind].
        assert (j < length l)%nat by (by apply lookup_lt_Some in Ek). rewrite IH by lia. cbn [mbind option_bind].
        by rewrite (drop_S l k j Ek).
      - apply lookup_ge_None in Ek. cbn. by rewrite drop_ge by lia. }
    pose proof (Hw (fuel_of s) 0%nat ltac:(lia) ltac:(lia)) as H0. rewrite drop_0 in H0. rewrite <-H0. f_equal. by destruct l.
Qed.

(** C7: What is written is read back.  A document of the store, with valid names,
    plain texts and no document type, is written by [ezxml_toxml] as a text that
    [ezxml_parse_str] parses without error into a new tree with the same names,
    attributes, texts, sub tags and offsets, whatever else the store holds; the
    fuel of a text is twice its length. *)
Theorem xml_roundtrip k s p n a t f st :
  document s p n a t f → wf_document n a t f → small k (Tag 0 n a t f Nil) → wf_store st →
  ∃ text st', ezxml_toxml s (Some p) = Some text ∧ ezxml_parse_str k st text = Some (st', brk st) ∧
    document st' (brk st) n a t f ∧ ezxml_error st' (Some (brk st)) = Some None.
Proof.
  intros Hd Hwf Hsm Hst. destruct (parse_document k st n a t f Hwf Hsm Hst) as (st'&Hp&_&Hd').
  exists (print_document n a t f), st'. split; [by apply toxml_document|]. split; [done|]. split; [done|].
  by eapply document_error.
Qed.

(** ** Witnesses *)

(** The machine [<vm class="PC">a<mem/> <disk/><mem/></vm>], with a character that
    has to be encoded. *)
Definition sample_attrs : list (str * str) := [(chars "class", chars "P&C")].
Definition sample_forest : forest :=
  Tag 1 (chars "mem") [] (chars "64") Nil
    (Tag 2 (chars "disk") [(chars "id", chars "<hd>")] [] Nil
      (Tag 2 (chars "mem") [] [] (Tag 0 (chars "x") [] [] Nil Nil) Nil)).
Definition sample_text : str := print_document (chars "vm") sample_attrs (chars "a ") sample_forest.
Definition sample : store :=
  match ezxml_parse_str 100 (Store ∅ ∅ 0) sample_text with Some (s, _) => s | None => Store ∅ ∅ 0 end.

Lemma tag_name_check n :
  forallb (λ c, negb (c =? 0) && negb (ws c) && negb (c =? slash) && negb (c =? rangle)) n = true →
  match n with c :: _ => name_start c = true | [] => False end → tag_name n.
Proof.
  intros H Hs. rewrite forallb_forall in H. unfold tag_name, plain.
  assert (∀ c, c ∈ n → c ≠ 0 ∧ ws c = false ∧ c ≠ slash ∧ c ≠ rangle) as Hc.
  { intros c Hc%list_elem_of_In. specialize (H c Hc). rewrite !andb_true_iff, !negb_true_iff, !Z.eqb_neq in H. tauto. }
  split_and!; [..|done]; apply Forall_forall; intros c Hin; apply Hc in Hin; tauto.
Qed.

Lemma attr_ok_check n v :
  forallb (λ c, negb (c =? 0) && negb (ws c) && negb (c =? slash) && negb (c =? rangle) && negb (c =? equals)) n = true →
  match n with c :: _ => isspace c = false | [] => False end →
  forallb (λ c, negb (c =? 0) && negb (c =? 11) && negb (c =? 12)) v = true → attr_ok (n, v).
Proof.
  intros H Hs Hv. rewrite forallb_forall in H, Hv. unfold attr_ok, attr_name, plain. cbn [fst snd].
  assert (∀ c, c ∈ n → c ≠ 0 ∧ ws c = false ∧ c ≠ slash ∧ c ≠ rangle ∧ c ≠ equals) as Hc.
  { intros c Hc%list_elem_of_In. specialize (H c Hc). rewrite !andb_true_iff, !negb_true_iff, !Z.eqb_neq in H. tauto. }
  assert (∀ c, c ∈ v → c ≠ 0 ∧ c ≠ 11 ∧ c ≠ 12) as Hc2.
  { intros c Hc2%list_elem_of_In. specialize (Hv c Hc2). rewrite !andb_true_iff, !negb_true_iff, !Z.eqb_neq in Hv. tauto. }
  split_and!; try done; apply Forall_forall; intros c Hin; (apply Hc in Hin || apply Hc2 in Hin); tauto.
Qed.

Lemma plain_check s : forallb (λ c, negb (c =? 0)) s = true → plain s.
Proof.
  intros H. rewrite forallb_forall in H. apply Forall_forall. intros c Hc%list_elem_of_In.
  specialize (H c Hc). by rewrite negb_true_iff, Z.eqb_neq in H.
Qed.

Lemma sample_wf : wf_document (chars "vm") sample_attrs (chars "a ") sample_forest.
Proof.
  unfold wf_document, sample_attrs, sample_forest. cbn [wf].
  split_and!; try (by apply tag_name_check); try (by apply plain_check); try (cbn; lia); try done;
    try (by repeat constructor); repeat constructor; try (by apply attr_ok_check); try (by intros ?%elem_of_nil).
Qed.

Lemma sample_small : small 100 (Tag 0 (chars "vm") sample_attrs (chars "a ") sample_forest Nil).
Proof. cbn [small sample_forest sample_attrs]. split_and!; try done; repeat constructor; cbn; lia. Qed.

Lemma empty_wf : wf_store (Store ∅ ∅ 0).
Proof. intros a x Hx. cbn in Hx. by rewrite lookup_empty in Hx. Qed.

Lemma sample_document : document sample 0 (chars "vm") sample_attrs (chars "a ") sample_forest ∧ wf_store sample.
Proof.
  destruct (parse_document 100 (Store ∅ ∅ 0) _ _ _ _ sample_wf sample_small empty_wf) as (s'&E&Hwf&D).
  unfold sample, sample_text. rewrite E. exact (conj D Hwf).
Qed.

Lemma xml_roundtrip_witness :
  ∃ text st', ezxml_toxml sample (Some 0%nat) = Some text ∧
    ezxml_parse_str 100 (Store ∅ ∅ 0) text = Some (st', 0%nat) ∧
    document st' 0 (chars "vm") sample_attrs (chars "a ") sample_forest.
Proof.
  destruct (xml_roundtrip 100 sample 0 (chars "vm") sample_attrs (chars "a ") sample_forest (Store ∅ ∅ 0)
    (proj1 sample_document) sample_wf sample_small empty_wf) as (text&st'&H1&H2&H3&_).
  exists text, st'. split; [exact H1|]. split; [exact H2|exact H3].
Defined.

Lemma child_next_enumerate_witness :
  ∃ ks c, sub_tags (see sample) 0 ks ∧ ezxml_child sample (Some 0%nat) (chars "mem") = Some c ∧
    walk_next (fuel_of sample) sample c = Some (addrs (named (chars "mem") ks)).
Proof.
  destruct (proj1 sample_document) as [(x&ks&al&Hx&_&_&_&_&_&_&Hs&_) _].
  destruct (child_next_enumerate sample 0 ks (chars "mem") Hs) as (c&H1&_&H2).
  - by apply elem_of_dom_2 in Hx.
  - exists ks, c. split; [exact Hs|]. split; [exact H1|exact H2].
Defined.
