(* ===== verification/EzxmlSafe.v ===== *)
(** * The XML parser on any document

    [ezxml_parse_str] of [linux_usr/ezxml.c] on documents that are not valid: it ends,
    it stays inside its string and its tree, and the tags it leaves are linked as
    [EzxmlLinks] says.  Carriage returns and document types are left out, where the
    code does not keep inside its string. *)
From stdpp Require Import gmap sorting.
From S2P Require Import Prelude Text Ezxml EzxmlLinks EzxmlText EzxmlParse EzxmlTree.
From stdpp Require Import list.
#[local] Open Scope Z_scope.

(** ** The string gets shorter *)

Lemma span_suffix {A} (p : A → bool) s : (span p s).2 `suffix_of` s.
Proof.
  induction s as [|c s IH]; [done|]. cbn [span]. destruct (p c); [|done].
  destruct (span p s) as [a b]. cbn in *. by apply suffix_cons_r.
Qed.

Lemma until_suffix p s : (until p s).2 `suffix_of` s.
Proof. apply span_suffix. Qed.

Lemma tl_suffix {A} (s : list A) : tl s `suffix_of` s.
Proof. destruct s; [done|]. by apply suffix_cons_r. Qed.

Lemma strtol_suffix b s : (strtol b s).2 `suffix_of` s.
Proof.
  unfold strtol. pose proof (span_suffix isspace s) as H1. set (s1 := (span isspace s).2) in *.
  assert ((sign s1).2 `suffix_of` s1) as H2.
  { unfold sign. destruct s1 as [|c s1]; [done|]. repeat case_match; cbn; try done; by apply suffix_cons_r. }
  destruct (sign s1) as [neg s2]. cbn [snd] in H2.
  assert (skip_0x b s2 `suffix_of` s2) as H3.
  { unfold skip_0x. destruct s2 as [|z [|x [|c s3]]]; try done. case_match; [|done]. by do 2 apply suffix_cons_r. }
  pose proof (span_suffix (digit_in b) (skip_0x b s2)) as H4. destruct (span (digit_in b) (skip_0x b s2)) as [ds rest].
  cbn in *. etrans; [exact H4|]. etrans; [exact H3|]. etrans; [exact H2|]. exact H1.
Qed.

Lemma char_ref_suffix s : (char_ref s).2 `suffix_of` s.
Proof.
  unfold char_ref. destruct s as [|c s]; [done|]. case_match; [|apply strtol_suffix].
  apply suffix_cons_r. apply strtol_suffix.
Qed.

Lemma strstr_suffix p s r : strstr p s = Some r → r `suffix_of` s ∧ starts p r = true.
Proof.
  revert r. induction s as [|c s IH]; intros r; cbn [strstr]; unfold starts.
  - destruct (Text.strip_prefix p []) eqn:E; [|done]. intros [= <-]. by rewrite E.
  - destruct (Text.strip_prefix p (c :: s)) eqn:E; [intros [= <-]; by rewrite E|].
    intros H. destruct (IH r H) as [? ?]. split; [by apply suffix_cons_r|done].
Qed.

Lemma strchr_suffix d s r : strchr d s = Some r → r `suffix_of` s ∧ head r = Some d.
Proof.
  unfold strchr, until. induction s as [|c s IH]; [done|]. cbn [span]. destruct (Z.eqb_spec d c) as [<-|]; cbn [negb].
  - cbn. by intros [= <-].
  - destruct (span (λ c, negb (d =? c)) s) as [a b]. cbn in *. intros H. destruct (IH H). split; [by apply suffix_cons_r|done].
Qed.

Lemma suffix_Forall {A} (P : A → Prop) r s : r `suffix_of` s → Forall P s → Forall P r.
Proof. intros [k ->]. intros H. by apply Forall_app in H as [_ H]. Qed.

Lemma span_parts {A} (p : A → bool) s :
  s = (span p s).1 ++ (span p s).2 ∧ match (span p s).2 with [] => True | c :: _ => p c = false end.
Proof.
  induction s as [|c s [IH1 IH2]]; [done|]. cbn [span]. destruct (p c) eqn:E; [|done].
  destruct (span p s) as [a b]. cbn in *. split; [congruence|done].
Qed.

(** ** Decoding ends *)

(** The entities of every document. *)
Lemma find_default_ent s v :
  find_ent default_ents s = Some v → ∃ name ref c r, s = name ++ semi :: r ∧ Forall (λ c, c ≠ semi) name ∧
    v = amp :: 35 :: ref ++ [semi] ∧ (∀ s, char_ref (ref ++ semi :: s) = (c, semi :: s)) ∧ c ≠ 0.
Proof.
  unfold default_ents. cbn [find_ent]. unfold starts.
  repeat (destruct (Text.strip_prefix (chars _) s) as [r|] eqn:E;
    [apply strip_prefix_Some in E as ->; intros [= <-]|clear E]); try done.
  - exists (chars "lt"), (chars "60"), 60, r. split; [done|]. split; [by repeat constructor|]. done.
  - exists (chars "gt"), (chars "62"), 62, r. split; [done|]. split; [by repeat constructor|]. done.
  - exists (chars "quot"), (chars "34"), 34, r. split; [done|]. split; [by repeat constructor|]. done.
  - exists (chars "apos"), (chars "39"), 39, r. split; [done|]. split; [by repeat constructor|]. done.
  - exists (chars "amp"), (chars "38"), 38, r. split; [done|]. split; [by repeat constructor|]. done.
Qed.

Lemma decode_total t n s : (2 * length s < n)%nat → ∃ r m, decode n default_ents t s = Some (r, m).
Proof.
  revert s. induction n as [n IH] using lt_wf_ind. intros s Hn. destruct n as [|n]; [lia|].
  destruct s as [|c s']; [by exists [], false|]. cbn [length] in Hn. cbn [decode].
  assert (∀ cs s, length s ≤ length s' → ∃ r m, ('(r, m) ← decode n default_ents t s; Some (cs ++ r, m : bool)) = Some (r, m))%nat as Hemit.
  { intros cs s Hs. destruct (IH n ltac:(lia) s) as (r&m&->); [lia|]. by eexists _, _. }
  destruct ((c =? amp) && negb (bool_decide (t = Cdata)) && starts (chars "#") s') eqn:Ec.
  - pose proof (char_ref_suffix (tl s')) as Hs. destruct (char_ref (tl s')) as [v e]. cbn [snd] in Hs.
    pose proof (suffix_length _ _ Hs) as Hl. pose proof (suffix_length _ _ (tl_suffix s')) as Hl'.
    destruct e as [|d e']; [apply Hemit; lia|]. cbn [length] in Hl. case_match; apply Hemit; lia.
  - destruct (refers t c) eqn:Er; [|case_match; apply Hemit; lia].
    destruct (find_ent default_ents s') as [v|] eqn:Ef; [|apply Hemit; lia].
    apply find_default_ent in Ef as (name&ref&w&r&->&Hname&->&Hcr&Hw).
    assert (c = amp ∨ c = percent) as Hc by (destruct t; cbn in Er; try done; apply Z.eqb_eq in Er; auto).
    assert (strchr semi (c :: name ++ semi :: r) = Some (semi :: r)) as ->.
    { apply (strchr_app semi (c :: name) r). constructor; [by destruct Hc as [-> | ->]|done]. }
    cbn [mbind option_bind tl]. cbn [app]. rewrite <-app_assoc. cbn [app].
    rewrite !length_app in *. cbn [length] in *.
    destruct n as [|n]; [lia|]. assert (t ≠ Cdata) as Ht by (by intros ->).
    cbn [decode]. rewrite bool_decide_false by done. cbn [tl]. rewrite Hcr. rewrite (proj2 (Z.eqb_neq w 0) Hw).
    change (amp =? amp) with true. change (starts (chars "#") (35 :: ?x)) with true. change (semi =? semi) with true.
    cbn [andb negb orb]. destruct (IH n ltac:(lia) r) as (r'&m&->); [lia|]. by eexists _, _.
Qed.

Lemma ezxml_decode_total k t s :
  t ≠ Attr_tokens → Forall (λ c, c ≠ cr) s → (2 * length s < k)%nat →
  ∃ r m, ezxml_decode k default_ents t s = Some (Decoded r false m).
Proof.
  intros Ht Hs Hk. unfold ezxml_decode. rewrite normalize_plain by done. cbn beta iota.
  destruct (decode_total t k s Hk) as (r&m&->). cbn [mbind option_bind]. exists r, m. by destruct t.
Qed.

(** The attributes of a tag without defaults. *)
(** Where [until] stops, and what it goes over. *)
Lemma until_split p (v w r : str) z : until p v = (w, z :: r) → v = w ++ z :: r.
Proof.
  unfold until. revert w. induction v as [|y v IHv]; intros w Ew; cbn [span] in Ew; [done|].
  destruct (negb (p y)); [|by injection Ew as <- <- <-]. destruct (span _ v) as [a b] eqn:Es.
  injection Ew as <- ->. cbn. f_equal. by apply IHv.
Qed.
Lemma until_shorter p c (s n r : str) : p c = false → until p (c :: s) = (n, r) → (length r < length (c :: s))%nat.
Proof.
  intros Hp Eu. unfold until in Eu. cbn [span] in Eu. rewrite Hp in Eu. cbn [negb] in Eu.
  destruct (span (λ x, negb (p x)) s) as [a b] eqn:Es. injection Eu as _ <-.
  pose proof (span_suffix (λ x, negb (p x)) s) as Hsx. rewrite Es in Hsx. apply suffix_length in Hsx. cbn in *. lia.
Qed.
Lemma ws_isspace c : ws c = true → isspace c = true.
Proof. unfold ws. intros Hw. apply isspace_spec. rewrite !orb_true_iff, !Z.eqb_eq in Hw. lia. Qed.

Lemma tag_attrs_total fuel k s :
  Forall (λ c, c ≠ cr) s → (length s < fuel)%nat → (2 * length s < k)%nat →
  ∃ x, tag_attrs fuel k default_ents [] s = Some x ∧
       match x with inl _ => True | inr (_, r) => r `suffix_of` s end.
Proof.
  revert s. induction fuel as [|fuel IH]; intros s Hcr Hf Hk; [lia|]. cbn [tag_attrs].
  destruct s as [|c s0]; [eexists; split; [reflexivity|cbn; done || reflexivity]|]. set (s := c :: s0) in *.
  destruct ((c =? slash) || (c =? rangle)) eqn:Ec; [eexists; split; [reflexivity|cbn; done || reflexivity]|].
  set (p := λ c, ws c || (c =? equals) || (c =? slash) || (c =? rangle)).
  pose proof (until_suffix p s) as Hr. destruct (until p s) as [n r] eqn:Eu. cbn [snd] in Hr.
  assert (∀ v f r', r' `suffix_of` s → (length r' < length s)%nat → ∃ x,
    (x ← tag_attrs fuel k default_ents [] (span isspace r').2;
     Some (match x with inl e => inl e | inr (l, r) => inr (Attribute n v f :: l, r) end)) = Some x ∧
    match x with inl _ => True | inr (_, r) => r `suffix_of` s end) as Hgo.
  { intros v f r' Hr' Hl. pose proof (span_suffix isspace r') as Hsp. pose proof (suffix_length _ _ Hsp).
    destruct (IH (span isspace r').2) as (x&->&Hx).
    - eapply suffix_Forall; [|exact Hcr]. by etrans.
    - lia.
    - lia.
    - cbn [mbind option_bind]. eexists. split; [done|]. destruct x as [|[l r'']]; [done|].
      etrans; [exact Hx|]. by etrans. }
  assert (∀ d r', r = d :: r' → (length r' < length s)%nat) as Hlt.
  { intros d r' ->. apply suffix_length in Hr. exact Hr. }
  destruct r as [|d r'].
  - apply Hgo; [apply suffix_nil|cbn; lia].
  - destruct (negb ((d =? equals) || isspace d)) eqn:Ed.
    + apply Hgo; [done|]. destruct (p c) eqn:Ep; [|by eapply until_shorter].
      exfalso. unfold until in Eu. cbn [span s] in Eu. rewrite Ep in Eu. injection Eu as _ <- <-.
      unfold p in Ep. apply negb_true_iff in Ed.
      apply orb_false_iff in Ed as [Ed1 Ed2]. apply orb_false_iff in Ec as [Ec1 Ec2].
      rewrite Ed1, Ec1, Ec2, !orb_false_r in Ep. apply ws_isspace in Ep. congruence.
    + specialize (Hlt d r' eq_refl). set (q := λ c, ws c || (c =? equals)).
      pose proof (span_suffix q r') as Hq. set (r2 := (span q r').2) in *.
      assert (r2 `suffix_of` s) as Hr2 by (etrans; [exact Hq|]; etrans; [|exact Hr]; by apply suffix_cons_r).
      pose proof (suffix_length _ _ Hq) as Hql. destruct r2 as [|e v] eqn:Er2; [apply Hgo; [apply suffix_nil|cbn; lia]|].
      destruct (negb ((e =? quot) || (e =? apos))) eqn:Ee; [apply Hgo; [done|cbn in *; lia]|].
      pose proof (until_suffix (Z.eqb e) v) as Hv. destruct (until (Z.eqb e) v) as [w r3] eqn:Ew. cbn [snd] in Hv.
      destruct r3 as [|z r3]; [eexists; split; [reflexivity|cbn; done || reflexivity]|]. cbn [find_default list_find fmap option_fmap option_map].
      pose proof (until_split _ _ _ _ _ Ew) as Evw.
      assert (v `suffix_of` s) as Hvs by (etrans; [|exact Hr2]; by apply suffix_cons_r).
      pose proof (suffix_Forall _ _ _ Hvs Hcr) as Hvcr. rewrite Evw in Hvcr. apply Forall_app in Hvcr as [Hw _].
      pose proof (suffix_length _ _ Hvs) as Hvl. rewrite Evw, length_app in Hvl. cbn [length] in Hvl.
      destruct (ezxml_decode_total k Attr w ltac:(done) Hw ltac:(lia)) as (r4&m&->). cbn [mbind option_bind d_past run_on].
      apply Hgo; [|lia]. etrans; [|exact Hvs]. rewrite Evw. exists (w ++ [z]). by rewrite <-app_assoc.
Qed.

(** ** The tree stays a tree *)

(** The links below every tag are those of a list, by the offsets in its text. *)
Definition coherent (s : store) : Prop :=
  wf_store s ∧ ∀ a x, nodes s !! a = Some x →
    (∃ ks, sub_tags (see s) a ks ∧ Forall (λ k, k_off k ≤ length (txt x))%nat ks) ∧
    ∀ d, parent x = Some d → d ∈ dom (nodes s).

(** A parser at work on a document without document type. *)
Definition parsing (s : store) (root : addr) : Prop :=
  coherent s ∧ root ∈ dom (nodes s) ∧ ∃ r, roots s !! root = Some r ∧ ent r = default_ents ∧ dattr r = [] ∧
    ∀ q, cur r = Some q → q ∈ dom (nodes s).

Lemma coherent_nodes s s' : nodes s' = nodes s → brk s' = brk s → coherent s → coherent s'.
Proof.
  intros En Eb [Hwf H]. split; [intros a x; rewrite En, Eb; apply Hwf|]. intros a x. rewrite En. intros Hx.
  destruct (H a x Hx) as [(ks&Hs&Ho) Hp]. split; [|done]. exists ks. split; [|done].
  apply (sub_tags_same s); [done| |]; rewrite ?En.
  - intros k y _ Hy. exists y. by split_and!.
  - intros y Hy. by exists y.
Qed.

Lemma parsing_root s root r f :
  parsing s root → roots s !! root = Some r → ent (f r) = ent r → dattr (f r) = dattr r →
  (∀ q, cur (f r) = Some q → q ∈ dom (nodes s)) →
  ∃ s', upd_root root f s = Some s' ∧ parsing s' root ∧ roots s' !! root = Some (f r).
Proof.
  intros (Hc&Hd&r'&Hr'&He&Hda&_) Hr Ef Edf Hq. assert (r' = r) as -> by congruence. unfold upd_root. rewrite Hr. cbn [mbind option_bind].
  eexists. split; [reflexivity|]. split; [|apply lookup_insert_eq].
  split; [by apply (coherent_nodes s)|]. split; [done|]. exists (f r). split; [apply lookup_insert_eq|].
  split; [congruence|]. by split; [congruence|].
Qed.

Lemma parsing_err s root e :
  parsing s root → ∃ s' r, ezxml_err root e s = Some s' ∧ parsing s' root ∧ roots s' !! root = Some r ∧ err r = Some e.
Proof.
  intros Hp. pose proof Hp as (_&_&r&Hr&_&_&Hq).
  destruct (parsing_root s root r (set_err e) Hp Hr) as (s'&E&Hp'&Hr'); try done. by eexists s', _.
Qed.

Lemma parsing_text s root q x T fl :
  parsing s root → nodes s !! q = Some x → parsing (with_text q x T fl s) root.
Proof.
  intros ([Hwf H]&Hd&r&Hr&He&Hda&Hq) Hx.
  assert (dom (nodes (with_text q x T fl s)) = dom (nodes s)) as Edom.
  { cbn. apply dom_insert_lookup_L. by exists x. }
  split; [split; [by apply with_text_wf|]|].
  - intros a y Hy. cbn in Hy. rewrite Edom. destruct (decide (a = q)) as [->|Ha].
    + rewrite lookup_insert_eq in Hy. injection Hy as <-. destruct (H q x Hx) as [(ks&Hs&Ho) Hp]. split; [|done].
      exists ks. split; [by apply with_text_sub_tags|]. cbn. eapply Forall_impl; [exact Ho|]. cbn. intros k Hk.
      rewrite length_app. lia.
    + rewrite lookup_insert_ne in Hy by done. destruct (H a y Hy) as [(ks&Hs&Ho) Hp]. split; [|done].
      exists ks. split; [by apply with_text_sub_tags|done].
  - rewrite Edom. split; [done|]. by exists r.
Qed.

(** The callbacks. *)
Section Callbacks.
Context (k : nat) (s : store) (root : addr) (Hp : parsing s root).

Lemma char_content_total t c :
  t ≠ Attr_tokens → Forall (λ c, c ≠ cr) c → (2 * length c < k)%nat →
  ∃ s', ezxml_char_content k s root t c = Some (s', false) ∧ parsing s' root.
Proof using Hp.
  intros Ht Hcr Hk. pose proof Hp as (_&_&r&Hr&He&_&Hq). unfold ezxml_char_content. rewrite Hr. cbn [mbind option_bind].
  destruct (cur r) as [q|] eqn:Ecur; [|by exists s]. pose proof (Hq q eq_refl) as [x Hx]%elem_of_dom. rewrite Hx. cbn [mbind option_bind].
  destruct (name x) as [n|] eqn:En; [|by exists s]. destruct c as [|c0 c]; [by exists s|].
  destruct (ezxml_decode_total k t (c0 :: c) Ht Hcr Hk) as (T&m&Ed). rewrite <-He in Ed.
  destruct (char_content_decoded k root s r q x t (c0 :: c) T false m) as (fl&E); try done; [congruence|].
  exists (with_text q x T fl s). split; [|by apply parsing_text].
  unfold ezxml_char_content in E. rewrite Hr in E. cbn [mbind option_bind] in E. rewrite Ecur, Hx in E. cbn [mbind option_bind] in E.
  by rewrite En in E.
Qed.

Lemma close_tag_total n :
  ∃ s' b, ezxml_close_tag s root n = Some (s', b) ∧ parsing s' root ∧
    (b = false → ∃ r e, roots s' !! root = Some r ∧ err r = Some e).
Proof using Hp.
  pose proof Hp as ([_ Hall]&_&r&Hr&_&_&Hq). unfold ezxml_close_tag. rewrite Hr. cbn [mbind option_bind].
  destruct (parsing_err s root (Unexpected_closing_tag n) Hp) as (s'&r'&Ee&Hp'&Hr'&Her).
  assert (∃ s' b, (s ← ezxml_err root (Unexpected_closing_tag n) s; Some (s, false)) = Some (s', b) ∧ parsing s' root ∧
    (b = false → ∃ r e, roots s' !! root = Some r ∧ err r = Some e)) as Hfail.
  { rewrite Ee. cbn. exists s', false. split; [done|]. split; [done|]. intros _. by eexists _, _. }
  destruct (cur r) as [q|] eqn:Ec; [|done]. pose proof (Hq q eq_refl) as [x Hx]%elem_of_dom. rewrite Hx. cbn [mbind option_bind].
  destruct (name x) as [m|]; [|done]. case_bool_decide; [|done].
  destruct (parsing_root s root r (set_cur (parent x)) Hp Hr) as (s''&->&Hp''&_); try done.
  { cbn. intros d Hd. by apply (Hall q x Hx). }
  cbn [mbind option_bind]. by exists s'', true.
Qed.

Lemma proc_inst_total c : ∃ s', ezxml_proc_inst s root c = Some s' ∧ parsing s' root.
Proof using Hp.
  pose proof Hp as (_&[x Hx]%elem_of_dom&r&Hr&_&_&Hq). unfold ezxml_proc_inst. destruct (until ws c) as [target rest].
  case_bool_decide.
  - case_match; [|by exists s]. case_match; [|by exists s].
    destruct (parsing_root s root r set_standalone Hp Hr) as (s'&->&?&_); try done. by exists s'.
  - rewrite Hx. cbn [mbind option_bind].
    edestruct (parsing_root s root r) as (s'&->&?&_); [exact Hp|exact Hr| | | |by exists s']; done.
Qed.
End Callbacks.

(** ** Opening a tag *)

(** A store with the same links and texts below every tag. *)
Lemma coherent_same s s' :
  coherent s → brk s' = brk s →
  (∀ a x', nodes s' !! a = Some x' → ∃ x, nodes s !! a = Some x ∧ txt x' = txt x ∧ child x' = child x ∧ parent x' = parent x) →
  (∀ a x d, nodes s !! a = Some x → parent x = Some d → name x ≠ None → ∃ x', nodes s' !! a = Some x' ∧
     name x' = name x ∧ off x' = off x ∧ parent x' = parent x ∧ same_links x x') →
  (∀ a x, nodes s !! a = Some x → a ∈ dom (nodes s')) →
  coherent s'.
Proof.
  intros [Hwf H] Eb H1 H2 H3. split.
  - intros a x' Hx'. destruct (H1 a x' Hx') as (x&Hx&_&_&Ep). rewrite Eb, Ep. by apply (Hwf a).
  - intros a x' Hx'. destruct (H1 a x' Hx') as (x&Hx&Et&Ec&Ep). destruct (H a x Hx) as [(ks&Hs&Ho) Hp]. split.
    + exists ks. rewrite Et. split; [|done]. apply (sub_tags_same s); [done| |].
      * intros k y Hin Hy. apply (H2 k y a Hy); [by eapply sub_tags_parent|].
        apply list_elem_of_fmap in Hin as (j&->&Hj). pose proof (st_nodes _ _ _ Hs) as Hn. rewrite Forall_forall in Hn.
        destruct (Hn j Hj) as (c&Hc&En&_). apply see_at in Hc as (z&Hz&->&_). assert (z = y) as -> by congruence. cbn in En. congruence.
      * intros y Hy. exists x'. split; [done|congruence].
    + intros d. rewrite Ep. intros Hd. apply Hp in Hd. apply elem_of_dom in Hd as [z Hz]. by eapply H3.
Qed.

(** [upd] of the name and the attributes of a tag that has no name yet. *)
Lemma open_unnamed s root r p x n a :
  parsing s root → roots s !! root = Some r → cur r = Some p → nodes s !! p = Some x → name x = None →
  ∃ s', ezxml_open_tag s root n a = Some s' ∧ parsing s' root.
Proof.
  intros (Hc&Hd&r'&Hr'&He&Hda&_) Hr Ep Hx En. assert (r' = r) as -> by congruence.
  unfold ezxml_open_tag. rewrite Hr. cbn [mbind option_bind]. rewrite Ep. cbn [mbind option_bind]. rewrite Hx.
  cbn [mbind option_bind]. rewrite En. unfold upd, set_nodes. rewrite Hx. cbn [mbind option_bind nodes roots brk].
  rewrite lookup_insert_eq. cbn [mbind option_bind].
  unfold upd_root. cbn [roots]. rewrite Hr. cbn [mbind option_bind]. rewrite insert_insert_eq.
  eexists. split; [reflexivity|]. split; cbn [nodes roots brk].
  - apply (coherent_same s); [done|done| | |]; cbn [nodes].
    + intros b y Hy. destruct (decide (b = p)) as [->|Hb].
      * rewrite lookup_insert_eq in Hy. injection Hy as <-. by exists x.
      * rewrite lookup_insert_ne in Hy by done. by exists y.
    + intros b y d Hy _ Hn. exists y. rewrite lookup_insert_ne; [by split_and!|]. intros <-. congruence.
    + intros b y Hy. apply elem_of_dom. destruct (decide (b = p)) as [->|Hb]; [by rewrite lookup_insert_eq|].
      by rewrite lookup_insert_ne.
  - rewrite dom_insert_L. split; [set_solver|]. eexists. split; [apply lookup_insert_eq|]. cbn. split_and!; try done.
    intros q [= <-]. set_solver.
Qed.

Lemma open_tag_total s root r p n a :
  parsing s root → roots s !! root = Some r → cur r = Some p →
  ∃ s', ezxml_open_tag s root n a = Some s' ∧ parsing s' root.
Proof.
  intros Hp Hr Ep. pose proof Hp as (Hc&Hd&r'&Hr'&He&Hda&Hq). assert (r' = r) as -> by congruence.
  pose proof (Hq p Ep) as [x Hx]%elem_of_dom. destruct (name x) as [m|] eqn:En; [|by eapply open_unnamed].
  pose proof Hc as [Hwf H]. destruct (H p x Hx) as [(ks&Hs&Ho) Hpar].
  destruct (open_tag_step 0 root s r p x m ks n a) as (s'&E&Eb&Er&Hwf'&Hk&(x'&Hx'&Ex')&(y&Hy&_&_&Ey&Ey')&Hs1&Hs2&Hdom); try done.
  assert (∀ b, b ∈ dom (nodes s) → b ∈ dom (nodes s')) as Hsub.
  { intros b [z Hz]%elem_of_dom. destruct (Hk b z Hz) as (z'&Hz'&_). by eapply elem_of_dom_2. }
  exists s'. split; [done|]. split.
  - split; [done|]. intros b z Hz. destruct (Hdom b z Hz) as [->|(z0&Hz0)].
    + assert (z = y) as -> by congruence. split; [by exists []|]. intros d. rewrite Ey'. intros [= <-]. by eapply elem_of_dom_2.
    + destruct (Hk b z0 Hz0) as (z1&Hz1&(_&_&Epz&_)&Htc&_). assert (z1 = z) as -> by congruence.
      destruct (H b z0 Hz0) as [(ks0&Hs0&Ho0) Hp0]. split; [|intros d; rewrite Epz; eauto].
      destruct (decide (b = p)) as [->|Hb].
      * assert (z = x') as -> by congruence. eexists. split; [exact Hs1|]. rewrite Ex'. apply Forall_app. split; [done|].
        by repeat constructor.
      * exists ks0. destruct (Htc Hb) as [-> _]. split; [|done]. by eapply sub_tags_keeps.
  - split; [by apply Hsub|]. rewrite Er. eexists. split; [apply lookup_insert_eq|]. cbn. split_and!; try done.
    intros q [= <-]. by eapply elem_of_dom_2.
Qed.

(** ** A piece of markup *)

(** The parser stopped with an error. *)
Definition failed (s : store) (root : addr) : Prop := ∃ r e, roots s !! root = Some r ∧ err r = Some e.

Section Markup.
Context (k : nat) (root : addr) (e : Z).

(** What a piece of markup at the head of [s] leads to. *)
Definition fine (s : str) (x : option step) : Prop :=
  match x with
  | None => False
  | Some (Stop st) => parsing st root ∧ failed st root
  | Some (Go st r) => parsing st root ∧ r `suffix_of` s
  end.

Context (st : store) (Hp : parsing st root).

Lemma fine_stop s er : fine s (stop root er st).
Proof using Hp.
  destruct (parsing_err st root er Hp) as (s'&r&E&Hp'&Hr&Her). unfold stop. rewrite E. cbn. split; [done|].
  by exists r, er.
Qed.

Lemma fine_suffix s s' x : s `suffix_of` s' → fine s x → fine s' x.
Proof using. intros Hs. destruct x as [[|]|]; cbn; try done. intros [? ?]. split; [done|by etrans]. Qed.

Lemma new_tag_fine s : Forall (λ c, c ≠ cr) s → (2 * length s < k)%nat → fine s (new_tag k root e st s).
Proof using Hp.
  intros Hcr Hk. pose proof Hp as (_&_&r&Hr&He&Hda&Hq). unfold new_tag. rewrite Hr. cbn [mbind option_bind].
  destruct (cur r) as [p|] eqn:Ep; [|apply fine_stop].
  pose proof (until_suffix (λ c, ws c || (c =? slash) || (c =? rangle)) s) as Hu.
  destruct (until (λ c, ws c || (c =? slash) || (c =? rangle)) s) as [n s1]. cbn [snd] in Hu.
  pose proof (span_suffix isspace s1) as Hsp. set (s2 := (span isspace s1).2) in *.
  assert (s2 `suffix_of` s) as Hs2 by (by etrans). pose proof (suffix_length _ _ Hs2). rewrite Hda, He. cbn [Ezxml.assoc default from_option].
  destruct (tag_attrs_total (S (length s2)) k s2) as (x&->&Hx); [by eapply suffix_Forall|lia|lia|].
  cbn [mbind option_bind]. destruct x as [er|[a l]]; [apply fine_stop|].
  assert (l `suffix_of` s) as Hl by (by etrans).
  destruct (open_tag_total st root r p n a Hp Hr Ep) as (s'&E'&Hp').
  destruct l as [|c l].
  - case_match; [|apply fine_stop]. rewrite E'. cbn. split; [done|apply suffix_nil].
  - case_match.
    + case_match; [|apply fine_stop]. rewrite E'. cbn [mbind option_bind].
      destruct (close_tag_total s' root Hp' n) as (s''&b&->&Hp''&_). cbn. split; [done|]. etrans; [|exact Hl]. by apply suffix_cons_r.
    + rewrite E'. cbn. done.
Qed.

Lemma close_tag_fine s : fine s (close_tag root e st s).
Proof using Hp.
  unfold close_tag. pose proof (until_suffix (λ c, ws c || (c =? rangle)) s) as Hu.
  destruct (until (λ c, ws c || (c =? rangle)) s) as [n r]. cbn [snd] in Hu. case_match; [apply fine_stop|].
  destruct (close_tag_total st root Hp n) as (s'&b&->&Hp'&Hb). cbn [mbind option_bind].
  destruct b; cbn; split; try done; [|by apply Hb]. etrans; [apply span_suffix|done].
Qed.

Lemma drop_suffix {A} n (l : list A) : drop n l `suffix_of` l.
Proof using. exists (take n l). by rewrite take_drop. Qed.

Lemma comment_fine s : fine s (comment root e st s).
Proof using Hp.
  unfold comment. destruct (strstr (chars "--") s) as [r|] eqn:Es; [|apply fine_stop].
  apply strstr_suffix in Es as [Hr _]. pose proof (drop_suffix 2 r) as Hd. destruct (drop 2 r) as [|c l].
  - case_match; [|apply fine_stop]. cbn. split; [done|apply suffix_nil].
  - case_match; [|apply fine_stop]. cbn. split; [done|by etrans].
Qed.

Lemma cdata_fine s : Forall (λ c, c ≠ cr) s → (2 * length s < k)%nat → fine s (cdata k root st s).
Proof using Hp.
  intros Hcr Hk. unfold cdata. destruct (strstr (chars "]]>") s) as [r|] eqn:Es; [|apply fine_stop].
  apply strstr_suffix in Es as [Hr _].
  destruct (char_content_total k st root Hp Cdata (take (length s - length r) s)) as (s'&->&Hp'); [done|by apply Forall_take| |].
  { rewrite length_take. lia. }
  cbn [mbind option_bind run_on]. cbn. split; [done|]. etrans; [apply drop_suffix|done].
Qed.

Lemma pi_end_total fuel s :
  (length s < fuel)%nat → ∃ r, pi_end fuel s = Some r ∧
    match r with Some r => r `suffix_of` s ∧ (s = [] ∨ length r < length s)%nat | None => True end.
Proof using.
  revert s. induction fuel as [|fuel IH]; intros s Hl; [lia|]. cbn [pi_end].
  destruct (strchr 63 s) as [r|] eqn:Es; [|by exists None]. apply strchr_suffix in Es as [Hr Hh].
  destruct r as [|d r]; [done|]. cbn [tl]. pose proof (suffix_length _ _ Hr) as Hlr. cbn [length] in Hlr.
  assert (r `suffix_of` s) as Hrs by (etrans; [|exact Hr]; by apply suffix_cons_r).
  destruct r as [|c r].
  - eexists. split; [done|]. split; [apply suffix_nil|]. right. simpl in *. lia.
  - case_match.
    + eexists. split; [done|]. split; [done|]. right. simpl in *. lia.
    + destruct (IH (c :: r)) as (o&->&Ho); [simpl in *; lia|]. exists o. split; [done|]. destruct o as [o|]; [|done].
      destruct Ho as [Ho1 Ho2]. split; [by etrans|]. right. destruct Ho2; [done|]. simpl in *. lia.
Qed.

Lemma proc_inst_fine s :
  head s = Some 63 → starts (chars "?>") (s ++ [e]) = false → fine s (proc_inst root e st s).
Proof using Hp.
  destruct s as [|c s]; [done|]. cbn [head]. intros [= ->] Hne. unfold proc_inst.
  assert (∃ r, pi_end (S (length (63 :: s))) (63 :: s) = Some r ∧
    match r with Some r => r `suffix_of` s ∧ (s = [] ∨ length r < length s)%nat | None => True end) as (r&->&Hr).
  { cbn [pi_end]. change (strchr 63 (63 :: s)) with (Some (63 :: s)). cbn [tl]. destruct s as [|d s].
    - exists (Some []). split; [done|]. split; [done|by left].
    - assert (d ≠ rangle) as Hd by (intros ->; by cbn in Hne). rewrite (proj2 (Z.eqb_neq d _) Hd).
      apply pi_end_total. cbn [length]. lia. }
  cbn [mbind option_bind]. destruct r as [r|]; [|apply fine_stop]. destruct Hr as [Hr Hlr].
  destruct (match r with [] => negb (e =? rangle) | _ :: _ => false end) eqn:Ee; [apply fine_stop|].
  assert ((length (63%Z :: s) - length r <? 2)%nat = false) as ->.
  { apply Nat.ltb_ge. cbn [length]. destruct Hlr as [->|]; [|lia]. exfalso. apply suffix_nil_inv in Hr as ->.
    apply negb_false_iff, Z.eqb_eq in Ee as ->. by cbn in Hne. }
  destruct (proc_inst_total st root Hp (take (length (63 :: s) - length r - 2) (tl (63 :: s)))) as (s'&->&Hp').
  cbn. split; [done|]. by apply suffix_cons_r.
Qed.

Lemma markup_fine s :
  Forall (λ c, c ≠ cr) s → (2 * length s < k)%nat → starts (chars "!DOCTYPE") s = false →
  starts (chars "?>") (s ++ [e]) = false → fine s (markup k root e st s).
Proof using Hp.
  intros Hcr Hk Hd Hpi. destruct s as [|c s]; [apply fine_stop|]. cbn [markup].
  destruct (name_start c); [by apply new_tag_fine|].
  destruct (c =? slash); [apply (fine_suffix s); [by apply suffix_cons_r|apply close_tag_fine]|].
  destruct (starts (chars "!--") (c :: s)); [apply (fine_suffix (drop 3 (c :: s))); [apply drop_suffix|apply comment_fine]|].
  destruct (starts (chars "![CDATA[") (c :: s)).
  { apply (fine_suffix (drop 8 (c :: s))); [apply drop_suffix|]. apply cdata_fine; [by apply Forall_drop|].
    rewrite length_drop. lia. }
  rewrite Hd. destruct (Z.eqb_spec c 63) as [->|]; [by apply proc_inst_fine|apply fine_stop].
Qed.
End Markup.

(** ** Documents *)

(** No terminator, no carriage return, no document type, no [<?>], no UTF-16. *)
Definition tame (doc : str) : Prop :=
  Forall (λ c, c ≠ 0 ∧ c ≠ cr) doc ∧ ezxml_str2utf8 doc = None ∧
  ∀ r, langle :: r `suffix_of` doc → starts (chars "!DOCTYPE") r = false ∧ starts (chars "?>") r = false.

(** The tag that is open in the end is an error. *)
Definition settled (s : store) (root : addr) : Prop :=
  ∃ r, roots s !! root = Some r ∧ (err r = None → cur r = None).

Lemma failed_settled s root : failed s root → settled s root.
Proof. intros (r&e&Hr&He). exists r. split; [done|congruence]. Qed.

Lemma starts_app p s t : starts p s = true → starts p (s ++ t) = true.
Proof.
  unfold starts. revert s. induction p as [|c p IH]; intros [|d s]; cbn [Text.strip_prefix app]; try done. destruct (c =? d); [|done]. apply IH.
Qed.

Section Loop.
Context (k : nat) (root : addr) (e : Z) (body : str).
Context (Hdoc : tame (body ++ [e])) (Hk : (2 * length body < k)%nat).

Lemma tame_suffix s : s `suffix_of` body → Forall (λ c, c ≠ cr) s ∧ (2 * length s < k)%nat.
Proof using All.
  intros Hs. pose proof (suffix_length _ _ Hs). destruct Hdoc as [Ht _]. apply Forall_app in Ht as [Ht _]. split; [|lia].
  eapply Forall_impl; [eapply suffix_Forall; [exact Hs|exact Ht]|]. by intros c [_ ?].
Qed.

Lemma tame_markup s : langle :: s `suffix_of` body →
  starts (chars "!DOCTYPE") s = false ∧ starts (chars "?>") (s ++ [e]) = false.
Proof using All.
  intros Hs. destruct Hdoc as (_&_&H). destruct (H (s ++ [e])) as [H1 H2].
  - destruct Hs as [l ->]. exists l. by rewrite <-app_assoc.
  - split; [|done]. destruct (starts (chars "!DOCTYPE") s) eqn:E; [|done]. apply (starts_app _ _ [e]) in E. congruence.
Qed.

Lemma finish_fine st : parsing st root → ∃ st', finish root st = Some st' ∧ parsing st' root ∧ settled st' root.
Proof using.
  intros Hp. pose proof Hp as (_&_&r&Hr&_&_&Hq). unfold finish. rewrite Hr. cbn [mbind option_bind].
  destruct (cur r) as [p|] eqn:Ep; [|exists st; split; [done|]; split; [done|]; by exists r].
  pose proof (Hq p eq_refl) as [x Hx]%elem_of_dom. rewrite Hx. cbn [mbind option_bind].
  edestruct (parsing_err st root) as (s'&r'&->&Hp'&Hr'&He); [done|].
  exists s'. split; [done|]. split; [done|]. apply failed_settled. by eexists r', _.
Qed.

Lemma loop_fine fuel st s :
  parsing st root → langle :: s `suffix_of` body → (length s < fuel)%nat →
  ∃ st', parse_loop k root e fuel st s = Some st' ∧ parsing st' root ∧ settled st' root.
Proof using Hdoc Hk.
  revert st s. induction fuel as [|fuel IH]; intros st s Hp Hs Hl; [lia|]. cbn [parse_loop].
  assert (s `suffix_of` body) as Hsb by (etrans; [|exact Hs]; by apply suffix_cons_r).
  destruct (tame_suffix s Hsb) as [Hcr Hks]. destruct (tame_markup s Hs) as [Hd Hpi].
  pose proof (markup_fine k root e st Hp s Hcr Hks Hd Hpi) as Hm.
  destruct (markup k root e st s) as [[st1|st1 s1]|]; [| |done]; cbn [mbind option_bind fine] in *.
  { destruct Hm as [Hp1 Hf]. exists st1. split; [done|]. split; [done|]. by apply failed_settled. }
  destruct Hm as [Hp1 Hs1]. unfold after. destruct s1 as [|d [|c s']]; [by apply finish_fine..|].
  pose proof (suffix_length _ _ Hs1) as Hl1. cbn [length] in Hl1.
  assert (c :: s' `suffix_of` body) as Hs' by (etrans; [|exact Hsb]; etrans; [|exact Hs1]; by apply suffix_cons_r).
  destruct (Z.eqb_spec c langle) as [->|Hc]; [apply IH; [done|done|lia]|].
  unfold until. pose proof (span_suffix (λ x, negb (langle =? x)) (c :: s')) as Hu.
  pose proof (span_parts (λ x, negb (langle =? x)) (c :: s')) as Hspec.
  destruct (span (λ x, negb (langle =? x)) (c :: s')) as [t r] eqn:Et. cbn [snd] in Hu.
  destruct r as [|b r]; [by apply finish_fine|].
  destruct Hspec as (Happ&Hb). cbn [fst snd] in Happ, Hb. apply negb_false_iff, Z.eqb_eq in Hb as <-.
  assert (Forall (λ c, c ≠ cr) t ∧ (2 * length t < k)%nat) as [Ht Hkt].
  { destruct (tame_suffix _ Hs') as [H1 H2]. rewrite Happ in H1, H2. apply Forall_app in H1 as [H1 _].
    rewrite length_app in H2. split; [done|lia]. }
  destruct (char_content_total k st1 root Hp1 Content t) as (s2&->&Hp2); [done..|]. cbn [mbind option_bind run_on].
  apply IH; [done|by etrans|]. apply suffix_length in Hu. cbn [length] in Hu. lia.
Qed.
End Loop.

Lemma new_parsing st : coherent st → parsing (ezxml_new None st).1 (brk st).
Proof.
  intros [Hwf H]. set (p := brk st). unfold ezxml_new, malloc. cbn [fst nodes roots brk]. fold p.
  assert (∀ a x, nodes st !! a = Some x → a ≠ p) as Hne by (intros a x Hx ->; destruct (Hwf _ _ Hx); subst p; lia).
  split; [split|split].
  - intros a x Hx. cbn in Hx |- *. destruct (decide (a = p)) as [->|Ha].
    + rewrite lookup_insert_eq in Hx. injection Hx as <-. split; [lia|done].
    + rewrite lookup_insert_ne in Hx by done. destruct (Hwf a x Hx) as [? Hp]. subst p. split; [lia|].
      intros d Hd. specialize (Hp d Hd). lia.
  - intros a x Hx. cbn [nodes] in *. destruct (decide (a = p)) as [->|Ha].
    + rewrite lookup_insert_eq in Hx. injection Hx as <-. split; [|done]. exists []. split; [|constructor].
      split; cbn [fmap list_fmap head firsts]; try constructor; try done. cbn. by rewrite lookup_fmap, lookup_insert_eq.
    + rewrite lookup_insert_ne in Hx by done. destruct (H a x Hx) as [(ks&Hs&Ho) Hp]. split.
      * exists ks. split; [|done]. apply (sub_tags_same st); [done| |].
        -- intros b y _ Hy. exists y. cbn [nodes]. rewrite lookup_insert_ne by (apply not_eq_sym; by eapply Hne). by split_and!.
        -- intros y Hy. exists y. cbn [nodes]. by rewrite lookup_insert_ne.
      * intros d Hd. apply Hp in Hd. rewrite dom_insert_L. set_solver.
  - cbn [nodes]. rewrite dom_insert_L. set_solver.
  - cbn [roots nodes]. eexists. split; [apply lookup_insert_eq|]. split_and!; try done.
    intros q [= <-]. rewrite dom_insert_L. set_solver.
Qed.


(** ** A document that is not valid *)

Fixpoint markups_ok (doc : str) : bool :=
  match doc with
  | [] => true
  | c :: r => (negb (c =? langle) || (negb (starts (chars "!DOCTYPE") r) && negb (starts (chars "?>") r))) && markups_ok r
  end.

Lemma tame_check doc :
  forallb (λ c, negb (c =? 0) && negb (c =? cr)) doc = true → ezxml_str2utf8 doc = None → markups_ok doc = true → tame doc.
Proof.
  intros H1 H2 H3. split; [|split; [done|]].
  - apply Forall_forall. intros c Hc. rewrite forallb_forall in H1. apply list_elem_of_In, H1, andb_true_iff in Hc as [Hz Hr].
    split; by apply Z.eqb_neq, negb_true_iff.
  - intros r [l ->]. clear -H3. induction l as [|c l IH]; [|cbn in H3; apply andb_true_iff in H3 as [_ H3]; by apply IH].
    cbn [app markups_ok] in H3. change (langle =? langle) with true in H3. cbn [negb orb] in H3.
    apply andb_true_iff in H3 as [H3 _]. apply andb_true_iff in H3 as [Ha Hb]. by split; apply negb_true_iff.
Qed.

Definition bad_document : str := chars "<vm class='PC'><memory size=128>&amp; <!-- MB --></memory></vm> <".

