(* ===== verification/Image.v ===== *)
(** * Guest images ([linux_usr/v3_create.c])

    The image a guest is created from: a header, the configuration, a table of
    files and the files' contents, in one buffer.  The configuration text and the
    table are arguments ([Create] makes them from the configuration), as are the
    answers of [read] and [write].  [Undefined] is behaviour C leaves
    undefined, [Minus1] an exit with -1. *)
From S2P Require Import Prelude Text BootParams Teardown.
#[local] Open Scope Z_scope.
#[local] Open Scope list_scope.

(** ** The code: reading and writing *)

(** The loop of [read_file]: [read pos n] is what a [read] of [n] bytes at
    position [pos] returns, nothing for an error or the end.  The bytes read so
    far, and the return value; [None] when the loop has not ended within [fuel]. *)
Fixpoint read_loop (fuel : nat) (read : Z → Z → list byte) (left_to_read : Z) (buf : list byte)
  : option (list byte * Z) :=
  match fuel with
  | O => None
  | S fuel =>
      if left_to_read =? 0 then Some (buf, 0) else
      let bytes := read (zlen buf) left_to_read in
      if zlen bytes <=? 0 then Some (buf, -1) else
      read_loop fuel read (left_to_read - zlen bytes) (buf ++ bytes)
  end.
Definition read_file (fuel : nat) (read : Z → Z → list byte) (size : Z) : option (list byte * Z) :=
  read_loop fuel read size [].

(** [write_file]: [write d] is how many of the bytes [d] a [write] takes. *)
Fixpoint write_loop (fuel : nat) (write : list byte → Z) (left : list byte) (out : list byte)
  : option (list byte * Z) :=
  match fuel with
  | O => None
  | S fuel =>
      match left with
      | [] => Some (out, 0)
      | _ => let n := write left in
             if n <=? 0 then Some (out, -1) else
             write_loop fuel write (drop (Z.to_nat n) left) (out ++ take (Z.to_nat n) left)
      end
  end.
Definition write_file (fuel : nat) (write : list byte → Z) (buf : list byte) : option (list byte * Z) :=
  write_loop fuel write buf [].

(** ** The code: the files of a configuration *)

Definition MAX_FILES : Z := 256.
Record file_info := { fi_size : Z; filename : list Z; fi_id : list Z }.

(** ** The code: the image *)

Definition magic : list byte := byte_of_Z <$> (chars "v3vee" ++ [0; 0; 0]).

Definition total_size (files : list file_info) : Z :=
  foldl (λ a f, a + fi_size f) 0 files.
Definition guest_img_size (xml : list byte) (files : list file_info) : Z :=
  8 + 4 + zlen xml + 8 + 8 + zlen files * 16 + 8 + total_size files.

(** The table of files: the entry number, the size and the offset of each. *)
Fixpoint file_table (i offset file_offset : Z) (files : list file_info) (img : list byte)
  : option (Z * list byte) :=
  match files with
  | [] => Some (offset, img)
  | f :: files =>
      img ← blit img offset (le 4 i);
      img ← blit img (offset + 4) (le 4 (fi_size f));
      img ← blit img (offset + 8) (le 8 file_offset);
      file_table (i + 1) (offset + 16) (file_offset + fi_size f) files img
  end.

(** The contents; a file that is shorter than its size leaves zeros, and its
    error is not looked at.  [reads i]: the [read] on the [i]-th file, [None] when
    it cannot be opened. *)
Fixpoint file_data (fuel : nat) (reads : nat → option (Z → Z → list byte)) (i : nat) (offset : Z)
    (files : list file_info) (img : list byte) : result (list byte) :=
  match files with
  | [] => Ret img
  | f :: files =>
      match reads i with
      | None => Minus1
      | Some read =>
          match read_file fuel read (fi_size f) with
          | None => Undefined
          | Some (bytes, _) =>
              match blit img offset bytes with
              | None => Undefined
              | Some img => file_data fuel reads (S i) (offset + fi_size f) files img
              end
          end
      end
  end.

(** The buffer, from the allocation on; [xml] is the configuration's text.  Sizes
    that are negative, or do not fit [int] together, are [Undefined]. *)
Definition build_blob (fuel : nat) (xml : list byte) (files : list file_info)
    (reads : nat → option (Z → Z → list byte)) : result (list byte) :=
  if existsb (λ f, fi_size f <? 0) files || (2 ^ 31 <=? guest_img_size xml files) then Undefined else
  let img := replicate (Z.to_nat (guest_img_size xml files)) Byte.x00 in
  let head :=
    img ← blit img 0 magic;
    img ← blit img 8 (le 4 (zlen xml));
    img ← blit img 12 xml;
    let offset := 12 + zlen xml in
    img ← blit img offset (replicate 8 Byte.x00);
    let offset := offset + 8 in
    img ← blit img offset (le 8 (zlen files));
    let offset := offset + 8 in
    '(offset, img) ← file_table 0 offset (offset + 16 * zlen files + 8) files img;
    img ← blit img offset (replicate 8 Byte.x00);
    Some (offset + 8, img) in
  match head with
  | None => Undefined
  | Some (offset, img) => file_data fuel reads 0 offset files img
  end.

(** The name of the image: [.img] in place of the first [.xml] and what follows.
    Without one, the command line's own string is reallocated. *)
Fixpoint img_name (filename : list Z) : result (list Z) :=
  match strip_prefix (chars ".xml") filename with
  | Some _ => Ret (chars ".img")
  | None =>
      match filename with
      | [] => Undefined
      | c :: s => s ← img_name s; Ret (c :: s)
      end
  end.

(** The request to create the guest. *)
Definition vm_path_bytes (filename vm_name : list Z) : list byte :=
  byte_of_Z <$> (strncpy filename 256 ++ strncpy vm_name 128).

(** ** Specification: reading an image *)

(** The configuration of an image, and its [k]-th file, found as the header says. *)
Definition number (n : nat) (off : Z) (img : list byte) : Z := unle (take n (drop (Z.to_nat off) img)).
Definition image_config (img : list byte) : option (list byte) := slice img 12 (number 4 8 img).
Definition image_file (k : Z) (img : list byte) : option (list byte) :=
  let entry := 12 + number 4 8 img + 16 + 16 * k in
  slice img (number 8 (entry + 8) img) (number 4 (entry + 4) img).

(** A descriptor: what [read] may return. *)
Definition reader (read : Z → Z → list byte) : Prop := ∀ pos n, 0 ≤ n → zlen (read pos n) ≤ n.

Definition zeros (n : nat) : list byte := replicate n Byte.x00.
Definition padded (size : Z) (bytes : list byte) : list byte := bytes ++ zeros (Z.to_nat size - length bytes).

(** ** Lemmas *)

Lemma read_loop_spec fuel read left buf :
  reader read → 0 ≤ left < Z.of_nat fuel →
  ∃ bytes ret, read_loop fuel read left buf = Some (buf ++ bytes, ret) ∧ zlen bytes ≤ left ∧
    (ret = 0 ∨ ret = -1) ∧ (ret = 0 ↔ zlen bytes = left).
Proof.
  intros Hr. revert left buf. induction fuel as [|fuel IH]; intros left buf Hl; [lia|]. cbn [read_loop].
  destruct (Z.eqb_spec left 0) as [->|Hne].
  - exists [], 0. rewrite app_nil_r. simpl. split; [done|]. split; [lia|]. split; [by left|done].
  - pose proof (Hr (zlen buf) left ltac:(lia)). destruct (Z.leb_spec (zlen (read (zlen buf) left)) 0).
    + exists [], (-1). rewrite app_nil_r. simpl. split; [done|]. split; [lia|]. split; [by right|lia].
    + destruct (IH (left - zlen (read (zlen buf) left)) (buf ++ read (zlen buf) left)) as (b&r&->&?&?&Hz); [lia|].
      exists (read (zlen buf) left ++ b), r. rewrite <-app_assoc, length_app. split; [done|]. split; [lia|].
      split; [done|]. rewrite Hz. lia.
Qed.

Lemma write_loop_spec fuel write left out :
  (length left < fuel)%nat →
  ∃ n ret, write_loop fuel write left out = Some (out ++ take n left, ret) ∧
    (ret = 0 ∨ ret = -1) ∧ (ret = 0 → take n left = left).
Proof.
  revert left out. induction fuel as [|fuel IH]; intros left out Hl; [lia|]. cbn [write_loop].
  destruct left as [|b left]; [exists 0%nat, 0; rewrite app_nil_r; auto|].
  destruct (Z.leb_spec (write (b :: left)) 0).
  - exists 0%nat, (-1). rewrite take_0, app_nil_r. split; [done|]. split; [by right|done].
  - set (n := Z.to_nat (write (b :: left))).
    destruct (IH (drop n (b :: left)) (out ++ take n (b :: left))) as (m&r&->&Hr&Hz).
    { rewrite length_drop. simpl in *. lia. }
    exists (n + m)%nat, r. rewrite <-app_assoc. rewrite <-take_take_drop. split; [done|]. split; [done|].
    intros ->. rewrite Hz by done. by rewrite take_drop.
Qed.

(** A [write] that always takes something takes the whole. *)
Lemma write_loop_all fuel write left out :
  (∀ d, d ≠ [] → 0 < write d) → (length left < fuel)%nat → write_loop fuel write left out = Some (out ++ left, 0).
Proof.
  intros Hw. revert left out. induction fuel as [|fuel IH]; intros left out Hl; [lia|]. cbn [write_loop].
  destruct left as [|b left]; [by rewrite app_nil_r|]. specialize (Hw (b :: left) ltac:(done)).
  rewrite (proj2 (Z.leb_gt _ 0)) by done. rewrite IH; [by rewrite <-app_assoc, take_drop|].
  rewrite length_drop. simpl in *. lia.
Qed.

(** The table and the data of a list of contents. *)
Definition entry (i size off : Z) : list byte := le 4 i ++ le 4 size ++ le 8 off.
Fixpoint entries (i off : Z) (cs : list (list byte)) : list (list byte) :=
  match cs with [] => [] | c :: cs => entry i (zlen c) off :: entries (i + 1) (off + zlen c) cs end.

Lemma entry_length i s o : length (entry i s o) = 16%nat.
Proof. unfold entry. by rewrite !length_app, !le_length. Qed.

Lemma entries_length i off cs : length (concat (entries i off cs)) = (16 * length cs)%nat.
Proof.
  revert i off. induction cs as [|c cs IH]; intros i off; [done|]. cbn [entries concat length].
  rewrite length_app, entry_length, IH. lia.
Qed.

Definition sizes_are (files : list file_info) (cs : list (list byte)) : Prop :=
  Forall2 (λ f c, fi_size f = zlen c) files cs.

Lemma file_table_spec i fo files cs pre k :
  sizes_are files cs → (16 * length cs ≤ k)%nat →
  file_table i (zlen pre) fo files (pre ++ zeros k) =
    Some (zlen (pre ++ concat (entries i fo cs)),
          (pre ++ concat (entries i fo cs)) ++ zeros (k - 16 * length cs)).
Proof.
  intros Hs. revert i fo pre k. induction Hs as [|f c files cs Hf Hs IH]; intros i fo pre k Hk; cbn [file_table].
  - cbn [entries concat length]. by rewrite app_nil_r, Nat.mul_0_r, Nat.sub_0_r.
  - unfold zeros in *. cbn [length] in Hk. rewrite Hf.
    rewrite blit_append by (rewrite ?le_length; lia). cbn [mbind option_bind].
    rewrite blit_append by (rewrite ?length_app, ?le_length; lia). cbn [mbind option_bind].
    rewrite blit_append by (rewrite ?length_app, ?le_length; lia). cbn [mbind option_bind].
    rewrite !le_length.
    replace (((pre ++ le 4 i) ++ le 4 (zlen c)) ++ le 8 fo) with (pre ++ entry i (zlen c) fo)
      by (unfold entry; by rewrite <-!app_assoc).
    replace (zlen pre + 16) with (zlen (pre ++ entry i (zlen c) fo)) by (rewrite length_app, entry_length; lia).
    rewrite IH by lia. cbn [entries concat length]. rewrite !app_assoc. do 4 f_equal. lia.
Qed.

(** What a file contributes: the bytes read, then zeros. *)
Definition content (fuel : nat) (read : option (Z → Z → list byte)) (f : file_info) : list byte :=
  match read with
  | None => []
  | Some read =>
      match read_file fuel read (fi_size f) with Some (bytes, _) => padded (fi_size f) bytes | None => [] end
  end.
Fixpoint contents (fuel : nat) (reads : nat → option (Z → Z → list byte)) (i : nat) (files : list file_info)
  : list (list byte) :=
  match files with [] => [] | f :: files => content fuel (reads i) f :: contents fuel reads (S i) files end.

Definition readable (fuel : nat) (read : option (Z → Z → list byte)) (f : file_info) : Prop :=
  0 ≤ fi_size f < Z.of_nat fuel ∧ ∃ rd, read = Some rd ∧ reader rd.

Lemma read_file_content fuel rd f :
  readable fuel (Some rd) f →
  ∃ bytes r, read_file fuel rd (fi_size f) = Some (bytes, r) ∧ zlen bytes ≤ fi_size f ∧
    content fuel (Some rd) f = padded (fi_size f) bytes ∧ zlen (padded (fi_size f) bytes) = fi_size f.
Proof.
  intros (Hf&rd'&[= <-]&Hrd). destruct (read_loop_spec fuel rd (fi_size f) [] Hrd Hf) as (b&r&Hb&Hl&_).
  exists b, r. cbn [content]. unfold read_file. rewrite Hb. split_and!; [done|done|done|].
  unfold padded, zeros. rewrite length_app, length_replicate. lia.
Qed.

Lemma contents_lookup fuel reads i files k f :
  files !! k = Some f → contents fuel reads i files !! k = Some (content fuel (reads (i + k)%nat) f).
Proof.
  revert i k. induction files as [|g files IH]; intros i [|k] Hk; [done|done| |].
  - injection Hk as ->. cbn. by rewrite Nat.add_0_r.
  - cbn. rewrite IH by done. do 3 f_equal. lia.
Qed.

Lemma file_data_spec fuel reads i files pre k :
  (∀ j f, files !! j = Some f → readable fuel (reads (i + j)%nat) f) →
  total_size files ≤ Z.of_nat k →
  sizes_are files (contents fuel reads i files) ∧
  file_data fuel reads i (zlen pre) files (pre ++ zeros k) =
    Ret ((pre ++ concat (contents fuel reads i files)) ++ zeros (k - Z.to_nat (total_size files))).
Proof.
  intros Hr. revert i Hr pre k.
  assert (Hacc : ∀ fs a, foldl (λ a f, a + fi_size f) a fs = a + total_size fs).
  { unfold total_size. induction fs as [|g fs IHf]; intros a; cbn [foldl]; [lia|].
    rewrite IHf, (IHf (0 + fi_size g)). lia. }
  induction files as [|f files IH]; intros i Hr pre k Hk; cbn [contents concat file_data].
  - split; [constructor|]. cbn. by rewrite app_nil_r, Nat.sub_0_r.
  - pose proof (Hr 0%nat f eq_refl) as Hf. rewrite Nat.add_0_r in Hf.
    assert (Ht : total_size (f :: files) = fi_size f + total_size files).
    { unfold total_size at 1. cbn [foldl]. rewrite Hacc. lia. }
    assert (Hrs : ∀ j g, files !! j = Some g → readable fuel (reads (S i + j)%nat) g).
    { intros j g Hj. rewrite Nat.add_succ_comm. by apply Hr. }
    assert (0 ≤ total_size files).
    { clear -Hrs Hacc. revert i Hrs. induction files as [|g fs IHf]; intros i Hrs; [done|].
      unfold total_size. cbn [foldl]. rewrite Hacc. destruct (Hrs 0%nat g eq_refl) as [? _].
      enough (0 ≤ total_size fs) by lia. apply (IHf (S i)). intros j g' Hj. rewrite Nat.add_succ_comm. by apply Hrs. }
    destruct Hf as (Hsz&rd&Hrd&Hread). rewrite Hrd.
    destruct (read_file_content fuel rd f) as (b&r&Hb&Hl&Hc&Hz); [by split; [|exists rd]|].
    rewrite Hb, Hc. unfold zeros. rewrite Ht in Hk.
    rewrite blit_append by (done || lia).
    replace ((pre ++ b) ++ replicate (k - length b) Byte.x00)
      with ((pre ++ padded (fi_size f) b) ++ zeros (k - Z.to_nat (fi_size f))).
    2:{ unfold padded, zeros. rewrite <-!app_assoc. do 2 f_equal. rewrite <-replicate_add. f_equal. lia. }
    replace (zlen pre + fi_size f) with (zlen (pre ++ padded (fi_size f) b)) by (rewrite length_app; lia).
    destruct (IH (S i) Hrs (pre ++ padded (fi_size f) b) (k - Z.to_nat (fi_size f))%nat) as [IH1 IH2]; [lia|].
    split; [constructor; [lia|done]|]. rewrite IH2, <-!app_assoc. unfold zeros. do 5 f_equal. lia.
Qed.

(** The blob, laid out. *)
Definition parts (xml : list byte) (n : Z) (es : list (list byte)) (cs : list (list byte)) : list (list byte) :=
  [magic; le 4 (zlen xml); xml; zeros 8; le 8 n; concat es; zeros 8] ++ cs.

Lemma total_size_contents files cs : sizes_are files cs → total_size files = zlen (concat cs).
Proof.
  unfold total_size. intros Hs. enough (∀ a, foldl (λ a f, a + fi_size f) a files = a + zlen (concat cs)) as H
    by (rewrite H; lia).
  induction Hs as [|f c files cs Hf _ IH]; intros a; cbn [foldl concat]; [cbn; lia|].
  rewrite IH, length_app. lia.
Qed.

Lemma sizes_nonneg files cs : sizes_are files cs → existsb (λ f, fi_size f <? 0) files = false.
Proof.
  induction 1 as [|f c files cs Hf _ IH]; [done|]. cbn [existsb]. rewrite IH, orb_false_r, Hf.
  apply Z.ltb_ge. lia.
Qed.

Lemma build_blob_parts fuel xml files reads :
  (∀ i f, files !! i = Some f → readable fuel (reads i) f) →
  guest_img_size xml files < 2 ^ 31 →
  let cs := contents fuel reads 0 files in
  sizes_are files cs ∧
  build_blob fuel xml files reads =
    Ret (concat (parts xml (zlen files) (entries 0 (12 + zlen xml + 24 + 16 * zlen files) cs) cs)).
Proof.
  intros Hr Hsz cs.
  destruct (file_data_spec fuel reads 0 files [] (Z.to_nat (total_size files)) Hr) as [Hs _]; [lia|].
  fold cs in Hs. split; [done|].
  pose proof (total_size_contents _ _ Hs) as Ht. pose proof (Forall2_length Hs) as Hlen.
  unfold build_blob. rewrite (sizes_nonneg _ _ Hs). cbn [orb].
  destruct (Z.leb_spec (2 ^ 31) (guest_img_size xml files)); [lia|]. clear H Hsz.
  set (k := Z.to_nat (guest_img_size xml files)).
  assert (Hk : k = (12 + length xml + 24 + 16 * length cs + length (concat cs))%nat)
    by (unfold k, guest_img_size; lia).
  change (replicate k Byte.x00) with ([] ++ replicate k Byte.x00).
  assert (length magic = 8%nat) as Hm by done.
  repeat (rewrite blit_append; cycle 1;
    [rewrite ?length_app, ?le_length, ?length_replicate, ?Hm; cbn [length app]; lia
    |rewrite ?length_app, ?le_length, ?length_replicate, ?Hm; cbn [length app]; lia
    |cbn [mbind option_bind]]).
  set (pre := ((((([] ++ magic) ++ le 4 (zlen xml)) ++ xml) ++ replicate 8 Byte.x00) ++ le 8 (zlen files))).
  assert (length pre = (12 + length xml + 16)%nat) as Hpre.
  { unfold pre. rewrite !length_app, !le_length, length_replicate, Hm. cbn [length]. lia. }
  rewrite !le_length, length_replicate, Hm.
  set (m := (k - 8 - 4 - length xml - 8 - 8)%nat).
  replace (12 + zlen xml + 8 + 8) with (zlen pre) by lia.
  change (replicate m Byte.x00) with (zeros m).
  rewrite (file_table_spec _ _ files cs pre m Hs) by lia. cbn [mbind option_bind].
  unfold zeros. rewrite blit_append by (rewrite ?length_app, ?entries_length, ?length_replicate; lia).
  cbn [mbind option_bind]. rewrite length_replicate.
  set (es := entries _ _ cs). set (pre2 := (pre ++ concat es) ++ replicate 8 Byte.x00).
  replace (zlen (pre ++ concat es) + 8) with (zlen pre2)
    by (unfold pre2; rewrite (length_app (pre ++ _)), length_replicate; lia).
  destruct (file_data_spec fuel reads 0 files pre2 (m - 16 * length cs - 8) Hr) as [_ Hd]; [lia|].
  change (replicate (m - 16 * length cs - 8) Byte.x00) with (zeros (m - 16 * length cs - 8)).
  rewrite Hd. fold cs. replace (m - 16 * length cs - 8 - Z.to_nat (total_size files))%nat with 0%nat by lia.
  cbn [zeros replicate]. rewrite app_nil_r. f_equal. unfold parts. rewrite concat_app. unfold pre2, pre, es.
  cbn [concat app]. rewrite app_nil_r, <-!app_assoc. unfold zeros.
  by replace (zlen pre + 16 * zlen files + 8) with (12 + zlen xml + 24 + 16 * zlen files) by lia.
Qed.

Lemma entries_lookup i off cs k c :
  cs !! k = Some c →
  entries i off cs !! k = Some (entry (i + Z.of_nat k) (zlen c) (off + zlen (concat (take k cs)))).
Proof.
  revert i off k. induction cs as [|d cs IH]; intros i off [|k] Hk; [done|done| |].
  - injection Hk as ->. cbn. by rewrite !Z.add_0_r.
  - cbn [lookup list_lookup entries] in *. rewrite (IH _ _ _ Hk). cbn [take concat]. rewrite length_app.
    do 2 f_equal; lia.
Qed.

Lemma entries_take i off cs k : take k (entries i off cs) = entries i off (take k cs).
Proof.
  revert i off k. induction cs as [|d cs IH]; intros i off [|k]; [done..|]. cbn [entries take]. by rewrite IH.
Qed.

(** An entry of the table, found in the blob. *)
Lemma part_slice {A} (l : list (list A)) i x off :
  l !! i = Some x → off = zlen (concat (take i l)) → slice (concat l) off (zlen x) = Some x.
Proof.
  intros Hi ->. rewrite slice_Some.
  - by rewrite !Nat2Z.id, (part_at l i x).
  - lia.
  - lia.
  - rewrite <-(take_drop_middle l i x Hi) at 2. rewrite concat_app. cbn [concat]. rewrite !length_app. lia.
Qed.

Lemma entry_fields i s o :
  take 8 (drop 8 (entry i s o)) = le 8 o ∧ take 4 (drop 4 (entry i s o)) = le 4 s.
Proof.
  assert (entry i s o = concat [le 4 i; le 4 s; le 8 o]) as -> by (unfold entry; cbn; by rewrite ?app_nil_r).
  by rewrite (part_at _ 2 (le 8 o)), (part_at _ 1 (le 4 s)) by (done || by rewrite le_length).
Qed.

Lemma take_drop_in {A} (l x : list A) m d n o :
  take m (drop o l) = x → (d + n ≤ m)%nat → take n (drop (o + d) l) = take n (drop d x).
Proof.
  intros <- H. rewrite <-drop_drop. replace m with (d + (m - d))%nat by lia.
  rewrite <-take_drop_commute, take_take. f_equal. lia.
Qed.

Lemma parts_head (xml : list byte) n es cs :
  zlen xml < 2 ^ 32 →
  number 4 8 (concat (parts xml n es cs)) = zlen xml.
Proof.
  intros Hx. unfold number. rewrite (part_at _ 1 (le 4 (zlen xml))); [|done|by rewrite le_length|done].
  rewrite unle_le. apply Z.mod_small. lia.
Qed.

(** The offset of the table, and of the first file. *)
Lemma parts_offsets xml n es cs :
  length (concat (take 5 (parts xml n es cs))) = (28 + length xml)%nat ∧
  length (concat (firstn 7 (parts xml n es cs))) = (36 + length xml + length (concat es))%nat.
Proof.
  unfold parts. cbn [take firstn concat app]. rewrite !app_nil_r, !length_app, !le_length.
  unfold zeros. rewrite !length_replicate. change (length magic) with 8%nat. lia.
Qed.

Lemma image_file_parts xml cs k d :
  let o := 12 + zlen xml + 24 + 16 * zlen cs in
  o + zlen (concat cs) < 2 ^ 31 → cs !! k = Some d →
  image_file (Z.of_nat k) (concat (parts xml (zlen cs) (entries 0 o cs) cs)) = Some d.
Proof.
  intros o Hsz Hc. set (es := entries 0 o cs). set (l := parts xml (zlen cs) es cs).
  set (off := o + zlen (concat (take k cs))).
  assert (Hes : length (concat es) = (16 * length cs)%nat) by apply entries_length.
  destruct (parts_offsets xml (zlen cs) es cs) as [Ho5 Ho7].
  assert (k < length cs)%nat as Hlt by (apply lookup_lt_Some with d; exact Hc).
  assert (Hcat : (length (concat (take k cs)) + length d ≤ length (concat cs))%nat).
  { rewrite <-(take_drop_middle cs k d Hc) at 2. rewrite concat_app. cbn [concat]. rewrite !length_app. lia. }
  assert (Hent : take 16 (drop (28 + length xml + 16 * k) (concat l)) = entry (Z.of_nat k) (zlen d) off).
  { rewrite (take_drop_in (concat l) (concat es) (length (concat es)) _ _ (28 + length xml)); [|..|lia].
    - pose proof (entries_lookup 0 o cs k d Hc) as He. fold es off in He. rewrite Z.add_0_l in He.
      rewrite (part_at es k _ 16 _ He); [done|by rewrite entry_length|].
      unfold es. rewrite entries_take, entries_length, length_take. lia.
    - by apply (part_at l 5). }
  assert (Hnum : ∀ n p, (p + n ≤ 16)%nat →
    number n (12 + zlen xml + 16 + 16 * Z.of_nat k + Z.of_nat p) (concat l) =
    unle (take n (drop p (entry (Z.of_nat k) (zlen d) off)))).
  { intros n p Hp. unfold number. f_equal. rewrite <-(take_drop_in _ _ _ _ _ _ Hent Hp). do 2 f_equal. lia. }
  assert (number 4 8 (concat l) = zlen xml) as Hxml by (apply parts_head; lia).
  unfold image_file. rewrite Hxml.
  pose proof (Hnum 8%nat 8%nat ltac:(lia)) as N8. pose proof (Hnum 4%nat 4%nat ltac:(lia)) as N4.
  change (Z.of_nat 8) with 8 in N8. change (Z.of_nat 4) with 4 in N4. rewrite N8, N4.
  destruct (entry_fields (Z.of_nat k) (zlen d) off) as [-> ->].
  rewrite !unle_le, !Z.mod_small by lia.
  apply (part_slice l (7 + k)); [exact Hc|].
  change (take (7 + k) l) with (firstn 7 l ++ take k cs). rewrite concat_app, length_app.
  unfold l. rewrite Ho7. unfold off, o. lia.
Qed.

(** ** The theorems *)

(** An image reads back as what it was made of.  When the files can be opened
    and the blob fits an [int], [build_image] makes a blob of the size it
    computed, whose configuration is the text given, and in which the entry of
    every file leads to that file's contents: the bytes [read_file] got, padded
    with zeros when the file was shorter than [stat] said. *)
Theorem image_roundtrip fuel xml files reads :
  (∀ i f, files !! i = Some f → readable fuel (reads i) f) →
  guest_img_size xml files < 2 ^ 31 →
  ∃ img, build_blob fuel xml files reads = Ret img ∧ zlen img = guest_img_size xml files ∧
    take 8 img = magic ∧ image_config img = Some xml ∧
    number 8 (20 + zlen xml) img = zlen files ∧
    ∀ k f, files !! k = Some f → ∃ rd bytes r,
      reads k = Some rd ∧ read_file fuel rd (fi_size f) = Some (bytes, r) ∧
      image_file (Z.of_nat k) img = Some (padded (fi_size f) bytes).
Proof.
  intros Hr Hsz. destruct (build_blob_parts fuel xml files reads Hr Hsz) as [Hs Hb].
  set (cs := contents fuel reads 0 files) in *. set (o := 12 + zlen xml + 24 + 16 * zlen files) in *.
  set (es := entries 0 o cs) in *. set (l := parts xml (zlen files) es cs) in *.
  pose proof (total_size_contents _ _ Hs) as Ht. pose proof (Forall2_length Hs) as Hlen.
  assert (Hes : length (concat es) = (16 * length cs)%nat) by apply entries_length.
  unfold guest_img_size in *. exists (concat l). split; [done|].
  assert (number 4 8 (concat l) = zlen xml) as Hxml by (apply parts_head; lia).
  split_and!.
  - unfold l, parts. rewrite concat_app. cbn [concat]. rewrite app_nil_r, !length_app, !le_length.
    unfold zeros. rewrite !length_replicate. change (length magic) with 8%nat. lia.
  - by rewrite (part_at l 0 magic _ 0).
  - unfold image_config. rewrite Hxml. by apply (part_slice l 2).
  - unfold number. rewrite (part_at l 4 (le 8 (zlen files))); [|done|by rewrite le_length|].
    { rewrite unle_le. apply Z.mod_small. lia. }
    cbn [take concat l parts app]. rewrite app_nil_r, !length_app, le_length.
    unfold zeros. rewrite !length_replicate. change (length magic) with 8%nat. lia.
  - intros k f Hk. pose proof (contents_lookup fuel reads 0 files k f Hk) as Hc. fold cs in Hc.
    destruct (Hr k f Hk) as (Hf&rd&Hrd&Hread). cbn [Nat.add] in Hc. rewrite Hrd in Hc.
    destruct (read_file_content fuel rd f) as (b&r&Hbr&_&Hcont&Hpl); [by split; [|exists rd]|].
    rewrite Hcont in Hc. exists rd, b, r. split; [done|]. split; [done|].
    unfold l, es, o. rewrite Hlen. apply image_file_parts; [lia|done].
Qed.

(** The loops of [read_file] and [write_file] end, whatever the system calls
    return: within one iteration per byte, with 0 when the whole was moved and -1
    when a call failed or found the end; [read_file] never writes past its buffer
    and [write_file] leaves the first bytes of its buffer in the file. *)
Theorem file_loops_end fuel :
  (∀ read size, reader read → 0 ≤ size < Z.of_nat fuel →
    ∃ bytes ret, read_file fuel read size = Some (bytes, ret) ∧ zlen bytes ≤ size ∧
      (ret = 0 ∧ zlen bytes = size ∨ ret = -1 ∧ zlen bytes < size)) ∧
  (∀ write buf, (length buf < fuel)%nat →
    ∃ n ret, write_file fuel write buf = Some (take n buf, ret) ∧
      (ret = 0 ∧ take n buf = buf ∨ ret = -1)).
Proof.
  split.
  - intros read size Hr Hs. destruct (read_loop_spec fuel read size [] Hr Hs) as (b&r&Hb&Hl&Hr'&Hi).
    exists b, r. split; [done|]. split; [done|]. destruct Hr' as [->| ->]; [left; tauto|right]. split; [done|].
    destruct (decide (zlen b = size)) as [He|]; [apply Hi in He; lia|lia].
  - intros write buf Hb. destruct (write_loop_spec fuel write buf [] Hb) as (n&r&Hw&Hr&Hz).
    exists n, r. split; [done|]. destruct Hr as [->| ->]; [left; auto|by right].
Qed.

(** ** Witnesses *)

(** A configuration of four bytes with two files, read two bytes at a time; the
    second file is shorter than its size. *)
Definition ex_read (file : list byte) (pos n : Z) : list byte :=
  take (Z.to_nat (Z.min 2 n)) (drop (Z.to_nat pos) file).
Definition ex_bytes (s : list Z) : list byte := byte_of_Z <$> s.
Definition ex_files : list file_info :=
  [{| fi_size := 3; filename := chars "a"; fi_id := chars "a" |};
   {| fi_size := 5; filename := chars "b"; fi_id := chars "b" |}].
Definition ex_reads (i : nat) : option (Z → Z → list byte) :=
  match i with O => Some (ex_read (ex_bytes (chars "xyz"))) | _ => Some (ex_read (ex_bytes (chars "uv"))) end.

Lemma ex_reader file : reader (ex_read file).
Proof. intros pos n Hn. unfold ex_read. rewrite length_take. lia. Qed.

Lemma ex_readable i f : ex_files !! i = Some f → readable 8 (ex_reads i) f.
Proof.
  destruct i as [|[|i]]; [| |done]; intros [= <-]; (split; [cbn; lia|]);
    (eexists; split; [reflexivity|apply ex_reader]).
Qed.

Lemma image_roundtrip_witness :
  ∃ img, build_blob 8 (ex_bytes (chars "<v/>")) ex_files ex_reads = Ret img ∧
    image_config img = Some (ex_bytes (chars "<v/>")) ∧
    image_file 1 img = Some (ex_bytes (chars "uv") ++ zeros 3).
Proof.
  destruct (image_roundtrip 8 (ex_bytes (chars "<v/>")) ex_files ex_reads ex_readable
              ltac:(vm_compute; reflexivity)) as (img&Hb&_&_&Hc&_&Hf).
  exists img. split; [exact Hb|]. split; [exact Hc|].
  destruct (Hf 1%nat _ eq_refl) as (rd&b&r&[= <-]&Hb'&Hi).
  revert Hb' Hi. vm_compute (read_file _ _ _). intros [= <- <-]. exact id.
Defined.

Lemma file_loops_end_witness :
  read_file 8 (ex_read (ex_bytes (chars "uv"))) 5 = Some (ex_bytes (chars "uv"), -1) ∧
  ∃ n ret, write_file 8 (λ _, 3) (ex_bytes (chars "uvwxyz")) = Some (take n (ex_bytes (chars "uvwxyz")), ret) ∧
    (ret = 0 ∧ take n (ex_bytes (chars "uvwxyz")) = ex_bytes (chars "uvwxyz") ∨ ret = -1).
Proof.
  destruct (file_loops_end 8) as [Hr Hw]. split.
  - destruct (Hr (ex_read (ex_bytes (chars "uv"))) 5 (ex_reader _) ltac:(lia)) as (b&r&Hb&_).
    rewrite Hb. revert Hb. vm_compute (read_file _ _ _). intros [= <- <-]. reflexivity.
  - apply (Hw (λ _, 3)). vm_compute. lia.
Defined.
