(* ===== verification/Create.v ===== *)
(** * Creating a guest ([linux_usr/v3_create.c])

    The program over the XML library: it reads a configuration, numbers the files
    that the configuration names, prints the configuration into the image that
    [Image] lays out, and asks an enclave to create the guest.  [Undefined] is
    behaviour that C leaves undefined, [Minus1] an exit with -1.  What the system
    calls return are arguments. *)
From stdpp Require Import gmap sorting.
From S2P Require Import Prelude Text BootParams Teardown Ctrl Options Image Ezxml EzxmlLinks EzxmlText EzxmlParse EzxmlTree.
From stdpp Require Import list.
#[local] Open Scope Z_scope.

Definition or_undefined {A} (o : option A) : result A := match o with Some a => Ret a | None => Undefined end.

(** ** The code: the configuration *)

(** What the calls to the system give: the configuration, if it can be opened,
    whether it can be mapped, and what [read] makes of it otherwise; the size of a
    file, if there is one; the reads of each file of the table; whether the image
    can be created, and how much of it a [write] takes. *)
Record host := Host {
  h_config : option str; h_mapped : bool; h_short : nat;
  h_stat : str → option Z;
  h_open : nat → option (Z → Z → list byte);
  h_create : bool; h_write : list byte → Z }.

Definition open_xml_file (k : nat) (h : host) : option (store * option addr) :=
  '(st, xml) ← ezxml_parse_file k (Store ∅ ∅ 0) (h_config h) (h_mapped h) (h_short h);
  match xml with
  | None => Some (st, None)
  | Some _ => e ← ezxml_error st xml; Some (st, match e with None => xml | Some _ => None end)
  end.

(** An attribute, or the text of a sub tag; the empty string when there is none. *)
Definition get_val (st : store) (cfg : addr) (tag : str) : result str :=
  attrib ← or_undefined (ezxml_attr st (Some cfg) tag);
  txt ← or_undefined (ezxml_child st (Some cfg) tag);
  match txt, attrib with
  | Some _, Some _ => Minus1
  | _, None => or_undefined (ezxml_txt st txt)
  | _, Some v => Ret v
  end.

(** The loop over the [file] tags.  The table has [MAX_FILES] entries; the code does
    not look. *)
Fixpoint aux_loop (fuel : nat) (h : host) (st : store) (tmp_file_tag : option addr) (files : list file_info)
    : result (store * list file_info) :=
  match fuel with
  | O => Undefined
  | S fuel =>
      match tmp_file_tag with
      | None => Ret (st, files)
      | Some tag =>
          fname ← get_val st tag (chars "filename");
          id ← get_val st tag (chars "id");
          match h_stat h fname with
          | None => Minus1
          | Some size =>
              if zlen files >=? MAX_FILES then Undefined else
              let file := {| fi_size := s32 (u32 size); filename := strncpy fname 2048; fi_id := strncpy id 256 |} in
              st ← or_undefined (ezxml_set_attr_d st tmp_file_tag (chars "index") (pct_d (zlen files)));
              next ← or_undefined (ezxml_next st tmp_file_tag);
              aux_loop fuel h st next (files ++ [file])
          end
      end
  end.

Definition parse_aux_files (h : host) (st : store) (cfg_input : option addr) : result (store * list file_info) :=
  file_tags ← or_undefined (ezxml_child st cfg_input (chars "files"));
  tmp_file_tag ← or_undefined (ezxml_child st file_tags (chars "file"));
  aux_loop (fuel_of st) h st tmp_file_tag [].

(** ** The code: the image *)

Inductive create_event :=
  | Wrote (name : str) (bytes : list byte)
  | CtrlConnect (path : str)
  | CreateVm (vm : list byte).

(** The name of the image, or NULL, and what was done.  A configuration that could
    not be read goes on as NULL; a write that fails is not looked at. *)
Definition build_image (k fuel : nat) (h : host) (fname : str) : result (option str * list create_event) :=
  '(st, xml) ← or_undefined (open_xml_file k h);
  '(st, files) ← parse_aux_files h st xml;
  new_xml_str ← or_undefined (ezxml_toxml st xml);
  match build_blob fuel (byte_of_Z <$> new_xml_str) files (h_open h) with
  | Undefined => Undefined
  | Minus1 => Ret (None, [])
  | Ret guest_img_data =>
      fname ← img_name fname;
      if h_create h then
        '(out, _) ← or_undefined (write_file (S (length guest_img_data)) (h_write h) guest_img_data);
        Ret (Some fname, [Wrote fname out])
      else Ret (None, [])
  end.

(** ** The code: the request *)

(** The descriptor that the connection gives, and the answer to the request; the
    descriptor stays open. *)
Definition create_vm (enclave_path vm_name : str) (fname : option str) (ctrl_fd vm_id : Z)
    : result (Z * list create_event) :=
  match fname with
  | None => Undefined
  | Some fname =>
      Ret (if ctrl_fd <? 0 then (-1, [CtrlConnect enclave_path])
           else (if vm_id <? 0 then -1 else 0,
                 [CtrlConnect enclave_path; CreateVm (vm_path_bytes fname vm_name)]))
  end.

(** [argv] behind the options.  The configuration options are taken apart, and not
    used. *)
Definition create_main (k fuel : nat) (h : host) (build_flag : bool) (argv : list str) (ctrl_fd vm_id : Z)
    : result (Z * list create_event) :=
  match argv with
  | fname :: name :: enclave_path :: options =>
      '(fname, ev) ←
        (if build_flag then
           if existsb (λ o, match (strsep equals o).2 with None => true | Some _ => false end) options then Minus1
           else build_image k fuel h fname
         else Ret (Some fname, []));
      '(ret, ev') ← create_vm enclave_path name fname ctrl_fd vm_id;
      Ret (ret, ev ++ ev')
  | _ => Minus1
  end.

(** The whole command line; [opterr] is 0, and other options are passed over. *)
Definition create_command (k fuel : nat) (h : host) (argv : list str) (ctrl_fd vm_id : Z)
    : result (Z * list create_event) :=
  let '(os, args) := getopt_long false (chars "b") [] argv in
  create_main k fuel h (existsb (λ o, match o with Opt c _ _ => c =? 98 | Bad => false end) os) args ctrl_fd vm_id.

(** ** Specification: the files of a document *)

Fixpoint first_named (n : str) (f : forest) : option str :=
  match f with
  | Nil => None
  | Tag _ m _ t _ rest => if bool_decide (m = n) then Some t else first_named n rest
  end.

Definition value (a : list (str * str)) (kids : forest) (n : str) : result str :=
  match first_named n kids, Ezxml.assoc n a with
  | Some _, Some _ => Minus1
  | None, None => Ret []
  | Some t, None => Ret t
  | None, Some v => Ret v
  end.

(** The table of the [file] tags of a forest, behind the entries [files]. *)
Fixpoint files_of (stat : str → option Z) (f : forest) (files : list file_info) : result (list file_info) :=
  match f with
  | Nil => Ret files
  | Tag _ n a _ kids rest =>
      if bool_decide (n = chars "file") then
        fname ← value a kids (chars "filename"); id ← value a kids (chars "id");
        match stat fname with
        | None => Minus1
        | Some size =>
            if zlen files >=? MAX_FILES then Undefined else
            files_of stat rest (files ++ [{| fi_size := s32 (u32 size); filename := strncpy fname 2048; fi_id := strncpy id 256 |}])
        end
      else files_of stat rest files
  end.

(** What is below the first tag [files]. *)
Fixpoint files_tag (f : forest) : forest :=
  match f with
  | Nil => Nil
  | Tag _ n _ _ kids rest => if bool_decide (n = chars "files") then kids else files_tag rest
  end.

Fixpoint set_pair (n v : str) (a : list (str * str)) : list (str * str) :=
  match a with
  | [] => [(n, v)]
  | (m, w) :: a => if bool_decide (m = n) then (m, v) :: a else (m, w) :: set_pair n v a
  end.

(** The [file] tags get their number in the table. *)
Fixpoint number_tags (i : nat) (f : forest) : forest :=
  match f with
  | Nil => Nil
  | Tag o n a t kids rest =>
      if bool_decide (n = chars "file") then
        Tag o n (set_pair (chars "index") (pct_d (Z.of_nat i)) a) t kids (number_tags (S i) rest)
      else Tag o n a t kids (number_tags i rest)
  end.
Fixpoint number_files (f : forest) : forest :=
  match f with
  | Nil => Nil
  | Tag o n a t kids rest =>
      if bool_decide (n = chars "files") then Tag o n a t (number_tags 0 kids) rest
      else Tag o n a t kids (number_files rest)
  end.

(** ** Attributes *)

Lemma find_attr_pairs n l : at_text <$> find_attr n l = Ezxml.assoc n (attr_pairs l).
Proof.
  unfold find_attr, attr_pairs. induction l as [|a l IH]; [done|]. cbn [list_find fmap list_fmap Ezxml.assoc].
  case_decide as Hd; [by rewrite bool_decide_true|]. rewrite bool_decide_false by done. rewrite <-IH.
  by destruct (list_find _ l) as [[i b]|].
Qed.

Lemma set_attr_entry_pairs dup n v l :
  ∃ l', set_attr_entry dup n (Some v) l = Some l' ∧ attr_pairs l' = set_pair n v (attr_pairs l).
Proof.
  unfold set_attr_entry. set (mark := λ f, if dup then Z.lor f EZXML_TXTM else Z.land f (Z.lnot EZXML_TXTM)).
  enough (∃ l', match list_find (λ a, at_name a = n) l with
                | None => Some (l ++ [Attribute n (Some v) (mark (if dup then EZXML_NAMEM else 32))])
                | Some (i, a) => Some (<[i := Attribute (at_name a) (Some v) (mark (at_flags a))]> l)
                end = Some l' ∧ attr_pairs l' = set_pair n v (attr_pairs l)) as (l'&E&El).
  { exists l'. split; [|done]. by destruct (list_find _ l) as [[i a]|]. }
  unfold attr_pairs. induction l as [|a l IH]; [by eexists|]. cbn [list_find fmap list_fmap set_pair].
  case_decide as Hd.
  - rewrite bool_decide_true by done. eexists. split; [reflexivity|]. done.
  - rewrite bool_decide_false by done. destruct IH as (l'&E&El). exists (a :: l').
    split; [|cbn [fmap list_fmap]; by rewrite El].
    destruct (list_find _ l) as [[i b]|]; cbn in *; by simplify_eq.
Qed.

Lemma set_pair_names n v a :
  (n ∈ a.*1 → (set_pair n v a).*1 = a.*1) ∧ (n ∉ a.*1 → set_pair n v a = a ++ [(n, v)]).
Proof.
  induction a as [|[m w] a [IH1 IH2]]; [by split; [intros ?%elem_of_nil|]|]. cbn [set_pair fmap list_fmap fst]. rewrite elem_of_cons.
  case_bool_decide as Hd; [split; [done|]; intros []; by left|]. split.
  - intros [->|Hin]; [done|]. cbn [fmap list_fmap fst]. by rewrite IH1.
  - intros Hn. rewrite IH2; [done|]. by intros ?; apply Hn; right.
Qed.

Lemma set_pair_nodup n v a : NoDup a.*1 → NoDup (set_pair n v a).*1.
Proof.
  intros Hnd. destruct (set_pair_names n v a) as [H1 H2]. destruct (decide (n ∈ a.*1)) as [Hin|Hin]; [by rewrite H1|].
  rewrite H2, fmap_app by done. apply NoDup_app. split; [done|]. split; [|apply NoDup_singleton].
  intros m Hm ->%list_elem_of_singleton. done.
Qed.

Lemma set_pair_Forall (P : str * str → Prop) n v a :
  (∀ w, P (n, w) → P (n, v)) → (n ∉ a.*1 → P (n, v)) → Forall P a → Forall P (set_pair n v a).
Proof.
  intros Hw Hn. induction 1 as [|[m w] a Hx Ha IH]; cbn [set_pair].
  - repeat constructor. apply Hn. by intros ?%elem_of_nil.
  - case_bool_decide as Hd; constructor; try done; [subst; by eapply Hw|]. apply IH. intros Hni. apply Hn.
    cbn. rewrite elem_of_cons. by intros [->|?].
Qed.

(** ** Changing attributes *)

(** Only attributes and flags of the tags [al] change. *)
Record reattr (s s' : store) (al : list addr) : Prop := {
  ra_roots : roots s' = roots s;
  ra_brk : brk s' = brk s;
  ra_dom : dom (nodes s') = dom (nodes s);
  ra_other a : a ∉ al → nodes s' !! a = nodes s !! a;
  ra_tag a x : nodes s !! a = Some x → ∃ x', nodes s' !! a = Some x' ∧
    name x' = name x ∧ off x' = off x ∧ parent x' = parent x ∧ same_links x x' ∧ txt x' = txt x ∧ child x' = child x }.

Lemma reattr_refl s : reattr s s [].
Proof. split; [done..|]. intros a x Hx. exists x. by split_and!. Qed.

Lemma reattr_trans s1 s2 s3 l1 l2 : reattr s1 s2 l1 → reattr s2 s3 l2 → reattr s1 s3 (l1 ++ l2).
Proof.
  intros H1 H2. split.
  - rewrite (ra_roots _ _ _ H2). apply H1.
  - rewrite (ra_brk _ _ _ H2). apply H1.
  - rewrite (ra_dom _ _ _ H2). apply H1.
  - intros a Ha. rewrite elem_of_app in Ha. rewrite (ra_other _ _ _ H2) by tauto. apply H1. tauto.
  - intros a x Hx. destruct (ra_tag _ _ _ H1 a x Hx) as (y&Hy&?&?&?&(?&?&?)&?&?).
    destruct (ra_tag _ _ _ H2 a y Hy) as (z&Hz&?&?&?&(?&?&?)&?&?). exists z.
    split; [done|]. unfold same_links. split_and!; congruence.
Qed.

Lemma reattr_sub s s' l1 l2 : reattr s s' l1 → (∀ a, a ∈ l1 → a ∈ l2) → reattr s s' l2.
Proof. intros H Hs. split; try apply H. intros a Ha. apply H. intros ?. by apply Ha, Hs. Qed.

Lemma reattr_sub_tags s s' al d ks : reattr s s' al → sub_tags (see s) d ks → sub_tags (see s') d ks.
Proof.
  intros H Hs. apply (sub_tags_same s); [done| |].
  - intros k x _ Hx. destruct (ra_tag _ _ _ H k x Hx) as (x'&?&?&?&?&?&_). by exists x'.
  - intros x Hx. destruct (ra_tag _ _ _ H d x Hx) as (x'&?&_&_&_&_&_&?). by exists x'.
Qed.

Lemma reattr_rep s s' al ks f l : reattr s s' al → (∀ a, a ∈ l → a ∉ al) → rep s ks f l → rep s' ks f l.
Proof.
  intros H. revert ks l. induction f as [|o n a t kids IHk rest IHr]; intros [|k ks] l Hl; try done. cbn [rep].
  intros (?&?&x&ks2&al1&al2&Hx&?&?&->&?&?&?). split; [done|]. split; [done|]. exists x, ks2, al1, al2.
  rewrite (ra_other _ _ _ H) by (apply Hl; by left). split_and!; try done.
  - by eapply reattr_sub_tags.
  - apply IHk; [|done]. intros b Hb. apply Hl. right. apply elem_of_app. by left.
  - apply IHr; [|done]. intros b Hb. apply Hl. right. apply elem_of_app. by right.
Qed.

Lemma reattr_fuel s s' al : reattr s s' al → fuel_of s' = fuel_of s.
Proof. intros H. unfold fuel_of. by rewrite <-!size_dom, (ra_dom _ _ _ H). Qed.

(** The call that sets an attribute. *)
Lemma set_attr_d_spec s p x n v :
  nodes s !! p = Some x →
  ∃ s' x', ezxml_set_attr_d s (Some p) n v = Some s' ∧ reattr s s' [p] ∧ nodes s' !! p = Some x' ∧
    attr_pairs (attr x') = set_pair n v (attr_pairs (attr x)).
Proof.
  intros Hx. unfold ezxml_set_attr_d, ezxml_set_flag, upd. rewrite Hx. cbn [mbind option_bind].
  unfold ezxml_set_attr, set_nodes. cbn [nodes roots brk]. rewrite lookup_insert_eq. cbn [mbind option_bind attr flags set_flags].
  destruct (set_attr_entry_pairs (negb (Z.land (Z.lor (flags x) EZXML_DUP) EZXML_DUP =? 0)) n v (attr x)) as (l&E&El).
  rewrite E. cbn [mbind option_bind]. unfold upd, set_nodes. cbn [nodes roots brk]. rewrite lookup_insert_eq. cbn [mbind option_bind].
  rewrite insert_insert_eq. eexists _, _. split; [reflexivity|]. cbn [nodes roots brk].
  split; [|split; [apply lookup_insert_eq|done]]. split; cbn [nodes roots brk]; try done.
  - rewrite dom_insert_L. apply elem_of_dom_2 in Hx. set_solver.
  - intros a Ha. rewrite lookup_insert_ne; [done|]. intros ->. by apply Ha, list_elem_of_singleton.
  - intros a y Hy. destruct (decide (a = p)) as [->|Ha].
    + rewrite lookup_insert_eq. eexists. split; [reflexivity|]. assert (y = x) as -> by congruence.
      change (attr (set_flags _ _)) with (attr x). destruct (find_attr n (attr x)); by split_and!.
    + rewrite lookup_insert_ne by done. exists y. by split_and!.
Qed.

(** ** Values *)

(** A kid of a tag, in the forest. *)
Lemma rep_first s ks f al n :
  rep s ks f al → match head (named n ks) with
                  | Some k => ∃ x, nodes s !! k_addr k = Some x ∧ first_named n f = Some (txt x)
                  | None => first_named n f = None
                  end.
Proof.
  revert ks al. induction f as [|o m a t kids _ rest IH]; intros [|k ks] al; try done. cbn [rep first_named].
  intros (<-&_&x&ks2&al1&al2&Hx&_&<-&_&_&_&Hr). unfold named. rewrite filter_cons. case_decide as Hd.
  - rewrite bool_decide_true by done. cbn [head]. by exists x.
  - rewrite bool_decide_false by done. by apply (IH ks al2).
Qed.

Lemma root_data_kid s p q k xp xq xk r :
  nodes s !! p = Some xp → parent xp = None → nodes s !! q = Some xq → parent xq = Some p →
  nodes s !! k = Some xk → parent xk = Some q → NoDup [p; q; k] → roots s !! p = Some r → root_data s k = Some r.
Proof.
  intros Hp Ep Hq Eq0 Hk Ek Hnd Hr. unfold root_data, root_of.
  assert (length [p; q; k] < fuel_of s)%nat as Hf.
  { apply fuel_enough; [done|]. repeat constructor; by eapply elem_of_dom_2. }
  cbn [length] in Hf. destruct (fuel_of s) as [|[|[|n]]]; try lia. cbn [root_loop].
  rewrite Hk. cbn [mbind option_bind]. rewrite Ek, Hq. cbn [mbind option_bind]. rewrite Eq0, Hp. cbn [mbind option_bind].
  by rewrite Ep.
Qed.

Lemma get_val_spec s k x r ks f al n :
  nodes s !! k = Some x → sub_tags (see s) k ks → rep s ks f al → root_data s k = Some r → dattr r = [] →
  get_val s k n = value (attr_pairs (attr x)) f n.
Proof.
  intros Hx Hs Hrep Hr Hd. unfold get_val, ezxml_attr. rewrite Hx. cbn [mbind option_bind].
  unfold value. rewrite <-find_attr_pairs.
  assert ((match find_attr n (attr x) with
           | Some v => Some (Some (at_text v))
           | None => r ← root_data s k; match dattr r with
                                         | [] => Some None
                                         | _ :: _ => n0 ← name x; Some (default_of r n0 n)
                                         end
           end) = Some (at_text <$> find_attr n (attr x))) as ->.
  { destruct (find_attr n (attr x)); [done|]. rewrite Hr. cbn [mbind option_bind]. by rewrite Hd. }
  rewrite (child_named s k ks n) by (done || by eapply elem_of_dom_2). cbn [or_undefined mbind result_bind].
  pose proof (rep_first s ks f al n Hrep) as Hf. destruct (named n ks) as [|j js]; cbn [fmap list_fmap head] in *.
  - rewrite Hf. by destruct (find_attr n (attr x)).
  - destruct Hf as (y&Hy&->). destruct (find_attr n (attr x)); [done|]. cbn. by rewrite Hy.
Qed.

(** ** The loop over the files *)

Section Loop.
Context (h : host) (p q : addr).

(** The tag [files] below the root. *)
Record placed (s : store) : Prop := {
  pl_root : ∃ xp, nodes s !! p = Some xp ∧ parent xp = None;
  pl_files : ∃ xq, nodes s !! q = Some xq ∧ parent xq = Some p;
  pl_data : ∃ r, roots s !! p = Some r ∧ dattr r = [] }.

Lemma placed_reattr s s' al : reattr s s' al → placed s → placed s'.
Proof using.
  intros H [(xp&Hp&Ep) (xq&Hq&Eq0) (r&Hr&Hd)]. split.
  - destruct (ra_tag _ _ _ H p xp Hp) as (x'&?&_&_&E&_). exists x'. split; [done|congruence].
  - destruct (ra_tag _ _ _ H q xq Hq) as (x'&?&_&_&E&_). exists x'. split; [done|congruence].
  - exists r. by rewrite (ra_roots _ _ _ H).
Qed.

Lemma get_val_kid s k x ks f al ks0 n :
  placed s → sub_tags (see s) q ks0 → k ∈ addrs ks0 → nodes s !! k = Some x → NoDup [p; q; k] →
  sub_tags (see s) k ks → rep s ks f al → get_val s k n = value (attr_pairs (attr x)) f n.
Proof using.
  intros [(xp&Hp&Ep) (xq&Hq&Eq0) (r&Hr&Hd)] Hs0 Hin Hx Hnd Hs Hrep. apply (get_val_spec s k x r ks f al); [done..| |done].
  apply (root_data_kid s p q k xp xq x); try done. by eapply sub_tags_parent.
Qed.

(** The rest of a row of tags, when the first one has its new attributes. *)
Lemma rep_tag s s' k ks kids x x' ks2 al1 al2 f :
  reattr s s' (k_addr k :: al2) → nodes s !! k_addr k = Some x → nodes s' !! k_addr k = Some x' →
  NoDup (k_addr k :: al1 ++ al2) → sub_tags (see s) (k_addr k) ks2 → rep s ks2 kids al1 → rep s' ks f al2 →
  rep s' (k :: ks) (Tag (k_off k) (k_name k) (attr_pairs (attr x')) (txt x) kids f) (k_addr k :: al1 ++ al2).
Proof using.
  intros Hre Hx Hx' Hnd Hs Hk Hr. cbn [rep]. split; [done|]. split; [done|].
  apply NoDup_cons in Hnd as [Hk1 Hnd]. apply NoDup_app in Hnd as (_&Hdis&_).
  exists x', ks2, al1, al2. split; [done|]. split; [done|]. split.
  { destruct (ra_tag _ _ _ Hre _ x Hx) as (y&Hy&_&_&_&_&Et'&_). congruence. }
  split; [done|]. split; [by eapply reattr_sub_tags|]. split; [|done]. eapply reattr_rep; [done| |done].
  intros b Hb [->|Hb2]%elem_of_cons; [apply Hk1, elem_of_app; by left|by eapply Hdis].
Qed.

(** The next file of the configuration. *)
Lemma next_file s ksd k ks :
  sub_tags (see s) q (ksd ++ k :: ks) → k_name k = chars "file" →
  ezxml_next s (Some (k_addr k)) = Some (head (addrs (named (chars "file") ks))).
Proof using.
  intros Hs Hd. rewrite (next_named s q (ksd ++ k :: ks) (chars "file") (length (named (chars "file") ksd)) k).
  - unfold named. rewrite filter_app, filter_cons, decide_True by done. f_equal.
    rewrite lookup_app_r by lia. replace (S (length (filter (λ j, k_name j = chars "file") ksd)) - length (filter (λ j, k_name j = chars "file") ksd))%nat with 1%nat by lia.
    cbn. by rewrite head_lookup, list_lookup_fmap.
  - done.
  - unfold named. rewrite filter_app, filter_cons, decide_True by done. by rewrite lookup_app_r, Nat.sub_diag by lia.
Qed.

Lemma aux_loop_spec fuel s ksd ksr f al files :
  placed s → sub_tags (see s) q (ksd ++ ksr) → rep s ksr f al → NoDup (p :: q :: al) →
  (length (named (chars "file") ksr) < fuel)%nat →
  match files_of (h_stat h) f files with
  | Ret l => ∃ s', aux_loop fuel h s (head (addrs (named (chars "file") ksr))) files = Ret (s', l) ∧
               reattr s s' al ∧ rep s' ksr (number_tags (length files) f) al
  | Minus1 => aux_loop fuel h s (head (addrs (named (chars "file") ksr))) files = Minus1
  | Undefined => aux_loop fuel h s (head (addrs (named (chars "file") ksr))) files = Undefined
  end.
Proof using.
  revert fuel s ksd ksr al files. induction f as [|o n a t kids _ rest IH]; intros fuel s ksd [|k ks] al files; try done.
  { intros _ _ E _ Hf. cbn [rep] in E. subst al. destruct fuel as [|fuel]; [simpl in Hf; lia|]. cbn. exists s. split; [done|]. split; [apply reattr_refl|done]. }
  intros Hpl Hs Hrep Hnd Hf. cbn [rep] in Hrep. destruct Hrep as (<-&<-&x&ks2&al1&al2&Hx&<-&<-&->&Hs2&Hk&Hr).
  assert (sub_tags (see s) q ((ksd ++ [k]) ++ ks)) as Hs' by (by rewrite <-app_assoc).
  pose proof Hnd as [Hp Hnd']%NoDup_cons. pose proof Hnd' as [Hq Hndk]%NoDup_cons.
  assert (NoDup (p :: q :: al2)) as Hnd2.
  { eapply sublist_NoDup; [exact Hnd|]. do 2 apply sublist_skip. apply sublist_cons. by apply sublist_inserts_l. }
  assert (k_addr k ∉ al2) as Hk2.
  { pose proof Hndk as [Hk1 _]%NoDup_cons. intros ?. apply Hk1, elem_of_app. by right. }
  cbn [files_of number_tags]. unfold named in *. rewrite filter_cons in *. case_decide as Hd.
  2: { rewrite bool_decide_false by done.
       specialize (IH fuel s (ksd ++ [k]) ks al2 files Hpl Hs' Hr Hnd2 Hf). unfold named in IH.
       destruct (files_of (h_stat h) rest files) as [l| |]; [|done|done]. destruct IH as (s'&E&Hre&Hrep).
       exists s'. split; [done|].
       split; [eapply reattr_sub; [exact Hre|]; intros b Hb; right; apply elem_of_app; by right|].
       apply (rep_tag s s' k ks kids x x ks2); try done.
       - eapply reattr_sub; [exact Hre|]. intros b Hb. by right.
       - by rewrite (ra_other _ _ _ Hre). }
  rewrite bool_decide_true by done. destruct fuel as [|fuel]; [lia|]. cbn [fmap list_fmap head aux_loop length] in *.
  assert (NoDup [p; q; k_addr k]) as Hpqk.
  { eapply sublist_NoDup; [exact Hnd|]. do 3 apply sublist_skip. apply sublist_nil_l. }
  assert (k_addr k ∈ addrs (ksd ++ k :: ks)) as Hin.
  { apply list_elem_of_fmap_2, elem_of_app. right. by left. }
  rewrite !(get_val_kid s (k_addr k) x ks2 kids al1 (ksd ++ k :: ks)) by done.
  destruct (value (attr_pairs (attr x)) kids (chars "filename")) as [fname| |]; [|done|done].
  cbn [mbind result_bind]. destruct (value (attr_pairs (attr x)) kids (chars "id")) as [id| |]; [|done|done].
  cbn [mbind result_bind]. destruct (h_stat h fname) as [size|]; [|done].
  destruct (zlen files >=? MAX_FILES); [done|].
  destruct (set_attr_d_spec s (k_addr k) x (chars "index") (pct_d (zlen files)) Hx) as (s1&x1&->&Hre1&Hx1&Ea1).
  cbn [or_undefined mbind result_bind].
  assert (ezxml_next s1 (Some (k_addr k)) = Some (head (addrs (named (chars "file") ks)))) as ->.
  { eapply next_file; [by eapply reattr_sub_tags|done]. }
  cbn [or_undefined mbind result_bind].
  set (e := {| fi_size := _; filename := _; fi_id := _ |}).
  specialize (IH fuel s1 (ksd ++ [k]) ks al2 (files ++ [e])). unfold named in IH.
  assert (rep s1 ks rest al2) as Hr1.
  { eapply reattr_rep; [exact Hre1| |done]. intros b Hb ->%list_elem_of_singleton. done. }
  destruct (files_of (h_stat h) rest (files ++ [e])) as [l| |];
    [|apply IH; [by eapply placed_reattr|by eapply reattr_sub_tags|done..|lia]..].
  destruct IH as (s'&E&Hre&Hrep); [by eapply placed_reattr|by eapply reattr_sub_tags|done..|lia|].
  exists s'. split; [exact E|]. pose proof (reattr_trans _ _ _ _ _ Hre1 Hre) as Hre2. cbn [app] in Hre2.
  split; [eapply reattr_sub; [exact Hre2|]; intros b [->|Hb]%elem_of_cons; [by left|right; apply elem_of_app; by right]|].
  rewrite length_app in Hrep. cbn [length] in Hrep. rewrite Nat.add_1_r in Hrep.
  rewrite <-Ea1. apply (rep_tag s s' k ks kids x x1 ks2); try done.
  by rewrite (ra_other _ _ _ Hre).
Qed.
End Loop.

(** The first tag [files] of a row, and the row when the files below it have their
    numbers. *)
Lemma files_tag_rep s ks f al :
  rep s ks f al → NoDup al →
  match head (named (chars "files") ks) with
  | None => files_tag f = Nil ∧ number_files f = f
  | Some k => ∃ ks2 alk, (k_addr k :: alk) `sublist_of` al ∧ sub_tags (see s) (k_addr k) ks2 ∧
      rep s ks2 (files_tag f) alk ∧
      ∀ s', reattr s s' alk → rep s' ks2 (number_tags 0 (files_tag f)) alk → rep s' ks (number_files f) al
  end.
Proof.
  revert ks al. induction f as [|o n a t kids _ rest IH]; intros [|k ks] al; try done. cbn [rep files_tag number_files].
  intros (<-&<-&x&ks2&al1&al2&Hx&<-&<-&->&Hs2&Hk&Hr) Hnd. unfold named in *. rewrite filter_cons.
  pose proof Hnd as [Hk0 Hnd']%NoDup_cons. pose proof Hnd' as (_&Hdis&Hnd2)%NoDup_app. case_decide as Hd.
  - rewrite bool_decide_true by done. cbn [head]. exists ks2, al1. split; [apply sublist_skip, sublist_inserts_r; done|].
    split; [done|]. split; [done|]. intros s' Hre Hk'. cbn [rep]. split; [done|]. split; [done|]. exists x, ks2, al1, al2.
    rewrite (ra_other _ _ _ Hre) by (intros ?; apply Hk0, elem_of_app; by left). split_and!; try done.
    + by eapply reattr_sub_tags.
    + eapply reattr_rep; [exact Hre| |done]. intros b Hb Hb1. by eapply Hdis.
  - rewrite bool_decide_false by done. specialize (IH ks al2 Hr Hnd2).
    destruct (head (filter (λ j, k_name j = chars "files") ks)) as [j|]; [|destruct IH as [-> ->]; done].
    destruct IH as (ks3&alk&Hsub&Hs3&Hk3&IH). exists ks3, alk.
    split; [apply sublist_cons, sublist_inserts_l; done|]. split; [done|]. split; [done|].
    assert (∀ b, b ∈ alk → b ∈ al2) as Hin by (intros b Hb; eapply elem_of_sublist; [right; exact Hb|exact Hsub]).
    intros s' Hre Hrep. apply (rep_tag s s' k ks kids x x ks2); try done.
    + eapply reattr_sub; [exact Hre|]. intros b Hb. right. by apply Hin.
    + rewrite (ra_other _ _ _ Hre); [done|]. intros ?. apply Hk0, elem_of_app. right. by apply Hin.
    + by apply IH.
Qed.

(** [parse_aux_files] on a document. *)
Lemma parse_aux_files_document h s p n a t f :
  document s p n a t f →
  match files_of (h_stat h) (files_tag f) [] with
  | Ret l => ∃ s', parse_aux_files h s (Some p) = Ret (s', l) ∧ document s' p n a t (number_files f)
  | Minus1 => parse_aux_files h s (Some p) = Minus1
  | Undefined => parse_aux_files h s (Some p) = Undefined
  end.
Proof.
  intros [(x&ks&al&Hx&Hn&Ha&Ht&Hp&Ho&Hoff&Hs&Hrep&Hnd) (r&Hr&Hpi&Hda&He)]. unfold parse_aux_files.
  rewrite (child_named s p ks) by (done || by eapply elem_of_dom_2). cbn [or_undefined mbind result_bind].
  pose proof Hnd as [Hp0 Hnda]%NoDup_cons. pose proof (files_tag_rep s ks f al Hrep Hnda) as Hf.
  destruct (named (chars "files") ks) as [|k kf] eqn:En; cbn [fmap list_fmap head] in *.
  - destruct Hf as [-> ->]. cbn [files_of]. exists s. split; [done|]. split; [|by exists r]. by exists x, ks, al.
  - destruct Hf as (ks2&alk&Hsub&Hs2&Hk2&Hall).
    assert (k ∈ ks) as Hkin.
    { eapply elem_of_sublist; [|apply (named_sublist (chars "files"))]. rewrite En. by left. }
    assert (k_addr k ∈ al) as Hkal by (eapply elem_of_sublist; [|exact Hsub]; by left).
    destruct (rep_length s ks f al Hrep) as [_ Hdom]. rewrite Forall_forall in Hdom.
    pose proof (Hdom _ Hkal) as [y Hy]%elem_of_dom.
    rewrite (child_named s (k_addr k) ks2) by (done || by apply Hdom). cbn [or_undefined mbind result_bind].
    assert (NoDup (p :: k_addr k :: alk)) as Hndk.
    { eapply sublist_NoDup; [exact Hnd|]. by apply sublist_skip. }
    assert (placed p (k_addr k) s) as Hpl.
    { split; [by exists x| |by exists r]. exists y. split; [done|]. eapply sub_tags_parent; [exact Hs| |done].
      by apply list_elem_of_fmap_2. }
    pose proof (aux_loop_spec h p (k_addr k) (fuel_of s) s [] ks2 (files_tag f) alk [] Hpl Hs2 Hk2 Hndk) as Hloop.
    assert (length (named (chars "file") ks2) < fuel_of s)%nat as Hfuel.
    { eapply known_fuel; [|eapply known_sublist; [apply named_sublist|by eapply known_of_sub_tags]].
      eapply sublist_NoDup; [apply (st_nodup _ _ _ Hs2)|]. apply sublist_addrs, named_sublist. }
    specialize (Hloop Hfuel). destruct (files_of (h_stat h) (files_tag f) []) as [l| |]; [|exact Hloop..].
    destruct Hloop as (s'&E&Hre&Hrep'). exists s'. split; [exact E|].
    assert (p ∉ alk) as Hpk by (apply NoDup_cons in Hndk as [Hpk _]; intros ?; apply Hpk; by right).
    split; [|exists r; by rewrite (ra_roots _ _ _ Hre)].
    exists x, ks, al. rewrite (ra_other _ _ _ Hre) by done. split_and!; try done; [by eapply reattr_sub_tags|].
    by apply Hall.
Qed.

(** ** The numbered document *)

Lemma index_attr_ok i v : (Z.of_nat i < 2 ^ 64) → v = pct_d (Z.of_nat i) → attr_ok (chars "index", v).
Proof.
  intros Hi ->. unfold pct_d. rewrite (proj2 (Z.ltb_ge _ 0)) by lia.
  destruct (print_base_spec 10 (Z.of_nat i)) as (Hd&_&_); [lia..|].
  apply attr_ok_check; [done|done|]. apply forallb_forall. intros c Hc. apply list_elem_of_In in Hc.
  rewrite Forall_forall in Hd. specialize (Hd c Hc). rewrite !andb_true_iff, !negb_true_iff, !Z.eqb_neq.
  split_and!; intros ->; by vm_compute in Hd.
Qed.

Lemma number_tags_wf i t start f :
  Z.of_nat (i + tags f) < 2 ^ 64 → wf t start f → wf t start (number_tags i f).
Proof.
  revert i start. induction f as [|o n a t' kids _ rest IH]; intros i start Hi; [done|]. cbn [tags] in Hi. cbn [number_tags].
  case_bool_decide; cbn [wf]; intros (Ho&Hn&Ha&Hnd&Ht&Hk&Hr); split_and!; try done; try lia.
  - apply set_pair_Forall; [|intros _; by apply (index_attr_ok i); [lia|]|done]. intros w _. by apply (index_attr_ok i); [lia|].
  - by apply set_pair_nodup.
  - apply IH; [lia|done].
  - apply IH; [lia|done].
Qed.

Lemma number_files_wf t start f : Z.of_nat (tags f) < 2 ^ 64 → wf t start f → wf t start (number_files f).
Proof.
  revert start. induction f as [|o n a t' kids _ rest IH]; intros start Hi; [done|]. cbn [tags] in Hi. cbn [number_files].
  case_bool_decide; cbn [wf]; intros (Ho&Hn&Ha&Hnd&Ht&Hk&Hr); split_and!; try done; try lia.
  - apply number_tags_wf; [lia|done].
  - apply IH; [lia|done].
Qed.

(** ** The theorem *)


(** ** What is not looked at *)

(** A configuration that cannot be opened, or has an error, gives an image with an
    empty configuration. *)
Lemma bad_config_builds_image k fuel h fname name st :
  open_xml_file k h = Some (st, None) → img_name fname = Ret name → h_create h = true →
  (∀ d, d ≠ [] → 0 < h_write h d) →
  ∃ img, build_image k fuel h fname = Ret (Some name, [Wrote name img]) ∧ image_config img = Some [].
Proof.
  intros Ho Hn Hc Hw. destruct (image_roundtrip fuel [] [] (h_open h)) as (img&Hb&_&_&Hi&_); [done..|].
  exists img. split; [|done]. unfold build_image. rewrite Ho. cbn [or_undefined mbind result_bind].
  unfold parse_aux_files, fuel_of. cbn [ezxml_child fmap option_fmap option_map mbind option_bind fuel_of seek snd or_undefined result_bind aux_loop].
  cbn [ezxml_toxml or_undefined mbind result_bind fmap list_fmap]. rewrite Hb, Hn. cbn [mbind result_bind]. rewrite Hc.
  unfold write_file. by rewrite write_loop_all by (done || lia).
Qed.

(** A failed build is followed by a [strncpy] from NULL. *)
Lemma failed_build_crashes k fuel h fname name path opts ev ctrl_fd vm_id :
  existsb (λ o, match (strsep equals o).2 with None => true | Some _ => false end) opts = false →
  build_image k fuel h fname = Ret (None, ev) →
  create_main k fuel h true (fname :: name :: path :: opts) ctrl_fd vm_id = Undefined.
Proof. intros Ho Hb. cbn [create_main]. by rewrite Ho, Hb. Qed.

(** ** Witness *)

(** Two files, one named by attributes and the other by a sub tag as well. *)
Definition guest_forest : forest :=
  Tag 0 (chars "files") []
    [] (Tag 0 (chars "file") [(chars "id", chars "a"); (chars "filename", chars "/a")] [] Nil
       (Tag 0 (chars "file") [(chars "filename", chars "/b")] [] (Tag 0 (chars "id") [] (chars "b") Nil Nil) Nil))
    (Tag 0 (chars "mem") [] (chars "64") Nil Nil).
Definition guest_host : host :=
  Host (Some (print_document (chars "vm") [] [] guest_forest)) true 0
    (λ s, if bool_decide (s = chars "/a") then Some 3 else Some 5) ex_reads true (λ d, zlen d).
Definition guest_files : list file_info :=
  match files_of (h_stat guest_host) (files_tag guest_forest) [] with Ret l => l | _ => [] end.

Lemma guest_wf : wf_document (chars "vm") [] [] guest_forest.
Proof.
  unfold wf_document, guest_forest. cbn [wf].
  split_and!; try (by apply tag_name_check); try (by apply plain_check); try (cbn; lia); try done;
    try (by repeat constructor); repeat constructor; try (by apply attr_ok_check); try (by intros ?%elem_of_nil).
  intros ?%list_elem_of_singleton. done.
Qed.

Lemma guest_readable i fi : guest_files !! i = Some fi → readable 8 (h_open guest_host i) fi.
Proof.
  destruct i as [|[|i]]; [| |done]; intros [= <-]; (split; [vm_compute; split; congruence|]);
    (eexists; split; [reflexivity|apply ex_reader]).
Qed.

Lemma guest_write d : d ≠ [] → 0 < h_write guest_host d.
Proof. intros Hd. cbn [h_write guest_host]. destruct d; [done|]. cbn [length]. lia. Qed.

