(* ===== verification/Keys.v ===== *)
(** * The terminal of a virtual machine ([linux_usr/v3_cons_sc.c])

    The tool that shows a guest's text console in the terminal, and sends the keys
    typed to it as scan codes.  curses, [select] and the descriptors belong to the
    system: the window's size, what each round of [select] finds and what [write]
    returns are arguments; what is drawn and written is recorded.  An [assert]
    that fails is [None] or [Aborted]. *)
From S2P Require Import Prelude Text Trampoline Ctrl Cons.
#[local] Open Scope Z_scope.
#[local] Open Scope list_scope.

(** ** The code: scan codes *)

Record key_code := { scan_code : Z; capital : Z }.
Definition ascii_to_key_code : list key_code := (λ k, {| scan_code := k.1; capital := k.2 |}) <$>
   [(0,0);(0,0);(0,0);(0,0);(0,0);(0,0);(0,0);(0x0E,0);
    (0x0E,0);(0x0F,0);(0x1C,0);(0,0);(0,0);(0x1C,0);(0,0);(0,0);
    (0,0);(0,0);(0,0);(0,0);(0,0);(0,0);(0,0);(0,0);
    (0,0);(0,0);(0,0);(0x01,0);(0,0);(0,0);(0,0);(0,0);
    (0x39,0);(0x02,1);(0x28,1);(0x04,1);(0x05,1);(0x06,1);(0x08,1);(0x28,0);
    (0x0A,1);(0x0B,1);(0x09,1);(0x0D,1);(0x33,0);(0x0C,0);(0x34,0);(0x35,0);
    (0x0B,0);(0x02,0);(0x03,0);(0x04,0);(0x05,0);(0x06,0);(0x07,0);(0x08,0);
    (0x09,0);(0x0A,0);(0x27,1);(0x27,0);(0x33,1);(0x0D,0);(0x34,1);(0x35,1);
    (0x03,1);(0x1E,1);(0x30,1);(0x2E,1);(0x20,1);(0x12,1);(0x21,1);(0x22,1);
    (0x23,1);(0x17,1);(0x24,1);(0x25,1);(0x26,1);(0x32,1);(0x31,1);(0x18,1);
    (0x19,1);(0x10,1);(0x13,1);(0x1F,1);(0x14,1);(0x16,1);(0x2F,1);(0x11,1);
    (0x2D,1);(0x15,1);(0x2C,1);(0x1A,0);(0x2B,0);(0x1B,0);(0x07,1);(0x0C,1);
    (0x29,0);(0x1E,0);(0x30,0);(0x2E,0);(0x20,0);(0x12,0);(0x21,0);(0x22,0);
    (0x23,0);(0x17,0);(0x24,0);(0x25,0);(0x26,0);(0x32,0);(0x31,0);(0x18,0);
    (0x19,0);(0x10,0);(0x13,0);(0x1F,0);(0x14,0);(0x16,0);(0x2F,0);(0x11,0);
    (0x2D,0);(0x15,0);(0x2C,0);(0x1A,1);(0x2B,1);(0x1B,1);(0x29,1);(0x0E,0)].

Section keys.
(** What [write] of one byte returns, after the bytes [sent]. *)
Context (write : list Z → Z → Z).

(** The macro [writeit], in a function that returns [fail]: [k] is what follows. *)
Definition writeit {R} (fail : R) (sc : Z) (k : list Z → R * list Z) (sent : list Z) : R * list Z :=
  if write sent sc =? 1 then k (sent ++ [sc]) else (fail, sent).

Definition send_char_to_palacios_as_scancodes (c : Z) (sent : list Z) : Z * list Z :=
  if c <? 0x80 then
    match ascii_to_key_code !! Z.to_nat c with
    | None => (0, sent)
    | Some k =>
        if (scan_code k =? 0) && (capital k =? 0) then (0, sent) else
        let up sent := if capital k =? 0 then (0, sent)
                       else writeit (-1) (Z.lor 0x2a 0x80) (λ sent, (0, sent)) sent in
        let key := writeit (-1) (scan_code k) (writeit (-1) (Z.lor (scan_code k) 0x80) up) in
        if capital k =? 0 then key sent else writeit (-1) 0x2a key sent
    end
  else (0, sent).

(** The arrow keys' numbers are curses'. *)
Context (KEY_LEFT KEY_RIGHT KEY_UP KEY_DOWN : Z).

(** A key read by [getch], and what the next [getch] returns.  The value [main]
    returns when it ends. *)
Definition tap (sc : Z) (sent : list Z) : option Z * list Z :=
  writeit (Some (-1)) sc (writeit (Some (-1)) (Z.lor sc 0x80) (λ sent, (None, sent))) sent.
Definition send (c : Z) (k : list Z → option Z * list Z) (sent : list Z) : option Z * list Z :=
  let '(ret, sent) := send_char_to_palacios_as_scancodes (u8 c) sent in
  if negb (ret =? 0) then (Some (-1), sent) else k sent.
Definition on_key (key key2 : Z) (sent : list Z) : option Z * list Z :=
  if key =? 27 then
    if key2 =? 96 then (Some 0, sent)
    else if key2 =? 27 then tap 0x01 sent
    else writeit (Some (-1)) 0x1d
           (send key2 (writeit (Some (-1)) (Z.lor 0x1d 0x80) (λ sent, (None, sent)))) sent
  else if key =? KEY_LEFT then tap 0x4B sent
  else if key =? KEY_RIGHT then tap 0x4D sent
  else if key =? KEY_UP then tap 0x48 sent
  else if key =? KEY_DOWN then tap 0x50 sent
  else send key (λ sent, (None, sent)) sent.

(** ** The code: the screen *)

Record screen := { sx : Z; sy : Z; rows : Z; cols : Z }.
Inductive draw :=
  | AddCh (y x c : Z) | ScrollWin | Wmove (y x : Z) | Wrefresh      (* curses *)
  | Putc (c : Z) | Fflush.                                          (* standard output *)

(** The fields of a message's 11 bytes. *)
Definition int_at (off : nat) (m : list byte) : Z := s32 (unle (take 4 (drop off m))).
Definition uchar_at (off : nat) (m : list byte) : Z := unle (take 1 (drop off m)).

Context (use_curses : bool) (maxx maxy : Z).

(** The character shown: a blank for 0, a question mark for what is not printable;
    [char] is signed. *)
Definition shown (c : Z) : Z :=
  let c := swrap 8 c in
  let c := if c =? 0 then 32 else c in
  if (c <? 32) || (c >=? 127) then 63 else c.

(** Without curses: lines, then blanks, up to the place. *)
Definition handle_char_set (m : list byte) (s : screen) : option (Z * screen * list draw) :=
  let x := int_at 1 m in let y := int_at 5 m in let c := shown (uchar_at 9 m) in
  if use_curses then
    if (x <? 0) || (y <? 0) || (x >? maxx) || (y >? maxy) then Some (-1, s, [])
    else if (x =? maxx) && (y =? maxy) then Some (-1, s, [])
    else Some (0, s, [AddCh y x c])
  else
    let lines := Z.to_nat (y - sy s) in
    let x0 := if sy s <? y then 0 else sx s in
    let y0 := Z.max (sy s) y in
    let blanks := Z.to_nat (x - x0) in
    let x1 := s32 (Z.max x0 x + 1) in
    let out := replicate lines (Putc 10) ++ replicate blanks (Putc 32) ++ [Putc c] in
    if x1 >? cols s then None else
    if x1 =? cols s then
      Some (0, {| sx := 0; sy := s32 (y0 + 1); rows := rows s; cols := cols s |}, out ++ [Putc 10])
    else Some (0, {| sx := x1; sy := y0; rows := rows s; cols := cols s |}, out).

Definition handle_curs_set (m : list byte) (s : screen) : Z * screen :=
  (0, if use_curses then {| sx := int_at 1 m; sy := int_at 5 m; rows := rows s; cols := cols s |} else s).

Definition handle_scroll (m : list byte) (s : screen) : option (Z * screen * list draw) :=
  let lines := int_at 1 m in
  if lines <? 0 then None else
  if use_curses then Some (0, s, replicate (Z.to_nat lines) ScrollWin)
  else Some (0, {| sx := sx s; sy := s32 (sy s - lines); rows := rows s; cols := cols s |}, []).

Definition handle_text_resolution (m : list byte) (s : screen) : Z * screen :=
  (0, {| sx := sx s; sy := sy s; rows := int_at 5 m; cols := int_at 1 m |}).

Definition handle_update (s : screen) : list draw :=
  if use_curses then
    (if (sx s >=? 0) && (sy s >=? 0) && (sx s <=? maxx) && (sy s <=? maxy)
     then [Wmove (sy s) (sx s)] else []) ++ [Wrefresh]
  else [Fflush].

(** [ret]: what [read] returns, with the bytes it stored. *)
Definition handle_console_msg (ret : Z) (m : list byte) (s : screen) : option (Z * screen * list draw) :=
  if negb (ret =? sizeof_cons_msg) then Some (ret, s, []) else
  let op := uchar_at 0 m in
  if op =? 1 then let '(_, s) := handle_curs_set m s in Some (0, s, [])
  else if op =? 2 then '(_, s, d) ← handle_char_set m s; Some (0, s, d)
  else if op =? 3 then '(_, s, d) ← handle_scroll m s; Some (0, s, d)
  else if op =? 4 then Some (0, s, handle_update s)
  else if op =? 5 then let '(_, s) := handle_text_resolution m s in Some (0, s, [])
  else Some (0, s, []).

(** ** The code: the loop *)

(** What a round of [select] that does not fail finds: a message on the console, a
    key.  A [select] that fails ends the program with -1. *)
Record round := { r_msg : option (Z * list byte); r_key : option (Z * Z) }.
Record terminal := { sent : list Z; scr : screen; drawn : list draw }.
Inductive status := Running | Exit (ret : Z) | Aborted.

Definition on_msg (r : round) (t : terminal) : status * terminal :=
  match r_msg r with
  | None => (Running, t)
  | Some (ret, m) =>
      match handle_console_msg ret m (scr t) with
      | None => (Aborted, t)
      | Some (ret, s, d) =>
          (if ret =? -1 then Exit (-1) else Running, {| sent := sent t; scr := s; drawn := drawn t ++ d |})
      end
  end.
Definition on_round (r : round) (t : terminal) : status * terminal :=
  match on_msg r t with
  | (Running, t) =>
      match r_key r with
      | None => (Running, t)
      | Some (key, key2) =>
          let '(ret, l) := on_key key key2 (sent t) in
          (match ret with None => Running | Some r => Exit r end,
           {| sent := l; scr := scr t; drawn := drawn t |})
      end
  | out => out
  end.
Fixpoint cons_loop (rs : list round) (t : terminal) : status * terminal :=
  match rs with
  | [] => (Running, t)
  | r :: rs => match on_round r t with (Running, t) => cons_loop rs t | out => out end
  end.
End keys.

(** The start of [v3_cons_sc]: [argv] are the arguments after the program's name,
    of which the second is read before they are counted ([None]: a NULL read).
    The value returned, or nothing when the loop is entered. *)
Definition check_terminal_size (n_cols n_rows : Z) : Z :=
  if (u16 n_cols <? 80) || (u16 n_rows <? 25) then -1 else 0.
Definition cons_sc_start (argv : list (list Z)) (n_cols n_rows ctrl_fd : Z) (cons_connect : Z → Z) (win_ok : bool)
  : option (option Z) :=
  match argv with
  | _ :: vm_id :: _ =>
      let vm_id := atoi vm_id in
      if negb (check_terminal_size n_cols n_rows =? 0) then Some (Some (-1)) else
      if ctrl_fd <? 0 then Some (Some (-1)) else
      if cons_connect (u64 vm_id) <? 0 then Some (Some (-1)) else
      if negb win_ok then Some (Some (-1)) else Some None
  | _ => None
  end.

(** The command that [v3_cons_nosc] uses ([Nosc]). *)
Definition PISCES_CMD_VM_CONS_KEYCODE : Z := 152.
(** ** Specification: a keyboard

    Scan code set 1 on a US keyboard: the characters of each row of keys, from
    its first code on, without and with shift. *)
Definition layout : list (Z * list Z * list Z) :=
  [(0x02, chars "1234567890-=", chars "!@#$%^&*()_+");
   (0x10, chars "qwertyuiop[]", chars "QWERTYUIOP{}");
   (0x1E, chars "asdfghjkl;'`", chars "ASDFGHJKL:" ++ [34; 126]);
   (0x2B, chars "\zxcvbnm,./", chars "|ZXCVBNM<>?");
   (0x39, [32], [32]); (0x1C, [10], [10]); (0x0F, [9], [9])].
Definition key_char (shift : bool) (sc : Z) : list Z :=
  layout ≫= λ '(first, low, high),
    if sc <? first then [] else option_list ((if shift then high else low) !! Z.to_nat (sc - first)).

(** What a guest's keyboard driver makes of the codes: the shift key, the other
    keys that are down, and the text. *)
Record keyboard := { shift : bool; held : list Z; text : list Z }.
Definition hit (k : keyboard) (b : Z) : keyboard :=
  if b =? 0x2a then {| shift := true; held := held k; text := text k |}
  else if b =? 0xaa then {| shift := false; held := held k; text := text k |}
  else if b >=? 0x80 then {| shift := shift k; held := filter (λ h, h ≠ b - 0x80) (held k); text := text k |}
  else {| shift := shift k; held := b :: held k; text := text k ++ key_char (shift k) b |}.
#[export] Instance keyboard_eq_dec : EqDecision keyboard.
Proof. solve_decision. Defined.
Definition at_rest (t : list Z) : keyboard := {| shift := false; held := []; text := t |}.

(** The characters that can be typed: what prints, tab and newline. *)
Definition typable (c : Z) : bool := (32 <=? c) && (c <=? 126) || (c =? 9) || (c =? 10).
Definition typed (s : list Z) : list round := (λ c, {| r_msg := None; r_key := Some (c, 0) |}) <$> s.

(** Where curses may draw: inside of the window, and not in its last corner. *)
Definition inside (maxx maxy : Z) (d : draw) : Prop :=
  match d with
  | AddCh y x c => 0 ≤ x ≤ maxx ∧ 0 ≤ y ≤ maxy ∧ (x, y) ≠ (maxx, maxy) ∧ 32 ≤ c < 127
  | Wmove y x => 0 ≤ x ≤ maxx ∧ 0 ≤ y ≤ maxy
  | ScrollWin | Wrefresh => True
  | Putc _ | Fflush => False
  end.
(** A message that asks to scroll backwards. *)
Definition bad_scroll (r : round) : Prop :=
  ∃ ret m, r_msg r = Some (ret, m) ∧ uchar_at 0 m = 3 ∧ int_at 1 m < 0.

(** ** Lemmas *)

(** The codes of a character. *)
Definition codes (c : Z) : list Z :=
  match ascii_to_key_code !! Z.to_nat c with
  | None => []
  | Some k => if capital k =? 0 then [scan_code k; Z.lor (scan_code k) 0x80]
              else [0x2a; scan_code k; Z.lor (scan_code k) 0x80; Z.lor 0x2a 0x80]
  end.

Definition code_right (c : Z) : bool :=
  implb (typable c)
    (bool_decide (foldl hit (at_rest []) (codes c) = at_rest [c]) &&
     negb (default 0 (scan_code <$> ascii_to_key_code !! Z.to_nat c) =? 0)).

Lemma codes_right : forallb code_right (seqZ 0 128) = true.
Proof. vm_compute. reflexivity. Qed.

Lemma typable_code c :
  typable c = true → 0 ≤ c < 0x80 ∧
    foldl hit (at_rest []) (codes c) = at_rest [c] ∧
    ∃ k, ascii_to_key_code !! Z.to_nat c = Some k ∧ scan_code k ≠ 0.
Proof.
  intros Ht. assert (0 ≤ c < 0x80) as Hc by (unfold typable in Ht; lia). split; [done|].
  pose proof (proj1 (forallb_forall _ _) codes_right c) as Hr. unfold code_right in Hr. rewrite Ht in Hr.
  cbn [implb] in Hr. apply andb_prop in Hr as [Hf Hs]; cycle 1.
  - apply list_elem_of_In, elem_of_seqZ. lia.
  - apply bool_decide_eq_true in Hf. split; [done|].
    destruct (ascii_to_key_code !! Z.to_nat c) as [k|]; [|done]. exists k. split; [done|].
    intros Hk. cbn [fmap option_fmap option_map default] in Hs. by rewrite Hk in Hs.
Qed.

(** Text typed before does not matter. *)
Lemma hit_after k b t :
  hit {| shift := shift k; held := held k; text := t ++ text k |} b =
  {| shift := shift (hit k b); held := held (hit k b); text := t ++ text (hit k b) |}.
Proof.
  unfold hit. destruct (b =? 0x2a), (b =? 0xaa), (b >=? 0x80); cbn [shift held text]; try done.
  by rewrite app_assoc.
Qed.

Lemma hits_after l k t :
  foldl hit {| shift := shift k; held := held k; text := t ++ text k |} l =
  {| shift := shift (foldl hit k l); held := held (foldl hit k l); text := t ++ text (foldl hit k l) |}.
Proof.
  revert k. induction l as [|b l IH]; intros k; [done|]. cbn [foldl]. by rewrite hit_after, IH.
Qed.

Lemma hits_at_rest c t : typable c = true → foldl hit (at_rest t) (codes c) = at_rest (t ++ [c]).
Proof.
  intros (_&Hc&_)%typable_code. pose proof (hits_after (codes c) (at_rest []) t) as H.
  rewrite Hc in H. cbn in H. by rewrite app_nil_r in H.
Qed.

Section writes.
Context (write : list Z → Z → Z) (Hw : ∀ s c, write s c = 1).

Lemma writeit_ok {R} (fail : R) sc k s : writeit write fail sc k s = k (s ++ [sc]).
Proof. unfold writeit. by rewrite Hw. Qed.

Lemma send_char_codes c s :
  typable c = true → send_char_to_palacios_as_scancodes write c s = (0, s ++ codes c).
Proof.
  intros (Hc&_&k&Hk&Hs)%typable_code. unfold send_char_to_palacios_as_scancodes, codes. rewrite Hk.
  destruct (Z.ltb_spec c 0x80); [|lia]. destruct (Z.eqb_spec (scan_code k) 0); [done|]. cbn [andb].
  destruct (capital k =? 0) eqn:Hcap; rewrite !writeit_ok, ?Hcap, ?writeit_ok, <-!app_assoc; done.
Qed.
End writes.

Lemma shown_prints c : 32 ≤ shown c < 127.
Proof.
  unfold shown. cbv zeta. destruct (swrap 8 c =? 0).
  - destruct (_ || _) eqn:H; lia.
  - destruct (_ || _) eqn:H; [lia|]. apply orb_false_iff in H as [?%Z.ltb_ge H]. lia.
Qed.

Lemma handle_console_msg_inside maxx maxy ret m s :
  match handle_console_msg true maxx maxy ret m s with
  | None => uchar_at 0 m = 3 ∧ int_at 1 m < 0
  | Some (_, _, d) => Forall (inside maxx maxy) d
  end.
Proof.
  unfold handle_console_msg. destruct (negb (ret =? sizeof_cons_msg)); [constructor|]. cbv zeta.
  destruct (Z.eqb_spec (uchar_at 0 m) 1); [constructor|].
  destruct (Z.eqb_spec (uchar_at 0 m) 2).
  { unfold handle_char_set. cbv zeta.
    destruct (_ || _) eqn:Hin; [constructor|]. destruct (_ && _) eqn:Hco; [constructor|].
    cbn [mbind option_bind]. constructor; [|constructor]. cbn [inside].
    split; [lia|]. split; [lia|]. split; [intros [=]; lia|apply shown_prints]. }
  destruct (Z.eqb_spec (uchar_at 0 m) 3).
  { unfold handle_scroll. cbv zeta. destruct (Z.ltb_spec (int_at 1 m) 0); [done|].
    cbn [mbind option_bind]. by apply Forall_replicate. }
  destruct (uchar_at 0 m =? 4); [|destruct (uchar_at 0 m =? 5); constructor].
  unfold handle_update. destruct (_ && _) eqn:Hin; repeat constructor; cbn; lia.
Qed.

Lemma on_key_scr write KL KR KU KD uc maxx maxy r t :
  (on_round write KL KR KU KD uc maxx maxy r t).2.(drawn) = (on_msg uc maxx maxy r t).2.(drawn) ∧
  ((on_round write KL KR KU KD uc maxx maxy r t).1 = Aborted →
   (on_msg uc maxx maxy r t).1 = Aborted).
Proof.
  unfold on_round. destruct (on_msg uc maxx maxy r t) as [[|ret|] t']; [|done..].
  destruct (r_key r) as [[k k2]|]; [|done]. destruct (on_key _ _ _ _ _ _ _ _) as [ret l].
  split; [done|]. by destruct ret.
Qed.

(** ** The theorems *)


(** C29: The screen.  Whatever messages the enclave sends and keys arrive, every
    character is drawn inside of the window, not in its last corner, and is
    printable; the cursor is moved to a place of the window only; and the tool
    only aborts on a message that asks to scroll by a negative number. *)
Theorem screen_clipped write KL KR KU KD maxx maxy (rs : list round) (t : terminal) :
  Forall (inside maxx maxy) (drawn t) →
  let '(st, t') := cons_loop write KL KR KU KD true maxx maxy rs t in
  Forall (inside maxx maxy) (drawn t') ∧ (st = Aborted → Exists bad_scroll rs).
Proof.
  revert t. induction rs as [|r rs IH]; intros t Ht; cbn [cons_loop]; [done|].
  destruct (on_key_scr write KL KR KU KD true maxx maxy r t) as [Hd Hab].
  assert (Forall (inside maxx maxy) (drawn (on_msg true maxx maxy r t).2) ∧
    ((on_msg true maxx maxy r t).1 = Aborted → bad_scroll r)) as [Hm Hb].
  { unfold on_msg. destruct (r_msg r) as [[ret m]|] eqn:Hr; [|done].
    pose proof (handle_console_msg_inside maxx maxy ret m (scr t)) as Hin.
    destruct (handle_console_msg _ _ _ _ _ _) as [[[ret' s'] d]|]; cbn.
    - split; [by apply Forall_app|]. by case_test.
    - split; [done|]. intros _. by exists ret, m. }
  rewrite <-Hd in Hm. destruct (on_round _ _ _ _ _ _ _ _ r t) as [[|ret|] t'] eqn:He.
  - specialize (IH t' Hm). destruct (cons_loop _ _ _ _ _ _ _ _ rs t') as [st t''].
    destruct IH as [IH1 IH2]. split; [done|]. intros H. apply Exists_cons_tl. by apply IH2.
  - by split.
  - split; [done|]. intros _. apply Exists_cons_hd. auto.
Qed.

(** ** Witnesses *)

Definition no_screen : terminal := {| sent := []; scr := {| sx := 0; sy := 0; rows := 25; cols := 80 |}; drawn := [] |}.
Definition driver_write (_ : list Z) (c : Z) : Z := (console_write (λ _, false) [byte_of_Z c]).1.


(** A character at (2, 1), then one outside of the window. *)
Definition demo_msg (x y c : Z) : list byte := byte_of_Z 2 :: le 4 x ++ le 4 y ++ [byte_of_Z c; Byte.x00].
Definition demo_rounds : list round :=
  [{| r_msg := Some (11, demo_msg 2 1 65); r_key := None |};
   {| r_msg := Some (11, demo_msg (-5) 1 65); r_key := None |}].

Lemma screen_clipped_witness :
  let '(st, t') := cons_loop driver_write 260 261 259 258 true 79 24 demo_rounds no_screen in
  Forall (inside 79 24) (drawn t') ∧ (st = Aborted → Exists bad_scroll demo_rounds).
Proof.
  apply (screen_clipped driver_write 260 261 259 258 79 24 demo_rounds no_screen). constructor.
Defined.

Example demo_drawn :
  (cons_loop driver_write 260 261 259 258 true 79 24 demo_rounds no_screen).2.(drawn) = [AddCh 1 2 65].
Proof. vm_compute. reflexivity. Qed.
