(* ===== verification/Nosc.v ===== *)
(** * The terminal without scan codes ([linux_usr/v3_cons_nosc.c])

    The program began as a copy of [v3_cons_sc.c] ([Keys]): the functions that draw
    are still there, and are not called.  Keys are sent by control calls, over
    [Ctrl]; [select] and [getch] are arguments. *)
From S2P Require Import Prelude Text Trampoline Ctrl Cons Keys.
#[local] Open Scope Z_scope.
#[local] Open Scope list_scope.

(** ** The code: what is as in [v3_cons_sc.c] *)

Definition key_code := Keys.key_code.
Definition ascii_to_key_code : list key_code := Keys.ascii_to_key_code.

Definition console := Keys.screen.

Definition handle_char_set := Keys.handle_char_set.
Definition handle_curs_set := Keys.handle_curs_set.
Definition handle_scroll := Keys.handle_scroll.
Definition handle_text_resolution := Keys.handle_text_resolution.
Definition handle_update := Keys.handle_update.
Definition check_terminal_size := Keys.check_terminal_size.

(** A short message is an error here. *)
Definition handle_console_msg (use_curses : bool) (maxx maxy ret : Z) (m : list byte) (s : console)
    : option (Z * console * list draw) :=
  if negb (ret =? sizeof_cons_msg) then Some (-1, s, []) else
  let op := uchar_at 0 m in
  if op =? 1 then let '(_, s) := handle_curs_set use_curses m s in Some (0, s, [])
  else if op =? 2 then '(_, s, d) ← handle_char_set use_curses maxx maxy m s; Some (0, s, d)
  else if op =? 3 then '(_, s, d) ← handle_scroll use_curses m s; Some (0, s, d)
  else if op =? 4 then Some (0, s, handle_update use_curses maxx maxy s)
  else if op =? 5 then let '(_, s) := handle_text_resolution m s in Some (0, s, [])
  else Some (0, s, []).

(** ** The code: sending keys *)

Section nosc.
Context {S : Type} `{Trampoline.TrampolineOps S} (v : Ctrl.env).
#[local] Abbreviation enclave := (Ctrl.enclave S).

(** The code as a [char], in place of a pointer. *)
Definition writeit (c : Z) (e : enclave) : option (Z * enclave) :=
  '(ret, e) ← ctrl_ioctl v PISCES_CMD_VM_CONS_KEYCODE (u64 (swrap 8 c)) [] e;
  Some (if negb (ret =? 0) then -1 else 0, e).

(** The codes one after the other; what [writeit] returns is not looked at. *)
Fixpoint writes (l : list Z) (e : enclave) : option enclave :=
  match l with [] => Some e | c :: l => '(_, e) ← writeit c e; writes l e end.

Definition send_char_to_palacios_as_scancodes (c : Z) (e : enclave) : option (Z * enclave) :=
  e ← (if c <? 0x80 then
         match ascii_to_key_code !! Z.to_nat c with
         | None => Some e
         | Some k =>
             if (scan_code k =? 0) && (capital k =? 0) then Some e
             else writes ((if capital k =? 0 then [] else [0x2a]) ++
                          [scan_code k; Z.lor (scan_code k) 0x80] ++
                          (if capital k =? 0 then [] else [Z.lor 0x2a 0x80])) e
         end
       else Some e);
  Some (0, e).

Context (KEY_LEFT KEY_RIGHT KEY_UP KEY_DOWN : Z).

(** What a round of the loop finds: [select] returns 0 or -1, or there is a key,
    with what the next [getch] gives. *)
Inductive round := Zero | Failed | Key (key key2 : Z).

(** The value [main] returns when it ends. *)
Definition send (c : Z) (e : enclave) : option (option Z * enclave) :=
  '(ret, e) ← send_char_to_palacios_as_scancodes (u8 c) e;
  Some (if negb (ret =? 0) then Some (-1) else None, e).
Definition tap (sc : Z) (e : enclave) : option (option Z * enclave) :=
  e ← writes [sc; Z.lor sc 0x80] e; Some (None, e).
Definition on_key (key key2 : Z) (e : enclave) : option (option Z * enclave) :=
  if key =? 27 then
    if key2 =? 96 then Some (Some 0, e)
    else if key2 =? 27 then tap 0x01 e
    else
      e ← writes [0x1d] e;
      '(ret, e) ← send key2 e;
      match ret with
      | Some _ => Some (ret, e)
      | None => e ← writes [Z.lor 0x1d 0x80] e; Some (None, e)
      end
  else if key =? KEY_LEFT then tap 0x4B e
  else if key =? KEY_RIGHT then tap 0x4D e
  else if key =? KEY_UP then tap 0x48 e
  else if key =? KEY_DOWN then tap 0x50 e
  else send key e.

Fixpoint cons_loop (rs : list round) (e : enclave) : option (status * enclave) :=
  match rs with
  | [] => Some (Running, e)
  | Zero :: rs => cons_loop rs e
  | Failed :: _ => Some (Exit (-1), e)
  | Key key key2 :: rs =>
      '(ret, e) ← on_key key key2 e;
      match ret with Some r => Some (Exit r, e) | None => cons_loop rs e end
  end.

(** [argc] counts the name of the program; [win_ok] says that curses started. *)
Definition main (argc n_cols n_rows ctrl_fd : Z) (win_ok : bool) (rs : list round) (e : enclave)
    : option (status * enclave) :=
  if argc <? 3 then Some (Exit (-1), e) else
  if negb (check_terminal_size n_cols n_rows =? 0) then Some (Exit (-1), e) else
  if ctrl_fd <? 0 then Some (Exit (-1), e) else
  if negb win_ok then Some (Exit (-1), e) else
  cons_loop rs e.

(** ** What it does *)

(** [ctrl_ioctl] has no case for that command. *)
Lemma writeit_refused c e : writeit c e = Some (-1, e).
Proof using. unfold writeit, ctrl_ioctl. by destruct (running e). Qed.

Lemma writes_nothing l e : writes l e = Some e.
Proof using. induction l as [|c l IH]; [done|]. cbn [writes]. by rewrite writeit_refused. Qed.

Lemma send_nothing c e : send c e = Some (None, e).
Proof using.
  unfold send, send_char_to_palacios_as_scancodes. destruct (u8 c <? 0x80); [|done].
  destruct (ascii_to_key_code !! Z.to_nat (u8 c)) as [k|]; [|done].
  destruct ((scan_code k =? 0) && (capital k =? 0)); [done|]. by rewrite writes_nothing.
Qed.

Lemma on_key_nothing key key2 e :
  on_key key key2 e = Some (if (key =? 27) && (key2 =? 96) then Some 0 else None, e).
Proof using.
  unfold on_key, tap. destruct (key =? 27); cbn [andb].
  - destruct (key2 =? 96); [done|]. destruct (key2 =? 27); rewrite !writes_nothing; [done|]. cbn [mbind option_bind].
    rewrite send_nothing. cbn [mbind option_bind]. by rewrite writes_nothing.
  - repeat (case_test; [by rewrite writes_nothing|]). by rewrite send_nothing.
Qed.

(** How the program ends: an escape and a backquote, or a [select] that fails. *)
Fixpoint ends (rs : list round) : status :=
  match rs with
  | [] => Running
  | Zero :: rs => ends rs
  | Failed :: _ => Exit (-1)
  | Key key key2 :: rs => if (key =? 27) && (key2 =? 96) then Exit 0 else ends rs
  end.

(** Whatever is typed, no key arrives and nothing is sent to the enclave; the
    program does not notice. *)
Lemma nosc_sends_nothing rs e : cons_loop rs e = Some (ends rs, e).
Proof using.
  induction rs as [|[| |key key2] rs IH]; cbn [cons_loop ends]; [done..|].
  rewrite on_key_nothing. cbn [mbind option_bind]. by destruct ((key =? 27) && (key2 =? 96)).
Qed.
End nosc.
