(* ===== verification/VmTools.v ===== *)
(** * The remaining tools ([linux_usr/v3_launch.c], [v3_stop.c], [v3_free.c],
    [v3_dbg.c], [pisces_cons.c], [pisces_load_file.c])

    Small programs around one request.  [Undefined] is a NULL argument read,
    [Minus1] a return of -1.  What the requests return, and what [read] gives,
    are arguments; the requests made are listed. *)
From S2P Require Import Prelude Text Teardown Ctrl Options.
#[local] Open Scope Z_scope.
#[local] Open Scope list_scope.

(** ** The code: a virtual machine is launched, stopped or freed *)

Inductive vm_event := VmConnect | VmRequest (cmd arg : Z) | VmDebug (spec : list byte) | VmClose.

(** The three programs differ in [cmd]; [argv] are the arguments after the
    program's name.  The machine's number is read before they are counted.  A
    refused request leaves the descriptor to the end of the process. *)
Definition vm_main (cmd : Z) (argv : list (list Z)) (ctrl_fd ioctl_ret : Z) : result (Z * list vm_event) :=
  match argv with
  | _ :: vm_id :: _ =>
      let vm_id := u64 (atoi vm_id) in
      Ret (if ctrl_fd <? 0 then (-1, [VmConnect])
           else if negb (ioctl_ret =? 0) then (-1, [VmConnect; VmRequest cmd vm_id])
           else (0, [VmConnect; VmRequest cmd vm_id; VmClose]))
  | _ => Undefined
  end.

Definition v3_launch_main := vm_main PISCES_CMD_LAUNCH_VM.
Definition v3_stop_main := vm_main PISCES_CMD_STOP_VM.
Definition v3_free_main := vm_main PISCES_CMD_FREE_VM.

(** ** The code: debugging a virtual machine *)

Definition PRINT_TELEMETRY : Z := 0x00000001.
Definition PRINT_CORE_STATE : Z := 0x00000002.
Definition PRINT_ARCH_STATE : Z := 0x00000004.
Definition PRINT_STACK : Z := 0x00000008.
Definition PRINT_BACKTRACE : Z := 0x00000010.
Definition CLEAR_COUNTERS : Z := 0x40000000.
Definition SINGLE_EXIT_MODE : Z := 0x80000000.

(** The option string given to [getopt]; for another letter it returns ['?']. *)
Definition dbg_options : list Z := chars "tcasbS".
Definition getopt (c : Z) : Z := if bool_decide (c ∈ dbg_options) then c else 63.

Definition dbg_flag (c : Z) : Z :=
  if c =? 116 then PRINT_TELEMETRY else if c =? 99 then PRINT_CORE_STATE
  else if c =? 97 then PRINT_ARCH_STATE else if c =? 115 then PRINT_STACK
  else if c =? 98 then PRINT_BACKTRACE else if c =? 67 then CLEAR_COUNTERS
  else if c =? 83 then SINGLE_EXIT_MODE else 0.
Definition dbg_cmd (options : list Z) : Z := foldl (λ cmd c, Z.lor cmd (dbg_flag (getopt c))) 0 options.

(** [options]: the letters given; [argv]: the arguments that are left.  The code
    adds the options to the arguments it counts. *)
Definition dbg_main (options : list Z) (argv : list (list Z)) (ctrl_fd ioctl_ret : Z)
  : result (Z * list vm_event) :=
  if zlen argv + zlen options <? 3 then Minus1 else
  match argv with
  | _ :: vm_id :: rest =>
      let core := match rest with [] => -1 | core :: _ => atoi core end in
      let spec := le 4 (atoi vm_id) ++ le 4 core ++ le 4 (dbg_cmd options) in
      Ret (if ctrl_fd <? 0 then (-1, [VmConnect])
           else (if negb (ioctl_ret =? 0) then -1 else 0, [VmConnect; VmDebug spec]))
  | _ => Undefined
  end.

(** The whole command line; a letter that is not known counts as an option too. *)
Definition dbg_command (argv : list (list Z)) (ctrl_fd ioctl_ret : Z) : result (Z * list vm_event) :=
  let '(os, args) := getopt_long false dbg_options [] argv in
  dbg_main ((λ o, match o with Opt c _ _ => c | Bad => 63 end) <$> os) args ctrl_fd ioctl_ret.

(** ** The code: the console *)

(** The loop of [pisces_cons]: what the successive [read]s return, with the bytes
    they store; [printf] stops at a zero.  What was printed, and the value
    returned, [None] while it waits for the next [read]. *)
Fixpoint cons_read_loop (reads : list (Z * list Z)) (out : list Z) : option Z * list Z :=
  match reads with
  | [] => (None, out)
  | (bytes_read, inbuf) :: reads =>
      if bytes_read =? -1 then (Some (-1), out)
      else if bytes_read =? 0 then (Some 0, out)
      else cons_read_loop reads (out ++ (span (λ c, negb (c =? 0)) (take (Z.to_nat bytes_read) inbuf)).1)
  end.
Definition cons_main (argc cons_fd : Z) (reads : list (Z * list Z)) : option Z * list Z :=
  if argc <? 2 then (Some (-1), []) else
  if cons_fd <? 0 then (Some (-1), []) else cons_read_loop reads [].

(** ** Properties *)

(** The options' order and repetitions do not matter, and [-C], which the usage
    message offers, is not in the option string: it does nothing. *)
Lemma dbg_cmd_bits options i :
  0 ≤ i → Z.testbit (dbg_cmd options) i = existsb (λ c, Z.testbit (dbg_flag (getopt c)) i) options.
Proof.
  intros Hi. unfold dbg_cmd. enough (∀ a, Z.testbit (foldl (λ cmd c, Z.lor cmd (dbg_flag (getopt c))) a options) i =
    Z.testbit a i || existsb (λ c, Z.testbit (dbg_flag (getopt c)) i) options) as H by (by rewrite H, Z.testbit_0_l).
  induction options as [|c l IH]; intros a; cbn [foldl existsb]; [by rewrite orb_false_r|].
  by rewrite IH, Z.lor_spec, orb_assoc.
Qed.

Lemma dbg_clear_ignored : dbg_cmd (chars "C") = 0.
Proof. reflexivity. Qed.

(** Bytes without zeros are printed as they come, whatever the sizes of the reads. *)
Lemma cons_prints_all reads out :
  Forall (λ r : Z * list Z, 0 < r.1 ∧ r.1 = zlen r.2 ∧ 0 ∉ r.2) reads →
  cons_read_loop reads out = (None, out ++ concat (snd <$> reads)).
Proof.
  intros Hr. revert out. induction Hr as [|[n b] reads (Hn&Hl&H0) Hr IH]; intros out; cbn [cons_read_loop].
  - by rewrite app_nil_r.
  - cbn in Hn, Hl, H0. destruct (Z.eqb_spec n (-1)), (Z.eqb_spec n 0); try lia.
    rewrite IH. cbn [fmap list_fmap concat]. rewrite <-app_assoc. do 3 f_equal.
    rewrite take_ge by lia. clear -H0. induction b as [|c b IH]; [done|].
    apply not_elem_of_cons in H0 as [Hc H0]. cbn [span]. destruct (Z.eqb_spec c 0); [congruence|]. cbn [negb].
    destruct (span _ b) as [x y]. cbn in *. by rewrite IH.
Qed.
