(* ===== verification/Xpmem.v ===== *)
(** * The XPMEM channel ([src/pisces_xpmem.c])

    With [USING_XPMEM], commands pass between an enclave and an XPMEM driver, which
    is not part of the repository: what it answers is an argument, and what it is
    asked is listed. *)
From S2P Require Import Prelude.
#[local] Open Scope Z_scope.
#[local] Open Scope list_scope.

Definition sizeof_pisces_lcall : Z := 8 + 4.

Inductive xpmem_event :=
  | Complete (status : Z)                       (* pisces_xbuf_complete *)
  | CmdDeliver (link : Z) (cmd : list byte) | PutLinkData (link : Z)
  | XbufSend (cmd : list byte) | SendIpi (vector : Z)
  | ClientInit | ClientDeinit | AddConnection | RemoveConnection (link : Z).

(** ** The code *)

(** [link_data]: whether [xpmem_get_link_data] finds the channel; the command's
    bytes follow the call's header.  [None] is a read past the message. *)
Definition pisces_xpmem_cmd_lcall (sizeof_cmd link : Z) (link_data : bool) (lcall : list byte)
  : option (Z * list xpmem_event) :=
  if negb link_data then Some (0, [Complete (u64 (-1))]) else
  cmd ← slice lcall sizeof_pisces_lcall sizeof_cmd;
  Some (0, [Complete 0; CmdDeliver link cmd; PutLinkData link]).

(** The three functions the driver calls. *)
Definition xpmem_cmd_fn (send_ret : Z) (cmd : list byte) : Z * list xpmem_event := (send_ret, [XbufSend cmd]).
Definition xpmem_segid_fn (sig_vector : Z) : Z * list xpmem_event := (0, [SendIpi sig_vector]).
Definition xpmem_kill_fn : list xpmem_event := [ClientDeinit].

Definition pisces_xpmem_init (xbuf_ok : bool) (link : Z) : Z * list xpmem_event :=
  if negb xbuf_ok then (-1, []) else
  if link <=? 0 then (-1, [ClientInit; AddConnection]) else (0, [ClientInit; AddConnection]).

(** The driver kills a connection that is removed. *)
Definition pisces_xpmem_deinit (link : Z) : Z * list xpmem_event :=
  (0, RemoveConnection link :: xpmem_kill_fn).

(** ** Properties *)

(** A command is delivered exactly when its call is answered with 0, after the
    answer, with the link's data given back. *)
Lemma xpmem_cmd_delivered n link ok lcall ev :
  pisces_xpmem_cmd_lcall n link ok lcall = Some (0, ev) →
  (ok = true → ∃ cmd, zlen cmd = n ∧ ev = [Complete 0; CmdDeliver link cmd; PutLinkData link]) ∧
  (ok = false → ev = [Complete (2 ^ 64 - 1)]).
Proof.
  unfold pisces_xpmem_cmd_lcall. destruct ok; cbn [negb].
  - destruct (slice _ _ _) as [cmd|] eqn:Hs; [|done]. intros [= <-]. split; [|done]. intros _.
    exists cmd. by split; [apply slice_length in Hs|].
  - intros [= <-]. by split.
Qed.

(** A connection that the driver refuses leaves the message buffer's client behind. *)
Lemma xpmem_init_leaks link : link ≤ 0 → pisces_xpmem_init true link = (-1, [ClientInit; AddConnection]).
Proof. intros. unfold pisces_xpmem_init. destruct (Z.leb_spec link 0); [done|lia]. Qed.
