(* ===== verification/Gemini.v ===== *)
(** * Taking memory off line, an older tool ([bak/linux_usr.bak/gemini_mem_rm.c])

    It looks for a number of consecutive memory blocks that are removable and on
    line, and takes them off line.  The files of [/sys] are arguments: what they
    hold, after the blocks that were written [offline] so far (the trace).  [None] is an
    access outside of an object. *)
From stdpp Require Import sorting.
From S2P Require Import Prelude Text.
From stdpp Require Import list.
#[local] Open Scope Z_scope.
#[local] Open Scope list_scope.

Section gemini.

(** The file's content: [None] when it cannot be opened, empty when the read fails; and
    whether it can be opened for writing; the names in the directory. *)
Context (content : list Z → list Z → option (list Z)) (writable : list Z → list Z → bool) (names : list (list Z)).

(** ** The code *)

Definition SYS_PATH : list Z := chars "/sys/devices/system/memory/".
Definition BUF_SIZE : nat := 128.
Definition OFFLINE : Z := 1.
Definition ONLINE : Z := 0.

Definition dir_filter (d_name : list Z) : bool := if strip_prefix (chars "memory") d_name then true else false.
Definition dir_cmp (dir1 dir2 : list Z) : Z := s32 (atoi (drop 6 dir1) - atoi (drop 6 dir2)).

Definition dir_le (dir1 dir2 : list Z) : Prop := dir_cmp dir1 dir2 ≤ 0.
#[local] Instance dir_le_dec : RelDecision dir_le.
Proof. intros a b. unfold dir_le. apply _. Defined.

Definition state_file (index : Z) : list Z := SYS_PATH ++ chars "memory" ++ pct_d index ++ chars "/state".

(** The value returned and the trace. *)
Definition offline_block (index : Z) (tr : list Z) : Z * list Z :=
  let fname := take 255 (state_file index) in
  if negb (writable tr fname) then (-1, tr) else (0, tr ++ [index]).

Definition get_block_status (index : Z) (tr : list Z) : Z :=
  let fname := take (BUF_SIZE - 1) (state_file index) in
  match content tr fname with
  | None | Some [] => -1
  | Some status_buf =>
      if strip_prefix (chars "offline") status_buf then OFFLINE
      else if strip_prefix (chars "online") status_buf then ONLINE
      else -1
  end.

(** The bit of a block: [bitmap[b / 8] & (0x1 << (b % 8))]. *)
Definition bit (bitmap : list Z) (b : Z) : option bool :=
  if b <? 0 then None else byte ← bitmap !! Z.to_nat (b / 8); Some (negb (Z.land byte (Z.shiftl 1 (b mod 8)) =? 0)).
Definition set_bit (bitmap : list Z) (b : Z) : option (list Z) :=
  if b <? 0 then None else
  byte ← bitmap !! Z.to_nat (b / 8); Some (<[Z.to_nat (b / 8) := u8 (Z.lor byte (Z.shiftl 1 (b mod 8)))]> bitmap).

Inductive scanned := Bitmap (bitmap : list Z) | ReadError.

(** The loop over the directories, [while j < bitmap_entries - 1]. *)
Fixpoint scan (entries : Z) (namelist : list (list Z)) (j : Z) (bitmap : list Z) : option scanned :=
  if negb (j <? entries - 1) then Some (Bitmap bitmap) else
  match namelist with
  | [] => None
  | tmp_dir :: namelist =>
      let fname := take (BUF_SIZE - 1) (SYS_PATH ++ tmp_dir ++ chars "/removable") in
      let j := atoi (drop 6 tmp_dir) in
      match content [] fname with
      | None => scan entries namelist j bitmap
      | Some [] => Some ReadError
      | Some status_str =>
          if (atoi status_str =? 1) && (get_block_status j [] =? ONLINE)
          then bitmap ← set_bit bitmap j; scan entries namelist j bitmap
          else scan entries namelist j bitmap
      end
  end.

(** [while (j < num_blocks)]: how far the run from block [i] goes; [n] is [num_blocks - j]. *)
Fixpoint run_length (bitmap : list Z) (i j : Z) (n : nat) : option Z :=
  match n with
  | O => Some j
  | S n => b ← bit bitmap (i + j); if (b : bool) then run_length bitmap i (j + 1) n else Some j
  end.

(** [for (i = 0; i <= bitmap_entries; i++)]: the first block of the run; [fuel] is what is left. *)
Fixpoint find_run (bitmap : list Z) (num_blocks i : Z) (fuel : nat) : option Z :=
  match fuel with
  | O => Some i
  | S fuel => j ← run_length bitmap i 0 (Z.to_nat num_blocks);
              if j =? num_blocks then Some i else find_run bitmap num_blocks (i + 1) fuel
  end.

(** [for (; i < bitmap_entries; i++)]; [fuel] is what is left. *)
Fixpoint offline_loop (bitmap : list Z) (num_blocks i cur_idx : Z) (fuel : nat) (tr : list Z) : option (list Z) :=
  match fuel with
  | O => Some tr
  | S fuel =>
      b ← bit bitmap i;
      if (b : bool) then
        let '(ret, tr) := offline_block i tr in
        if ret =? -1 then Some tr else
        let cur_idx := if get_block_status i tr =? OFFLINE then cur_idx + 1 else cur_idx in
        if cur_idx >=? num_blocks then Some tr else offline_loop bitmap num_blocks (i + 1) cur_idx fuel tr
      else if cur_idx >=? num_blocks then Some tr else offline_loop bitmap num_blocks (i + 1) cur_idx fuel tr
  end.

Definition offline_blocks (bitmap : list Z) (entries num_blocks : Z) : option (list Z) :=
  i ← find_run bitmap num_blocks 0 (Z.to_nat (entries + 1));
  if i <=? entries then offline_loop bitmap num_blocks i 0 (Z.to_nat (entries - i)) [] else Some [].

(** The value returned and the blocks written to. *)
Definition main (argv : list (list Z)) : option (Z * list Z) :=
  match argv with
  | [_; n] =>
      let num_blocks := s32 (strtol 10 n).1 in
      match content [] (SYS_PATH ++ chars "block_size_bytes") with
      | None | Some [] => Some (-1, [])
      | Some _ =>
          let namelist := merge_sort dir_le (filter (λ d, dir_filter d = true) names) in
          last_dir ← last namelist;
          let entries := s32 (atoi (drop 6 last_dir) + 1) in
          let size := entries / 8 + (if negb (entries mod 8 =? 0) then 1 else 0) in
          r ← scan entries namelist 0 (replicate (Z.to_nat size) 0);
          match r with
          | ReadError => Some (-1, [])
          | Bitmap bitmap => tr ← offline_blocks bitmap entries num_blocks; Some (0, tr)
          end
      end
  | _ => Some (-1, [])
  end.
End gemini.

(** ** Lemmas *)

Definition held (bitmap : list Z) (b : Z) : Prop := bit bitmap b = Some true.

Lemma run_length_spec bitmap i j n k :
  0 ≤ j → run_length bitmap i j n = Some k →
  j ≤ k ≤ j + Z.of_nat n ∧ (∀ b, j ≤ b < k → held bitmap (i + b)) ∧
  (k < j + Z.of_nat n → bit bitmap (i + k) = Some false).
Proof.
  revert j. induction n as [|n IH]; intros j Hj; cbn [run_length].
  - intros [= <-]. split; [lia|]. split; lia.
  - destruct (bit bitmap (i + j)) as [[]|] eqn:E; [|intros [= <-]|done]; cbn [mbind option_bind].
    + intros (H1&H2&H3)%IH; [|lia]. split; [lia|]. split.
      * intros b Hb. destruct (decide (b = j)) as [->|]; [done|]. apply H2. lia.
      * intros. apply H3. lia.
    + split; [lia|]. split; [lia|done].
Qed.

Lemma find_run_spec bitmap n i fuel k :
  0 < n → find_run bitmap n i fuel = Some k →
  i ≤ k ≤ i + Z.of_nat fuel ∧ (k < i + Z.of_nat fuel → ∀ b, 0 ≤ b < n → held bitmap (k + b)) ∧
  ∀ k', i ≤ k' < k → ∃ b, 0 ≤ b < n ∧ bit bitmap (k' + b) = Some false.
Proof.
  intros Hn. revert i. induction fuel as [|fuel IH]; intros i; cbn [find_run].
  - intros [= <-]. split; [lia|]. split; lia.
  - destruct (run_length bitmap i 0 (Z.to_nat n)) as [j|] eqn:E; [|done]. cbn [mbind option_bind].
    apply run_length_spec in E as (H1&H2&H3); [|done]. destruct (Z.eqb_spec j n) as [->|Hne].
    + intros [= <-]. split; [lia|]. split; [by intros _ b Hb; apply H2|lia].
    + intros (H4&H5&H6)%IH. split; [lia|]. split; [intros; apply H5; lia|]. intros k' Hk'.
      destruct (decide (k' = i)) as [->|]; [|apply H6; lia]. exists j. split; [lia|]. apply H3. lia.
Qed.

(** *** A run that is found *)

(** When every block obeys, exactly the run is taken, in order. *)
Definition obeys (content : list Z → list Z → option (list Z)) (writable : list Z → list Z → bool) : Prop :=
  ∀ b tr, writable tr (take 255 (state_file b)) = true ∧ get_block_status content b (tr ++ [b]) = OFFLINE.

Lemma offline_loop_run content writable bitmap num i cur fuel tr :
  obeys content writable → 0 ≤ cur < num → num - cur ≤ Z.of_nat fuel → (∀ b, 0 ≤ b < num - cur → held bitmap (i + b)) →
  offline_loop content writable bitmap num i cur fuel tr = Some (tr ++ seqZ i (num - cur)).
Proof.
  intros Ho. revert i cur tr. induction fuel as [|fuel IH]; intros i cur tr Hc Hf Hb; [lia|]. cbn [offline_loop].
  pose proof (Hb 0 ltac:(lia)) as Hi. unfold held in Hi. rewrite Z.add_0_r in Hi. rewrite Hi. cbn [mbind option_bind].
  unfold offline_block. destruct (Ho i tr) as [-> Hs]. cbn [negb Z.eqb]. rewrite Hs, Z.eqb_refl.
  rewrite (seqZ_cons i) by lia. destruct (Z.geb_spec (cur + 1) num).
  - by replace (Z.pred (num - cur)) with 0 by lia.
  - rewrite IH; [|lia|lia|].
    + rewrite <-app_assoc. do 2 f_equal. cbn. do 2 f_equal; lia.
    + intros b Hb'. replace (i + 1 + b) with (i + (b + 1)) by lia. apply Hb. lia.
Qed.

(** The blocks taken are the first run of blocks that the scan found removable and on line. *)
Lemma offline_blocks_first_run content writable bitmap entries num k :
  obeys content writable → 0 < num → find_run bitmap num 0 (Z.to_nat (entries + 1)) = Some k → k + num ≤ entries →
  offline_blocks content writable bitmap entries num = Some (seqZ k num) ∧ (∀ b, k ≤ b < k + num → held bitmap b) ∧
  ∀ k', 0 ≤ k' < k → ∃ b, 0 ≤ b < num ∧ bit bitmap (k' + b) = Some false.
Proof.
  intros Ho Hn Hk Hfit. pose proof (find_run_spec _ _ _ _ _ Hn Hk) as (H1&H2&H3).
  assert (∀ b, 0 ≤ b < num → held bitmap (k + b)) as Hrun by (apply H2; lia). unfold offline_blocks. rewrite Hk.
  cbn [mbind option_bind]. destruct (Z.leb_spec k entries); [|lia]. split.
  - rewrite (offline_loop_run _ _ _ num k 0); [by rewrite Z.sub_0_r|done|lia|lia|]. intros b Hb. apply Hrun. lia.
  - split; [|done]. intros b Hb. replace b with (k + (b - k)) by lia. apply Hrun. lia.
Qed.

(** When there is no run and the number of blocks is a multiple of 8, the search reads behind
    the bitmap. *)
Lemma find_run_overreads (bitmap : list Z) num :
  0 < num → (∀ b, 0 ≤ b < 8 * zlen bitmap → bit bitmap b = Some false) →
  find_run bitmap num 0 (Z.to_nat (8 * zlen bitmap + 1)) = None.
Proof.
  intros Hn Hb. assert (∀ fuel i, 0 ≤ i → i + Z.of_nat fuel = 8 * zlen bitmap + 1 → (0 < fuel)%nat →
    find_run bitmap num i fuel = None) as H; [|by apply H; lia].
  intros fuel. induction fuel as [|fuel IH]; intros i Hi Hf Hp; [lia|]. cbn [find_run].
  destruct (Z.to_nat num) as [|n] eqn:En; [lia|]. cbn [run_length]. rewrite Z.add_0_r.
  destruct (decide (i = 8 * zlen bitmap)) as [->|].
  - unfold bit. destruct (Z.ltb_spec (8 * zlen bitmap) 0); [done|].
    rewrite Z.mul_comm, Z.div_mul, Nat2Z.id by done. by rewrite (lookup_ge_None_2 bitmap).
  - rewrite Hb by lia. cbn [mbind option_bind]. destruct (Z.eqb_spec 0 num); [lia|]. apply IH; lia.
Qed.

(** Asking for no block takes one. *)
Example no_block_takes_one :
  let content tr f := if decide (f = state_file 0) then Some (chars (if decide (tr = []) then "online" else "offline")) else None in
  offline_blocks content (λ _ _, true) [5] 3 0 = Some [0].
Proof. reflexivity. Qed.
